(* ===== verification/_CoqProject ===== *)
-Q . S2P
Prelude.v
ModbusTcp.v
Protocol.v
Transport.v
SharedSocket.v
CppString.v
Config.v
AdminCommandParser.v
Message.v
ClientCommands.v
CommandQueue.v
FileLogger.v
Sockets.v
Interleaving.v
ClientRegistry.v
ServerHandlers.v
ServerViewModel.v
ServerLoop.v
ChatService.v
ServerRefines.v
ServerThreads.v
PeerKeyStore.v
Cipher.v
ClientViewModel.v
ClientFacts.v
ClientRun.v
ClientSignals.v
ClientThreads.v
ClientThreadFacts.v
EndToEnd.v
Conversation.v
Views.v
Main.v
