(* ===== verification/Prelude.v ===== *)
(** * A chat over Modbus-TCP, verified

    The program is a chat: a server and clients that talk to it over TCP.
    Application messages travel as Modbus-TCP frames; chat texts are encrypted
    between clients, and the server only relays them.  This development models the
    code under src/common, src/server and src/client and proves what makes it
    correct.  This file is the prelude: bytes and machine words, the outcome of
    C++ code (a value, an exception, undefined behaviour), the state monad [SM]
    with exceptions, the program logic [wp] and its rules, and the lemmas, tactics
    and hints (database [chat]) that the other files share.

    ** The parts, their files, the code

    - ModbusTcp (common/ModbusTcp): frames, [encode], [decode], and reading and
      writing frames on a socket.  A socket is a stream of bytes and a script of
      what each system call does (how many bytes, an interruption, an error, the
      end of the stream), so every way in which the kernel can cut the stream is
      covered.
    - Protocol (common/Protocol): the fourteen message types, their payloads,
      encoders and decoders.
    - Transport (common/transport/ModbusMessageTransport): [send] and [receive].
    - SharedSocket (the loop of [write_exact] in common/ModbusTcp): several threads
      that send on one socket, one step per call of [::send].
    - CppString: the parts of std::string, std::stoul, std::stoi, std::getline and
      std::to_string that the code uses.
    - Config (common/Config, client/StartupProgress): configuration files.
    - AdminCommandParser (server/viewmodel/AdminCommandParser), Message
      (common/Message), ClientCommands (client/viewmodel/InputCommandParser and
      OutgoingMessageBuilder): parsers and builders.
    - CommandQueue (common/concurrency/QueuedCommandExecutor) and FileLogger
      (common/logging/FileLogger): the two queues with a worker thread, as
      labelled steps: one per critical section, notification, wake-up and piece of
      work outside the lock.
    - Sockets (server/transport/TcpListenSocket, client/transport/
      TcpClientConnector): opening and closing, the system calls' results given.
    - Interleaving: programs of atomic actions with a mutex, their interleavings,
      and the rule (an invariant, and for every thread what it may assume and must
      keep) with which theorems about all interleavings are proved.
    - ClientRegistry (server/model/ClientRegistry): the registry; the class
      [IClientRegistry] is the C++ interface, [RegistryLaws] what it promises, and
      the handlers are verified against these laws.
    - ServerHandlers (server/viewmodel/handlers, MessageDispatcher,
      PresenceBroadcaster, ServerContext), ServerViewModel (the class of that name:
      ids, bans, clients, the poll loop), ServerLoop (its theorems).
    - ChatService: what the server promises, an abstract chat room with members, bans
      and a rule for every input (a connection, its end, data from it, a console
      line, a request to stop); ServerRefines: the server implements it.
    - ServerThreads (server/main): [main], the console thread and signal handlers,
      one step per access to [g_server], call through it and turn of the poll loop.
    - PeerKeyStore and Cipher (common/crypto): key store, cipher, key store file.
      The vendored Monocypher library is the class [Monocypher] with the laws of
      its documentation in [MonocypherLaws]; [IMessageCipher] and [CipherLaws] are
      the interface that the client is verified against, and
      [MonocypherMessageCipher] is proved to satisfy it.
    - ClientViewModel (client/viewmodel/ClientViewModel, IncomingMessagePresenter,
      client/model/ClientSession), ClientFacts (its theorems), ClientRun (run, the
      two loops interleaved, the destructor).
    - ClientThreads: the operations of ClientViewModel once more, as programs of
      single accesses for Interleaving ([input_line_] for [input_line] and so on),
      and the proof that run alone they are the same; ClientThreadFacts (their
      theorems).
    - ClientSignals (client/main): [main], the life of [g_client_vm] and the signal
      handler on each of the process's threads, one step per statement, turn, test
      of the pointer and call.
    - EndToEnd: two clients and the server together; Conversation: many texts,
      through the bytes of both connections.
    - Views (client/view, server/view): commands, queued view, printed text.
    - Main (server/Server, server/main, client/main): the two programs.

    State is a record with the members of the C++ class; what the code does to the
    outside (messages sent, descriptors closed, calls of the view, log lines) is
    recorded in order in a field of the state; what the outside answers is an
    input or part of the state.  An exception keeps the changes made before it.
    Reading out of bounds, an invalid iterator range and locking a mutex twice are
    the outcome [UB], and the theorems show that it does not occur.

    ** What the theorems show

    - Wire format: encoding and decoding are inverse to each other; decoding never
      has undefined behaviour behind [read_frame] and always gives a well-formed
      message; messages arrive as sent however the stream is cut; where the 16-bit
      length wraps and where [decode] alone has undefined behaviour.
    - Server: whatever happens outside, all that the server does to it is what the
      abstract chat room puts out for the same inputs in the same order, and nothing
      that it relays is made up or goes to anyone but those it is meant for; the
      registry refines one finite map; relaying, registration, accepting, removing
      and banning do exactly what they should; ids are allocated without clashes or bans; an invariant
      holds in every reachable state; [run] has no undefined behaviour
      whatever clients send, and throws only when [poll] fails.
    - Client: nothing typed leaves in the clear; every message and every line is
      handled without undefined behaviour or deadlock; when the process ends the
      socket that was opened has been closed, once, and the exit status is 0, or 1
      with a line that says why; the keys survive a restart.
    - Threads: however the client's two threads and its signal handlers are
      interleaved there is no undefined behaviour or deadlock, what is sent is still
      encrypted, nobody is offered the key twice and the exit is announced once; the
      server's invariant holds under all interleavings with the console thread and signals; what goes wrong when
      [::send] takes a part of a message while another thread sends; that signals
      find the client and the server they are for as long as these run, and what can
      go wrong at the end of either [main].
    - Both: the texts one user types for another are shown to the addressee, in
      order and once each, and to nobody else; the few texts that the client accepts
      although their frames are too long are lost; the exchange
      of keys, and how it goes wrong when ids are reused or both sides already have
      a room key.
    - Queues: after [stop] every accepted command or log entry has been handled, in
      order, under every schedule, and the threads end.
    - Parsers and files: round trips, the grammar of the lines that the user types, and
      on which of them an exception comes out.

    ** Fuel and bounds

    Loops over the socket scripts recurse on the script; [skip_banned] has as much
    fuel as there are banned ids plus one, which [allocate_spec] shows is enough;
    [in_loop_fuel] is twice the number of entries plus one, as a turn accepts at
    most one client per listening entry; [to_string] has fuel for 20 digits, the
    length of the largest 64-bit number.  [serve] and [converse] recurse on the
    list of what happens outside, so theorems about them hold for every finite
    prefix of an execution.  Texts are bounded by 65495 bytes where they have to
    fit a string once encrypted, by 65481 where their frame has to fit too, and
    console lines by [line_ok].

    ** Not modelled

    The Monocypher library itself (vendored, a parameter), wiping of memory,
    failures of the disk under the log, and the code of the tests and benchmarks.
    Accesses to shared data are atomic in the models of the threads, also those to
    the plain pointers [g_server] and [g_client_vm]; the C++ memory model is left
    out.  A signal handler runs between two turns of the server's poll loop, while
    [poll] waits or before the loop comes to an entry, which is also where it is when
    [receive] waits; that it interrupts a change of the registry half-way, which it
    can in the code, is not modelled. *)
From Stdlib Require Import ZArith Lia.
From Stdlib Require Strings.Byte.
From stdpp Require Export base tactics list list_numbers gmap strings sorting.

#[global] Open Scope Z_scope.

(** ** Bytes, machine words *)

Abbreviation byte := Byte.byte.
Abbreviation bytes := (list Byte.byte).

#[global] Instance byte_eq_dec : EqDecision byte := Byte.byte_eq_dec.

#[global] Program Instance byte_countable : Countable byte :=
  inj_countable Byte.to_N Byte.of_N _.
Next Obligation. intros b. apply Byte.of_to_N. Qed.

(** The value of a [uint8_t]. *)
Definition u8 (b : byte) : Z := Z.of_N (Byte.to_N b).

(** [static_cast<uint8_t>(z)]. *)
Definition to_u8 (z : Z) : byte :=
  match Byte.of_N (Z.to_N (z mod 256)) with Some b => b | None => Byte.x00 end.

(** [static_cast<uint16_t>(z)] and [static_cast<uint32_t>(z)]. *)
Definition to_u16 (z : Z) : Z := z mod 65536.
Definition to_u32 (z : Z) : Z := z mod 4294967296.

Definition is_u16 (z : Z) : Prop := 0 <= z < 65536.
Definition is_u32 (z : Z) : Prop := 0 <= z < 4294967296.

(** [v.size()] *)
Abbreviation size_t l := (Z.of_nat (length l)).

(** A C++ string literal. *)
Definition str (s : string) : bytes := String.list_byte_of_string s.

(** ** Exceptions and undefined behaviour *)

(** What a C++ expression can throw; all of them derive from [std::exception]. *)
Inductive exn :=
| runtime_error (what : bytes)
| CipherError (what : bytes)
| invalid_argument (what : bytes)
| out_of_range (what : bytes)
| bad_variant_access.

#[global] Instance exn_eq_dec : EqDecision exn.
Proof. solve_decision. Defined.

(** [ex.what()] *)
Definition what (e : exn) : bytes :=
  match e with
  | runtime_error w | CipherError w | invalid_argument w | out_of_range w => w
  | bad_variant_access => str "std::get: wrong index for variant"
  end.

(** A computation returns, throws, or has undefined behaviour (an access or a
    range outside the object it points into). *)
Inductive outcome (A : Type) :=
| Ok (a : A)
| Throw (e : exn)
| UB.
Arguments Ok {A} a.
Arguments Throw {A} e.
Arguments UB {A}.

#[global] Instance outcome_eq_dec {A} `{EqDecision A} : EqDecision (outcome A).
Proof. solve_decision. Defined.

#[global] Instance outcome_ret : MRet outcome := λ A, Ok.
#[global] Instance outcome_bind : MBind outcome := λ A B f m,
  match m with Ok a => f a | Throw e => Throw e | UB => UB end.

(** [data[i]] and [data + off] for a pointer to the bytes [l]. *)
Definition at_ (l : bytes) (i : nat) : outcome byte :=
  match l !! i with Some b => Ok b | None => UB end.
Definition span_from (l : bytes) (off : nat) : outcome bytes :=
  if decide (off ≤ length l)%nat then Ok (drop off l) else UB.

(** The iterator range [[first, last)] of a vector. *)
Definition range (l : bytes) (first last : nat) : outcome bytes :=
  if decide (first ≤ last ∧ last ≤ length l)%nat
  then Ok (take (last - first) (drop first l)) else UB.

Definition returns {A} (m : outcome A) : Prop := ∃ a, m = Ok a.
Definition no_ub {A} (m : outcome A) : Prop := m ≠ UB.

(** ** Code that changes state and may throw *)

(** The state is kept when an exception is thrown: a [catch] sees the changes
    made before the [throw]. *)
Definition SM (S A : Type) : Type := S → S * outcome A.

#[global] Instance SM_ret S : MRet (SM S) := λ A a s, (s, Ok a).
#[global] Instance SM_bind S : MBind (SM S) := λ A B f m s,
  match m s with
  | (s', Ok a) => f a s'
  | (s', Throw e) => (s', Throw e)
  | (s', UB) => (s', UB)
  end.

Section state_monad.
Context {S : Type}.

Definition get_ {A} (f : S → A) : SM S A := λ s, (s, Ok (f s)).
Definition modify_ (f : S → S) : SM S unit := λ s, (f s, Ok tt).
Definition lift {A} (m : outcome A) : SM S A := λ s, (s, m).
Definition throw {A} (e : exn) : SM S A := lift (Throw e).
Definition skip : SM S unit := mret tt.
Definition when (b : bool) (m : SM S unit) : SM S unit := if b then m else skip.

(** [try { m } catch (const std::exception& ex) { h(ex) }] *)
Definition try_catch {A} (m : SM S A) (h : exn → SM S A) : SM S A := λ s,
  match m s with
  | (s', Throw e) => h e s'
  | r => r
  end.

(** [for (const auto& x : l) body(x)] *)
Fixpoint for_each {A} (l : list A) (body : A → SM S unit) : SM S unit :=
  match l with
  | [] => skip
  | x :: l' => _ ← body x; for_each l' body
  end.

End state_monad.

(** [std::get<T>(payload)]: throws when another alternative is held. *)
Definition get_alternative {A} (o : option A) : outcome A :=
  match o with Some a => Ok a | None => Throw bad_variant_access end.

(** ** Tactics *)

(** Takes apart a chain of binds that is known to have returned. *)
Ltac inv_outcome :=
  repeat match goal with
  | H : Ok _ = Ok _ |- _ => injection H as H; subst
  | H : Throw _ = Ok _ |- _ => discriminate H
  | H : UB = Ok _ |- _ => discriminate H
  | H : mret _ = Ok _ |- _ => unfold mret, outcome_ret in H
  | H : mbind _ ?m = Ok _ |- _ =>
      let E := fresh "E" in
      destruct m eqn:E; cbn in H; try discriminate H
  | H : (if decide ?P then _ else _) = Ok _ |- _ => destruct (decide P); try discriminate H
  | H : (if ?b then _ else _) = Ok _ |- _ =>
      let E := fresh "E" in destruct b eqn:E; try discriminate H
  end.

Ltac split_ifs :=
  repeat match goal with
  | |- context [if decide ?P then _ else _] => destruct (decide P)
  | |- context [if ?b then _ else _] => let E := fresh "Eb" in destruct b eqn:E
  end.

(** Boolean comparisons to propositions. *)
Ltac zify_bools :=
  repeat match goal with
  | H : (_ <? _) = true |- _ => apply Z.ltb_lt in H
  | H : (_ <? _) = false |- _ => apply Z.ltb_ge in H
  | H : (_ <=? _) = true |- _ => apply Z.leb_le in H
  | H : (_ <=? _) = false |- _ => apply Z.leb_gt in H
  | H : (_ =? _) = true |- _ => apply Z.eqb_eq in H
  | H : (_ =? _) = false |- _ => apply Z.eqb_neq in H
  end.

(** ** Shared lemmas *)

Lemma u8_range b : 0 <= u8 b < 256.
Proof.
  unfold u8. pose proof (Byte.to_N_bounded b). lia.
Qed.

Lemma u8_to_u8 z : u8 (to_u8 z) = z mod 256.
Proof.
  unfold u8, to_u8. pose proof (Z.mod_pos_bound z 256 ltac:(lia)).
  destruct (Byte.of_N _) eqn:E.
  - apply Byte.to_of_N in E. rewrite E. lia.
  - apply Byte.of_N_None_iff in E. lia.
Qed.

Lemma to_u8_u8 b : to_u8 (u8 b) = b.
Proof.
  unfold u8, to_u8. pose proof (Byte.to_N_bounded b).
  rewrite Z.mod_small by lia. rewrite N2Z.id, Byte.of_to_N. done.
Qed.

#[global] Instance u8_inj : Inj (=) (=) u8.
Proof. intros a b H. rewrite <-(to_u8_u8 a), H. apply to_u8_u8. Qed.

(** Joining two disjoint bit fields is addition. *)
Lemma lor_shiftl_add a b n :
  0 <= n → 0 <= b < 2 ^ n → Z.lor (Z.shiftl a n) b = a * 2 ^ n + b.
Proof.
  intros Hn Hb. rewrite <-Z.shiftl_mul_pow2 by done.
  symmetry. apply Z.add_nocarry_lor, Z.bits_inj'. intros i Hi.
  rewrite Z.land_spec, Z.bits_0.
  destruct (decide (i < n)); [by rewrite Z.shiftl_spec_low|].
  destruct (decide (b = 0)) as [->|]; [by rewrite Z.testbit_0_l, andb_false_r|].
  rewrite (Z.bits_above_log2 b i), andb_false_r; [done|lia|].
  apply Z.log2_lt_pow2; [lia|]. apply Z.lt_le_trans with (2 ^ n); [lia|].
  apply Z.pow_le_mono_r; lia.
Qed.

Lemma land_255 v : Z.land v 255 = v mod 256.
Proof. apply (Z.land_ones v 8). lia. Qed.

Lemma to_u8_eq x y : x mod 256 = y mod 256 → to_u8 x = to_u8 y.
Proof. intros H. apply u8_inj. by rewrite !u8_to_u8. Qed.

Lemma to_u16_range z : is_u16 (to_u16 z).
Proof. apply Z.mod_pos_bound. lia. Qed.

Lemma to_u32_range z : is_u32 (to_u32 z).
Proof. apply Z.mod_pos_bound. lia. Qed.

Lemma to_u16_small z : is_u16 z → to_u16 z = z.
Proof. apply Z.mod_small. Qed.

Lemma to_u32_small z : is_u32 z → to_u32 z = z.
Proof. apply Z.mod_small. Qed.

Lemma take_split {A} (k m : nat) (l : list A) :
  (k ≤ m)%nat → take m l = take k l ++ take (m - k) (drop k l).
Proof.
  intros. rewrite <-(take_drop k (take m l)) at 1.
  rewrite take_take, skipn_firstn_comm. do 3 f_equal; lia.
Qed.

Lemma at_cons b l : at_ (b :: l) 0 = Ok b.
Proof. done. Qed.

Lemma at_ok l i : (i < length l)%nat → ∃ b, at_ l i = Ok b ∧ l !! i = Some b.
Proof.
  intros [b Hb]%lookup_lt_is_Some. unfold at_. rewrite Hb. eauto.
Qed.

Lemma span_from_ok l off : (off ≤ length l)%nat → span_from l off = Ok (drop off l).
Proof. intros. unfold span_from. by rewrite decide_True. Qed.

Lemma range_ok l i j : (i ≤ j)%nat → (j ≤ length l)%nat →
  range l i j = Ok (take (j - i) (drop i l)).
Proof. intros. unfold range. by rewrite decide_True. Qed.

(** Reading a known part of a buffer. *)
Lemma at_mid blob pre b post i : blob = pre ++ b :: post → i = length pre → at_ blob i = Ok b.
Proof. intros -> ->. unfold at_. by rewrite lookup_app_r, Nat.sub_diag by lia. Qed.

Lemma range_mid blob pre mid post i j :
  blob = pre ++ mid ++ post → i = length pre → j = (i + length mid)%nat → range blob i j = Ok mid.
Proof.
  intros -> -> ->. rewrite range_ok by (rewrite ?length_app; lia).
  rewrite drop_app_length, take_app_le by lia. by rewrite take_ge by lia.
Qed.

Lemma span_mid blob pre post i : blob = pre ++ post → i = length pre → span_from blob i = Ok post.
Proof. intros -> ->. rewrite span_from_ok by (rewrite length_app; lia). by rewrite drop_app_length. Qed.

Lemma bind_ok {A B} (m : outcome A) (f : A → outcome B) b :
  mbind f m = Ok b ↔ ∃ a, m = Ok a ∧ f a = Ok b.
Proof. destruct m; cbn; naive_solver. Qed.

Lemma no_ub_bind {A B} (m : outcome A) (f : A → outcome B) :
  no_ub m → (∀ a, m = Ok a → no_ub (f a)) → no_ub (mbind f m).
Proof. unfold no_ub. destruct m; cbn; naive_solver. Qed.

Lemma no_ub_ok {A} (a : A) : no_ub (Ok a).
Proof. done. Qed.

Lemma no_ub_throw {A} e : no_ub (@Throw A e).
Proof. done. Qed.

Create HintDb chat.
#[export] Hint Resolve to_u16_range to_u32_range u8_range no_ub_ok no_ub_throw : chat.

Section state_monad_facts.
Context {S : Type}.

Lemma SM_bind_ok {A B} (m : SM S A) (f : A → SM S B) s s' a :
  m s = (s', Ok a) → (mbind f m : SM S B) s = f a s'.
Proof. intros H. unfold mbind, SM_bind. by rewrite H. Qed.

Lemma SM_bind_throw {A B} (m : SM S A) (f : A → SM S B) s s' e :
  m s = (s', Throw e) → (mbind f m : SM S B) s = (s', Throw e).
Proof. intros H. unfold mbind, SM_bind. by rewrite H. Qed.

Lemma SM_lift_ok {A B} (m : outcome A) a (k : A → SM S B) s :
  m = Ok a → (x ← lift m; k x) s = k a s.
Proof. by intros ->. Qed.

Lemma SM_modify {B} f (k : unit → SM S B) s : (x ← modify_ f; k x) s = k tt (f s).
Proof. done. Qed.

Lemma SM_get {A B} (f : S → A) (k : A → SM S B) s : (x ← get_ f; k x) s = k (f s) s.
Proof. done. Qed.

(** A loop whose body only applies a function to the state folds it. *)
Lemma for_each_fold {A} (l : list A) (body : A → SM S unit) (g : A → S → S) s :
  (∀ x s, x ∈ l → body x s = (g x s, Ok tt)) →
  for_each l body s = (foldl (λ s x, g x s) s l, Ok tt).
Proof.
  revert s. induction l as [|x l IH]; intros s H; [done|].
  cbn [for_each foldl]. rewrite (SM_bind_ok _ _ s (g x s) tt) by (apply H; set_solver).
  apply IH. set_solver.
Qed.

(** *** Invariants and exceptions

    [safe P m]: started where [P] holds, [m] keeps [P] on every path, has no
    undefined behaviour, and throws only exceptions whose text fits a 16-bit
    length.  [total P m]: moreover it does not throw. *)
Definition safe_result {A} (r : outcome A) : Prop :=
  match r with
  | Ok _ => True
  | Throw e => size_t (what e) <= 65535
  | UB => False
  end.

Definition safe (P : S → Prop) {A} (m : SM S A) : Prop :=
  ∀ s, P s → P (m s).1 ∧ safe_result (m s).2.

Definition total (P : S → Prop) {A} (m : SM S A) : Prop :=
  ∀ s, P s → P (m s).1 ∧ ∃ a, (m s).2 = Ok a.

Context (P : S → Prop).

Lemma total_safe {A} (m : SM S A) : total P m → safe P m.
Proof. intros H s Hs. destruct (H s Hs) as [? [a ->]]. done. Qed.

Lemma safe_ret {A} (a : A) : safe P (mret a : SM S A).
Proof. by intros s Hs. Qed.

Lemma safe_get {A} (f : S → A) : safe P (get_ f).
Proof. by intros s Hs. Qed.

Lemma safe_modify f : (∀ s, P s → P (f s)) → safe P (modify_ f).
Proof. intros H s Hs. split; [by apply H|done]. Qed.

Lemma safe_lift {A} (m : outcome A) : safe_result m → safe P (lift m).
Proof. by intros H s Hs. Qed.

Lemma safe_bind {A B} (m : SM S A) (k : A → SM S B) :
  safe P m → (∀ a, safe P (k a)) → safe P (mbind k m).
Proof.
  intros Hm Hk s Hs. destruct (Hm s Hs) as [H1 H2]. unfold mbind, SM_bind.
  destruct (m s) as [s' [a|e|]]; cbn in *; [by apply Hk|done..].
Qed.

Lemma safe_when b (m : SM S unit) : safe P m → safe P (when b m).
Proof. intros H. destruct b; [done|apply safe_ret]. Qed.

Lemma safe_for_each {A} (l : list A) body : (∀ x, safe P (body x)) → safe P (for_each l body).
Proof.
  intros H. induction l as [|x l IH]; [apply safe_ret|]. cbn. apply safe_bind; [done|]. by intros _.
Qed.

Lemma total_bind {A B} (m : SM S A) (k : A → SM S B) :
  total P m → (∀ a, total P (k a)) → total P (mbind k m).
Proof.
  intros Hm Hk s Hs. destruct (Hm s Hs) as [H1 [a H2]]. unfold mbind, SM_bind.
  destruct (m s) as [s' r]; cbn in *; subst r. by apply Hk.
Qed.

Lemma total_try_catch {A} (m : SM S A) h :
  safe P m → (∀ e, size_t (what e) <= 65535 → total P (h e)) → total P (try_catch m h).
Proof.
  intros Hm Hh s Hs. destruct (Hm s Hs) as [H1 H2]. unfold try_catch.
  destruct (m s) as [s' [a|e|]]; cbn in *; [eauto|by apply Hh|done].
Qed.

End state_monad_facts.

#[export] Hint Resolve total_safe safe_ret safe_get safe_modify safe_lift safe_bind safe_when
  safe_for_each : chat.

(** *** Weakest preconditions

    [wp m Q E s]: run in [s], [m] returns a value and a state that satisfy [Q] or
    throws an exception that satisfies [E]; it has no undefined behaviour. *)
Section wp.
Context {S : Type}.

Definition wp {A} (m : SM S A) (Q : A → S → Prop) (E : exn → S → Prop) (s : S) : Prop :=
  match m s with
  | (s', Ok a) => Q a s'
  | (s', Throw e) => E e s'
  | (_, UB) => False
  end.

Lemma wp_bind {A B} (m : SM S A) (k : A → SM S B) Q E s :
  wp m (λ a, wp (k a) Q E) E s → wp (mbind k m) Q E s.
Proof. unfold wp, mbind, SM_bind. by destruct (m s) as [s' []]. Qed.

Lemma wp_mono {A} (m : SM S A) (Q Q' : A → S → Prop) (E E' : exn → S → Prop) s :
  wp m Q E s → (∀ a s', Q a s' → Q' a s') → (∀ e s', E e s' → E' e s') → wp m Q' E' s.
Proof. unfold wp. destruct (m s) as [s' []]; auto. Qed.

Lemma wp_total (P : S → Prop) {A} (m : SM S A) :
  total P m ↔ ∀ s, P s → wp m (λ _, P) (λ _ _, False) s.
Proof.
  split; intros Hm s Hs; specialize (Hm s Hs); unfold wp in *; destruct (m s) as [s' [a|e|]]; cbn in *.
  all: naive_solver.
Qed.

Lemma wp_ret {A} (a : A) (Q : A → S → Prop) E s : Q a s → wp (mret a) Q E s.
Proof. done. Qed.

Lemma wp_get {A} (f : S → A) (Q : A → S → Prop) E s : Q (f s) s → wp (get_ f) Q E s.
Proof. done. Qed.

Lemma wp_modify (f : S → S) (Q : unit → S → Prop) E s : Q tt (f s) → wp (modify_ f) Q E s.
Proof. done. Qed.

Lemma wp_throw {A} e (Q : A → S → Prop) (E : exn → S → Prop) s : E e s → wp (throw e) Q E s.
Proof. done. Qed.

Lemma wp_lift {A} (m : outcome A) (Q : A → S → Prop) (E : exn → S → Prop) s :
  no_ub m → (∀ a, m = Ok a → Q a s) → (∀ e, m = Throw e → E e s) → wp (lift m) Q E s.
Proof. unfold wp, lift, no_ub. destruct m; naive_solver. Qed.

Lemma wp_lift_ok {A} (m : outcome A) a (Q : A → S → Prop) E s : m = Ok a → Q a s → wp (lift m) Q E s.
Proof. by intros ->. Qed.

(** Code that cannot fail gives a value. *)
Lemma wp_value {A} (m : SM S A) (Q : A → S → Prop) s : wp m Q (λ _ _, False) s →
  ∃ a s', m s = (s', Ok a) ∧ Q a s'.
Proof. unfold wp. destruct (m s) as [s' [a|e|]]; [eauto|done..]. Qed.

Lemma wp_try_catch {A} (m : SM S A) h (Q : A → S → Prop) E s :
  wp m Q (λ e, wp (h e) Q E) s → wp (try_catch m h) Q E s.
Proof. unfold wp, try_catch. by destruct (m s) as [s' []]. Qed.

Lemma wp_for_each {A} (l : list A) body (P : S → Prop) (E : exn → S → Prop) s :
  P s → (∀ x s, x ∈ l → P s → wp (body x) (λ _, P) E s) → wp (for_each l body) (λ _, P) E s.
Proof.
  revert s. induction l as [|x l IH]; intros s Hs Hb; [done|]. cbn [for_each].
  apply wp_bind. eapply wp_mono; [apply Hb; [apply list_elem_of_here|done]| |done].
  intros [] s' Hs'. apply IH; [done|]. intros y s'' Hy. apply Hb. by apply list_elem_of_further.
Qed.

End wp.

(** *** Exceptions have short texts

    The server sends the text of an exception back to the client; these facts
    bound it by what a 16-bit length can hold. *)
Definition throws_short {A} (m : outcome A) : Prop :=
  ∀ e, m = Throw e → size_t (what e) <= 65535.

Lemma throws_short_bind {A B} (m : outcome A) (k : A → outcome B) :
  throws_short m → (∀ a, throws_short (k a)) → throws_short (mbind k m).
Proof. intros Hm Hk e. destruct m; cbn; [apply Hk|intros [= ->]; by apply Hm|done]. Qed.

Lemma throws_short_at l i : throws_short (at_ l i).
Proof. intros e. unfold at_. by destruct (l !! i). Qed.

Lemma throws_short_span l off : throws_short (span_from l off).
Proof. intros e. unfold span_from. by case_decide. Qed.

Lemma throws_short_range l i j : throws_short (range l i j).
Proof. intros e. unfold range. by case_decide. Qed.

Lemma safe_result_iff {A} (m : outcome A) : safe_result m ↔ no_ub m ∧ throws_short m.
Proof.
  unfold no_ub, throws_short. destruct m; cbn; [naive_solver| |naive_solver].
  split; [naive_solver|]. intros [_ H]. by apply H.
Qed.

Ltac throws_short :=
  repeat first
    [ apply throws_short_at | apply throws_short_span | apply throws_short_range
    | progress eauto with chat
    | apply throws_short_bind; [|intros ?]
    | match goal with
      | |- context [if ?b then _ else _] => destruct b
      | |- context [match ?x with _ => _ end] => destruct x
      end
    | let H := fresh in intros ? H; (injection H as <- || discriminate H); cbn; lia ].

(** ** Termination by a measure *)

(** A step relation that keeps [P] and, under [P], lowers a measure. *)
Lemma sn_measure {A} (R : relation A) (f : A → nat) (P : A → Prop) :
  (∀ x y, P x → R x y → P y ∧ (f y < f x)%nat) → ∀ x, P x → sn R x.
Proof.
  intros HR x. remember (f x) as n eqn:En. revert x En.
  induction (lt_wf n) as [n _ IH]. intros x -> Hx. constructor. intros y Hy.
  destruct (HR x y Hx Hy) as [Hp Hlt]. by apply (IH (f y)).
Qed.
