(* ===== verification/ModbusTcp.v ===== *)
(** * The Modbus TCP framing layer: common/ModbusTcp.hpp, common/ModbusTcp.cpp

    [Module modbus] is the namespace of the same name.  A buffer is a list of
    bytes; a pointer into it is the list of the bytes from there to its end, so
    that an access past the end is [UB].  A socket is the list of the bytes that
    are still to arrive together with the answers the kernel gives to the
    successive calls of poll, read and send; a list of answers that ends while
    the code still waits is a call that blocks forever ([None]). *)
From S2P Require Import Prelude.

Module modbus.

Definition kAppFunctionCode : byte := Byte.x41.
Definition kMbapHeaderSize : nat := 6.
Definition kMbapUnitHeaderSize : nat := 7.
Definition kMbapLengthFieldOffset : nat := 4.
Definition kUnitIdLengthContribution : Z := 1.
Definition kProtocolId : Z := 0.

Record Frame := mkFrame {
  transaction_id : Z;
  unit_id : byte;
  pdu : bytes
}.

#[global] Instance Frame_eq_dec : EqDecision Frame.
Proof. solve_decision. Defined.

(** [Frame frame;] *)
Definition Frame_default : Frame := mkFrame 0 Byte.x00 [].

(** ** Byte order

    The hosts the program is built for are little-endian: [htons] and [ntohs]
    swap the two bytes of their argument, and the object representation of a
    [uint16_t] has its low byte first. *)
Definition htons (v : Z) : Z := Z.lor (Z.shiftl (Z.land v 255) 8) (Z.shiftr v 8).
Definition ntohs (v : Z) : Z := htons v.

Definition read_u16_be (data : bytes) : outcome Z :=
  b0 ← at_ data 0;
  b1 ← at_ data 1;
  mret (ntohs (Z.lor (u8 b0) (Z.shiftl (u8 b1) 8))).

Definition write_u16_be (out : bytes) (value : Z) : bytes :=
  let net := htons value in
  out ++ [to_u8 net; to_u8 (Z.shiftr net 8)].

(** ** Frames and buffers *)

Definition encode (frame : Frame) : bytes :=
  let out := [] in
  let out := write_u16_be out (transaction_id frame) in
  let out := write_u16_be out kProtocolId in
  let out := write_u16_be out (to_u16 (size_t (pdu frame) + kUnitIdLengthContribution)) in
  let out := out ++ [unit_id frame] in
  out ++ pdu frame.

(** [None] is [std::nullopt]; otherwise the frame and the new value of
    [consumed], which is left alone when there is no frame. *)
Definition decode (buffer : bytes) : outcome (option (Frame * nat)) :=
  if decide (length buffer < kMbapUnitHeaderSize)%nat then mret None else
  field ← span_from buffer kMbapLengthFieldOffset;
  length_ ← read_u16_be field;
  let total := (kMbapHeaderSize + Z.to_nat length_)%nat in
  if decide (length buffer < total)%nat then mret None else
  tid ← read_u16_be buffer;
  unit ← at_ buffer kMbapHeaderSize;
  body ← range buffer kMbapUnitHeaderSize total;
  mret (Some (mkFrame tid unit body, total)).

(** ** Sockets *)

(** The answer to one round of [poll] and [read]. *)
Inductive read_step :=
| poll_failed            (* poll returned a value <= 0 *)
| poll_hangup            (* revents has POLLERR, POLLHUP or POLLNVAL *)
| read_failed            (* read returned a value < 0 *)
| read_some (n : nat).   (* read returned what has arrived, n bytes at most *)

Record in_socket := mkIn {
  incoming : bytes;
  read_script : list read_step
}.

(** The result of [read_exact]: the returned flag, the bytes it has put in the
    caller's buffer, the socket afterwards. *)
Fixpoint read_exact_loop (script : list read_step) (size : nat) (buffer inc : bytes)
    : option (bool * bytes * in_socket) :=
  if decide (length buffer < size)%nat then
    match script with
    | [] => None
    | read_some n :: script' =>
        let k := Nat.min n (Nat.min (size - length buffer) (length inc)) in
        if decide (k = 0)%nat then Some (false, buffer, mkIn inc script')
        else read_exact_loop script' size (buffer ++ take k inc) (drop k inc)
    | _ :: script' => Some (false, buffer, mkIn inc script')
    end
  else Some (true, buffer, mkIn inc script).

Definition read_exact (sk : in_socket) (size : nat) : option (bool * bytes * in_socket) :=
  read_exact_loop (read_script sk) size [] (incoming sk).

(** The answer to one call of [send]. *)
Inductive send_step :=
| send_failed            (* send returned a value < 0 *)
| send_some (n : nat).   (* send took n bytes, or all that were offered *)

(** The result of [write_exact]: the returned flag, the bytes that went out and
    the answers that were not used. *)
Fixpoint write_exact_loop (script : list send_step) (rest sent : bytes)
    : option (bool * bytes * list send_step) :=
  match rest with
  | [] => Some (true, sent, script)
  | _ :: _ =>
      match script with
      | [] => None
      | send_failed :: script' => Some (false, sent, script')
      | send_some n :: script' =>
          let k := Nat.min n (length rest) in
          if decide (k = 0)%nat then Some (false, sent, script')
          else write_exact_loop script' (drop k rest) (sent ++ take k rest)
      end
  end.

Definition write_exact (script : list send_step) (buffer : bytes)
    : option (bool * bytes * list send_step) :=
  write_exact_loop script buffer [].

(** [read_frame] returns its flag and the new values of [buffer] and [out]. *)
Definition read_frame (sk : in_socket) (buffer : bytes) (out : Frame)
    : option (outcome (bool * bytes * Frame) * in_socket) :=
  '(ok, header, sk) ← read_exact sk kMbapHeaderSize;
  if negb ok then Some (Ok (false, buffer, out), sk) else
  match (field ← span_from header kMbapLengthFieldOffset; read_u16_be field) with
  | UB => Some (UB, sk)
  | Throw e => Some (Throw e, sk)
  | Ok length_ =>
      if length_ =? 0 then Some (Ok (false, buffer, out), sk) else
      '(ok, rest, sk) ← read_exact sk (Z.to_nat length_);
      if negb ok then Some (Ok (false, buffer, out), sk) else
      let buffer := header ++ rest in
      Some (frame ← decode buffer;
            match frame with
            | None => mret (false, buffer, out)
            | Some (frame, consumed) =>
                if decide (consumed = length buffer) then mret (true, buffer, frame)
                else mret (false, buffer, out)
            end, sk)
  end.

Definition write_frame (script : list send_step) (frame : Frame)
    : option (bool * bytes * list send_step) :=
  write_exact script (encode frame).

(** ** Byte order facts *)

Lemma htons_val v : is_u16 v → htons v = v mod 256 * 256 + v / 256.
Proof.
  intros Hv. unfold htons. rewrite land_255, Z.shiftr_div_pow2 by lia.
  unfold is_u16 in Hv. rewrite lor_shiftl_add; [done|lia|]. change (2 ^ 8) with 256.
  Z.to_euclidean_division_equations; lia.
Qed.

Lemma mbap_write_u16_be_spec out v : is_u16 v →
  write_u16_be out v = out ++ [to_u8 (v / 256); to_u8 v].
Proof.
  intros Hv. unfold write_u16_be. rewrite htons_val by done. unfold is_u16 in Hv.
  do 2 f_equal; [|f_equal]; apply to_u8_eq; rewrite ?Z.shiftr_div_pow2 by lia;
    change (2 ^ 8) with 256; Z.to_euclidean_division_equations; lia.
Qed.

Lemma mbap_read_u16_be_spec b0 b1 l : read_u16_be (b0 :: b1 :: l) = Ok (u8 b0 * 256 + u8 b1).
Proof.
  unfold read_u16_be, ntohs. cbn. pose proof (u8_range b0). pose proof (u8_range b1).
  rewrite Z.lor_comm, lor_shiftl_add by lia. change (2 ^ 8) with 256.
  rewrite htons_val by (unfold is_u16; lia). f_equal.
  Z.to_euclidean_division_equations; lia.
Qed.

Lemma mbap_read_u16_be_ok l : (2 ≤ length l)%nat → ∃ v, read_u16_be l = Ok v ∧ is_u16 v.
Proof.
  destruct l as [|b0 [|b1 l]]; cbn [length]; [lia|lia|]. intros _.
  rewrite mbap_read_u16_be_spec. eexists. split; [done|].
  pose proof (u8_range b0). pose proof (u8_range b1). unfold is_u16. lia.
Qed.

(** ** Frames *)

(** The frames [encode] can represent. *)
Definition wf_frame (f : Frame) : Prop :=
  is_u16 (transaction_id f) ∧ size_t (pdu f) <= 65534.

Lemma encode_spec f : is_u16 (transaction_id f) →
  let len := to_u16 (size_t (pdu f) + 1) in
  encode f = to_u8 (transaction_id f / 256) :: to_u8 (transaction_id f) ::
             Byte.x00 :: Byte.x00 ::
             to_u8 (len / 256) :: to_u8 len :: unit_id f :: pdu f.
Proof.
  intros Ht len. unfold encode.
  by rewrite !mbap_write_u16_be_spec by (done || apply to_u16_range).
Qed.

Lemma length_encode f : is_u16 (transaction_id f) →
  length (encode f) = (7 + length (pdu f))%nat.
Proof. intros. by rewrite encode_spec. Qed.

Lemma u16_join v : is_u16 v → u8 (to_u8 (v / 256)) * 256 + u8 (to_u8 v) = v.
Proof.
  unfold is_u16. intros. rewrite !u8_to_u8. Z.to_euclidean_division_equations; lia.
Qed.

(** What [decode] does with a buffer that has a whole header. *)
Lemma decode_header b0 b1 p0 p1 l0 l1 u l :
  let len := u8 l0 * 256 + u8 l1 in
  decode (b0 :: b1 :: p0 :: p1 :: l0 :: l1 :: u :: l) =
  if decide (size_t l + 1 < len) then Ok None
  else if decide (len = 0) then UB
  else Ok (Some (mkFrame (u8 b0 * 256 + u8 b1) u (take (Z.to_nat len - 1) l),
                 (6 + Z.to_nat len)%nat)).
Proof.
  intros len. pose proof (u8_range l0). pose proof (u8_range l1).
  unfold decode, kMbapUnitHeaderSize, kMbapLengthFieldOffset, kMbapHeaderSize.
  rewrite decide_False by (cbn; lia).
  rewrite span_from_ok by (cbn; lia). cbn [drop mbind outcome_bind].
  rewrite !mbap_read_u16_be_spec. cbn [mbind outcome_bind].
  unfold range, at_. fold len.
  cbn [length drop lookup list_lookup]. subst len.
  repeat case_decide; try lia; done.
Qed.

Lemma decode_short buffer : (length buffer < 7)%nat → decode buffer = Ok None.
Proof. intros. unfold decode, kMbapUnitHeaderSize. by rewrite decide_True. Qed.

(** A buffer is shorter than a header or has the seven header bytes. *)
Lemma header_cases (l : bytes) :
  (length l < 7)%nat ∨
  ∃ b0 b1 p0 p1 l0 l1 u l', l = b0 :: b1 :: p0 :: p1 :: l0 :: l1 :: u :: l'.
Proof.
  do 7 (destruct l as [|? l]; [left; cbn; lia|]). right. eauto 10.
Qed.

Lemma decode_encode_aux f rest : wf_frame f →
  decode (encode f ++ rest) = Ok (Some (f, length (encode f))).
Proof.
  intros [Ht Hl]. rewrite length_encode, encode_spec by done.
  rewrite to_u16_small by (unfold is_u16; lia).
  cbn [app]. rewrite decode_header, u16_join by (unfold is_u16; lia).
  rewrite u16_join by done. rewrite length_app.
  rewrite !decide_False by lia. do 3 f_equal; [|lia].
  destruct f as [t u p]; cbn in *. f_equal.
  rewrite take_app_le by lia. apply take_ge. lia.
Qed.

(** A frame that fits the 16-bit length field is read back as it was
    written, whatever follows it in the buffer, and exactly its bytes are
    consumed. *)
Theorem decode_encode f rest : wf_frame f →
  decode (encode f ++ rest) = Ok (Some (f, length (encode f))).
Proof. apply decode_encode_aux. Qed.

Lemma decode_encode_witness :
  wf_frame (mkFrame 7 Byte.x01 (str "hi")) ∧
  decode (encode (mkFrame 7 Byte.x01 (str "hi")) ++ str "rest") =
    Ok (Some (mkFrame 7 Byte.x01 (str "hi"), 9%nat)).
Proof.
  assert (wf_frame (mkFrame 7 Byte.x01 (str "hi"))) as H by (repeat split; cbn; lia).
  split; [exact H|]. exact (decode_encode _ (str "rest") H).
Defined.

(** Conversely, what [decode] accepts is the encoding of the frame it
    returns, when the protocol identifier bytes (which it does not look at) are
    those [encode] writes. *)
Theorem encode_decode buffer f n :
  decode buffer = Ok (Some (f, n)) →
  take 2 (drop 2 buffer) = [Byte.x00; Byte.x00] →
  encode f = take n buffer.
Proof.
  destruct (header_cases buffer) as [Hs|(b0 & b1 & p0 & p1 & l0 & l1 & u & l & ->)].
  { by rewrite decode_short. }
  rewrite decode_header. intros H Hp.
  cbn in Hp. injection Hp as -> ->. pose proof (u8_range b0). pose proof (u8_range b1).
  pose proof (u8_range l0). pose proof (u8_range l1).
  inv_outcome. rewrite encode_spec by (unfold is_u16; cbn; lia). cbn [pdu transaction_id unit_id].
  rewrite length_take, Nat.min_l by lia.
  replace (Z.of_nat (Z.to_nat (u8 l0 * 256 + u8 l1) - 1) + 1) with (u8 l0 * 256 + u8 l1) by lia.
  rewrite to_u16_small by (unfold is_u16; lia).
  rewrite !Z.div_add_l, !(Z.div_small (u8 _)), !Z.add_0_r, !to_u8_u8 by lia.
  rewrite (to_u8_eq (u8 b0 * 256 + u8 b1) (u8 b1)) by (rewrite Z.add_comm, Z.mod_add; lia).
  rewrite (to_u8_eq (u8 l0 * 256 + u8 l1) (u8 l1)) by (rewrite Z.add_comm, Z.mod_add; lia).
  rewrite !to_u8_u8.
  destruct (Z.to_nat (u8 l0 * 256 + u8 l1)) as [|k] eqn:Ek; [lia|].
  cbn [take Nat.sub]. by rewrite Nat.sub_0_r.
Qed.

Lemma encode_decode_witness :
  encode (mkFrame 258 Byte.x07 [Byte.x41]) =
  take 8 [Byte.x01; Byte.x02; Byte.x00; Byte.x00; Byte.x00; Byte.x02; Byte.x07; Byte.x41; Byte.xff].
Proof.
  apply encode_decode; vm_compute; reflexivity.
Defined.

(** C22. [decode] has undefined behaviour on exactly the buffers that hold a
    header whose length field is zero: there the iterator range of the PDU ends
    before it begins.  On every other buffer it returns. *)
Theorem decode_ub_iff buffer :
  decode buffer = UB ↔
  (7 ≤ length buffer)%nat ∧ (field ← span_from buffer 4; read_u16_be field) = Ok 0.
Proof.
  destruct (header_cases buffer) as [Hs|(b0 & b1 & p0 & p1 & l0 & l1 & u & l & ->)].
  { rewrite decode_short by done. split; [done|lia]. }
  rewrite decode_header, span_from_ok by (cbn; lia). cbn [drop mbind outcome_bind].
  rewrite mbap_read_u16_be_spec. pose proof (u8_range l0). pose proof (u8_range l1).
  repeat case_decide; cbn [length]; split; try done; intros; try lia; try split; try lia.
  - naive_solver lia.
  - f_equal. lia.
  - naive_solver lia.
Qed.

(** C23. A PDU of 65535 bytes or more does not fit the length field: [encode] writes
    its size modulo 2^16 there.  What [decode] makes of the bytes is the beginning of
    the PDU that this smaller size covers, the rest being left in the buffer as if it
    were the next frame; when the field is 0 it has undefined behaviour. *)
Theorem encode_overflow f rest (len := (size_t (pdu f) + 1) mod 65536) : is_u16 (transaction_id f) →
  65535 <= size_t (pdu f) →
  (field ← span_from (encode f) kMbapLengthFieldOffset; read_u16_be field) = Ok len ∧
  decode (encode f ++ rest) =
    if decide (len = 0) then UB
    else Ok (Some (mkFrame (transaction_id f) (unit_id f) (take (Z.to_nat len - 1) (pdu f)), (6 + Z.to_nat len)%nat)).
Proof.
  intros Ht Hl. assert (0 <= len < 65536) as Hlen by (apply Z.mod_pos_bound; lia).
  rewrite encode_spec by done. change (to_u16 (size_t (pdu f) + 1)) with len. split.
  - unfold kMbapLengthFieldOffset. rewrite span_from_ok by (cbn; lia). cbn [drop mbind outcome_bind].
    rewrite mbap_read_u16_be_spec, u16_join by done. done.
  - cbn [app]. rewrite decode_header, !u16_join by done. rewrite length_app, decide_False by lia.
    case_decide; [done|]. by rewrite take_app_le by lia.
Qed.

Lemma encode_overflow_witness :
  decode (encode (mkFrame 0 Byte.x00 (replicate (Z.to_nat 65540) Byte.x41)) ++ []) =
    Ok (Some (mkFrame 0 Byte.x00 (replicate 4 Byte.x41), 11%nat)).
Proof.
  destruct (encode_overflow (mkFrame 0 Byte.x00 (replicate (Z.to_nat 65540) Byte.x41)) []) as [_ E].
  - cbn. unfold is_u16. lia.
  - cbn [pdu]. rewrite length_replicate. lia.
  - rewrite E. vm_compute. reflexivity.
Defined.

(** ** Sockets *)

Lemma read_exact_loop_true script size buf inc buf' sk' :
  (length buf ≤ size)%nat →
  read_exact_loop script size buf inc = Some (true, buf', sk') →
  let k := (size - length buf)%nat in
  buf' = buf ++ take k inc ∧ incoming sk' = drop k inc ∧ (k ≤ length inc)%nat.
Proof.
  cbn zeta. revert buf inc. induction script as [|s script IH]; intros buf inc Hle H; cbn in H.
  - case_decide; [done|]. simplify_eq.
    replace (size - length buf')%nat with 0%nat by lia. rewrite app_nil_r. cbn. split_and!; lia || done.
  - case_decide as Hlt; cycle 1.
    { simplify_eq. replace (size - length buf')%nat with 0%nat by lia.
      rewrite app_nil_r. cbn. split_and!; lia || done. }
    destruct s as [| | |n]; try done. case_decide as Hk; [done|].
    set (k := (n `min` _)%nat) in *.
    assert (length (take k inc) = k) as Ek by (rewrite length_take; lia).
    apply IH in H as (-> & -> & Hi); [|rewrite length_app; lia].
    rewrite length_app, length_drop, Ek in *. rewrite drop_drop.
    replace (k + (size - (length buf + k)))%nat with (size - length buf)%nat by lia.
    rewrite <-app_assoc. split_and!; [|done|lia]. f_equal.
    rewrite (take_split k (size - length buf)) by lia. do 2 f_equal. lia.
Qed.

(** The kernel keeps the connection up and delivers at least one byte a call. *)
Definition live (script : list read_step) : Prop :=
  Forall (λ s, ∃ n, s = read_some n ∧ (0 < n)%nat) script.

Lemma read_exact_loop_live script size buf inc : live script →
  (length buf ≤ size)%nat → (size - length buf ≤ length script)%nat →
  (size - length buf ≤ length inc)%nat →
  ∃ script', live script' ∧ (length script ≤ length script' + (size - length buf))%nat ∧
    read_exact_loop script size buf inc =
    Some (true, buf ++ take (size - length buf) inc, mkIn (drop (size - length buf) inc) script').
Proof.
  intros Hl. revert buf inc. induction Hl as [|s script (n & -> & Hn) Hl IH]; intros buf inc Hb Hs Hi.
  - exists []. cbn in *. replace (size - length buf)%nat with 0%nat by lia.
    rewrite decide_False by lia. rewrite app_nil_r. split_and!; [constructor|cbn; lia|done].
  - cbn in *. case_decide as Hlt; cycle 1.
    { exists (read_some n :: script). replace (size - length buf)%nat with 0%nat by lia.
      rewrite app_nil_r. split_and!; [constructor; eauto|cbn; lia|done]. }
    set (k := (n `min` _)%nat). rewrite decide_False by lia.
    assert (length (take k inc) = k) as Ek by (rewrite length_take; lia).
    destruct (IH (buf ++ take k inc) (drop k inc)) as (script' & Hl' & Hlen & ->);
      rewrite ?length_app, ?length_drop, ?Ek; try lia.
    exists script'. rewrite length_app, Ek in *. split_and!; [done|lia|].
    rewrite drop_drop. replace (k + (size - (length buf + k)))%nat with (size - length buf)%nat by lia.
    do 3 f_equal. rewrite <-app_assoc. f_equal.
    rewrite (take_split k (size - length buf)) by lia. do 2 f_equal. lia.
Qed.

Lemma read_exact_live script size inc : live script →
  (size ≤ length script)%nat → (size ≤ length inc)%nat →
  ∃ script', live script' ∧ (length script ≤ length script' + size)%nat ∧
    read_exact (mkIn inc script) size = Some (true, take size inc, mkIn (drop size inc) script').
Proof.
  intros Hl Hs Hi. destruct (read_exact_loop_live script size [] inc Hl) as (script' & ? & ? & E);
    cbn [length] in *; rewrite ?Nat.sub_0_r in *; [lia..|]. exists script'. eauto.
Qed.

Lemma length_read_exact sk size got sk' :
  read_exact sk size = Some (true, got, sk') →
  length got = size ∧ incoming sk = got ++ incoming sk'.
Proof.
  intros H%read_exact_loop_true; [|cbn; lia]. cbn [length app] in H.
  rewrite Nat.sub_0_r in H. destruct H as (-> & -> & Hle).
  rewrite length_take, take_drop. split; [lia|done].
Qed.

(** The fields of a header that has just been read. *)
Lemma header_field header : length header = 6%nat →
  ∃ b0 b1 p0 p1 l0 l1, header = [b0; b1; p0; p1; l0; l1] ∧
  (field ← span_from header kMbapLengthFieldOffset; read_u16_be field) = Ok (u8 l0 * 256 + u8 l1).
Proof.
  intros H. do 6 (destruct header as [|? header]; [done|]). destruct header; [|done].
  do 6 eexists. split; [done|]. unfold kMbapLengthFieldOffset.
  rewrite span_from_ok by (cbn; lia). apply mbap_read_u16_be_spec.
Qed.

(** The second read completes the buffer to one whole frame. *)
Lemma decode_header_rest b0 b1 p0 p1 l0 l1 rest :
  u8 l0 * 256 + u8 l1 ≠ 0 → size_t rest = u8 l0 * 256 + u8 l1 →
  ∃ f, decode ([b0; b1; p0; p1; l0; l1] ++ rest) = Ok (Some (f, (6 + length rest)%nat)).
Proof.
  intros Hnz Hl. destruct rest as [|u rest]; [cbn in Hl; lia|]. cbn [app].
  rewrite decode_header. cbn [length] in *. rewrite !decide_False by lia.
  eexists. do 4 f_equal. lia.
Qed.

(** [read_frame] never has undefined behaviour and never throws, whatever
    the peer sends and however the kernel answers; when it returns true, the
    buffer is what was taken off the socket and [decode] gives the frame it
    returns. *)
Theorem read_frame_safe sk buffer out r sk' :
  read_frame sk buffer out = Some (r, sk') →
  ∃ ok buffer' out', r = Ok (ok, buffer', out') ∧
    (ok = true → incoming sk = buffer' ++ incoming sk' ∧
                 decode buffer' = Ok (Some (out', length buffer'))).
Proof.
  unfold read_frame, kMbapHeaderSize. intros H.
  destruct (read_exact sk 6) as [[[ok header] sk1]|] eqn:E1; [|done]. cbn [mbind option_bind] in H.
  destruct ok; cbn [negb] in H; [|simplify_eq; naive_solver].
  apply length_read_exact in E1 as [Hh E1].
  destruct (header_field header Hh) as (b0 & b1 & p0 & p1 & l0 & l1 & -> & Ef).
  rewrite Ef in H. case_match eqn:Hz; zify_bools; [simplify_eq; naive_solver|].
  destruct (read_exact sk1 _) as [[[ok rest] sk2]|] eqn:E2; [|done]. cbn [mbind option_bind] in H.
  destruct ok; cbn [negb] in H; [|simplify_eq; naive_solver].
  apply length_read_exact in E2 as [Hr E2].
  pose proof (u8_range l0). pose proof (u8_range l1).
  destruct (decode_header_rest b0 b1 p0 p1 l0 l1 rest) as [f Hd]; [done|lia|].
  rewrite Hd in H. cbn [mbind outcome_bind] in H. rewrite decide_True in H by done.
  simplify_eq. do 3 eexists. split; [done|]. intros _.
  split; [by rewrite E1, E2, <-app_assoc|done].
Qed.

Lemma read_frame_safe_witness :
  ∃ ok buffer' out',
    fst <$> read_frame (mkIn (str "AB") [read_some 1; read_failed]) [] Frame_default =
    Some (Ok (ok, buffer', out')).
Proof.
  destruct (read_frame (mkIn (str "AB") [read_some 1; read_failed]) [] Frame_default)
    as [[r sk']|] eqn:E; [|vm_compute in E; discriminate E].
  destruct (read_frame_safe _ _ _ _ _ E) as (ok & b & o & -> & _).
  exists ok, b, o. reflexivity.
Defined.

Lemma read_frame_stream_aux f rest script buffer out :
  wf_frame f → live script → (length (encode f) ≤ length script)%nat →
  ∃ script', live script' ∧ (length script ≤ length script' + length (encode f))%nat ∧
    read_frame (mkIn (encode f ++ rest) script) buffer out =
    Some (Ok (true, encode f, f), mkIn rest script').
Proof.
  intros Hf Hl Hs. pose proof Hf as [Ht Hp].
  pose proof (decode_encode_aux f [] Hf) as Hd. rewrite app_nil_r in Hd.
  rewrite length_encode in * by done. unfold read_frame, kMbapHeaderSize.
  destruct (read_exact_live script 6 (encode f ++ rest) Hl) as (s1 & Hl1 & Hs1 & ->);
    [lia|rewrite length_app, length_encode by done; lia|].
  rewrite encode_spec in Hd |- * by done. rewrite to_u16_small in Hd |- * by (unfold is_u16; lia).
  cbn [mbind option_bind negb take app drop].
  unfold kMbapLengthFieldOffset. rewrite span_from_ok by (cbn; lia). cbn [drop mbind outcome_bind].
  rewrite mbap_read_u16_be_spec, u16_join by (unfold is_u16; lia).
  case_match; zify_bools; [lia|].
  destruct (read_exact_live s1 (Z.to_nat (size_t (pdu f) + 1)) (unit_id f :: pdu f ++ rest) Hl1)
    as (s2 & Hl2 & Hs2 & ->); [lia|cbn [length]; rewrite length_app; lia|].
  exists s2. split_and!; [done|lia|]. cbn [mbind option_bind negb].
  replace (Z.to_nat (size_t (pdu f) + 1)) with (S (length (pdu f))) by lia.
  cbn [take drop]. rewrite take_app_length, drop_app_length.
  cbn [app]. rewrite Hd. cbn [mbind outcome_bind length]. by rewrite decide_True by lia.
Qed.

(** C21. However the kernel cuts the byte stream into pieces, [read_frame] takes
    exactly one frame off it: it returns that frame and leaves what follows. *)
Theorem read_frame_stream f rest script buffer out :
  wf_frame f → live script → (length (encode f) ≤ length script)%nat →
  ∃ script', live script' ∧ (length script ≤ length script' + length (encode f))%nat ∧
    read_frame (mkIn (encode f ++ rest) script) buffer out =
    Some (Ok (true, encode f, f), mkIn rest script').
Proof. apply read_frame_stream_aux. Qed.

Lemma read_frame_stream_witness :
  ∃ script', read_frame (mkIn (encode (mkFrame 1 Byte.x00 [Byte.x41]) ++ str "next")
                              (replicate 8 (read_some 3))) [] Frame_default =
    Some (Ok (true, encode (mkFrame 1 Byte.x00 [Byte.x41]), mkFrame 1 Byte.x00 [Byte.x41]),
          mkIn (str "next") script').
Proof.
  destruct (read_frame_stream (mkFrame 1 Byte.x00 [Byte.x41]) (str "next")
              (replicate 8 (read_some 3)) [] Frame_default) as (s & _ & _ & E).
  - repeat split; cbn; lia.
  - repeat constructor; eexists; (split; [reflexivity|lia]).
  - cbn. lia.
  - exists s. exact E.
Defined.

Lemma write_exact_loop_spec script rest sent ok out script' :
  write_exact_loop script rest sent = Some (ok, out, script') →
  ∃ k, out = sent ++ take k rest ∧ (if ok then k = length rest else (k < length rest)%nat).
Proof.
  revert rest sent. induction script as [|s script IH]; intros rest sent H;
    destruct rest as [|b rest]; cbn [write_exact_loop] in H; simplify_eq;
    try (exists 0%nat; by rewrite app_nil_r).
  destruct s as [|n]; [simplify_eq; exists 0%nat; rewrite app_nil_r; cbn; split; [done|lia]|].
  set (l := b :: rest) in *. case_decide as Hk.
  { simplify_eq. exists 0%nat. rewrite app_nil_r. cbn. split; [done|lia]. }
  set (k := (n `min` _)%nat) in *.
  apply IH in H as (j & -> & Hj). rewrite length_drop in Hj. exists (k + j)%nat. split.
  - rewrite (take_split k (k + j) l) by lia. rewrite <-app_assoc. do 3 f_equal. lia.
  - destruct ok; lia.
Qed.

(** [write_frame] returns true only after the whole frame went out; when it
    returns false a proper prefix of it did. *)
Theorem write_frame_sent script f ok sent script' :
  write_frame script f = Some (ok, sent, script') →
  if ok then sent = encode f
  else ∃ k, sent = take k (encode f) ∧ (k < length (encode f))%nat.
Proof.
  intros (k & -> & Hk)%write_exact_loop_spec. destruct ok; cbn [app].
  - rewrite Hk. by apply take_ge.
  - eauto.
Qed.

Lemma write_frame_sent_witness :
  ∃ k, encode (mkFrame 1 Byte.x00 [Byte.x41]) = take k (encode (mkFrame 1 Byte.x00 [Byte.x41])) ++ [Byte.x41]
       ∧ (k < 8)%nat.
Proof.
  destruct (write_frame_sent [send_some 3; send_some 4; send_failed] (mkFrame 1 Byte.x00 [Byte.x41])
    false (take 7 (encode (mkFrame 1 Byte.x00 [Byte.x41]))) []) as (k & E & Hk).
  - reflexivity.
  - exists k. rewrite <-E. split; [reflexivity|]. exact Hk.
Defined.

End modbus.
