(* ===== verification/Protocol.v ===== *)
(** * The application protocol: common/Protocol.hpp, common/Protocol.cpp

    [Module protocol] is the namespace of the same name: the message types and
    payloads, the big-endian primitives, one encoder per message and the decoder
    of a PDU.  A [std::string] and a [std::vector<uint8_t>] are both lists of
    bytes.  A pointer and a length are the list of the bytes in between.

    The record fields carry a prefix where two structs of the source share a
    field name. *)
From S2P Require Import Prelude.
From S2P Require Import ModbusTcp.

Module protocol.

(** An [enum class : uint8_t] may hold values that are no enumerator; the
    decoder's [switch] refuses them, so they are no [MsgType] here but a [None]
    of [MsgType_of_byte]. *)
Inductive MsgType :=
| Register | AssignId | Chat | Deliver | Error | UserJoined | UserLeft
| ListUsers | UsersList | KeyOffer | RoomKeyOffer | BannedIds | PeerKey | RoomKey.

#[global] Instance MsgType_eq_dec : EqDecision MsgType.
Proof. solve_decision. Defined.

(** [static_cast<uint8_t>(type)] *)
Definition byte_of_MsgType (t : MsgType) : byte :=
  match t with
  | Register => Byte.x01 | AssignId => Byte.x02 | Chat => Byte.x03
  | Deliver => Byte.x04 | Error => Byte.x05 | UserJoined => Byte.x06
  | UserLeft => Byte.x07 | ListUsers => Byte.x08 | UsersList => Byte.x09
  | KeyOffer => Byte.x0a | RoomKeyOffer => Byte.x0b | BannedIds => Byte.x0c
  | PeerKey => Byte.x0d | RoomKey => Byte.x0e
  end.

Definition MsgType_of_byte (b : byte) : option MsgType :=
  match b with
  | Byte.x01 => Some Register | Byte.x02 => Some AssignId | Byte.x03 => Some Chat
  | Byte.x04 => Some Deliver | Byte.x05 => Some Error | Byte.x06 => Some UserJoined
  | Byte.x07 => Some UserLeft | Byte.x08 => Some ListUsers | Byte.x09 => Some UsersList
  | Byte.x0a => Some KeyOffer | Byte.x0b => Some RoomKeyOffer | Byte.x0c => Some BannedIds
  | Byte.x0d => Some PeerKey | Byte.x0e => Some RoomKey
  | _ => None
  end.

Definition kUint16Size : nat := 2.
Definition kUint32Size : nat := 4.
Definition kPduAppHeaderSize : nat := 2.
Definition kChatHeaderSize : nat := 5.
Definition kMaxU16Count : Z := 65535.

Definition kRecipientById : byte := Byte.x01.
Definition kRecipientByNickname : byte := Byte.x02.
Definition kRecipientBroadcast : byte := Byte.x03.

Definition kBroadcastRecipient : bytes := str "all".

(** ** Payloads *)

Record RegisterPayload := mkRegister { reg_nickname : bytes }.
Record AssignIdPayload := mkAssignId { assign_id : Z; create_room : bool }.
Record ChatPayload := mkChat {
  chat_from_id : Z;
  recipient_tag : byte;
  recipient_data : bytes;
  chat_text : bytes
}.
Record DeliverPayload := mkDeliver { deliver_from_id : Z; deliver_text : bytes }.
Record ErrorPayload := mkError { error_text : bytes }.
Record UserInfo := mkUserInfo { user_id : Z; user_nickname : bytes }.
Record UserJoinedPayload := mkUserJoined { joined_id : Z; joined_nickname : bytes }.
Record UserLeftPayload := mkUserLeft { left_id : Z; left_nickname : bytes }.
Record UsersListPayload := mkUsersList { list_users : list UserInfo }.
Record BannedIdsPayload := mkBannedIds { banned_ids : list Z }.

#[global] Instance RegisterPayload_eq_dec : EqDecision RegisterPayload.
Proof. solve_decision. Defined.
#[global] Instance AssignIdPayload_eq_dec : EqDecision AssignIdPayload.
Proof. solve_decision. Defined.
#[global] Instance ChatPayload_eq_dec : EqDecision ChatPayload.
Proof. solve_decision. Defined.
#[global] Instance DeliverPayload_eq_dec : EqDecision DeliverPayload.
Proof. solve_decision. Defined.
#[global] Instance ErrorPayload_eq_dec : EqDecision ErrorPayload.
Proof. solve_decision. Defined.
#[global] Instance UserInfo_eq_dec : EqDecision UserInfo.
Proof. solve_decision. Defined.
#[global] Instance UserJoinedPayload_eq_dec : EqDecision UserJoinedPayload.
Proof. solve_decision. Defined.
#[global] Instance UserLeftPayload_eq_dec : EqDecision UserLeftPayload.
Proof. solve_decision. Defined.
#[global] Instance UsersListPayload_eq_dec : EqDecision UsersListPayload.
Proof. solve_decision. Defined.
#[global] Instance BannedIdsPayload_eq_dec : EqDecision BannedIdsPayload.
Proof. solve_decision. Defined.

Inductive AppPayload :=
| PRegister (p : RegisterPayload)
| PAssignId (p : AssignIdPayload)
| PChat (p : ChatPayload)
| PDeliver (p : DeliverPayload)
| PError (p : ErrorPayload)
| PUserJoined (p : UserJoinedPayload)
| PUserLeft (p : UserLeftPayload)
| PListUsers
| PUsersList (p : UsersListPayload)
| PBannedIds (p : BannedIdsPayload).

#[global] Instance AppPayload_eq_dec : EqDecision AppPayload.
Proof. solve_decision. Defined.

Record AppMessage := mkMessage { msg_type : MsgType; msg_payload : AppPayload }.

#[global] Instance AppMessage_eq_dec : EqDecision AppMessage.
Proof. solve_decision. Defined.

(** ** Big-endian primitives *)

Definition read_u32_be (data : bytes) : outcome Z :=
  b0 ← at_ data 0; b1 ← at_ data 1; b2 ← at_ data 2; b3 ← at_ data 3;
  mret (Z.lor (Z.lor (Z.lor (Z.shiftl (u8 b0) 24) (Z.shiftl (u8 b1) 16))
                     (Z.shiftl (u8 b2) 8)) (u8 b3)).

Definition write_u32_be (out : bytes) (value : Z) : bytes :=
  out ++ [to_u8 (Z.land (Z.shiftr value 24) 255); to_u8 (Z.land (Z.shiftr value 16) 255);
          to_u8 (Z.land (Z.shiftr value 8) 255); to_u8 (Z.land value 255)].

Definition encode_u32_be (value : Z) : bytes := write_u32_be [] value.

Definition read_u16_be (data : bytes) : outcome Z :=
  b0 ← at_ data 0; b1 ← at_ data 1;
  mret (to_u16 (Z.lor (Z.shiftl (u8 b0) 8) (u8 b1))).

Definition write_u16_be (out : bytes) (value : Z) : bytes :=
  out ++ [to_u8 (Z.land (Z.shiftr value 8) 255); to_u8 (Z.land value 255)].

(** ** Strings *)

Definition encode_string (value : bytes) : outcome bytes :=
  if decide (kMaxU16Count < size_t value) then Throw (runtime_error (str "String too long"))
  else mret (write_u16_be [] (to_u16 (size_t value)) ++ value).

Definition decode_string (data : bytes) : outcome bytes :=
  if decide (length data < kUint16Size)%nat
  then Throw (runtime_error (str "Invalid string payload")) else
  str_len ← read_u16_be data;
  if decide (length data < kUint16Size + Z.to_nat str_len)%nat
  then Throw (runtime_error (str "Truncated string payload")) else
  range data kUint16Size (kUint16Size + Z.to_nat str_len).

(** ** Parts of messages *)

(** Returns the info and the new value of [offset]. *)
Definition decode_user_info (data : bytes) (offset : nat) : outcome (UserInfo * nat) :=
  if decide (length data < offset + kUint32Size)%nat
  then Throw (runtime_error (str "UserInfo id too short")) else
  p ← span_from data offset;
  id ← read_u32_be p;
  let offset := (offset + kUint32Size)%nat in
  p ← span_from data offset;
  nickname ← decode_string p;
  mret (mkUserInfo id nickname, (offset + (kUint16Size + length nickname))%nat).

Definition encode_user_info (info : UserInfo) : outcome bytes :=
  let out := write_u32_be [] (user_id info) in
  nickname_bytes ← encode_string (user_nickname info);
  mret (out ++ nickname_bytes).

Definition decode_chat_payload (payload : bytes) : outcome ChatPayload :=
  if decide (length payload < kChatHeaderSize)%nat
  then Throw (runtime_error (str "Chat payload too short")) else
  from_id ← read_u32_be payload;
  tag ← at_ payload kUint32Size;
  let offset := kChatHeaderSize in
  '(data, offset) ←
    (if decide (tag = kRecipientById) then
       if decide (length payload < offset + kUint32Size)%nat
       then Throw (runtime_error (str "Chat id recipient too short")) else
       data ← range payload offset (offset + kUint32Size);
       mret (data, (offset + kUint32Size)%nat)
     else if decide (tag = kRecipientByNickname) then
       p ← span_from payload offset;
       nickname ← decode_string p;
       data ← encode_string nickname;
       mret (data, (offset + length data)%nat)
     else if decide (tag = kRecipientBroadcast) then mret ([], offset)
     else Throw (runtime_error (str "Unknown recipient tag")));
  p ← span_from payload offset;
  text ← decode_string p;
  mret (mkChat from_id tag data text).

Definition decode_deliver_payload (payload : bytes) : outcome DeliverPayload :=
  if decide (length payload < kUint32Size)%nat
  then Throw (runtime_error (str "Deliver payload too short")) else
  from_id ← read_u32_be payload;
  p ← span_from payload kUint32Size;
  text ← decode_string p;
  mret (mkDeliver from_id text).

(** The loop of case UsersList. *)
Fixpoint decode_users (count : nat) (payload : bytes) (offset : nat) : outcome (list UserInfo) :=
  match count with
  | O => mret []
  | S count =>
      '(info, offset) ← decode_user_info payload offset;
      users ← decode_users count payload offset;
      mret (info :: users)
  end.

(** The loop of case BannedIds. *)
Fixpoint decode_ids (count : nat) (payload : bytes) (offset : nat) : outcome (list Z) :=
  match count with
  | O => mret []
  | S count =>
      p ← span_from payload offset;
      id ← read_u32_be p;
      ids ← decode_ids count payload (offset + kUint32Size);
      mret (id :: ids)
  end.

(** ** Frames *)

Definition make_frame (type : MsgType) (payload : bytes) (transaction_id : Z) : modbus.Frame :=
  modbus.mkFrame transaction_id Byte.x00
    ([modbus.kAppFunctionCode; byte_of_MsgType type] ++ payload).

(** The [switch] of [decode_app_message]. *)
Definition decode_payload (type : MsgType) (payload : bytes) : outcome AppPayload :=
  match type with
  | Register =>
      nickname ← decode_string payload;
      mret (PRegister (mkRegister nickname))
  | AssignId =>
      if decide (length payload < kUint32Size)%nat
      then Throw (runtime_error (str "AssignId payload too short")) else
      id ← read_u32_be payload;
      create_room ← (if decide (kUint32Size < length payload)%nat
                     then b ← at_ payload kUint32Size; mret (negb (bool_decide (b = Byte.x00)))
                     else mret false);
      mret (PAssignId (mkAssignId id create_room))
  | Chat | KeyOffer | RoomKeyOffer =>
      chat ← decode_chat_payload payload;
      mret (PChat chat)
  | Deliver | PeerKey | RoomKey =>
      deliver ← decode_deliver_payload payload;
      mret (PDeliver deliver)
  | Error =>
      text ← decode_string payload;
      mret (PError (mkError text))
  | UserJoined =>
      '(info, _) ← decode_user_info payload 0;
      mret (PUserJoined (mkUserJoined (user_id info) (user_nickname info)))
  | UserLeft =>
      '(info, _) ← decode_user_info payload 0;
      mret (PUserLeft (mkUserLeft (user_id info) (user_nickname info)))
  | ListUsers => mret PListUsers
  | UsersList =>
      if decide (length payload < kUint16Size)%nat
      then Throw (runtime_error (str "UsersList payload too short")) else
      count ← read_u16_be payload;
      users ← decode_users (Z.to_nat count) payload kUint16Size;
      mret (PUsersList (mkUsersList users))
  | BannedIds =>
      if decide (length payload < kUint16Size)%nat
      then Throw (runtime_error (str "BannedIds payload too short")) else
      count ← read_u16_be payload;
      if decide (length payload < kUint16Size + Z.to_nat count * kUint32Size)%nat
      then Throw (runtime_error (str "BannedIds payload truncated")) else
      ids ← decode_ids (Z.to_nat count) payload kUint16Size;
      mret (PBannedIds (mkBannedIds ids))
  end.

Definition decode_app_message (frame : modbus.Frame) : outcome AppMessage :=
  let pdu := modbus.pdu frame in
  if decide (length pdu < kPduAppHeaderSize)%nat
  then Throw (runtime_error (str "PDU too short")) else
  fc ← at_ pdu 0;
  if decide (fc ≠ modbus.kAppFunctionCode)
  then Throw (runtime_error (str "Unexpected function code")) else
  t ← at_ pdu 1;
  payload ← span_from pdu kPduAppHeaderSize;
  match MsgType_of_byte t with
  | None => Throw (runtime_error (str "Unknown message type"))
  | Some type =>
      p ← decode_payload type payload;
      mret (mkMessage type p)
  end.

(** ** Encoders *)

Definition encode_register (nickname : bytes) : outcome bytes := encode_string nickname.

Definition encode_assign_id (id : Z) (create_room : bool) : bytes :=
  encode_u32_be id ++ [if create_room then Byte.x01 else Byte.x00].

Definition encode_chat (chat : ChatPayload) : outcome bytes :=
  let out := write_u32_be [] (chat_from_id chat) in
  let out := out ++ [recipient_tag chat] in
  let out := out ++ recipient_data chat in
  text_bytes ← encode_string (chat_text chat);
  mret (out ++ text_bytes).

Definition encode_deliver (from_id : Z) (text : bytes) : outcome bytes :=
  let out := write_u32_be [] from_id in
  text_bytes ← encode_string text;
  mret (out ++ text_bytes).

Definition encode_error (text : bytes) : outcome bytes := encode_string text.

Definition encode_user_joined (id : Z) (nickname : bytes) : outcome bytes :=
  encode_user_info (mkUserInfo id nickname).

Definition encode_user_left (id : Z) (nickname : bytes) : outcome bytes :=
  encode_user_info (mkUserInfo id nickname).

Definition encode_list_users : bytes := [].

(** The loop of [encode_users_list]. *)
Fixpoint encode_users (users : list UserInfo) (out : bytes) : outcome bytes :=
  match users with
  | [] => mret out
  | user :: users =>
      b ← encode_user_info user;
      encode_users users (out ++ b)
  end.

Definition encode_users_list (users : list UserInfo) : outcome bytes :=
  if decide (kMaxU16Count < size_t users) then Throw (runtime_error (str "Too many users")) else
  encode_users users (write_u16_be [] (to_u16 (size_t users))).

Definition encode_banned_ids (ids : list Z) : outcome bytes :=
  if decide (kMaxU16Count < size_t ids) then Throw (runtime_error (str "Too many banned ids")) else
  mret (foldl write_u32_be (write_u16_be [] (to_u16 (size_t ids))) ids).

(** ** Wire formats

    The byte strings the primitives write, and the facts that tie readers and
    writers to them. *)

Definition be16 (v : Z) : bytes := [to_u8 (v / 256); to_u8 v].
Definition be32 (v : Z) : bytes :=
  [to_u8 (v / 16777216); to_u8 (v / 65536); to_u8 (v / 256); to_u8 v].
Definition lstr (s : bytes) : bytes := be16 (size_t s) ++ s.
Definition user_bytes (u : UserInfo) : bytes := be32 (user_id u) ++ lstr (user_nickname u).

Definition wf_string (s : bytes) : Prop := size_t s <= 65535.
Definition wf_user (u : UserInfo) : Prop := is_u32 (user_id u) ∧ wf_string (user_nickname u).

Lemma write_u16_be_spec out v : write_u16_be out v = out ++ be16 v.
Proof.
  unfold write_u16_be, be16. rewrite !land_255, Z.shiftr_div_pow2 by lia.
  do 2 f_equal; [|f_equal]; apply to_u8_eq; by rewrite Z.mod_mod.
Qed.

Lemma write_u32_be_spec out v : write_u32_be out v = out ++ be32 v.
Proof.
  unfold write_u32_be, be32. rewrite !land_255, !Z.shiftr_div_pow2 by lia.
  do 2 f_equal; [|f_equal; [|f_equal; [|f_equal]]]; apply to_u8_eq; by rewrite Z.mod_mod.
Qed.

Lemma read_u16_be_spec b0 b1 l : read_u16_be (b0 :: b1 :: l) = Ok (u8 b0 * 256 + u8 b1).
Proof.
  unfold read_u16_be. cbn. pose proof (u8_range b0). pose proof (u8_range b1).
  rewrite lor_shiftl_add by lia. change (2 ^ 8) with 256.
  rewrite to_u16_small by (unfold is_u16; lia). done.
Qed.

Lemma read_u32_be_spec b0 b1 b2 b3 l : read_u32_be (b0 :: b1 :: b2 :: b3 :: l) =
  Ok (u8 b0 * 16777216 + u8 b1 * 65536 + u8 b2 * 256 + u8 b3).
Proof.
  unfold read_u32_be. cbn. pose proof (u8_range b0). pose proof (u8_range b1).
  pose proof (u8_range b2). pose proof (u8_range b3). f_equal.
  rewrite <-!Z.lor_assoc.
  rewrite (lor_shiftl_add (u8 b2) (u8 b3) 8) by lia. change (2 ^ 8) with 256.
  rewrite (lor_shiftl_add (u8 b1) _ 16) by lia. change (2 ^ 16) with 65536.
  rewrite lor_shiftl_add by lia. change (2 ^ 24) with 16777216. lia.
Qed.

Lemma read_u16_be_iff l v : read_u16_be l = Ok v ↔ is_u16 v ∧ ∃ rest, l = be16 v ++ rest.
Proof.
  split.
  - destruct l as [|b0 [|b1 l]]; [done..|]. rewrite read_u16_be_spec. intros [= <-].
    pose proof (u8_range b0). pose proof (u8_range b1). split; [unfold is_u16; lia|].
    exists l. unfold be16. rewrite Z.div_add_l, Z.div_small, Z.add_0_r, to_u8_u8 by lia.
    rewrite (to_u8_eq _ (u8 b1)), to_u8_u8; [done|]. rewrite Z.add_comm, Z.mod_add; lia.
  - intros [Hv [rest ->]]. unfold be16. cbn [app]. rewrite read_u16_be_spec, !u8_to_u8.
    unfold is_u16 in Hv. f_equal. Z.to_euclidean_division_equations; lia.
Qed.

Lemma be32_join b0 b1 b2 b3 :
  let v := u8 b0 * 16777216 + u8 b1 * 65536 + u8 b2 * 256 + u8 b3 in
  is_u32 v ∧ be32 v = [b0; b1; b2; b3].
Proof.
  intros v. pose proof (u8_range b0). pose proof (u8_range b1).
  pose proof (u8_range b2). pose proof (u8_range b3). split; [unfold is_u32; lia|].
  unfold be32.
  rewrite (to_u8_eq (v / 16777216) (u8 b0)), (to_u8_eq (v / 65536) (u8 b1)),
    (to_u8_eq (v / 256) (u8 b2)), (to_u8_eq v (u8 b3)), !to_u8_u8; [done|..];
    subst v; Z.to_euclidean_division_equations; lia.
Qed.

Lemma read_u32_be_iff l v : read_u32_be l = Ok v ↔ is_u32 v ∧ ∃ rest, l = be32 v ++ rest.
Proof.
  split.
  - destruct l as [|b0 [|b1 [|b2 [|b3 l]]]]; [done..|]. rewrite read_u32_be_spec. intros [= <-].
    destruct (be32_join b0 b1 b2 b3) as [? ->]. eauto.
  - intros [Hv [rest ->]]. unfold be32. cbn [app]. rewrite read_u32_be_spec, !u8_to_u8.
    unfold is_u32 in Hv. f_equal. Z.to_euclidean_division_equations; lia.
Qed.

Lemma read_u32_be_ok l : (4 ≤ length l)%nat → ∃ v, read_u32_be l = Ok v.
Proof.
  destruct l as [|b0 [|b1 [|b2 [|b3 l]]]]; cbn [length]; try lia. intros _.
  rewrite read_u32_be_spec. eauto.
Qed.

Lemma read_u16_be_ok l : (2 ≤ length l)%nat → ∃ v, read_u16_be l = Ok v.
Proof.
  destruct l as [|b0 [|b1 l]]; cbn [length]; try lia. intros _.
  rewrite read_u16_be_spec. eauto.
Qed.

Lemma encode_string_iff s e : encode_string s = Ok e ↔ wf_string s ∧ e = lstr s.
Proof.
  unfold encode_string, kMaxU16Count, wf_string, lstr. case_decide; [split; [done|lia]|].
  rewrite write_u16_be_spec, to_u16_small by (unfold is_u16; lia). cbn.
  split; [intros [= <-]; split; [lia|done]|by intros [_ ->]].
Qed.

Lemma decode_string_iff l s : decode_string l = Ok s ↔ wf_string s ∧ ∃ rest, l = lstr s ++ rest.
Proof.
  unfold decode_string, kUint16Size. split.
  - intros H. inv_outcome. apply read_u16_be_iff in E as [Hv [rest ->]].
    unfold is_u16 in Hv. cbn [be16 app length] in n0.
    rewrite range_ok in H; [|lia|cbn [be16 app length]; lia]. inv_outcome.
    cbn [be16 app]. rewrite drop_0, Nat.sub_0_r.
    assert (length (take (Z.to_nat a) rest) = Z.to_nat a) as El by (rewrite length_take; lia).
    unfold wf_string, lstr. rewrite El, Z2Nat.id by lia. split; [lia|].
    exists (drop (Z.to_nat a) rest). cbn. by rewrite take_drop.
  - unfold wf_string, lstr. intros [Hs [rest ->]].
    rewrite decide_False by (cbn; lia). rewrite <-app_assoc.
    rewrite (proj2 (read_u16_be_iff _ (size_t s))) by (split; [unfold is_u16; lia|eauto]).
    cbn [mbind outcome_bind]. rewrite Nat2Z.id, decide_False
      by (cbn [be16 app length]; rewrite length_app; lia).
    rewrite range_ok; [|lia|cbn [be16 app length]; rewrite length_app; lia].
    cbn [be16 app drop]. f_equal. replace (2 + length s - 2)%nat with (length s) by lia.
    apply take_app_length.
Qed.

Lemma decode_string_no_ub l : no_ub (decode_string l).
Proof.
  unfold decode_string, kUint16Size. case_decide; [done|].
  destruct (read_u16_be_ok l) as [v ->]; [lia|]. cbn. case_decide; [done|].
  rewrite range_ok by lia. done.
Qed.

Lemma length_lstr s : length (lstr s) = (2 + length s)%nat.
Proof. done. Qed.

Lemma length_user_bytes u : length (user_bytes u) = (6 + length (user_nickname u))%nat.
Proof. done. Qed.

(** ** Parts of messages *)

Lemma encode_user_info_iff u e :
  encode_user_info u = Ok e ↔ wf_string (user_nickname u) ∧ e = user_bytes u.
Proof.
  unfold encode_user_info. rewrite write_u32_be_spec, bind_ok.
  setoid_rewrite encode_string_iff. unfold user_bytes, mret, outcome_ret. naive_solver.
Qed.

Lemma drop_app_prefix (off : nat) (data a b : bytes) :
  drop off data = a ++ b → (off ≤ length data)%nat →
  drop (off + length a) data = b ∧ (off + length a ≤ length data)%nat.
Proof.
  intros H Hle. pose proof (f_equal length H) as Hl. rewrite length_drop, length_app in Hl.
  split; [|lia]. by rewrite <-drop_drop, H, drop_app_length.
Qed.

Lemma decode_user_info_iff data off u off' : (off ≤ length data)%nat →
  decode_user_info data off = Ok (u, off') ↔
  wf_user u ∧ off' = (off + length (user_bytes u))%nat ∧ ∃ rest, drop off data = user_bytes u ++ rest.
Proof.
  intros Hoff. unfold decode_user_info, kUint32Size, kUint16Size, wf_user, user_bytes. split.
  - case_decide; [done|]. rewrite !span_from_ok by lia. cbn [mbind outcome_bind].
    rewrite !bind_ok. intros (id & Hid & H'). rewrite bind_ok in H'.
    destruct H' as (nick & Hn & [= <- <-]). cbn [user_id user_nickname].
    apply read_u32_be_iff in Hid as [Hid [r1 E1]].
    apply (drop_app_prefix off data (be32 id)) in E1 as E2; [|done]. destruct E2 as [E2 _].
    cbn [length be32] in E2. rewrite E2 in Hn. apply decode_string_iff in Hn as [Hn [r2 ->]].
    split_and!; [done..| |].
    + rewrite length_app, length_lstr. cbn. lia.
    + exists r2. by rewrite E1, <-app_assoc.
  - intros ([Hid Hn] & -> & rest & E). destruct u as [id nick]; cbn [user_id user_nickname] in *.
    rewrite <-app_assoc in E. destruct (drop_app_prefix _ _ _ _ E Hoff) as [E2 Hle].
    cbn [length be32] in E2, Hle. rewrite decide_False by lia.
    rewrite !span_from_ok by lia. cbn [mbind outcome_bind]. rewrite E, E2.
    rewrite (proj2 (read_u32_be_iff _ id)) by eauto. cbn [mbind outcome_bind].
    rewrite (proj2 (decode_string_iff _ nick)) by eauto. cbn [mbind outcome_bind].
    do 2 f_equal. rewrite length_app, length_lstr. cbn. lia.
Qed.

Lemma decode_user_info_no_ub data off : (off ≤ length data)%nat → no_ub (decode_user_info data off).
Proof.
  intros Hoff. unfold decode_user_info, kUint32Size. case_decide; [done|].
  rewrite !span_from_ok by lia. cbn [mbind outcome_bind].
  destruct (read_u32_be_ok (drop off data)) as [v ->]; [rewrite length_drop; lia|].
  cbn [mbind outcome_bind]. apply no_ub_bind; [apply decode_string_no_ub|done].
Qed.

Lemma decode_user_info_bound data off u off' : (off ≤ length data)%nat →
  decode_user_info data off = Ok (u, off') → (off' ≤ length data)%nat.
Proof.
  intros Hoff (_ & -> & rest & E)%decode_user_info_iff; [|done].
  by apply drop_app_prefix in E as [_ ?].
Qed.

Lemma decode_users_iff n data off us : (off ≤ length data)%nat →
  decode_users n data off = Ok us ↔
  length us = n ∧ Forall wf_user us ∧ ∃ rest, drop off data = concat (user_bytes <$> us) ++ rest.
Proof.
  revert off us. induction n as [|n IH]; intros off us Hoff; cbn [decode_users].
  { split; [intros [= <-]; cbn; eauto|]. intros (Hl & _). by destruct us. }
  rewrite bind_ok. split.
  - intros ([u off'] & Hu & H). apply bind_ok in H as (us' & Hus & [= <-]).
    pose proof (decode_user_info_bound _ _ _ _ Hoff Hu) as Hb.
    apply decode_user_info_iff in Hu as (Hwf & -> & rest & E); [|done].
    apply IH in Hus as (<- & Hall & r2 & E2); [|done].
    destruct (drop_app_prefix _ _ _ _ E Hoff) as [E3 _]. rewrite E3 in E2. subst rest.
    split_and!; [done|by constructor|]. exists r2. cbn. by rewrite E, <-app_assoc.
  - intros (Hl & Hall & rest & E). destruct us as [|u us]; [done|].
    apply Forall_cons in Hall as [Hwf Hall]. cbn [fmap list_fmap concat] in E. rewrite <-app_assoc in E.
    destruct (drop_app_prefix _ _ _ _ E Hoff) as [E2 Hle].
    exists (u, (off + length (user_bytes u))%nat). split; [apply decode_user_info_iff; eauto|].
    rewrite bind_ok. exists us. split; [|done]. apply IH; [done|]. split_and!; [by injection Hl|done|eauto].
Qed.

Lemma decode_users_no_ub n data off : (off ≤ length data)%nat → no_ub (decode_users n data off).
Proof.
  revert off. induction n as [|n IH]; intros off Hoff; cbn; [done|].
  apply no_ub_bind; [by apply decode_user_info_no_ub|]. intros [u off'] Hu.
  apply no_ub_bind; [|done]. eauto using decode_user_info_bound.
Qed.

Lemma decode_ids_iff n data off ids : (off + n * 4 ≤ length data)%nat →
  decode_ids n data off = Ok ids ↔
  length ids = n ∧ Forall is_u32 ids ∧ ∃ rest, drop off data = concat (be32 <$> ids) ++ rest.
Proof.
  revert off ids. induction n as [|n IH]; intros off ids Hoff; cbn [decode_ids].
  { split; [intros [= <-]; cbn; eauto|]. intros (Hl & _). by destruct ids. }
  unfold kUint32Size. rewrite span_from_ok by lia. cbn [mbind outcome_bind]. rewrite bind_ok. split.
  - intros (id & Hid & H). apply bind_ok in H as (ids' & Hids & [= <-]).
    apply read_u32_be_iff in Hid as (Hid & rest & E).
    apply IH in Hids as (<- & Hall & r2 & E2); [|lia].
    destruct (drop_app_prefix _ _ _ _ E ltac:(lia)) as [E3 _]. cbn [length be32] in E3.
    rewrite E3 in E2. subst rest.
    split_and!; [done|by constructor|]. exists r2. cbn. by rewrite E.
  - intros (Hl & Hall & rest & E). destruct ids as [|id ids]; [done|].
    apply Forall_cons in Hall as [Hwf Hall]. cbn [fmap list_fmap concat] in E. rewrite <-app_assoc in E.
    destruct (drop_app_prefix _ _ _ _ E ltac:(lia)) as [E2 Hle]. cbn [length be32] in E2.
    exists id. split; [rewrite E; apply read_u32_be_iff; eauto|].
    rewrite bind_ok. exists ids. split; [|done]. apply IH; [lia|]. split_and!; [by injection Hl|done|eauto].
Qed.

Lemma decode_ids_no_ub n data off : (off + n * 4 ≤ length data)%nat → no_ub (decode_ids n data off).
Proof.
  revert off. induction n as [|n IH]; intros off Hoff; cbn; [done|].
  unfold kUint32Size. rewrite span_from_ok by lia. cbn [mbind outcome_bind].
  destruct (read_u32_be_ok (drop off data)) as [v ->]; [rewrite length_drop; lia|].
  cbn [mbind outcome_bind]. apply no_ub_bind; [apply IH; lia|done].
Qed.

(** The recipient bytes that go with a recipient tag. *)
Definition wf_recipient (tag : byte) (data : bytes) : Prop :=
  (tag = kRecipientById ∧ length data = 4%nat) ∨
  (tag = kRecipientByNickname ∧ ∃ nickname, wf_string nickname ∧ data = lstr nickname) ∨
  (tag = kRecipientBroadcast ∧ data = []).

Definition wf_chat (c : ChatPayload) : Prop :=
  is_u32 (chat_from_id c) ∧ wf_recipient (recipient_tag c) (recipient_data c) ∧
  wf_string (chat_text c).

Definition chat_bytes (c : ChatPayload) : bytes :=
  be32 (chat_from_id c) ++ [recipient_tag c] ++ recipient_data c ++ lstr (chat_text c).

Lemma encode_chat_iff c e :
  encode_chat c = Ok e ↔ wf_string (chat_text c) ∧ e = chat_bytes c.
Proof.
  unfold encode_chat, chat_bytes. rewrite write_u32_be_spec, bind_ok.
  setoid_rewrite encode_string_iff. rewrite <-!app_assoc.
  unfold mret, outcome_ret. naive_solver.
Qed.

(** The recipient part of [decode_chat_payload]. *)
Lemma decode_chat_recipient tag payload off :
  (5 ≤ length payload)%nat →
  (if decide (tag = kRecipientById) then
     if decide (length payload < 5 + 4)%nat
     then Throw (runtime_error (str "Chat id recipient too short")) else
     data ← range payload 5 (5 + 4); mret (data, (5 + 4)%nat)
   else if decide (tag = kRecipientByNickname) then
     p ← span_from payload 5;
     nickname ← decode_string p;
     data ← encode_string nickname;
     mret (data, (5 + length data)%nat)
   else if decide (tag = kRecipientBroadcast) then mret ([], 5%nat)
   else Throw (runtime_error (str "Unknown recipient tag"))) = Ok off ↔
  wf_recipient tag off.1 ∧ off.2 = (5 + length off.1)%nat ∧ ∃ rest, drop 5 payload = off.1 ++ rest.
Proof.
  intros Hl. destruct off as [data off]; cbn [fst snd]. unfold wf_recipient.
  destruct (decide (tag = kRecipientById)) as [->|N1].
  { case_decide; [|rewrite range_ok by lia].
    - split; [done|]. intros ([[_ Hd]|[[? _]|[? _]]] & _ & rest & E); [|done..].
      apply (f_equal length) in E. rewrite length_drop, length_app in E. lia.
    - cbn [mbind outcome_bind]. split.
      + intros [= <- <-]. rewrite length_take, length_drop. split_and!; [left; split; [done|lia]|lia|].
        exists (drop 9 payload). rewrite <-(take_drop 4 (drop 5 payload)) at 1. by rewrite drop_drop.
      + intros ([[_ Hd]|[[? _]|[? _]]] & -> & rest & E); [|done..].
        rewrite E, Hd. change (5 + 4 - 5)%nat with 4%nat. by rewrite <-Hd, take_app_length. }
  destruct (decide (tag = kRecipientByNickname)) as [->|N2].
  { rewrite span_from_ok by lia. cbn [mbind outcome_bind]. rewrite bind_ok. split.
    - intros (nick & Hn & H). apply bind_ok in H as (d & Hd & [= <- <-]).
      apply decode_string_iff in Hn as [Hn [rest E]]. apply encode_string_iff in Hd as [_ ->].
      split_and!; eauto 10.
    - intros ([[? _]|[(_ & nick & Hn & ->)|[? _]]] & -> & rest & E); [done| |done].
      exists nick. split; [apply decode_string_iff; eauto|].
      rewrite bind_ok. exists (lstr nick). split; [by apply encode_string_iff|done]. }
  destruct (decide (tag = kRecipientBroadcast)) as [->|N3].
  { split; [intros [= <- <-]; split_and!; eauto|].
    intros ([[? _]|[[? _]|[_ ->]]] & -> & _); [done..|]. done. }
  split; [done|]. naive_solver.
Qed.

Lemma decode_chat_payload_iff payload c :
  decode_chat_payload payload = Ok c ↔ wf_chat c ∧ ∃ rest, payload = chat_bytes c ++ rest.
Proof.
  unfold decode_chat_payload, wf_chat, chat_bytes, kUint32Size, kChatHeaderSize. split.
  - case_decide; [done|]. intros (id & Hid & H')%bind_ok. apply bind_ok in H' as (tag & Ht & H').
    apply bind_ok in H' as (off & Hoff & H'). apply decode_chat_recipient in Hoff; [|lia].
    destruct off as [data off]; cbn [fst snd] in Hoff. destruct Hoff as (Hr & -> & rest & E).
    destruct (drop_app_prefix _ _ _ _ E ltac:(lia)) as [E2 Hle].
    rewrite span_from_ok in H' by lia. cbn [mbind outcome_bind] in H'.
    apply bind_ok in H' as (text & Htext & [= <-]).
    rewrite E2 in Htext. apply decode_string_iff in Htext as [Htext [r2 ->]].
    apply read_u32_be_iff in Hid as [Hid [r1 ->]]. cbn in Ht, E.
    destruct r1 as [|b r1]; [done|]. injection Ht as ->. cbn in E. rewrite drop_0 in E. subst r1.
    cbn [chat_from_id recipient_tag recipient_data chat_text]. split; [done|].
    exists r2. by rewrite <-!app_assoc.
  - intros [(Hid & Hr & Ht) [rest ->]]. destruct c as [id tag data text].
    cbn [chat_from_id recipient_tag recipient_data chat_text] in *.
    rewrite <-!app_assoc. set (payload := be32 id ++ _).
    assert (length payload = 5 + length data + length (lstr text ++ rest))%nat as Hl.
    { subst payload. rewrite !length_app. cbn [length be32]. lia. }
    rewrite decide_False by lia.
    rewrite bind_ok. exists id. split; [apply read_u32_be_iff; subst payload; eauto|].
    rewrite bind_ok. exists tag. split; [done|].
    rewrite bind_ok. exists (data, (5 + length data)%nat). split.
    { apply decode_chat_recipient; [lia|]. cbn [fst snd]. split_and!; [done..|]. by eexists. }
    rewrite span_from_ok by lia. cbn [mbind outcome_bind]. rewrite bind_ok. exists text.
    split; [|done]. apply decode_string_iff. split; [done|]. exists rest.
    subst payload. cbn. by rewrite drop_app_length.
Qed.

Lemma decode_chat_payload_no_ub payload : no_ub (decode_chat_payload payload).
Proof.
  unfold decode_chat_payload, kUint32Size, kChatHeaderSize. case_decide; [done|].
  destruct (read_u32_be_ok payload) as [v ->]; [lia|]. cbn [mbind outcome_bind].
  destruct (at_ok payload 4) as (tag & -> & _); [lia|]. cbn [mbind outcome_bind].
  apply no_ub_bind.
  - repeat case_decide; try done.
    + rewrite range_ok by lia. done.
    + rewrite span_from_ok by lia. cbn [mbind outcome_bind].
      apply no_ub_bind; [apply decode_string_no_ub|]. intros nick _.
      apply no_ub_bind; [|done]. unfold encode_string. by case_decide.
  - intros off Hoff. apply decode_chat_recipient in Hoff as (_ & Ho & rest & E); [|lia].
    destruct off as [data off]; cbn [fst snd] in *. subst off.
    destruct (drop_app_prefix _ _ _ _ E ltac:(lia)) as [_ Hle].
    rewrite span_from_ok by lia. cbn [mbind outcome_bind].
    apply no_ub_bind; [apply decode_string_no_ub|done].
Qed.

Definition wf_deliver (d : DeliverPayload) : Prop :=
  is_u32 (deliver_from_id d) ∧ wf_string (deliver_text d).
Definition deliver_bytes (d : DeliverPayload) : bytes :=
  be32 (deliver_from_id d) ++ lstr (deliver_text d).

Lemma encode_deliver_iff id text e :
  encode_deliver id text = Ok e ↔ wf_string text ∧ e = deliver_bytes (mkDeliver id text).
Proof.
  unfold encode_deliver, deliver_bytes. rewrite write_u32_be_spec, bind_ok.
  setoid_rewrite encode_string_iff. unfold mret, outcome_ret. naive_solver.
Qed.

Lemma decode_deliver_payload_iff payload d :
  decode_deliver_payload payload = Ok d ↔ wf_deliver d ∧ ∃ rest, payload = deliver_bytes d ++ rest.
Proof.
  unfold decode_deliver_payload, wf_deliver, deliver_bytes, kUint32Size. split.
  - case_decide; [done|]. intros (id & Hid & H')%bind_ok.
    rewrite span_from_ok in H' by lia. cbn [mbind outcome_bind] in H'.
    apply bind_ok in H' as (text & Ht & [= <-]).
    apply read_u32_be_iff in Hid as [Hid [r1 ->]]. apply (decode_string_iff r1) in Ht as [Ht [r2 ->]].
    split; [done|]. exists r2. by rewrite <-app_assoc.
  - intros [[Hid Ht] [rest ->]]. destruct d as [id text]; cbn [deliver_from_id deliver_text] in *.
    rewrite <-app_assoc. rewrite decide_False by (cbn; lia).
    rewrite bind_ok. exists id. split; [apply read_u32_be_iff; eauto|].
    rewrite span_from_ok by (cbn; lia). cbn [mbind outcome_bind]. rewrite bind_ok. exists text.
    split; [|done]. apply (decode_string_iff (lstr text ++ rest)). eauto.
Qed.

Lemma decode_deliver_payload_no_ub payload : no_ub (decode_deliver_payload payload).
Proof.
  unfold decode_deliver_payload, kUint32Size. case_decide; [done|].
  destruct (read_u32_be_ok payload) as [v ->]; [lia|]. cbn [mbind outcome_bind].
  rewrite span_from_ok by lia. cbn [mbind outcome_bind].
  apply no_ub_bind; [apply decode_string_no_ub|done].
Qed.

(** ** Whole messages *)

(** The encoder that goes with each alternative of the payload. *)
Definition encode_payload (p : AppPayload) : outcome bytes :=
  match p with
  | PRegister r => encode_register (reg_nickname r)
  | PAssignId a => mret (encode_assign_id (assign_id a) (create_room a))
  | PChat c => encode_chat c
  | PDeliver d => encode_deliver (deliver_from_id d) (deliver_text d)
  | PError e => encode_error (error_text e)
  | PUserJoined j => encode_user_joined (joined_id j) (joined_nickname j)
  | PUserLeft l => encode_user_left (left_id l) (left_nickname l)
  | PListUsers => mret encode_list_users
  | PUsersList l => encode_users_list (list_users l)
  | PBannedIds b => encode_banned_ids (banned_ids b)
  end.

(** The payload holds the alternative its message type calls for, the integers
    are 32-bit and the strings and lists are short enough for a 16-bit count. *)
Definition wf_payload (t : MsgType) (p : AppPayload) : Prop :=
  match t, p with
  | Register, PRegister r => wf_string (reg_nickname r)
  | AssignId, PAssignId a => is_u32 (assign_id a)
  | (Chat | KeyOffer | RoomKeyOffer), PChat c => wf_chat c
  | (Deliver | PeerKey | RoomKey), PDeliver d => wf_deliver d
  | Error, PError e => wf_string (error_text e)
  | UserJoined, PUserJoined j => is_u32 (joined_id j) ∧ wf_string (joined_nickname j)
  | UserLeft, PUserLeft l => is_u32 (left_id l) ∧ wf_string (left_nickname l)
  | ListUsers, PListUsers => True
  | UsersList, PUsersList l => Forall wf_user (list_users l) ∧ size_t (list_users l) <= 65535
  | BannedIds, PBannedIds b => Forall is_u32 (banned_ids b) ∧ size_t (banned_ids b) <= 65535
  | _, _ => False
  end.

Definition wf_message (m : AppMessage) : Prop := wf_payload (msg_type m) (msg_payload m).

Lemma encode_users_spec us out : Forall wf_user us →
  encode_users us out = Ok (out ++ concat (user_bytes <$> us)).
Proof.
  intros H. revert out. induction H as [|u us [Hid Hn] Hall IH]; intros out; cbn [encode_users].
  { cbn. by rewrite app_nil_r. }
  rewrite (proj2 (encode_user_info_iff u (user_bytes u))) by done.
  cbn [mbind outcome_bind]. rewrite IH. cbn [fmap list_fmap concat]. by rewrite app_assoc.
Qed.

Lemma foldl_write_u32_be ids out : foldl write_u32_be out ids = out ++ concat (be32 <$> ids).
Proof.
  revert out. induction ids as [|id ids IH]; intros out; cbn [foldl]; [cbn; by rewrite app_nil_r|].
  rewrite IH, write_u32_be_spec. cbn [fmap list_fmap concat]. by rewrite app_assoc.
Qed.

Lemma length_concat_be32 ids : length (concat (be32 <$> ids)) = (length ids * 4)%nat.
Proof. induction ids as [|id ids IH]; [done|]. cbn [fmap list_fmap concat length]. rewrite length_app, IH. cbn. lia. Qed.

(** A 16-bit element count in front of the elements. *)
Lemma decode_count n rest : Z.of_nat n <= 65535 →
  read_u16_be (be16 (Z.of_nat n) ++ rest) = Ok (Z.of_nat n).
Proof. intros. apply read_u16_be_iff. split; [unfold is_u16; lia|eauto]. Qed.

Lemma decode_user_info_head id nick rest : is_u32 id → wf_string nick →
  decode_user_info (user_bytes (mkUserInfo id nick) ++ rest) 0 =
  Ok (mkUserInfo id nick, length (user_bytes (mkUserInfo id nick))).
Proof. intros. apply decode_user_info_iff; [lia|]. unfold wf_user. eauto. Qed.

Lemma decode_string_head s rest : wf_string s → decode_string (lstr s ++ rest) = Ok s.
Proof. intros. apply decode_string_iff. eauto. Qed.

Lemma decode_chat_head c rest : wf_chat c →
  encode_chat c = Ok (chat_bytes c) ∧ decode_chat_payload (chat_bytes c ++ rest) = Ok c.
Proof.
  intros H. split; [apply encode_chat_iff; split; [apply H|done]|].
  apply decode_chat_payload_iff. eauto.
Qed.

Lemma decode_deliver_head id text rest : wf_deliver (mkDeliver id text) →
  encode_deliver id text = Ok (deliver_bytes (mkDeliver id text)) ∧
  decode_deliver_payload (deliver_bytes (mkDeliver id text) ++ rest) = Ok (mkDeliver id text).
Proof.
  intros H. split; [apply encode_deliver_iff; split; [apply H|done]|].
  apply decode_deliver_payload_iff. eauto.
Qed.

Lemma decode_users_list us rest : Forall wf_user us → size_t us <= 65535 →
  ∃ e, encode_users_list us = Ok e ∧
       decode_payload UsersList (e ++ rest) = Ok (PUsersList (mkUsersList us)).
Proof.
  intros Hall Hn. unfold encode_users_list, kMaxU16Count. rewrite decide_False by lia.
  eexists. split; [by apply encode_users_spec|].
  rewrite write_u16_be_spec, to_u16_small by (unfold is_u16; lia).
  cbn [app decode_payload]. unfold kUint16Size.
  rewrite decide_False by (cbn; lia). rewrite <-app_assoc, decode_count by lia.
  cbn [mbind outcome_bind]. rewrite Nat2Z.id.
  assert (decode_users (length us) (be16 (size_t us) ++ concat (user_bytes <$> us) ++ rest) 2 = Ok us)
    as ->; [|done]. apply decode_users_iff; [rewrite length_app; cbn [length be16]; lia|]. eauto.
Qed.

Lemma decode_banned_ids ids rest : Forall is_u32 ids → size_t ids <= 65535 →
  ∃ e, encode_banned_ids ids = Ok e ∧
       decode_payload BannedIds (e ++ rest) = Ok (PBannedIds (mkBannedIds ids)).
Proof.
  intros Hall Hn. unfold encode_banned_ids, kMaxU16Count. rewrite decide_False by lia.
  eexists. split; [done|].
  rewrite foldl_write_u32_be, write_u16_be_spec, to_u16_small by (unfold is_u16; lia).
  cbn [app decode_payload]. unfold kUint16Size, kUint32Size.
  rewrite decide_False by (cbn; lia). rewrite <-app_assoc, decode_count by lia.
  cbn [mbind outcome_bind]. rewrite Nat2Z.id.
  assert (2 + length ids * 4 ≤ length (be16 (size_t ids) ++ concat (be32 <$> ids) ++ rest))%nat.
  { rewrite !length_app, length_concat_be32. cbn [length be16]. lia. }
  rewrite decide_False by lia.
  assert (decode_ids (length ids) (be16 (size_t ids) ++ concat (be32 <$> ids) ++ rest) 2 = Ok ids)
    as ->; [|done]. apply decode_ids_iff; eauto.
Qed.

Lemma decode_payload_encode t p rest : wf_payload t p →
  ∃ e, encode_payload p = Ok e ∧ decode_payload t (e ++ rest) = Ok p.
Proof.
  destruct t, p as [[nick]|[id room]|c|[id text]|[text]|[id nick]|[id nick]| |[us]|[ids]];
    try done; cbn [wf_payload encode_payload]; intros Hwf.
  all: try (destruct (decode_chat_head c rest Hwf) as [E1 E2]; eexists;
            split; [exact E1|]; cbn [decode_payload]; by rewrite E2).
  all: try (destruct (decode_deliver_head id text rest Hwf) as [E1 E2]; eexists;
            split; [exact E1|]; cbn [decode_payload]; by rewrite E2).
  all: try (destruct Hwf; eexists; split; [by apply encode_user_info_iff|];
            cbn [decode_payload]; by rewrite decode_user_info_head).
  all: try (eexists; split; [by apply encode_string_iff|];
            cbn [decode_payload]; by rewrite decode_string_head).
  - eexists. split; [done|]. cbn [decode_payload assign_id create_room] in *.
    unfold encode_assign_id, encode_u32_be, kUint32Size.
    rewrite write_u32_be_spec, decide_False by (cbn; lia). rewrite <-!app_assoc.
    rewrite (proj2 (read_u32_be_iff _ id)) by eauto. by destruct room.
  - by eexists.
  - destruct Hwf. by apply decode_users_list.
  - destruct Hwf. by apply decode_banned_ids.
Qed.

Lemma decode_payload_wf t l p : decode_payload t l = Ok p → wf_payload t p.
Proof.
  destruct t; cbn [decode_payload]; intros H; inv_outcome; cbn [wf_payload];
    repeat match goal with
    | H : decode_string _ = Ok _ |- _ => apply decode_string_iff in H as [? _]
    | H : read_u32_be _ = Ok _ |- _ => apply read_u32_be_iff in H as [? _]
    | H : decode_chat_payload _ = Ok _ |- _ => apply decode_chat_payload_iff in H as [? _]
    | H : decode_deliver_payload _ = Ok _ |- _ => apply decode_deliver_payload_iff in H as [? _]
    | H : decode_user_info _ 0 = Ok ?a |- _ =>
        destruct a; apply decode_user_info_iff in H as [[? ?] _]; [|lia]
    end; try done; cbn in *; inv_outcome; try done; unfold kUint16Size, kUint32Size in *.
  - apply read_u16_be_iff in E as [Hu _]. unfold is_u16 in Hu.
    apply decode_users_iff in E0 as (Hl & Hall & _); [|lia]. split; [done|lia].
  - apply read_u16_be_iff in E as [Hu _]. unfold is_u16 in Hu.
    apply decode_ids_iff in E0 as (Hl & Hall & _); [|lia]. split; [done|lia].
Qed.

Lemma decode_payload_no_ub t l : no_ub (decode_payload t l).
Proof.
  destruct t; cbn [decode_payload]; unfold kUint16Size, kUint32Size;
    try (apply no_ub_bind; [|done];
         first [apply decode_string_no_ub | apply decode_chat_payload_no_ub
               |apply decode_deliver_payload_no_ub]);
    try (apply no_ub_bind; [apply decode_user_info_no_ub; lia|by intros []]);
    try done; (case_decide; [done|]).
  - destruct (read_u32_be_ok l) as [v ->]; [lia|]. cbn [mbind outcome_bind].
    apply no_ub_bind; [|done]. case_decide; [|done].
    destruct (at_ok l 4) as (b & -> & _); [lia|done].
  - destruct (read_u16_be_ok l) as [v ->]; [lia|]. cbn [mbind outcome_bind].
    apply no_ub_bind; [apply decode_users_no_ub; lia|done].
  - destruct (read_u16_be_ok l) as [v ->]; [lia|]. cbn [mbind outcome_bind].
    case_decide; [done|]. apply no_ub_bind; [apply decode_ids_no_ub; lia|done].
Qed.

Lemma MsgType_of_byte_of_MsgType t : MsgType_of_byte (byte_of_MsgType t) = Some t.
Proof. by destruct t. Qed.

(** What a frame that [decode_app_message] accepts looks like. *)
Lemma decode_app_message_iff frame m :
  decode_app_message frame = Ok m ↔
  ∃ payload, modbus.pdu frame = modbus.kAppFunctionCode :: byte_of_MsgType (msg_type m) :: payload ∧
    decode_payload (msg_type m) payload = Ok (msg_payload m).
Proof.
  unfold decode_app_message, kPduAppHeaderSize.
  destruct (modbus.pdu frame) as [|fc [|t payload]]; cbn [length];
    [rewrite decide_True by lia; naive_solver..|].
  rewrite decide_False by lia. cbn [mbind outcome_bind at_ lookup list_lookup].
  split.
  - case_decide as Hfc; [done|]. subst fc.
    rewrite span_from_ok by (cbn; lia). cbn [drop mbind outcome_bind].
    destruct (MsgType_of_byte t) as [ty|] eqn:Et; [|done].
    intros (p & Hp & [= <-])%bind_ok. exists payload. rewrite drop_0 in Hp.
    split; [|done]. cbn [msg_type]. clear -Et. revert Et. destruct t; intros [= <-]; done.
  - intros (payload' & [= -> -> ->] & Hp). rewrite decide_False by (intros []; done).
    rewrite span_from_ok by (cbn; lia). cbn [drop mbind outcome_bind].
    rewrite MsgType_of_byte_of_MsgType, drop_0, Hp. by destruct m.
Qed.

(** Who a chat payload is addressed to. *)
Inductive Recipient :=
| ToId (id : Z)
| ToNickname (nickname : bytes)
| ToAll.

Definition addressed_to (c : ChatPayload) : option Recipient :=
  if decide (recipient_tag c = kRecipientById) then
    match read_u32_be (recipient_data c) with Ok id => Some (ToId id) | _ => None end
  else if decide (recipient_tag c = kRecipientByNickname) then
    match decode_string (recipient_data c) with Ok n => Some (ToNickname n) | _ => None end
  else if decide (recipient_tag c = kRecipientBroadcast) then Some ToAll else None.

Definition wf_addressee (r : Recipient) : Prop :=
  match r with ToId id => is_u32 id | ToNickname n => wf_string n | ToAll => True end.

Lemma addressed_to_wf chat r : wf_chat chat → addressed_to chat = Some r →
  match r with
  | ToId id => recipient_tag chat = kRecipientById ∧ length (recipient_data chat) = 4%nat ∧
               read_u32_be (recipient_data chat) = Ok id
  | ToNickname n => recipient_tag chat = kRecipientByNickname ∧
                    decode_string (recipient_data chat) = Ok n
  | ToAll => recipient_tag chat = kRecipientBroadcast
  end.
Proof.
  intros (_ & Hr & _). unfold addressed_to, wf_recipient in *.
  destruct Hr as [[Ht Hl]|[(Ht & n & Hn & Hd)|[Ht Hd]]]; rewrite Ht.
  - rewrite decide_True by done. destruct (read_u32_be _); naive_solver.
  - rewrite decide_False, decide_True by done. destruct (decode_string _); naive_solver.
  - rewrite !decide_False, decide_True by done. naive_solver.
Qed.

Lemma addressed_to_total chat : wf_chat chat → is_Some (addressed_to chat).
Proof.
  intros (_ & Hr & _). unfold addressed_to, wf_recipient in *.
  destruct Hr as [[Ht Hl]|[(Ht & n & Hn & Hd)|[Ht Hd]]]; rewrite Ht.
  - rewrite decide_True by done. destruct (read_u32_be_ok (recipient_data chat)) as [v ->]; [lia|done].
  - rewrite decide_False, decide_True, Hd by done.
    rewrite <-(app_nil_r (lstr n)), decode_string_head by done. done.
  - by rewrite !decide_False, decide_True by done.
Qed.

(** C19. Every well-formed message of each of the fourteen types is encoded
    without an exception, and the frame built from it is decoded to that
    message, whatever bytes follow the payload. *)
Theorem decode_encode_message m tid trailing : wf_message m →
  ∃ payload, encode_payload (msg_payload m) = Ok payload ∧
    decode_app_message (make_frame (msg_type m) (payload ++ trailing) tid) = Ok m.
Proof.
  intros Hwf. destruct (decode_payload_encode _ _ trailing Hwf) as (e & E1 & E2).
  exists e. split; [done|]. apply decode_app_message_iff. eauto.
Qed.

Lemma decode_encode_message_witness :
  ∃ payload, encode_chat (mkChat 3 kRecipientByNickname (lstr (str "bob")) (str "hello")) = Ok payload ∧
    decode_app_message (make_frame KeyOffer (payload ++ []) 9) =
    Ok (mkMessage KeyOffer (PChat (mkChat 3 kRecipientByNickname (lstr (str "bob")) (str "hello")))).
Proof.
  apply (decode_encode_message
    (mkMessage KeyOffer (PChat (mkChat 3 kRecipientByNickname (lstr (str "bob")) (str "hello")))) 9 []).
  split; [cbn; unfold is_u32; lia|]. split; [|unfold wf_string; cbn; lia].
  right; left. split; [reflexivity|]. exists (str "bob"). split; [unfold wf_string; cbn; lia|reflexivity].
Defined.

(** The decoder reads inside the PDU only: on no frame, however malformed,
    does it have undefined behaviour. *)
Theorem decode_app_message_no_ub frame : no_ub (decode_app_message frame).
Proof.
  unfold decode_app_message, kPduAppHeaderSize. case_decide; [done|].
  destruct (at_ok (modbus.pdu frame) 0) as (fc & -> & _); [lia|]. cbn [mbind outcome_bind].
  case_decide; [done|].
  destruct (at_ok (modbus.pdu frame) 1) as (t & -> & _); [lia|]. cbn [mbind outcome_bind].
  rewrite span_from_ok by lia. cbn [mbind outcome_bind].
  destruct (MsgType_of_byte t); [|done]. apply no_ub_bind; [apply decode_payload_no_ub|done].
Qed.

(** Nor are the texts of the exceptions long. *)
Lemma read_u32_be_short l : throws_short (read_u32_be l).
Proof. unfold read_u32_be. throws_short. Qed.
Lemma read_u16_be_short l : throws_short (read_u16_be l).
Proof. unfold read_u16_be. throws_short. Qed.
#[export] Hint Resolve read_u32_be_short read_u16_be_short : chat.

Lemma encode_string_short s : throws_short (encode_string s).
Proof. unfold encode_string. throws_short. Qed.
Lemma decode_string_short l : throws_short (decode_string l).
Proof. unfold decode_string. throws_short. Qed.
#[export] Hint Resolve encode_string_short decode_string_short : chat.

Lemma decode_user_info_short data off : throws_short (decode_user_info data off).
Proof. unfold decode_user_info. throws_short. Qed.
Lemma encode_user_info_short u : throws_short (encode_user_info u).
Proof. unfold encode_user_info. throws_short. Qed.
Lemma decode_chat_payload_short p : throws_short (decode_chat_payload p).
Proof. unfold decode_chat_payload. throws_short. Qed.
Lemma decode_deliver_payload_short p : throws_short (decode_deliver_payload p).
Proof. unfold decode_deliver_payload. throws_short. Qed.
#[export] Hint Resolve decode_user_info_short encode_user_info_short decode_chat_payload_short
  decode_deliver_payload_short : chat.

Lemma decode_users_short n p off : throws_short (decode_users n p off).
Proof. revert off. induction n; intros off; cbn [decode_users]; throws_short. Qed.
Lemma decode_ids_short n p off : throws_short (decode_ids n p off).
Proof. revert off. induction n; intros off; cbn [decode_ids]; throws_short. Qed.
Lemma encode_users_short us out : throws_short (encode_users us out).
Proof. revert out. induction us; intros out; cbn [encode_users]; throws_short. Qed.
#[export] Hint Resolve decode_users_short decode_ids_short encode_users_short : chat.

Lemma decode_payload_short t p : throws_short (decode_payload t p).
Proof. unfold decode_payload. destruct t; throws_short. Qed.
#[export] Hint Resolve decode_payload_short : chat.

Lemma decode_app_message_safe frame : safe_result (decode_app_message frame).
Proof.
  apply safe_result_iff. split; [apply decode_app_message_no_ub|].
  unfold decode_app_message. throws_short.
Qed.

(** The encoders have no undefined behaviour at all. *)
Lemma encode_string_safe s : safe_result (encode_string s).
Proof. apply safe_result_iff. split; [|auto with chat]. unfold encode_string. by case_decide. Qed.

Lemma encode_user_info_safe u : safe_result (encode_user_info u).
Proof.
  apply safe_result_iff. split; [|auto with chat]. apply no_ub_bind; [|done].
  by apply safe_result_iff, encode_string_safe.
Qed.

Lemma encode_deliver_safe id text : safe_result (encode_deliver id text).
Proof.
  apply safe_result_iff. split; [|unfold encode_deliver; throws_short]. apply no_ub_bind; [|done].
  by apply safe_result_iff, encode_string_safe.
Qed.

Lemma encode_users_list_safe us : safe_result (encode_users_list us).
Proof.
  apply safe_result_iff. split; [|unfold encode_users_list; throws_short].
  unfold encode_users_list. case_decide; [done|]. generalize (write_u16_be [] (to_u16 (size_t us))).
  induction us as [|u us IH]; intros out; [done|]. cbn [encode_users]. apply no_ub_bind.
  - by apply safe_result_iff, encode_user_info_safe.
  - intros b _. apply IH. cbn [length] in *. lia.
Qed.

#[export] Hint Resolve encode_string_safe encode_user_info_safe encode_deliver_safe
  encode_users_list_safe decode_app_message_safe : chat.

(** C20. A decoded message is well-formed: its payload is the alternative that
    its type calls for, so that no [std::get] on it throws, its integers fit in
    32 bits and its strings and lists can be encoded again. *)
Theorem decode_app_message_wf frame m : decode_app_message frame = Ok m → wf_message m.
Proof. intros (p & _ & H)%decode_app_message_iff. by apply decode_payload_wf in H. Qed.

Definition two_users : list UserInfo := [mkUserInfo 2 (str "bob"); mkUserInfo 4294967295 []].

Lemma decode_app_message_wf_witness :
  wf_message (mkMessage UsersList (PUsersList (mkUsersList two_users))) ∧
  Forall wf_user two_users ∧ size_t two_users <= 65535.
Proof.
  assert (wf_message (mkMessage UsersList (PUsersList (mkUsersList two_users)))) as Hwf.
  { apply (decode_app_message_wf (make_frame UsersList (be16 2 ++ concat (user_bytes <$> two_users)) 0)).
    vm_compute. reflexivity. }
  split; [exact Hwf|]. destruct Hwf. split; assumption.
Defined.

(** The byte-order helpers of the two layers agree: [modbus::read_u16_be]
    (memcpy and ntohs) and [protocol::read_u16_be] (shifts) read the same value,
    out-of-bounds accesses included, and the two writers write the same bytes. *)
Theorem u16_be_agree :
  (∀ data, modbus.read_u16_be data = read_u16_be data) ∧
  (∀ out value, is_u16 value → modbus.write_u16_be out value = write_u16_be out value).
Proof.
  split.
  - intros [|b0 [|b1 l]]; [done..|]. by rewrite modbus.mbap_read_u16_be_spec, read_u16_be_spec.
  - intros out v Hv. by rewrite modbus.mbap_write_u16_be_spec, write_u16_be_spec.
Qed.

End protocol.
