(* ===== verification/Transport.v ===== *)
(** * The message transport: common/transport/ModbusMessageTransport.cpp

    Messages over a socket: [send] frames a payload and writes it, [receive]
    takes one frame off the socket and decodes it.  [None] is a call that
    blocks forever, as in ModbusTcp. *)
From S2P Require Import Prelude.
From S2P Require Import ModbusTcp.
From S2P Require Import Protocol.

Module ModbusMessageTransport.
Import protocol.

Definition send (script : list modbus.send_step) (type : MsgType) (payload : bytes)
    : option (bool * bytes * list modbus.send_step) :=
  let frame := make_frame type payload 0 in
  modbus.write_frame script frame.

Definition receive (sk : modbus.in_socket)
    : option (outcome (option AppMessage) * modbus.in_socket) :=
  '(r, sk) ← modbus.read_frame sk [] modbus.Frame_default;
  Some (('(ok, _, frame) ← r;
         if negb ok then mret None else
         m ← decode_app_message frame;
         mret (Some m)), sk).

(** [n] calls of [receive] in a row, as a receive loop makes them: stops at the
    first call that gives no message. *)
Fixpoint receive_n (n : nat) (sk : modbus.in_socket)
    : option (list AppMessage * modbus.in_socket) :=
  match n with
  | O => Some ([], sk)
  | S n =>
      '(r, sk) ← receive sk;
      match r with
      | Ok (Some m) => '(ms, sk) ← receive_n n sk; Some (m :: ms, sk)
      | _ => None
      end
  end.

(** ** Facts *)

(** A message together with the payload bytes its encoder gives, when its frame
    fits the 16-bit length field. *)
Definition sendable (m : AppMessage) (payload : bytes) : Prop :=
  wf_message m ∧ encode_payload (msg_payload m) = Ok payload ∧ size_t payload <= 65532.

Definition wire (m : AppMessage) (payload : bytes) : bytes :=
  modbus.encode (make_frame (msg_type m) payload 0).

Lemma sendable_wf_frame m payload :
  sendable m payload → modbus.wf_frame (make_frame (msg_type m) payload 0).
Proof. intros (_ & _ & H). split; cbn; [done|lia]. Qed.

Lemma receive_wire m payload rest script :
  sendable m payload → modbus.live script → (length (wire m payload) ≤ length script)%nat →
  ∃ script', modbus.live script' ∧ (length script ≤ length script' + length (wire m payload))%nat ∧
    receive (modbus.mkIn (wire m payload ++ rest) script) =
    Some (Ok (Some m), modbus.mkIn rest script').
Proof.
  intros Hm Hl Hs. pose proof (sendable_wf_frame _ _ Hm) as Hf. destruct Hm as (Hwf & He & _).
  destruct (modbus.read_frame_stream_aux _ rest script [] modbus.Frame_default Hf Hl Hs)
    as (script' & Hl' & Hlen & E).
  exists script'. split_and!; [done..|]. unfold receive, wire. rewrite E.
  cbn [mbind option_bind outcome_bind negb]. do 2 f_equal.
  destruct (decode_payload_encode _ _ [] Hwf) as (e & E1 & E2).
  rewrite E1 in He. injection He as ->. rewrite app_nil_r in E2.
  rewrite (proj2 (decode_app_message_iff (make_frame (msg_type m) payload 0) m)); eauto.
Qed.

Lemma receive_n_wire ms rest script :
  Forall (λ mp, sendable mp.1 mp.2) ms → modbus.live script →
  (length (concat ((λ mp, wire mp.1 mp.2) <$> ms)) ≤ length script)%nat →
  ∃ script',
    receive_n (length ms) (modbus.mkIn (concat ((λ mp, wire mp.1 mp.2) <$> ms) ++ rest) script) =
    Some (ms.*1, modbus.mkIn rest script').
Proof.
  intros Hms. revert script. induction Hms as [|[m p] ms Hm Hms IH]; intros script Hl Hlen.
  { by exists script. }
  cbn [fmap list_fmap concat fst snd] in *. rewrite length_app in Hlen.
  cbn [receive_n length]. rewrite <-app_assoc.
  destruct (receive_wire m p (concat ((λ mp, wire mp.1 mp.2) <$> ms) ++ rest) script Hm Hl)
    as (s1 & Hl1 & Hs1 & ->); [lia|]. cbn [mbind option_bind].
  destruct (IH s1 Hl1) as (s2 & ->); [lia|]. cbn. eauto.
Qed.

(** C12. Messages arrive as they were sent.  For a list of messages that are well-formed
    and whose payloads have at most 65532 bytes, so that their frames fit the 16-bit
    length field, if [send] reports success for each, one after the other on the same
    connection, the peer's successive calls of [receive] return these messages in
    this order, however the kernel splits the bytes on either side.  (That [send]
    succeeds is not enough: longer frames are lost, see [long_text_lost].) *)
Theorem receive_after_send (ms : list (AppMessage * bytes)) sends rest script :
  Forall (λ mp, sendable mp.1 mp.2) ms →
  Forall2 (λ mp s, ∃ script_out unused,
             send script_out (msg_type mp.1) mp.2 = Some (true, s, unused)) ms sends →
  modbus.live script → (length (concat sends) ≤ length script)%nat →
  ∃ script', receive_n (length ms) (modbus.mkIn (concat sends ++ rest) script) =
    Some (ms.*1, modbus.mkIn rest script').
Proof.
  intros Hms Hsend. assert (sends = (λ mp, wire mp.1 mp.2) <$> ms) as ->; [|by apply receive_n_wire].
  induction Hsend as [|mp s ms sends (so & un & H) Hsend IH]; [done|].
  apply Forall_cons in Hms as [_ Hms].
  apply modbus.write_exact_loop_spec in H as (k & -> & ->).
  cbn [fmap list_fmap]. f_equal; [|by apply IH]. cbn [app]. by apply take_ge.
Qed.

Definition two_messages : list (AppMessage * bytes) :=
  [(mkMessage ListUsers PListUsers, []);
   (mkMessage Register (PRegister (mkRegister (str "bob"))), lstr (str "bob"))].

Lemma receive_after_send_witness :
  ∃ script', receive_n 2 (modbus.mkIn
      (concat [wire (mkMessage ListUsers PListUsers) [];
               wire (mkMessage Register (PRegister (mkRegister (str "bob")))) (lstr (str "bob"))] ++ [])
      (replicate 23 (modbus.read_some 5))) =
    Some (two_messages.*1, modbus.mkIn [] script').
Proof.
  apply (receive_after_send two_messages).
  - repeat constructor; cbn; lia || (unfold wf_string; cbn; lia) || done.
  - constructor; [|constructor; [|constructor]].
    + exists (replicate 4 (modbus.send_some 4)), (replicate 1 (modbus.send_some 4)). reflexivity.
    + exists (replicate 4 (modbus.send_some 4)), []. reflexivity.
  - repeat constructor; eexists; (split; [reflexivity|lia]).
  - cbn. lia.
Defined.

(** What [receive] may give: a well-formed message, no message (the connection is
    at its end or broken), or an exception with a text that fits a string field. *)
Definition rx_ok (r : outcome (option AppMessage)) : Prop :=
  safe_result r ∧ ∀ m, r = Ok (Some m) → wf_message m.

(** [receive] has no undefined behaviour, whatever the peer sends and however
    the kernel answers; it gives a well-formed message, no message (the
    connection is at its end or broken) or an exception whose text can be sent
    back in an error message. *)
Theorem receive_safe sk r sk' : receive sk = Some (r, sk') → rx_ok r.
Proof.
  unfold receive. destruct (modbus.read_frame _ _ _) as [[r0 sk0]|] eqn:E; [|done].
  destruct (modbus.read_frame_safe _ _ _ _ _ E) as (ok & b & f & -> & _).
  cbn [mbind option_bind outcome_bind]. intros H. simplify_eq. destruct ok; cbn [negb]; [|done].
  pose proof (decode_app_message_safe f) as Hs.
  destruct (decode_app_message f) as [m|e|] eqn:Ed; cbn; [|done..]. split; [done|].
  intros m' [= <-]. apply decode_app_message_iff in Ed as (p & _ & Ed). by apply decode_payload_wf in Ed.
Qed.

Lemma receive_safe_witness : rx_ok (Throw (runtime_error (str "PDU too short"))).
Proof.
  apply (receive_safe (modbus.mkIn [Byte.x00; Byte.x00; Byte.x00; Byte.x00; Byte.x00; Byte.x01; Byte.x00]
                         (replicate 7 (modbus.read_some 5))) _
                      (modbus.mkIn [] (replicate 4 (modbus.read_some 5)))).
  reflexivity.
Defined.

End ModbusMessageTransport.
