(* ===== verification/SharedSocket.v ===== *)
(** * Two threads that write to one socket: common/ModbusTcp.cpp (write_exact)

    The client's main thread and its receiver both send messages, and no mutex is
    held meanwhile: [write_exact] calls [::send] in a loop, and between two calls
    of one thread the other may call it too.  Here the calls of [::send] are the
    steps.  When every call takes all that it is offered, messages go out whole, and
    the server receives all of them, those of each thread in their order; when a
    call takes only a part, the bytes of two messages can be mixed. *)
From S2P Require Import Prelude.
From S2P Require Import ModbusTcp.
From S2P Require Import Protocol.
From S2P Require Import Transport.

Module shared_socket.
Import protocol modbus ModbusMessageTransport.

(** One round of the loop of [write_exact], with [rest] still to be sent: what the
    call puts on the wire and what is left, or [None] when the function returns
    false. *)
Definition send_call (answer : send_step) (rest : bytes) : option (bytes * bytes) :=
  match answer with
  | send_failed => None
  | send_some n =>
      let k := Nat.min n (length rest) in
      if decide (k = 0)%nat then None else Some (take k rest, drop k rest)
  end.

(** The loop is this round, again and again. *)
Lemma write_exact_rounds answer script rest sent : rest ≠ [] →
  write_exact_loop (answer :: script) rest sent =
  match send_call answer rest with
  | None => Some (false, sent, script)
  | Some (out, rest') => write_exact_loop script rest' (sent ++ out)
  end.
Proof.
  intros Hr. destruct rest as [|b rest]; [done|]. cbn [write_exact_loop].
  unfold send_call. destruct answer as [|n]; [done|]. by case_decide.
Qed.

(** What each thread has still to write: the rest of the message it is sending,
    then the messages it will send. *)
Abbreviation writers := (list (list bytes)).

Definition after (rest : bytes) (later : list bytes) : list bytes :=
  if decide (rest = []) then later else rest :: later.

(** One of the threads makes a call that succeeds; the label is the answer. *)
Inductive call : bytes * writers → send_step → bytes * writers → Prop :=
| call_send wire ws i rest later answer out rest' :
    ws !! i = Some (rest :: later) → send_call answer rest = Some (out, rest') →
    call (wire, ws) answer (wire ++ out, <[i:=after rest' later]> ws).

(** The call takes all that it is offered. *)
Inductive whole_call : bytes * writers → bytes * writers → Prop :=
| whole_send wire ws i rest later answer out :
    ws !! i = Some (rest :: later) → send_call answer rest = Some (out, []) →
    whole_call (wire, ws) (wire ++ out, <[i:=later]> ws).

Lemma whole_call_call c c' : whole_call c c' → ∃ answer, call c answer c'.
Proof. intros [wire ws i rest later answer out Hi Hs]. exists answer. exact (call_send wire ws i rest later answer out [] Hi Hs). Qed.

(** [out] has the elements of all the lists, those of each list in their order. *)
Inductive merged {A} : list (list A) → list A → Prop :=
| merged_nil ls : Forall (.= []) ls → merged ls []
| merged_cons ls i x l out : ls !! i = Some (x :: l) → merged (<[i:=l]> ls) out → merged ls (x :: out).

Lemma send_call_all answer rest out : send_call answer rest = Some (out, []) → out = rest.
Proof.
  unfold send_call. destruct answer as [|n]; [done|]. case_decide; [done|]. intros [= <- Hd].
  rewrite <-(app_nil_r (take _ _)), <-Hd. apply take_drop.
Qed.

(** The threads' messages as they are put on the wire. *)
Definition on_wire (threads : list (list (AppMessage * bytes))) : writers :=
  (fmap (λ mp, wire mp.1 mp.2) : list _ → list bytes) <$> threads.

Lemma whole_calls_merged threads sent c : rtc whole_call (sent, on_wire threads) c →
  Forall (.= []) c.2 →
  ∃ ms, merged threads ms ∧ c.1 = sent ++ concat ((λ mp, wire mp.1 mp.2) <$> ms).
Proof.
  intros Hr Hdone. remember (sent, on_wire threads) as c0 eqn:E. revert sent threads E.
  induction Hr as [c|c1 c2 c3 Hstep Hr IH]; intros sent threads ->.
  - exists []. cbn [fst snd] in *. rewrite app_nil_r. split; [|done]. constructor.
    unfold on_wire in Hdone. rewrite Forall_fmap in Hdone. eapply Forall_impl; [exact Hdone|]. cbn. by intros [] ?.
  - inversion Hstep as [? ? i rest later answer out Hi Hs]; subst. specialize (IH Hdone).
    apply list_lookup_fmap_Some in Hi as (ms & Hms & Hi). destruct ms as [|m ms]; [done|].
    cbn in Hms. injection Hms as -> ->. apply send_call_all in Hs as ->.
    destruct (IH (sent ++ wire m.1 m.2) (<[i:=ms]> threads)) as (out & Hm & Eo).
    { unfold on_wire. by rewrite list_fmap_insert. }
    exists (m :: out). split; [by econstructor|]. rewrite Eo. cbn [fmap list_fmap concat]. by rewrite app_assoc.
Qed.

Lemma merged_Forall {A} (P : A → Prop) ls out : merged ls out → Forall (Forall P) ls → Forall P out.
Proof.
  induction 1 as [ls _|ls i x l out Hi _ IH]; intros Hall; [done|].
  pose proof (Forall_lookup_1 _ _ _ _ Hall Hi) as Hxl. apply Forall_cons in Hxl as [Hx Hl].
  constructor; [done|]. apply IH. by apply Forall_insert.
Qed.

(** C13. Threads that share a socket.  The messages are well-formed and fit their frames.
    When every [::send] takes the whole message that it is given, then, however the threads' calls are interleaved, once all
    have been made the peer's calls of [receive] return exactly the messages of
    all threads, those of each thread in the order in which it sent them. *)
Theorem shared_socket_messages threads sent ws script rest :
  Forall (Forall (λ mp, sendable mp.1 mp.2)) threads →
  rtc whole_call ([], on_wire threads) (sent, ws) → Forall (.= []) ws →
  live script → (length sent ≤ length script)%nat →
  ∃ ms script', merged threads ms ∧
    receive_n (length ms) (mkIn (sent ++ rest) script) = Some (ms.*1, mkIn rest script').
Proof.
  intros Hsend Hr Hdone Hlive Hlen.
  destruct (whole_calls_merged _ _ _ Hr Hdone) as (ms & Hm & E). cbn in E. subst sent.
  destruct (receive_n_wire ms rest script) as (script' & Er); [by eapply merged_Forall|done|done|].
  by exists ms, script'.
Qed.

(** ** Messages that are sent in parts *)

Definition list_users : AppMessage * bytes := (mkMessage ListUsers PListUsers, []).
Definition register_bob : AppMessage * bytes :=
  (mkMessage Register (PRegister (mkRegister (str "bob"))), lstr (str "bob")).

Lemma shared_socket_messages_witness : ∃ ms script', merged [[list_users]; [register_bob]] ms ∧
  receive_n (length ms)
    (mkIn ((wire (mkMessage ListUsers PListUsers) [] ++
            wire (mkMessage Register (PRegister (mkRegister (str "bob")))) (lstr (str "bob"))) ++ [])
       (replicate 23 (read_some 5))) = Some (ms.*1, mkIn [] script').
Proof.
  apply (shared_socket_messages [[list_users]; [register_bob]] _ [[]; []]).
  - repeat constructor; cbn; lia || (unfold wf_string; cbn; lia) || done.
  - eapply rtc_l; [eapply (whole_send _ _ 0 _ [] (send_some 100)); reflexivity|].
    eapply rtc_l; [eapply (whole_send _ _ 1 _ [] (send_some 100)); reflexivity|]. reflexivity.
  - repeat constructor.
  - repeat constructor; eexists; (split; [reflexivity|lia]).
  - cbn. lia.
Defined.

(** A message with a text ends with it; the bytes before depend only on its length. *)
Definition with_text (chat : ChatPayload) (text : bytes) : ChatPayload :=
  mkChat (chat_from_id chat) (recipient_tag chat) (recipient_data chat) text.

Lemma wire_text t chat text : length text = length (chat_text chat) →
  ∃ front, wire (mkMessage t (PChat chat)) (chat_bytes chat) = front ++ chat_text chat ∧ front ≠ [] ∧
    wire (mkMessage t (PChat (with_text chat text))) (chat_bytes (with_text chat text)) = front ++ text.
Proof.
  intros Hl. unfold wire, chat_bytes, lstr. cbn [msg_type with_text chat_from_id recipient_tag recipient_data chat_text].
  rewrite !encode_spec by done. unfold make_frame. cbn [pdu transaction_id unit_id]. rewrite Hl.
  rewrite !app_assoc, !length_app, Hl. cbn [app].
  eexists (_ :: _ :: _ :: _ :: _ :: _ :: _ :: _ :: _ :: _). by split_and!.
Qed.

Lemma sendable_text t chat text : length text = length (chat_text chat) →
  sendable (mkMessage t (PChat chat)) (chat_bytes chat) →
  sendable (mkMessage t (PChat (with_text chat text))) (chat_bytes (with_text chat text)).
Proof.
  intros Hl (Hwf & He & Hs). assert (wf_chat chat → wf_chat (with_text chat text)) as Hc.
  { intros (? & ? & ?). split_and!; [done..|]. unfold wf_string in *. cbn. lia. }
  assert (wf_message (mkMessage t (PChat (with_text chat text)))) as Hwf' by (by destruct t; try done; apply Hc).
  split_and!; [done| |].
  - apply encode_chat_iff. split; [|done]. assert (wf_chat (with_text chat text)) as (_ & _ & ?); [|done]. by destruct t.
  - revert Hs. unfold chat_bytes, lstr. cbn [with_text chat_from_id recipient_tag recipient_data chat_text].
    by rewrite Hl, !length_app, Hl.
Qed.

(** C25. A message sent in parts.  One thread sends a message with a text (a chat, a
    key offer or a room key offer) and the [::send] takes only a part of it that ends
    inside the text; another thread sends a message before the first one sends the
    rest.  Then both have sent all their bytes and [write_exact] returns true in
    both, but the first message that the server receives has the same type, sender
    and recipient and another text: the [cut] bytes of it that went out first, filled
    up with the bytes of the other message and what fits of the rest; what does not fit
    is left to be read as the next frame.  The text differs unless its next byte is
    by chance the byte 0 with which a frame begins. *)
Theorem short_write_mixes_messages t chat other payload cut script :
  let a := wire (mkMessage t (PChat chat)) (chat_bytes chat) in
  let b := wire other payload in
  let text := chat_text chat in
  let sent := take cut text ++ b ++ drop cut text in
  let chat' := with_text chat (take (length text) sent) in
  sendable (mkMessage t (PChat chat)) (chat_bytes chat) → (cut < length text)%nat →
  live script → (length a ≤ length script)%nat →
  ∃ k c1 c2 c3 script',
    call ([], [[b]; [a]]) (send_some k) c1 ∧ call c1 (send_some (length b)) c2 ∧
    call c2 (send_some (length a)) c3 ∧ c3.2 = [[]; []] ∧
    receive (mkIn c3.1 script) =
      Some (Ok (Some (mkMessage t (PChat chat'))), mkIn (drop (length text) sent) script') ∧
    (text !! cut ≠ Some Byte.x00 → chat_text chat' ≠ text).
Proof.
  intros a b text sent chat' Hsend Hcut Hlive Hlen.
  assert (length (take cut text) = cut) as Hct by (rewrite length_take; lia).
  assert (length (take (length text) sent) = length text) as Hl'.
  { rewrite length_take. unfold sent. rewrite !length_app, length_drop. lia. }
  destruct (wire_text t chat _ Hl') as (front & Ea & Hf & Ea'). fold text a in Ea. fold chat' in Ea'.
  assert (length front ≠ 0%nat) as Hf0 by (by destruct front).
  assert (length b ≠ 0%nat) as Hb0 by (unfold b, wire; rewrite length_encode by done; lia).
  set (k := (length front + cut)%nat).
  assert (take k a = front ++ take cut text ∧ drop k a = drop cut text) as [Etake Edrop].
  { rewrite Ea. unfold k. split; [rewrite take_app_add|rewrite drop_app_add]; done. }
  assert (length a = length front + length text)%nat as Hla by (by rewrite Ea, length_app).
  exists k, (take k a, [[b]; [drop k a]]), (take k a ++ b, [[]; [drop k a]]), ((take k a ++ b) ++ drop k a, [[]; []]).
  assert (a = take k a ++ drop k a) as Esplit by (by rewrite take_drop).
  destruct (receive_wire (mkMessage t (PChat chat')) (chat_bytes chat') (drop (length text) sent) script)
    as (script' & _ & _ & Er); [by apply sendable_text|done|rewrite Ea', length_app, Hl'; lia|].
  exists script'. split_and!; try done.
  - replace (take k a, _) with ([] ++ take k a, <[1%nat:=after (drop k a) []]> [[b]; [a]]).
    + apply (call_send [] _ 1 a [] (send_some k)); [done|]. unfold send_call. rewrite Nat.min_l by lia.
      by rewrite decide_False by lia.
    + unfold after. rewrite decide_False; [done|]. intros E%(f_equal length). rewrite length_drop in E. cbn [length] in E. lia.
  - apply (call_send (take k a) [[b]; [drop k a]] 0 b [] (send_some (length b)) b []); [done|]. unfold send_call.
    rewrite Nat.min_id, decide_False by done. by rewrite take_ge, drop_ge by lia.
  - apply (call_send (take k a ++ b) [[]; [drop k a]] 1 (drop k a) [] (send_some (length a)) (drop k a) []); [done|]. unfold send_call.
    rewrite length_drop, Nat.min_r by lia. rewrite decide_False by lia. by rewrite (take_ge (drop k a)), (drop_ge (drop k a)) by (rewrite length_drop; lia).
  - rewrite Ea' in Er. cbn [fst]. rewrite Etake, Edrop, <-!app_assoc. fold sent.
    rewrite <-app_assoc, take_drop in Er. done.
  - intros Hne E. apply Hne. cbn [chat' with_text chat_text] in E. rewrite <-E at 1.
    rewrite lookup_take_lt by lia. unfold sent. rewrite lookup_app_r, Hct, Nat.sub_diag by lia.
    rewrite lookup_app_l by lia. unfold b, wire. by rewrite encode_spec.
Qed.

(** The public key of client 1, offered to client 2, while the users are asked for. *)
Definition key_offer : ChatPayload := mkChat 1 kRecipientById (be32 2) (replicate 32 Byte.x07).

Lemma short_write_mixes_messages_witness : ∃ k c1 c2 c3 script' key,
  call ([], on_wire [[list_users]; [(mkMessage KeyOffer (PChat key_offer), chat_bytes key_offer)]]) (send_some k) c1 ∧
  call c1 (send_some 9) c2 ∧ call c2 (send_some 52) c3 ∧ c3.2 = [[]; []] ∧
  receive (mkIn c3.1 (replicate 60 (read_some 100))) =
    Some (Ok (Some (mkMessage KeyOffer (PChat (with_text key_offer key)))), mkIn (replicate 9 Byte.x07) script') ∧
  length key = 32%nat ∧ key ≠ replicate 32 Byte.x07.
Proof.
  destruct (short_write_mixes_messages KeyOffer key_offer (mkMessage ListUsers PListUsers) [] 10
    (replicate 60 (read_some 100))) as (k & c1 & c2 & c3 & script' & H1 & H2 & H3 & H4 & H5 & H6).
  - split; [|split; [reflexivity|cbn; lia]]. split_and!; [unfold is_u32, key_offer; cbn; lia|by left|unfold wf_string; cbn; lia].
  - cbn. lia.
  - repeat constructor; eexists; (split; [reflexivity|lia]).
  - cbn. lia.
  - exists k, c1, c2, c3, script', (take 32 (replicate 10 Byte.x07 ++ wire (mkMessage ListUsers PListUsers) [] ++
      replicate 22 Byte.x07)).
    split; [exact H1|]. split; [exact H2|]. split; [exact H3|]. split; [exact H4|]. split; [exact H5|].
    split; [reflexivity|]. apply H6. vm_compute. discriminate.
Defined.

End shared_socket.
