(* ===== verification/CppString.v ===== *)
(** * The parts of the C++ standard library that the text parsers use

    [std::string] searches and sub-strings, [std::isspace] in the "C" locale,
    [std::getline] with a delimiter, [std::stoul] and [std::stoi] in base 10 and
    [std::to_string], on strings as lists of bytes. *)
From S2P Require Import Prelude.

Module std.

(** [s.find(c)]: the index of the first [c]. *)
Fixpoint find (c : byte) (s : bytes) : option nat :=
  match s with
  | [] => None
  | b :: s => if decide (b = c) then Some 0%nat else S <$> find c s
  end.

(** [s.find_last_of(c)] *)
Fixpoint find_last_of (c : byte) (s : bytes) : option nat :=
  match s with
  | [] => None
  | b :: s =>
      match find_last_of c s with
      | Some i => Some (S i)
      | None => if decide (b = c) then Some 0%nat else None
      end
  end.

(** [s.substr(pos)] and [s.substr(0, n)]; [pos > s.size()] throws. *)
Definition substr (s : bytes) (pos : nat) : outcome bytes :=
  if decide (length s < pos)%nat then Throw (out_of_range (str "basic_string::substr"))
  else Ok (drop pos s).
Definition substr_to (s : bytes) (n : nat) : bytes := take n s.

(** [s.rfind(p, 0) == 0] *)
Definition starts_with (p s : bytes) : bool := bool_decide (take (length p) s = p).

Definition is_blank (b : byte) : bool := bool_decide (b = Byte.x20) || bool_decide (b = Byte.x09).

(** [std::isspace] in the "C" locale: space, \\t, \\n, \\v, \\f, \\r. *)
Definition isspace (b : byte) : bool := bool_decide (b = Byte.x20) || ((9 <=? u8 b) && (u8 b <=? 13)).

Definition isdigit (b : byte) : bool := (48 <=? u8 b) && (u8 b <=? 57).

(** [while (!s.empty() && p(s.front())) s.erase(s.begin());] *)
Fixpoint drop_front (p : byte → bool) (s : bytes) : bytes :=
  match s with
  | [] => []
  | b :: s' => if p b then drop_front p s' else s
  end.

(** [while (!s.empty() && p(s.back())) s.pop_back();] *)
Definition drop_back (p : byte → bool) (s : bytes) : bytes := reverse (drop_front p (reverse s)).

Fixpoint take_while (p : byte → bool) (s : bytes) : bytes :=
  match s with
  | [] => []
  | b :: s' => if p b then b :: take_while p s' else []
  end.

(** The tokens that [while (std::getline(stream, token, sep))] goes through: a
    last token that is empty is not delivered. *)
Fixpoint getline_tokens (sep : byte) (cur s : bytes) : list bytes :=
  match s with
  | [] => match cur with [] => [] | _ => [cur] end
  | b :: s => if decide (b = sep) then cur :: getline_tokens sep [] s
              else getline_tokens sep (cur ++ [b]) s
  end.

(** ** Numbers *)

Definition digits_val (ds : bytes) : Z := foldl (λ acc d, acc * 10 + (u8 d - 48)) 0 ds.

Definition ULONG_MAX : Z := 18446744073709551615.

(** An optional sign. *)
Definition scan_sign (s : bytes) : bool * bytes :=
  match s with
  | b :: s' => if decide (b = Byte.x2d) then (true, s')
               else if decide (b = Byte.x2b) then (false, s') else (false, s)
  | [] => (false, [])
  end.

(** [std::stoul(s, &consumed, 10)], [unsigned long] having 64 bits: white space,
    a sign and digits; a minus sign negates modulo 2^64. *)
Definition stoul (s : bytes) : outcome (Z * nat) :=
  let s1 := drop_front isspace s in
  let '(neg, s2) := scan_sign s1 in
  let ds := take_while isdigit s2 in
  if decide (ds = []) then Throw (invalid_argument (str "stoul")) else
  let v := digits_val ds in
  if ULONG_MAX <? v then Throw (out_of_range (str "stoul")) else
  Ok ((if neg : bool then (- v) mod (ULONG_MAX + 1) else v), (length s - length s2 + length ds)%nat).

(** [std::stoi(s)], [int] having 32 bits. *)
Definition stoi (s : bytes) : outcome Z :=
  let s1 := drop_front isspace s in
  let '(neg, s2) := scan_sign s1 in
  let ds := take_while isdigit s2 in
  if decide (ds = []) then Throw (invalid_argument (str "stoi")) else
  let v := if neg : bool then - digits_val ds else digits_val ds in
  if (v <? -2147483648) || (2147483647 <? v) then Throw (out_of_range (str "stoi")) else Ok v.

(** [std::to_string] of an unsigned value of at most 20 digits. *)
Fixpoint to_string_loop (fuel : nat) (n : Z) (acc : bytes) : bytes :=
  let acc := to_u8 (48 + n mod 10) :: acc in
  match fuel with
  | O => acc
  | S fuel => if decide (n / 10 = 0) then acc else to_string_loop fuel (n / 10) acc
  end.

Definition to_string (n : Z) : bytes := to_string_loop 19 n [].

(** ** Facts *)

Lemma drop_front_id p s : (∀ b, head s = Some b → p b = false) → drop_front p s = s.
Proof. destruct s as [|b s]; [done|]. cbn. intros H. by rewrite H. Qed.

Lemma drop_back_id p s : (∀ b, last s = Some b → p b = false) → drop_back p s = s.
Proof.
  intros H. unfold drop_back. rewrite drop_front_id; [apply reverse_involutive|].
  intros b Hb. apply H. by rewrite head_reverse in Hb.
Qed.

Lemma find_app c s t : c ∉ s → find c (s ++ c :: t) = Some (length s).
Proof.
  induction s as [|b s IH]; cbn; intros Hn; [by rewrite decide_True|].
  rewrite decide_False by set_solver. rewrite IH by set_solver. done.
Qed.

Lemma find_None c s : find c s = None ↔ c ∉ s.
Proof.
  induction s as [|b s IH]; cbn; [set_solver|]. case_decide; [set_solver|].
  rewrite fmap_None, IH. set_solver.
Qed.

Lemma find_Some c s i : find c s = Some i → s = take i s ++ c :: drop (S i) s ∧ c ∉ take i s.
Proof.
  revert i. induction s as [|b s IH]; intros i; [done|]. cbn. case_decide as Hb.
  - intros [= <-]. subst. cbn. rewrite drop_0. set_solver.
  - intros (j & Hj & ->)%fmap_Some. destruct (IH j Hj) as [E Hn]. cbn. split; [by f_equal|set_solver].
Qed.

Lemma take_while_all p s t : forallb p s = true → (∀ b, head t = Some b → p b = false) →
  take_while p (s ++ t) = s.
Proof.
  intros H Ht. induction s as [|b s IH]; cbn in *.
  - destruct t as [|b t]; [done|]. cbn in *. by rewrite Ht.
  - apply andb_true_iff in H as [-> H]. by rewrite IH.
Qed.

Lemma getline_tokens_app sep cur s t : sep ∉ s →
  getline_tokens sep cur (s ++ sep :: t) = (cur ++ s) :: getline_tokens sep [] t.
Proof.
  revert cur. induction s as [|b s IH]; intros cur Hn; cbn.
  - by rewrite decide_True, app_nil_r.
  - rewrite decide_False by set_solver. rewrite IH by set_solver. by rewrite <-app_assoc.
Qed.

Lemma getline_tokens_last sep cur s : sep ∉ s → cur ++ s ≠ [] →
  getline_tokens sep cur s = [cur ++ s].
Proof.
  revert cur. induction s as [|b s IH]; intros cur Hn Hne; cbn.
  - rewrite app_nil_r in *. by destruct cur.
  - rewrite decide_False by set_solver. rewrite IH; [by rewrite <-app_assoc|set_solver|].
    by destruct cur.
Qed.

Lemma isdigit_digit d : 0 <= d < 10 → isdigit (to_u8 (48 + d)) = true ∧ u8 (to_u8 (48 + d)) = 48 + d.
Proof.
  intros Hd. assert (u8 (to_u8 (48 + d)) = 48 + d) as E by (rewrite u8_to_u8, Z.mod_small; lia).
  split; [|done]. unfold isdigit. rewrite E. lia.
Qed.

Lemma digits_val_app a b : digits_val (a ++ b) = foldl (λ acc d, acc * 10 + (u8 d - 48)) (digits_val a) b.
Proof. unfold digits_val. by rewrite foldl_app. Qed.

Lemma to_string_loop_spec fuel n acc : 0 <= n < 10 ^ (Z.of_nat fuel + 1) →
  ∃ ds, to_string_loop fuel n acc = ds ++ acc ∧ ds ≠ [] ∧ forallb isdigit ds = true ∧ digits_val ds = n.
Proof.
  revert n acc. induction fuel as [|fuel IH]; intros n acc Hn; cbn [to_string_loop];
    destruct (isdigit_digit (n mod 10)) as [Hd Ed]; try (apply Z.mod_pos_bound; lia).
  - exists [to_u8 (48 + n mod 10)]. cbn. rewrite Hd. unfold digits_val. cbn. rewrite Ed.
    split_and!; try done. cbn in Hn. rewrite Z.mod_small; lia.
  - case_decide as Hz.
    + exists [to_u8 (48 + n mod 10)]. cbn [app]. split_and!; [done..|by cbn; rewrite Hd|].
      unfold digits_val. cbn. rewrite Ed. Z.to_euclidean_division_equations; lia.
    + destruct (IH (n / 10) (to_u8 (48 + n mod 10) :: acc)) as (ds & -> & Hne & Hall & Hv).
      { rewrite Nat2Z.inj_succ, Z.add_succ_l, Z.pow_succ_r in Hn by lia.
        Z.to_euclidean_division_equations; lia. }
      exists (ds ++ [to_u8 (48 + n mod 10)]). rewrite <-app_assoc. split_and!; [done|by destruct ds| |].
      * by rewrite forallb_app, Hall; cbn; rewrite Hd.
      * rewrite digits_val_app, Hv. cbn. rewrite Ed. Z.to_euclidean_division_equations; lia.
Qed.

Lemma to_string_spec n : 0 <= n <= ULONG_MAX →
  to_string n ≠ [] ∧ forallb isdigit (to_string n) = true ∧ digits_val (to_string n) = n.
Proof.
  intros Hn. unfold ULONG_MAX in Hn.
  destruct (to_string_loop_spec 19 n []) as (ds & E & H); [cbn; lia|].
  unfold to_string. by rewrite E, app_nil_r.
Qed.

Lemma digits_val_nonneg s : 0 <= digits_val (take_while isdigit s).
Proof.
  unfold digits_val. enough (∀ acc, 0 <= acc → 0 <= foldl (λ acc d, acc * 10 + (u8 d - 48)) acc
    (take_while isdigit s)) as H by (apply H; lia).
  induction s as [|b s IH]; intros acc Ha; cbn; [done|].
  destruct (isdigit b) eqn:E; [|done]. cbn. apply IH.
  unfold isdigit in E. apply andb_true_iff in E as [E _]. zify_bools. lia.
Qed.

Lemma stoul_range s v n : stoul s = Ok (v, n) → 0 <= v <= ULONG_MAX.
Proof.
  unfold stoul. destruct (scan_sign _) as [neg s2]. case_decide; [done|].
  case_match eqn:E; [done|]. intros [= <- _]. zify_bools. pose proof (digits_val_nonneg s2).
  destruct neg; [|done].
  pose proof (Z.mod_pos_bound (- digits_val (take_while isdigit s2)) (ULONG_MAX + 1) ltac:(done)). lia.
Qed.

(** A string of digits is read as it is written. *)
Lemma stoul_digits ds t : ds ≠ [] → forallb isdigit ds = true →
  (∀ b, head t = Some b → isdigit b = false) → digits_val ds <= ULONG_MAX →
  stoul (ds ++ t) = Ok (digits_val ds, length ds).
Proof.
  intros Hne Hall Ht Hv. destruct ds as [|d ds]; [done|].
  pose proof Hall as Hd. cbn in Hd. apply andb_true_iff in Hd as [Hd _].
  unfold stoul. rewrite drop_front_id; cycle 1.
  { cbn. intros b [= <-]. revert Hd. by destruct d. }
  assert (scan_sign ((d :: ds) ++ t) = (false, (d :: ds) ++ t)) as ->.
  { cbn. revert Hd. by destruct d. }
  rewrite (take_while_all isdigit (d :: ds) t Hall Ht). rewrite decide_False by done.
  case_match; zify_bools; [lia|]. by rewrite Nat.sub_diag.
Qed.

(** Reading back a printed number. *)
Lemma stoul_to_string n : 0 <= n <= ULONG_MAX → stoul (to_string n) = Ok (n, length (to_string n)).
Proof.
  intros Hn. destruct (to_string_spec n Hn) as (Hne & Hall & Hv).
  rewrite <-(app_nil_r (to_string n)) at 1. rewrite stoul_digits; [|done..|lia]. by rewrite Hv.
Qed.

(** A number as [stoul] reads it, with the value it gives. *)
Inductive number : bytes → Z → Prop :=
| number_unsigned spaces plus ds : forallb isspace spaces = true → plus = [] ∨ plus = [Byte.x2b] →
    ds ≠ [] → forallb isdigit ds = true → digits_val ds <= ULONG_MAX →
    number (spaces ++ plus ++ ds) (digits_val ds)
| number_negated spaces ds : forallb isspace spaces = true →
    ds ≠ [] → forallb isdigit ds = true → digits_val ds <= ULONG_MAX →
    number (spaces ++ Byte.x2d :: ds) ((- digits_val ds) mod (ULONG_MAX + 1)).

Lemma drop_front_split p s : ∃ front, s = front ++ drop_front p s ∧ forallb p front = true ∧
  ∀ b, head (drop_front p s) = Some b → p b = false.
Proof.
  induction s as [|b s (front & E & Hf & Hh)]; cbn; [by exists []|]. destruct (p b) eqn:Hb.
  - exists (b :: front). cbn. rewrite Hb. split_and!; [by f_equal|done..].
  - exists []. split_and!; [done..|]. by intros b' [= <-].
Qed.

Lemma drop_front_app p front s : forallb p front = true → drop_front p (front ++ s) = drop_front p s.
Proof. induction front as [|b front IH]; cbn; [done|]. intros [-> Hf]%andb_true_iff. by apply IH. Qed.

Lemma take_while_length p s : length (take_while p s) = length s → forallb p s = true ∧ take_while p s = s.
Proof.
  induction s as [|b s IH]; cbn; [done|]. destruct (p b); cbn; [|done]. intros [= Hl].
  destruct (IH Hl) as [-> ->]. done.
Qed.

Lemma take_while_le p s : (length (take_while p s) ≤ length s)%nat.
Proof. induction s as [|b s IH]; cbn; [lia|]. destruct (p b); cbn; lia. Qed.

Lemma digit_not b : isdigit b = true → isspace b = false ∧ b ≠ Byte.x2b ∧ b ≠ Byte.x2d.
Proof. by destruct b. Qed.

(** [stoul] with nothing left over. *)
Lemma stoul_number s v : stoul s = Ok (v, length s) ↔ number s v.
Proof.
  split.
  - unfold stoul. destruct (drop_front_split isspace s) as (spaces & E & Hsp & _).
    set (s1 := drop_front isspace s) in *. clearbody s1. subst s.
    destruct (scan_sign s1) as [neg s2] eqn:Es. case_decide as Hne; [done|].
    destruct (_ <? _) eqn:Ev; [done|]. zify_bools. intros [= Ev' Hlen]. subst v.
    assert (∃ sign, s1 = sign ++ s2 ∧
      (neg = true ∧ sign = [Byte.x2d] ∨ neg = false ∧ (sign = [] ∨ sign = [Byte.x2b]))) as (sign & -> & Hsign).
    { unfold scan_sign in Es. destruct s1 as [|b s1]; [simplify_eq; exists []; auto|].
      repeat case_decide; simplify_eq; [exists [Byte.x2d]|exists [Byte.x2b]|exists []]; auto 10. }
    rewrite !length_app in Hlen. pose proof (take_while_le isdigit s2).
    destruct (take_while_length isdigit s2) as [Hd E]; [lia|]. rewrite E in *.
    destruct Hsign as [[-> ->]|[-> Hsign]]; by constructor.
  - intros [spaces plus ds Hsp Hplus Hne Hd Hv|spaces ds Hsp Hne Hd Hv]; unfold stoul;
      (rewrite drop_front_app by done); destruct ds as [|d ds]; try done;
      pose proof Hd as Hd1; cbn in Hd1; apply andb_true_iff in Hd1 as [Hd1 _];
      destruct (digit_not d Hd1) as (Hsd & Hp & Hm);
      pose proof (take_while_all isdigit (d :: ds) [] Hd ltac:(done)) as Ht; rewrite app_nil_r in Ht.
    + assert (drop_front isspace (plus ++ d :: ds) = plus ++ d :: ds ∧
        scan_sign (plus ++ d :: ds) = (false, d :: ds)) as [-> ->].
      { destruct Hplus as [->| ->]; cbn; [|done]. rewrite Hsd. by rewrite !decide_False. }
      rewrite Ht, decide_False, (proj2 (Z.ltb_ge _ _)) by done. rewrite !length_app. do 2 f_equal. lia.
    + cbn [drop_front]. change (isspace Byte.x2d) with false. cbv iota. cbn [scan_sign].
      rewrite decide_True, Ht, decide_False, (proj2 (Z.ltb_ge _ _)) by done.
      rewrite length_app. cbn [length]. do 2 f_equal. lia.
Qed.

End std.
