(* ===== verification/Config.v ===== *)
(** * Configuration files: common/Config.hpp, Config.cpp, client/StartupProgress.hpp

    The file is its content, or [None] when it cannot be opened; the calls of the
    progress callback are returned in order, before the result.  The path of the
    running program (readlink on /proc/self/exe) and [argv] are arguments. *)
From S2P Require Import Prelude.
From S2P Require Import CppString.

Module config.

Definition kDefaultPort : Z := 5020.
Definition kDefaultBindIp : bytes := str "0.0.0.0".
Definition kDefaultServerIp : bytes := str "127.0.0.1".
Definition kConfSuffix : bytes := str ".conf".
Definition kDefaultServerConfigName : bytes := str "server.conf".
Definition kDefaultClientConfigName : bytes := str "client.conf".
Definition kDefaultKeystorePassword : bytes := str "modbus-chat".
Definition kDefaultClientLogName : bytes := str "client.log".

Definition kProgressComplete : Z := 100.

(** ** Paths *)

Definition slash : byte := Byte.x2f.

(** The directory of a path, if it has one. *)
Definition dir_of (path : bytes) : option bytes :=
  pos ← std.find_last_of slash path;
  Some (std.substr_to path pos).

(** [exe]: what readlink finds, if anything; [argv0]: [None] for a null pointer. *)
Definition executable_dir (exe argv0 : option bytes) : bytes :=
  match exe ≫= dir_of with
  | Some dir => dir
  | None =>
      match argv0 ≫= (λ p, if decide (p = []) then None else dir_of p) with
      | Some dir => dir
      | None => str "."
      end
  end.

Definition has_conf_suffix (path : bytes) : bool :=
  bool_decide (length kConfSuffix ≤ length path)%nat &&
  bool_decide (drop (length path - length kConfSuffix) path = kConfSuffix).

Definition resolve_config_path (exe argv0 : option bytes) (default_filename : bytes)
    (override_path : option bytes) : bytes :=
  let base_dir := executable_dir exe argv0 in
  match override_path with
  | None | Some [] => base_dir ++ str "/config/" ++ default_filename
  | Some path =>
      if decide (head path = Some slash) then path else
      let path := if has_conf_suffix path then path else path ++ kConfSuffix in
      if std.starts_with (str "config/") path then base_dir ++ str "/" ++ path
      else base_dir ++ str "/config/" ++ path
  end.

(** ** Reading *)

Abbreviation values := (gmap bytes bytes).

(** One line of the file, its effect on [values_]. *)
Definition load_line (line : bytes) (values_ : values) : values :=
  if decide (line = []) then values_ else
  if decide (head line = Some Byte.x23) then values_ else
  match std.find Byte.x3d line with
  | None => values_
  | Some pos =>
      let key := std.substr_to line pos in
      let value := drop (S pos) line in
      let key := std.drop_back std.is_blank key in
      let value := std.drop_front std.is_blank value in
      <[key := value]> values_
  end.

(** The progress calls of the loop. *)
Fixpoint load_progress (lines : list bytes) (size consumed last_percent : Z) : list (Z * bytes) :=
  match lines with
  | [] => []
  | line :: lines =>
      let consumed := consumed + (size_t line + 1) in
      if 0 <? size then
        let percent := consumed * kProgressComplete / size in
        if negb (percent =? last_percent)
        then (Z.min percent kProgressComplete, str "Reading config")
             :: load_progress lines size consumed percent
        else load_progress lines size consumed last_percent
      else load_progress lines size consumed last_percent
  end.

Definition load (content : option bytes) (path : bytes) (progress : bool)
    : list (Z * bytes) * outcome values :=
  match content with
  | None => ([], Throw (runtime_error (str "Failed to open config file: " ++ path)))
  | Some content =>
      let lines := std.getline_tokens Byte.x0a [] content in
      (if progress
       then (0, str "Opening " ++ path) :: load_progress lines (size_t content) 0 (-1) ++
            [(kProgressComplete, str "Config loaded")]
       else [],
       Ok (foldl (λ m line, load_line line m) ∅ lines))
  end.

Definition get (values_ : values) (key default_value : bytes) : bytes :=
  match values_ !! key with
  | None => default_value
  | Some v => v
  end.

Record ServerConfig := mkServerConfig { bind_ip : bytes; server_port : Z }.

Record ClientConfig := mkClientConfig {
  server_ip : bytes;
  client_port : Z;
  nickname : bytes;
  keystore_path : bytes;
  keystore_password : bytes;
  log_path : bytes
}.

(** [static_cast<uint16_t>(std::stoi(config.get("port", ...)))] *)
Definition port_of (values_ : values) : outcome Z :=
  v ← std.stoi (get values_ (str "port") (std.to_string kDefaultPort));
  mret (to_u16 v).

Definition server_of (c : values) : outcome ServerConfig :=
  port ← port_of c;
  mret (mkServerConfig (get c (str "bind_ip") kDefaultBindIp) port).

Definition client_of (c : values) : outcome ClientConfig :=
  port ← port_of c;
  mret (mkClientConfig (get c (str "server_ip") kDefaultServerIp) port
          (get c (str "nickname") []) (get c (str "keystore_path") [])
          (get c (str "keystore_password") kDefaultKeystorePassword) (get c (str "log_path") [])).

Definition server_from_file (content : option bytes) (path : bytes) (progress : bool)
    : list (Z * bytes) * outcome ServerConfig :=
  let '(calls, r) := load content path progress in (calls, c ← r; server_of c).

Definition client_from_file (content : option bytes) (path : bytes) (progress : bool)
    : list (Z * bytes) * outcome ClientConfig :=
  let '(calls, r) := load content path progress in (calls, c ← r; client_of c).

(** ** StartupProgress *)

Definition kProgressMin : Z := 0.
Definition kProgressMax : Z := 100.
Definition kResolveConfigPercent : Z := 5.
Definition kReadConfigBeginPercent : Z := 10.
Definition kConfigReadBandWidth : Z := 25.
Definition kConfigReadyPercent : Z := 40.
Definition kConnectingPercent : Z := 45.
Definition kTcpConnectedPercent : Z := 60.
Definition kWaitAssignIdPercent : Z := 75.
Definition kGotIdPercent : Z := 85.
Definition kRegisteringPercent : Z := 92.
Definition kCompletePercent : Z := 100.

(** C++ division rounds towards zero. *)
Definition map_config_file_percent (file_percent : Z) : Z :=
  kReadConfigBeginPercent + Z.quot (file_percent * kConfigReadBandWidth) kProgressMax.

(** ** Facts *)

(** A line [key=value] that is read back as it was written. *)
Definition key_ok (k : bytes) : Prop :=
  Byte.x3d ∉ k ∧ Byte.x0a ∉ k ∧ head k ≠ Some Byte.x23 ∧ (∀ b, last k = Some b → std.is_blank b = false).
Definition value_ok (v : bytes) : Prop :=
  Byte.x0a ∉ v ∧ (∀ b, head v = Some b → std.is_blank b = false).

Definition print_line (kv : bytes * bytes) : bytes := kv.1 ++ Byte.x3d :: kv.2.
Definition print_file (kvs : list (bytes * bytes)) : bytes :=
  concat ((λ kv, print_line kv ++ [Byte.x0a]) <$> kvs).

Lemma load_line_print k v m : key_ok k → value_ok v → load_line (print_line (k, v)) m = <[k := v]> m.
Proof.
  intros (Heq & _ & Hhash & Hlast) (_ & Hhead). unfold load_line, print_line. cbn [fst snd].
  rewrite decide_False by (by destruct k).
  rewrite decide_False by (destruct k as [|b k]; cbn in *; [done|exact Hhash]).
  rewrite std.find_app by done. unfold std.substr_to. rewrite take_app_length.
  change (k ++ Byte.x3d :: v) with (k ++ [Byte.x3d] ++ v). rewrite app_assoc.
  replace (S (length k)) with (length (k ++ [Byte.x3d])) by (rewrite length_app; cbn; lia).
  rewrite drop_app_length. by rewrite std.drop_back_id, std.drop_front_id.
Qed.

Lemma lines_of_file kvs : Forall (λ kv, key_ok kv.1 ∧ value_ok kv.2) kvs →
  std.getline_tokens Byte.x0a [] (print_file kvs) = print_line <$> kvs.
Proof.
  unfold print_file. induction 1 as [|[k v] kvs [Hk Hv] _ IH]; [done|]. cbn [fmap list_fmap concat].
  rewrite <-app_assoc. cbn [app]. rewrite std.getline_tokens_app; [by rewrite IH|].
  unfold print_line. cbn [fst snd] in *. destruct Hk as (_ & Hk & _), Hv as [Hv _]. set_solver.
Qed.

(** A configuration written one [key=value] per line is read back as these
    pairs, the last one winning when a key is repeated. *)
Theorem load_print kvs path progress : Forall (λ kv, key_ok kv.1 ∧ value_ok kv.2) kvs →
  (load (Some (print_file kvs)) path progress).2 = Ok (list_to_map (reverse kvs)).
Proof.
  intros Hkvs. cbn. f_equal. rewrite lines_of_file by done.
  assert (∀ m, foldl (λ m line, load_line line m) m (print_line <$> kvs) =
    foldl (λ m kv, <[kv.1 := kv.2]> m) m kvs) as ->.
  { induction Hkvs as [|[k v] kvs [Hk Hv] _ IH]; intros m; [done|].
    cbn [fmap list_fmap foldl fst snd]. by rewrite load_line_print, IH. }
  rewrite <-(reverse_involutive kvs) at 1. generalize (reverse kvs). clear kvs Hkvs. intros l.
  induction l as [|[k v] l IH]; [done|]. by rewrite reverse_cons, foldl_snoc, IH.
Qed.

Lemma load_print_witness :
  (load (Some (print_file [(str "port", str "7000"); (str "port", str "7001")])) (str "a.conf") false).2 =
  Ok (list_to_map [(str "port", str "7001"); (str "port", str "7000")]).
Proof.
  apply (load_print [(str "port", str "7000"); (str "port", str "7001")]).
  repeat constructor; cbn; try (apply (bool_decide_unpack _); vm_compute; exact I).
  all: intros b [= <-]; reflexivity.
Defined.

(** The percentages of the loop go up, from the last one reported, and stay within
    0 and 100. *)
Lemma load_progress_sorted lines size consumed last : 0 <= consumed →
  (0 < size → last <= consumed * kProgressComplete / size) →
  Forall (λ p, Z.min last 100 <= p ∧ 0 <= p <= 100) (load_progress lines size consumed last).*1 ∧
  StronglySorted Z.le (load_progress lines size consumed last).*1.
Proof.
  revert consumed last. induction lines as [|line lines IH]; intros consumed last Hc Hlast;
    cbn [load_progress]; [by split; constructor|].
  set (consumed' := consumed + (size_t line + 1)). assert (consumed <= consumed') by (unfold consumed'; lia).
  destruct (Z.ltb_spec 0 size) as [Hsize|Hsize]; [|apply IH; [lia|intros; lia]].
  assert (consumed * kProgressComplete / size <= consumed' * kProgressComplete / size)
    by (apply Z.div_le_mono; unfold kProgressComplete; lia).
  specialize (Hlast Hsize). destruct (negb _); [|apply IH; [lia|intros _; lia]].
  set (percent := consumed' * kProgressComplete / size) in *.
  assert (0 <= percent) by (apply Z.div_pos; unfold kProgressComplete; lia).
  destruct (IH consumed' percent) as [Hall Hsort]; [lia|done|]. cbn. unfold kProgressComplete. split.
  - constructor; [lia|]. eapply Forall_impl; [exact Hall|]. cbn. lia.
  - constructor; [done|]. eapply Forall_impl; [exact Hall|]. cbn. lia.
Qed.

(** The reports of [load] go up from 0 to 100. *)
Lemma load_calls_sorted content path : StronglySorted Z.le (load content path true).1.*1 ∧
  Forall (λ p, 0 <= p <= 100) (load content path true).1.*1.
Proof.
  destruct content as [content|]; cbn; [|by split; constructor].
  destruct (load_progress_sorted (std.getline_tokens Byte.x0a [] content) (size_t content) 0 (-1))
    as [Hall Hsort]; [lia|intros Hsz; rewrite Z.mul_0_l, Z.div_0_l; lia|].
  rewrite fmap_app. cbn. unfold kProgressComplete. assert (Forall (λ p, 0 <= p <= 100)
    ((load_progress (std.getline_tokens Byte.x0a [] content) (size_t content) 0 (-1)).*1 ++ [100])) as Hr.
  { apply Forall_app. split; [|repeat constructor; lia]. eapply Forall_impl; [exact Hall|]. cbn. lia. }
  split; [|constructor; [lia|exact Hr]]. constructor; [|eapply Forall_impl; [exact Hr|]; cbn; lia].
  apply StronglySorted_app_2; [|done|repeat constructor]. intros x y Hx Hy.
  apply list_elem_of_singleton in Hy as ->. rewrite Forall_forall in Hall. specialize (Hall x Hx). lia.
Qed.

Lemma map_config_file_percent_mono p q : 0 <= p → p <= q → q <= 100 →
  kReadConfigBeginPercent <= map_config_file_percent p <= map_config_file_percent q ∧
  map_config_file_percent q < kConfigReadyPercent.
Proof.
  intros. unfold map_config_file_percent, kReadConfigBeginPercent, kConfigReadBandWidth, kProgressMax,
    kConfigReadyPercent. rewrite !Z.quot_div_nonneg by lia.
  pose proof (Z.div_pos (p * 25) 100). pose proof (Z.div_le_mono (p * 25) (q * 25) 100).
  pose proof (Z.div_le_upper_bound (q * 25) 100 25). lia.
Qed.

End config.
