(* ===== verification/AdminCommandParser.v ===== *)
(** * The server's admin console: server/viewmodel/AdminCommandParser.cpp *)
From S2P Require Import Prelude.
From S2P Require Import CppString.

Module server_admin.

Record BanCommand := mkBan { ids : list Z }.

Definition trim (value : bytes) : bytes :=
  std.drop_back std.isspace (std.drop_front std.isspace value).

(** The body of the token loop: an id, or [None] for the early returns of
    [std::nullopt], the [catch (...)] included. *)
Definition parse_id (token : bytes) : option Z :=
  let token := trim token in
  if decide (token = []) then None else
  match std.stoul token with
  | Ok (value, consumed) =>
      if negb (bool_decide (consumed = length token)) || (value =? 0) || (4294967295 <? value)
      then None else Some (to_u32 value)
  | _ => None
  end.

Fixpoint parse_ids (tokens : list bytes) : option (list Z) :=
  match tokens with
  | [] => Some []
  | token :: tokens =>
      id ← parse_id token;
      rest ← parse_ids tokens;
      Some (id :: rest)
  end.

Definition kBanPrefix : bytes := str "ban:".
Definition kBanPrefixLen : nat := 4.

Definition parse_admin_command (line : bytes) : option BanCommand :=
  let trimmed := trim line in
  if decide (trimmed = []) then None else
  if decide (length trimmed < kBanPrefixLen)%nat then None else
  if decide (take kBanPrefixLen trimmed ≠ kBanPrefix) then None else
  let ids_part := trim (drop kBanPrefixLen trimmed) in
  if decide (ids_part = []) then None else
  command ← parse_ids (std.getline_tokens Byte.x2c [] ids_part);
  if decide (command = []) then None else Some (mkBan command).

Definition admin_help_text : bytes := str "Admin commands: ban:1,2,3".

(** ** Facts *)

(** The console line that bans [ids]. *)
Fixpoint join_ids (ids : list Z) : bytes :=
  match ids with
  | [] => []
  | [id] => std.to_string id
  | id :: rest => std.to_string id ++ Byte.x2c :: join_ids rest
  end.

(** The ids a ban command can name. *)
Definition bannable (id : Z) : Prop := 0 < id < 4294967296.

Lemma trim_id s :
  (∀ b, head s = Some b → std.isspace b = false) →
  (∀ b, last s = Some b → std.isspace b = false) → trim s = s.
Proof. intros. unfold trim. rewrite std.drop_front_id, std.drop_back_id; done. Qed.

Lemma isdigit_not_space b : std.isdigit b = true → std.isspace b = false ∧ b ≠ Byte.x2c.
Proof. by destruct b. Qed.

Lemma digits_Forall s : forallb std.isdigit s = true → Forall (λ b, std.isdigit b = true) s.
Proof. intros H. apply Forall_forall. intros b Hb. rewrite forallb_forall in H. apply H. by apply list_elem_of_In. Qed.

Lemma to_string_digits id : bannable id →
  Forall (λ b, std.isdigit b = true) (std.to_string id) ∧ std.to_string id ≠ [].
Proof.
  intros H. destruct (std.to_string_spec id) as (Hne & Hall & _); [unfold bannable, std.ULONG_MAX in *; lia|].
  split; [by apply digits_Forall|done].
Qed.

Lemma Forall_head_last {A} (P : A → Prop) s :
  Forall P s → (∀ b, head s = Some b → P b) ∧ (∀ b, last s = Some b → P b).
Proof.
  intros H. split; intros b Hb.
  - destruct s; [done|]. injection Hb as ->. by apply Forall_cons in H as [? _].
  - apply last_Some in Hb as [l ->]. apply Forall_app in H as [_ H]. by apply Forall_cons in H as [? _].
Qed.

Lemma trim_digits s : Forall (λ b, std.isdigit b = true) s → trim s = s.
Proof.
  intros H. apply Forall_head_last in H as [H1 H2].
  apply trim_id; intros b Hb; eapply isdigit_not_space; eauto.
Qed.

Lemma parse_id_to_string id : bannable id → parse_id (std.to_string id) = Some id.
Proof.
  intros Hid. destruct (to_string_digits id Hid) as [Hall Hne].
  unfold bannable in Hid. unfold parse_id. rewrite trim_digits by done. rewrite decide_False by done.
  rewrite std.stoul_to_string by (unfold std.ULONG_MAX; lia). rewrite bool_decide_eq_true_2 by done.
  cbn [negb orb]. case_match eqn:E; [apply orb_true_iff in E as [E|E]; zify_bools; lia|].
  rewrite to_u32_small; [done|unfold is_u32; lia].
Qed.

Lemma comma_notin_digits s : Forall (λ b, std.isdigit b = true) s → Byte.x2c ∉ s.
Proof. intros H Hin. rewrite Forall_forall in H. by apply H in Hin. Qed.

Lemma tokens_join_ids ids : ids ≠ [] → Forall bannable ids →
  std.getline_tokens Byte.x2c [] (join_ids ids) = std.to_string <$> ids.
Proof.
  intros Hne H. induction H as [|id rest Hid Hall IH]; [done|].
  destruct (to_string_digits id Hid) as [Hd Hn].
  destruct rest as [|id2 rest].
  - cbn [join_ids]. rewrite std.getline_tokens_last; [done|by apply comma_notin_digits|done].
  - change (join_ids (id :: id2 :: rest))
      with (std.to_string id ++ Byte.x2c :: join_ids (id2 :: rest)).
    rewrite std.getline_tokens_app by by apply comma_notin_digits.
    rewrite IH by done. done.
Qed.

Lemma parse_ids_to_string ids : Forall bannable ids → parse_ids (std.to_string <$> ids) = Some ids.
Proof.
  intros H. induction H as [|id rest Hid Hall IH]; [done|].
  rewrite fmap_cons. cbn [parse_ids]. rewrite parse_id_to_string by done.
  cbn [mbind option_bind]. by rewrite IH.
Qed.

Lemma join_ids_not_space ids : ids ≠ [] → Forall bannable ids →
  join_ids ids ≠ [] ∧
  (∀ b, head (join_ids ids) = Some b → std.isspace b = false) ∧
  (∀ b, last (join_ids ids) = Some b → std.isspace b = false).
Proof.
  intros Hne H. induction H as [|id rest Hid Hall IH]; [done|].
  destruct (to_string_digits id Hid) as [Hd Hn].
  destruct (Forall_head_last _ _ Hd) as [Hh Hl].
  destruct rest as [|id2 rest].
  - cbn [join_ids]. split_and!; [done|..]; intros b Hb; eapply isdigit_not_space; eauto.
  - destruct IH as (IHne & _ & IHl); [done|].
    change (join_ids (id :: id2 :: rest))
      with (std.to_string id ++ Byte.x2c :: join_ids (id2 :: rest)).
    destruct (std.to_string id) as [|c s] eqn:E; [done|]. split_and!; [done|..].
    + cbn. intros b [= <-]. by apply isdigit_not_space, Hh.
    + intros b. rewrite last_app_cons, last_cons.
      destruct (last (join_ids (id2 :: rest))) eqn:El; [|by apply last_None in El].
      intros [= <-]. by apply IHl.
Qed.

(** C40. The console understands the lines of its help text: [ban:] followed by
    ids in decimal separated by commas gives the command that bans exactly these
    ids in this order. *)
Theorem parse_ban_line ids : ids ≠ [] → Forall bannable ids →
  parse_admin_command (kBanPrefix ++ join_ids ids) = Some (mkBan ids).
Proof.
  intros Hne Hall. destruct (join_ids_not_space ids Hne Hall) as (Hj & Hh & Hl).
  unfold parse_admin_command, kBanPrefixLen. rewrite (trim_id (kBanPrefix ++ _)); cycle 1.
  { cbn. by intros b [= <-]. }
  { intros b. rewrite last_app. destruct (last (join_ids ids)) eqn:E; [|by apply last_None in E].
    intros [= <-]. by apply Hl. }
  change (kBanPrefix ++ join_ids ids) with (Byte.x62 :: Byte.x61 :: Byte.x6e :: Byte.x3a :: join_ids ids).
  cbn [take].
  rewrite decide_False by done. rewrite decide_False by (cbn; lia).
  rewrite decide_False by (intros N; by apply N). cbn [drop].
  rewrite drop_0, trim_id by done. rewrite decide_False by done.
  rewrite tokens_join_ids, parse_ids_to_string by done. cbn [mbind option_bind].
  by rewrite decide_False.
Qed.

Lemma parse_ban_line_witness :
  parse_admin_command (kBanPrefix ++ join_ids [1; 2; 4294967295]) = Some (mkBan [1; 2; 4294967295]).
Proof.
  apply parse_ban_line; [discriminate|]. repeat constructor; unfold bannable; lia.
Defined.

(** Whatever is typed on the console, a command that is accepted names at
    least one id, and only ids between 1 and 2^32 - 1. *)
Theorem parse_admin_command_ids line cmd :
  parse_admin_command line = Some cmd → ids cmd ≠ [] ∧ Forall bannable (ids cmd).
Proof.
  unfold parse_admin_command. repeat (case_decide; [done|]).
  destruct (parse_ids _) as [l|] eqn:E; [|done]. cbn [mbind option_bind].
  case_decide; [done|]. intros [= <-]. split; [done|]. cbn [ids]. clear -E. revert l E.
  generalize (std.getline_tokens Byte.x2c [] (trim (drop kBanPrefixLen (trim line)))) as tokens.
  induction tokens as [|t tokens IH]; intros l; cbn [parse_ids]; [by intros [= <-]|].
  intros (id & Hid & (rest & Hr & [= <-])%bind_Some)%bind_Some.
  constructor; [|by apply IH]. unfold parse_id in Hid. case_decide; [done|].
  destruct (std.stoul _) as [[v c]|e|] eqn:Es; [|done..].
  case_match eqn:Eb; [done|]. injection Hid as <-.
  apply orb_false_iff in Eb as [Eb E3]. apply orb_false_iff in Eb as [_ E2]. zify_bools.
  apply std.stoul_range in Es. unfold std.ULONG_MAX in Es.
  unfold bannable. rewrite to_u32_small; unfold is_u32; lia.
Qed.

Lemma parse_admin_command_ids_witness :
  ids (mkBan [7]) ≠ [] ∧ Forall bannable (ids (mkBan [7])).
Proof.
  apply (parse_admin_command_ids (str " ban: 7 ,")). vm_compute. reflexivity.
Defined.

End server_admin.
