(* ===== verification/Message.v ===== *)
(** * Addressed messages and console lines: common/Message.hpp

    The class template [Message] over its recipient type, with the traits as a
    type class, and the parsers of [recipient:text] lines. *)
From S2P Require Import Prelude.
From S2P Require Import Protocol.
From S2P Require Import CppString.

Module message.

(** [RecipientTraits<T>], and the two branches of the [if constexpr] of
    [Message::deserialize] that step over the recipient. *)
Class RecipientTraits (T : Type) := {
  tag : byte;
  recipient_serialize : T → outcome bytes;
  recipient_deserialize : bytes → outcome T;
  recipient_skip : bytes → outcome nat
}.

#[global] Instance RecipientTraits_u32 : RecipientTraits Z := {
  tag := protocol.kRecipientById;
  recipient_serialize := λ value, mret (protocol.encode_u32_be value);
  recipient_deserialize := λ data,
    if decide (length data < protocol.kUint32Size)%nat
    then Throw (runtime_error (str "Invalid id recipient payload"))
    else protocol.read_u32_be data;
  recipient_skip := λ _, mret protocol.kUint32Size
}.

#[global] Instance RecipientTraits_string : RecipientTraits bytes := {
  tag := protocol.kRecipientByNickname;
  recipient_serialize := protocol.encode_string;
  recipient_deserialize := protocol.decode_string;
  recipient_skip := λ data,
    str_len ← protocol.read_u16_be data;
    mret (protocol.kUint16Size + Z.to_nat str_len)%nat
}.

Record Message (T : Type) := mkMsg { recipient : T; payload : bytes; from_id : Z }.
Arguments mkMsg {T} _ _ _.
Arguments recipient {T} _.
Arguments payload {T} _.
Arguments from_id {T} _.

Section template.
Context {T : Type} `{RecipientTraits T}.

Definition serialize (m : Message T) : outcome bytes :=
  recipient_bytes ← recipient_serialize (recipient m);
  payload_bytes ← protocol.encode_string (payload m);
  mret ([tag] ++ recipient_bytes ++ payload_bytes).

Definition deserialize (data : bytes) : outcome (Message T) :=
  if decide (length data < 1)%nat then Throw (runtime_error (str "Empty message payload")) else
  t ← at_ data 0;
  if decide (t ≠ tag) then Throw (runtime_error (str "Recipient tag mismatch")) else
  p ← span_from data 1;
  r ← recipient_deserialize p;
  skip ← recipient_skip p;
  p ← span_from data (1 + skip);
  body ← protocol.decode_string p;
  mret (mkMsg r body 0).

End template.

(** ** Console lines *)

Definition is_numeric_recipient (text : bytes) : bool :=
  match text with [] => false | _ => forallb std.isdigit text end.

Definition colon : byte := Byte.x3a.

Definition parse_id_message (line : bytes) (from : Z) : outcome (option (Message Z)) :=
  match std.find colon line with
  | None => mret None
  | Some pos =>
      let r := std.substr_to line pos in
      if negb (is_numeric_recipient r) then mret None else
      '(v, _) ← std.stoul r;
      text ← std.substr line (pos + 1);
      mret (Some (mkMsg (to_u32 v) text from))
  end.

Definition parse_nickname_message (line : bytes) (from : Z) : outcome (option (Message bytes)) :=
  match std.find colon line with
  | None => mret None
  | Some pos =>
      let r := std.substr_to line pos in
      if is_numeric_recipient r then mret None else
      text ← std.substr line (pos + 1);
      mret (Some (mkMsg r text from))
  end.

(** ** Facts *)

(** What a recipient type has to promise for [Message] to round-trip. *)
Class RecipientLaws (T : Type) `{RecipientTraits T} := {
  recipient_ok : T → Prop;
  recipient_roundtrip r : recipient_ok r → ∃ e, recipient_serialize r = Ok e ∧
    ∀ rest, recipient_deserialize (e ++ rest) = Ok r ∧ recipient_skip (e ++ rest) = Ok (length e);
  recipient_safe data : no_ub (recipient_deserialize data);
  recipient_skip_ok data r : recipient_deserialize data = Ok r →
    ∃ n, recipient_skip data = Ok n ∧ (n ≤ length data)%nat
}.

#[global, refine] Instance RecipientLaws_u32 : RecipientLaws Z := { recipient_ok := is_u32 }.
Proof.
  - intros r Hr. exists (protocol.be32 r). cbn [recipient_serialize recipient_deserialize recipient_skip RecipientTraits_u32]. unfold protocol.encode_u32_be, protocol.kUint32Size.
    rewrite protocol.write_u32_be_spec. split; [done|]. intros rest.
    rewrite decide_False by (cbn; lia). split; [|done]. apply protocol.read_u32_be_iff. eauto.
  - intros data. cbn. unfold protocol.kUint32Size. case_decide; [done|].
    destruct (protocol.read_u32_be_ok data) as [v ->]; [lia|done].
  - cbn. unfold protocol.kUint32Size. intros data r. case_decide; [done|]. intros _. exists 4%nat. split; [done|lia].
Defined.

#[global, refine] Instance RecipientLaws_string : RecipientLaws bytes :=
  { recipient_ok := protocol.wf_string }.
Proof.
  - intros r Hr. exists (protocol.lstr r). cbn [recipient_serialize recipient_deserialize recipient_skip RecipientTraits_string]. split; [by apply protocol.encode_string_iff|].
    intros rest. split; [by apply protocol.decode_string_head|].
    unfold protocol.lstr. rewrite <-app_assoc, protocol.decode_count; [|done].
    cbn [mbind outcome_bind]. by rewrite Nat2Z.id.
  - intros data. apply protocol.decode_string_no_ub.
  - intros data r [Hr [rest ->]]%protocol.decode_string_iff. cbn [recipient_serialize recipient_deserialize recipient_skip RecipientTraits_string]. unfold protocol.lstr.
    rewrite <-app_assoc, protocol.decode_count by done. cbn [mbind outcome_bind].
    eexists. split; [done|]. rewrite Nat2Z.id, !length_app. cbn [length protocol.be16]. unfold protocol.kUint16Size. lia.
Defined.

Section template_facts.
Context {T : Type} `{RecipientLaws T}.

(** A message addressed by id or by nickname is read back from its
    serialization, with the sender field reset; bytes after it do not matter. *)
Theorem deserialize_serialize (m : Message T) rest :
  recipient_ok (recipient m) → protocol.wf_string (payload m) →
  ∃ e, serialize m = Ok e ∧ deserialize (e ++ rest) = Ok (mkMsg (recipient m) (payload m) 0).
Proof.
  intros Hr Hp. destruct (recipient_roundtrip _ Hr) as (e & He & Hd).
  unfold serialize. rewrite He. cbn [mbind outcome_bind].
  rewrite (proj2 (protocol.encode_string_iff _ _)) by eauto. cbn [mbind outcome_bind].
  eexists. split; [done|]. rewrite <-!app_assoc. cbn [app]. unfold deserialize.
  rewrite decide_False by (cbn; lia). rewrite at_cons. cbn [mbind outcome_bind].
  rewrite decide_False by (intros N; by apply N).
  rewrite span_from_ok by (cbn; lia). cbn [drop mbind outcome_bind]. rewrite drop_0.
  destruct (Hd (protocol.lstr (payload m) ++ rest)) as [-> ->]. cbn [mbind outcome_bind].
  rewrite span_from_ok by (cbn; rewrite length_app; lia). cbn [drop Nat.add mbind outcome_bind].
  rewrite drop_app_length, protocol.decode_string_head by done. done.
Qed.

(** [deserialize] never leaves the buffer it is given. *)
Lemma deserialize_no_ub data : no_ub (deserialize data).
Proof.
  unfold deserialize. case_decide; [done|].
  destruct (at_ok data 0) as (b & -> & _); [lia|]. cbn [mbind outcome_bind]. case_decide; [done|].
  rewrite span_from_ok by lia. cbn [mbind outcome_bind].
  apply no_ub_bind; [apply recipient_safe|]. intros r Hr.
  destruct (recipient_skip_ok _ _ Hr) as (n & -> & Hn). cbn [mbind outcome_bind].
  rewrite length_drop in Hn. rewrite span_from_ok by lia. cbn [mbind outcome_bind].
  apply no_ub_bind; [apply protocol.decode_string_no_ub|done].
Qed.

End template_facts.

Lemma deserialize_serialize_witness :
  ∃ e, serialize (mkMsg (str "bob") (str "hi") 5) = Ok e ∧
       deserialize (e ++ []) = Ok (mkMsg (str "bob") (str "hi") 0).
Proof.
  apply (deserialize_serialize (mkMsg (str "bob") (str "hi") 5));
    cbn; unfold protocol.wf_string; cbn; lia.
Defined.

(** The recipient and the text of a line. *)
Lemma find_colon r text : colon ∉ r → std.find colon (r ++ colon :: text) = Some (length r).
Proof. apply std.find_app. Qed.

Lemma substr_line r text : std.substr_to (r ++ colon :: text) (length r) = r ∧
  std.substr (r ++ colon :: text) (length r + 1) = Ok text.
Proof.
  unfold std.substr_to, std.substr. split; [apply take_app_length|].
  rewrite decide_False by (rewrite length_app; cbn; lia).
  rewrite drop_app_ge by lia. replace (length r + 1 - length r)%nat with 1%nat by lia. done.
Qed.

Lemma parse_id_message_spec r text from : colon ∉ r →
  parse_id_message (r ++ colon :: text) from =
  if is_numeric_recipient r then
    if std.ULONG_MAX <? std.digits_val r then Throw (out_of_range (str "stoul"))
    else Ok (Some (mkMsg (to_u32 (std.digits_val r)) text from))
  else Ok None.
Proof.
  intros Hr. unfold parse_id_message. rewrite find_colon by done.
  destruct (substr_line r text) as [-> E]. destruct (is_numeric_recipient r) eqn:En; [|done].
  cbn [negb]. unfold is_numeric_recipient in En. destruct r as [|d r]; [done|].
  destruct (std.ULONG_MAX <? std.digits_val (d :: r)) eqn:Ev.
  - unfold std.stoul. pose proof En as Hd. cbn in Hd. apply andb_true_iff in Hd as [Hd _].
    rewrite std.drop_front_id by (cbn; intros b [= <-]; revert Hd; by destruct d).
    assert (std.scan_sign (d :: r) = (false, d :: r)) as -> by (cbn; revert Hd; by destruct d).
    pose proof (std.take_while_all std.isdigit (d :: r) [] En ltac:(done)) as Ht.
    rewrite app_nil_r in Ht. rewrite Ht.
    rewrite decide_False by done. by rewrite Ev.
  - zify_bools. rewrite <-(app_nil_r (d :: r)) at 1. rewrite std.stoul_digits by done.
    cbn [mbind outcome_bind]. by rewrite E.
Qed.

Lemma parse_nickname_message_spec r text from : colon ∉ r →
  parse_nickname_message (r ++ colon :: text) from =
  Ok (if is_numeric_recipient r then None else Some (mkMsg r text from)).
Proof.
  intros Hr. unfold parse_nickname_message. rewrite find_colon by done.
  destruct (substr_line r text) as [-> E]. destruct (is_numeric_recipient r); [done|].
  by rewrite E.
Qed.

End message.
