(* ===== verification/ClientCommands.v ===== *)
(** * What the user types and what goes out:
    client/viewmodel/InputCommandParser.hpp,
    client/viewmodel/OutgoingMessageBuilder.cpp *)
From S2P Require Import Prelude.
From S2P Require Import ModbusTcp.
From S2P Require Import Protocol.
From S2P Require Import CppString.
From S2P Require Import Message.

Module client_viewmodel.
Import protocol.

Inductive InputCommandType :=
| ListUsersCmd | ExitCmd | ChatById | ChatByNickname | ChatBroadcast | KeyOfferCmd | Invalid.

#[global] Instance InputCommandType_eq_dec : EqDecision InputCommandType.
Proof. solve_decision. Defined.

Record InputCommand := mkCmd {
  cmd_type : InputCommandType;
  recipient_id : Z;
  recipient_nickname : bytes;
  cmd_text : bytes
}.

(** [InputCommand command;] and [return {};] *)
Definition InputCommand_default : InputCommand := mkCmd Invalid 0 [] [].

(** The branch for lines that start with [/key]; the [catch (...)] returns the
    default command. *)
Definition parse_key_line (line : bytes) : InputCommand :=
  let rest := std.drop_front std.is_blank (drop 4 line) in
  if decide (rest = []) then InputCommand_default else
  match std.stoul rest with
  | Ok (id, consumed) =>
      if negb (bool_decide (consumed = length rest)) || (id =? 0) then InputCommand_default
      else mkCmd KeyOfferCmd (to_u32 id) [] []
  | _ => InputCommand_default
  end.

Definition parse_input_line (line : bytes) (from_id : Z) : outcome InputCommand :=
  if decide (line = []) then mret InputCommand_default else
  if decide (line = str "/users") then mret (mkCmd ListUsersCmd 0 [] []) else
  if decide (line = str "/exit" ∨ line = str "exit") then mret (mkCmd ExitCmd 0 [] []) else
  if std.starts_with (str "/key") line then mret (parse_key_line line) else
  id_message ← message.parse_id_message line from_id;
  match id_message with
  | Some m => mret (mkCmd ChatById (message.recipient m) [] (message.payload m))
  | None =>
      nick_message ← message.parse_nickname_message line from_id;
      match nick_message with
      | Some m =>
          if decide (message.recipient m = kBroadcastRecipient)
          then mret (mkCmd ChatBroadcast 0 [] (message.payload m))
          else mret (mkCmd ChatByNickname 0 (message.recipient m) (message.payload m))
      | None => mret (mkCmd Invalid 0 [] [])
      end
  end.

(** ** OutgoingMessageBuilder *)

Definition build_chat_like (from_id : Z) (recipient_tag : byte) (recipient_data text : bytes)
    : outcome bytes :=
  encode_chat (mkChat from_id recipient_tag recipient_data text).

Definition build_chat_by_id (from_id recipient_id : Z) (text : bytes) : outcome bytes :=
  build_chat_like from_id kRecipientById (encode_u32_be recipient_id) text.

Definition build_chat_by_nickname (from_id : Z) (recipient text : bytes) : outcome bytes :=
  data ← encode_string recipient;
  build_chat_like from_id kRecipientByNickname data text.

Definition build_chat_broadcast (from_id : Z) (text : bytes) : outcome bytes :=
  build_chat_like from_id kRecipientBroadcast [] text.

Definition build_key_offer (from_id recipient_id : Z) (body : bytes) : outcome bytes :=
  build_chat_like from_id kRecipientById (encode_u32_be recipient_id) body.

Definition build_room_key_offer (from_id recipient_id : Z) (body : bytes) : outcome bytes :=
  build_chat_like from_id kRecipientById (encode_u32_be recipient_id) body.

Definition build_list_users : bytes := encode_list_users.

(** ** Facts *)

Lemma parse_chat_line_aux r text from_id :
  message.colon ∉ r → std.starts_with (str "/key") (r ++ message.colon :: text) = false →
  parse_input_line (r ++ message.colon :: text) from_id =
  if message.is_numeric_recipient r then
    if std.ULONG_MAX <? std.digits_val r then Throw (out_of_range (str "stoul"))
    else Ok (mkCmd ChatById (to_u32 (std.digits_val r)) [] text)
  else if decide (r = str "all") then Ok (mkCmd ChatBroadcast 0 [] text)
  else Ok (mkCmd ChatByNickname 0 r text).
Proof.
  intros Hr Hk. unfold parse_input_line.
  assert (∀ s, message.colon ∉ s → r ++ message.colon :: text ≠ s) as Hne by (intros s Hs <-; set_solver).
  assert (message.colon ∉ str "/users" ∧ message.colon ∉ str "/exit" ∧ message.colon ∉ str "exit")
    as (H1 & H2 & H3).
  { split_and!; intros H; repeat (apply elem_of_cons in H as [H|H]; [discriminate H|]); by apply elem_of_nil in H. }
  rewrite decide_False by (by destruct r). rewrite decide_False by auto.
  rewrite decide_False by (intros [H|H]; [by apply (Hne _ H2)|by apply (Hne _ H3)]). rewrite Hk.
  rewrite message.parse_id_message_spec by done.
  destruct (message.is_numeric_recipient r) eqn:En; [by destruct (_ <? _)|].
  cbn [mbind outcome_bind]. rewrite message.parse_nickname_message_spec, En by done.
  cbn [mbind outcome_bind message.recipient message.payload]. by destruct (decide (r = _)).
Qed.

(** A line [id:text] with the id in decimal. *)
Lemma parse_id_line id text from_id : is_u32 id →
  parse_input_line (std.to_string id ++ message.colon :: text) from_id = Ok (mkCmd ChatById id [] text).
Proof.
  intros Hid. destruct (std.to_string_spec id) as (Hne & Hall & Hv); [unfold is_u32, std.ULONG_MAX in *; lia|].
  rewrite parse_chat_line_aux.
  - assert (message.is_numeric_recipient (std.to_string id) = true) as ->
      by (unfold message.is_numeric_recipient; destruct (std.to_string id); done).
    rewrite Hv, (proj2 (Z.ltb_ge _ _)) by (unfold is_u32, std.ULONG_MAX in *; lia). by rewrite to_u32_small.
  - intros Hin. rewrite forallb_forall in Hall. by specialize (Hall _ (proj1 (list_elem_of_In _ _) Hin)).
  - destruct (std.to_string id) as [|b ds]; [done|]. cbn in Hall. apply andb_prop in Hall as [Hb _].
    apply bool_decide_eq_false. cbn. intros [= -> _]. done.
Qed.

(** A line [recipient:text] is a chat: by id when the recipient is a string
    of digits, to everyone when it is [all], by nickname otherwise; the text is
    everything after the first colon.  A numeric recipient is taken modulo 2^32,
    and one above 2^64 - 1 is an exception that the parser lets through. *)
Theorem parse_chat_line r text from_id :
  message.colon ∉ r → std.starts_with (str "/key") (r ++ message.colon :: text) = false →
  parse_input_line (r ++ message.colon :: text) from_id =
  if message.is_numeric_recipient r then
    if std.ULONG_MAX <? std.digits_val r then Throw (out_of_range (str "stoul"))
    else Ok (mkCmd ChatById (to_u32 (std.digits_val r)) [] text)
  else if decide (r = str "all") then Ok (mkCmd ChatBroadcast 0 [] text)
  else Ok (mkCmd ChatByNickname 0 r text).
Proof. apply parse_chat_line_aux. Qed.

Lemma parse_chat_line_witness :
  parse_input_line (str "4294967298" ++ message.colon :: str "hello") 1 =
  Ok (mkCmd ChatById 2 [] (str "hello")).
Proof.
  rewrite parse_chat_line; [reflexivity| |reflexivity].
  intros H. repeat (apply elem_of_cons in H as [H|H]; [discriminate H|]). inversion H.
Defined.

Lemma parse_input_line_total line from_id :
  (∃ cmd, parse_input_line line from_id = Ok cmd) ∨
  (∃ r text, line = r ++ message.colon :: text ∧ message.is_numeric_recipient r = true ∧
     std.ULONG_MAX < std.digits_val r ∧
     parse_input_line line from_id = Throw (out_of_range (str "stoul"))).
Proof.
  destruct (std.find message.colon line) as [pos|] eqn:E; cycle 1.
  { left. unfold parse_input_line, message.parse_id_message, message.parse_nickname_message.
    rewrite E. cbn [mbind outcome_bind]. repeat (case_decide; [by eexists|]). case_match; by eexists. }
  apply std.find_Some in E as [E Hr]. set (r := take pos line) in *. set (text := drop _ line) in *.
  rewrite E. clearbody r text. clear E line pos.
  destruct (std.starts_with (str "/key") (r ++ message.colon :: text)) eqn:Ek.
  { left. unfold parse_input_line. rewrite Ek. repeat (case_decide; [by eexists|]). by eexists. }
  rewrite parse_chat_line_aux by done.
  destruct (message.is_numeric_recipient r) eqn:En; [|left; case_decide; by eexists].
  destruct (_ <? _) eqn:Ev; zify_bools; [right|left; by eexists]. by exists r, text.
Qed.

(** ** What the lines mean *)

Abbreviation users_line := (str "/users").
Abbreviation key_prefix := (str "/key").

(** A line that offers the key: [/key] and a number that is not 0. *)
Definition key_line (line : bytes) (id : Z) : Prop :=
  ∃ rest v, line = key_prefix ++ rest ∧ std.number rest v ∧ v ≠ 0 ∧ id = to_u32 v.

(** The grammar of the lines, each with what the parser makes of it. *)
Inductive reads : bytes → outcome InputCommand → Prop :=
| reads_users : reads users_line (Ok (mkCmd ListUsersCmd 0 [] []))
| reads_exit line : line = str "/exit" ∨ line = str "exit" → reads line (Ok (mkCmd ExitCmd 0 [] []))
| reads_key line id : key_line line id → reads line (Ok (mkCmd KeyOfferCmd id [] []))
| reads_id r text : message.is_numeric_recipient r = true → std.digits_val r <= std.ULONG_MAX →
    reads (r ++ message.colon :: text) (Ok (mkCmd ChatById (to_u32 (std.digits_val r)) [] text))
| reads_huge_id r text : message.is_numeric_recipient r = true → std.ULONG_MAX < std.digits_val r →
    reads (r ++ message.colon :: text) (Throw (out_of_range (str "stoul")))
| reads_all text : reads (str "all" ++ message.colon :: text) (Ok (mkCmd ChatBroadcast 0 [] text))
| reads_nickname r text : message.colon ∉ r → message.is_numeric_recipient r = false → r ≠ str "all" →
    std.starts_with key_prefix (r ++ message.colon :: text) = false →
    reads (r ++ message.colon :: text) (Ok (mkCmd ChatByNickname 0 r text))
| reads_bad_key line : std.starts_with key_prefix line = true → (∀ id, ¬ key_line line id) →
    reads line (Ok (mkCmd Invalid 0 [] []))
| reads_invalid line : message.colon ∉ line → line ∉ [users_line; str "/exit"; str "exit"] →
    std.starts_with key_prefix line = false → reads line (Ok (mkCmd Invalid 0 [] [])).

Lemma starts_with_app p s : std.starts_with p s = true ↔ ∃ t, s = p ++ t.
Proof.
  unfold std.starts_with. rewrite bool_decide_eq_true. split.
  - intros E. exists (drop (length p) s). by rewrite <-E, take_drop at 1.
  - intros [t ->]. apply take_app_length.
Qed.

Lemma numeric_colon r : message.is_numeric_recipient r = true → message.colon ∉ r ∧ r ≠ str "all" ∧
  ∀ t, std.starts_with key_prefix (r ++ t) = false.
Proof.
  unfold message.is_numeric_recipient. destruct r as [|b r]; [done|]. intros Hall. split_and!.
  - intros Hin. rewrite forallb_forall in Hall. by specialize (Hall _ (proj1 (list_elem_of_In _ _) Hin)).
  - by intros [= -> ->].
  - intros t. apply not_true_is_false. intros [t' E]%starts_with_app. cbn in Hall. apply andb_prop in Hall as [Hb _].
    by injection E as -> _.
Qed.

(** The numbers of [parse_key_line], which drops blanks before [stoul] drops white
    space. *)
Lemma number_blanks rest v : std.number rest v ↔ std.number (std.drop_front std.is_blank rest) v.
Proof.
  rewrite <-!std.stoul_number. unfold std.stoul.
  destruct (std.drop_front_split std.is_blank rest) as (front & E & Hf & _).
  set (rest' := std.drop_front _ rest) in *. clearbody rest'. subst rest. rewrite std.drop_front_app.
  - destruct (std.drop_front_split std.isspace rest') as (sp & E & _). 
    set (s1 := std.drop_front _ rest') in *. clearbody s1. subst rest'.
    destruct (std.scan_sign s1) as [neg s2] eqn:Es. case_decide; [done|]. destruct (_ <? _); [done|].
    assert (length s2 ≤ length s1)%nat.
    { unfold std.scan_sign in Es. destruct s1; repeat case_decide; simplify_eq; cbn; lia. }
    rewrite !length_app. pose proof (std.take_while_le std.isdigit s2).
    split; intros [= <- ?]; do 2 f_equal; lia.
  - clear -Hf. induction front as [|b front IH]; cbn in *; [done|]. apply andb_true_iff in Hf as [Hb Hf].
    rewrite IH by done. by destruct b.
Qed.

Lemma parse_key_line_reads rest :
  (∃ id, key_line (key_prefix ++ rest) id ∧ parse_key_line (key_prefix ++ rest) = mkCmd KeyOfferCmd id [] []) ∨
  (∀ id, ¬ key_line (key_prefix ++ rest) id) ∧ parse_key_line (key_prefix ++ rest) = mkCmd Invalid 0 [] [].
Proof.
  unfold parse_key_line. change (drop 4 (key_prefix ++ rest)) with rest.
  set (rest' := std.drop_front std.is_blank rest).
  assert (∀ id, key_line (key_prefix ++ rest) id ↔ ∃ v, std.stoul rest' = Ok (v, length rest') ∧ v ≠ 0 ∧ id = to_u32 v) as Hk.
  { intros id. unfold key_line. split.
    - intros (r & v & E & Hn & Hv). apply (inj _) in E as <-. exists v. split; [|done].
      by apply std.stoul_number, (number_blanks rest v).
    - intros (v & Hn & Hv). exists rest, v. split; [done|]. split; [|done]. by apply number_blanks, std.stoul_number. }
  case_decide as Hne.
  { right. split; [|done]. intros id (v & Hs & _)%Hk. by rewrite Hne in Hs. }
  destruct (std.stoul rest') as [[v n]|e|] eqn:Es; [|right; split; [by intros id (? & ? & _)%Hk|done]..].
  destruct (negb _ || _) eqn:Eb.
  - right. split; [|done]. intros id (v' & [= <- ->] & Hv & _)%Hk. apply orb_true_iff in Eb as [Eb|Eb].
    + by rewrite bool_decide_eq_true_2 in Eb.
    + zify_bools. lia.
  - left. exists (to_u32 v). split; [|done]. apply Hk. apply orb_false_iff in Eb as [Eb Ez].
    apply negb_false_iff, bool_decide_eq_true in Eb as ->. exists v. zify_bools. split_and!; [done|lia|done].
Qed.

Lemma reads_complete line from_id : reads line (parse_input_line line from_id).
Proof.
  destruct (std.starts_with key_prefix line) eqn:Ek.
  - pose proof Ek as [rest ->]%starts_with_app. unfold parse_input_line. rewrite Ek.
    rewrite !decide_False by (done || by intros [[=]|[=]]).
    destruct (parse_key_line_reads rest) as [(id & Hk & ->)|[Hk ->]]; by constructor.
  - destruct (std.find message.colon line) as [pos|] eqn:E.
    + apply std.find_Some in E as [E Hr]. set (r := take pos line) in *. set (text := drop _ line) in *.
      rewrite E in Ek |- *. clearbody r text. rewrite parse_chat_line_aux by done.
      destruct (message.is_numeric_recipient r) eqn:En.
      * destruct (_ <? _) eqn:Ev; zify_bools; by constructor.
      * case_decide as Ha; [subst; constructor|by constructor].
    + apply std.find_None in E as Hc. unfold parse_input_line, message.parse_id_message, message.parse_nickname_message.
      rewrite E, Ek. case_decide; [subst; apply reads_invalid; [done|set_solver|done]|].
      case_decide; [subst; constructor|]. case_decide; [by constructor|].
      cbn [mbind outcome_bind]. apply reads_invalid; [done| |done]. set_solver.
Qed.

(** C39. What the user types means exactly what the grammar [reads] says, and every
    line means something: a request for the users, an exit, a key offer ([/key] and
    a number), a chat by id, to everyone or by nickname (a recipient, a colon, and
    the text after the first colon), or nothing valid.  A numeric recipient is taken
    modulo 2^32; on one above 2^64 - 1, and on no other line, the parser throws
    [std::out_of_range], which neither it nor the input loop catches. *)
Theorem parse_input_line_reads line from_id o : parse_input_line line from_id = o ↔ reads line o.
Proof.
  split; [intros <-; apply reads_complete|].
  intros [|l Hl|l id Hk|r text Hn Hv|r text Hn Hv|text|r text Hr Hn Ha Hk|l Hs Hk|l Hc Hw Hs].
  - done.
  - unfold parse_input_line. by destruct Hl as [->| ->].
  - destruct Hk as (rest & v & -> & Hk). unfold parse_input_line.
    rewrite !decide_False by (done || by intros [[=]|[=]]). rewrite (proj2 (starts_with_app _ _)) by eauto.
    destruct (parse_key_line_reads rest) as [(id' & (rest' & v' & E & Hn' & Hv' & ->) & ->)|[Hno _]].
    + apply (inj _) in E as <-. destruct Hk as (Hn & _ & ->). apply std.stoul_number in Hn, Hn'. rewrite Hn in Hn'.
      by injection Hn' as ->.
    + exfalso. apply (Hno id). by exists rest, v.
  - destruct (numeric_colon r Hn) as (Hc & _ & Hk). rewrite parse_chat_line_aux, Hn by done.
    by rewrite (proj2 (Z.ltb_ge _ _)) by lia.
  - destruct (numeric_colon r Hn) as (Hc & _ & Hk). rewrite parse_chat_line_aux, Hn by done.
    by rewrite (proj2 (Z.ltb_lt _ _)) by lia.
  - rewrite parse_chat_line_aux; [done| |done]. intros H. repeat (apply elem_of_cons in H as [H|H]; [discriminate H|]).
    by apply elem_of_nil in H.
  - rewrite parse_chat_line_aux, Hn by done. by rewrite decide_False.
  - pose proof Hs as [rest ->]%starts_with_app. unfold parse_input_line. rewrite Hs.
    rewrite !decide_False by (done || by intros [[=]|[=]]).
    destruct (parse_key_line_reads rest) as [(id & Hid & _)|[_ ->]]; [by destruct (Hk id)|done].
  - unfold parse_input_line, message.parse_id_message, message.parse_nickname_message.
    rewrite (proj2 (std.find_None _ _) Hc), Hs. case_decide; [by subst|].
    rewrite !decide_False by set_solver. done.
Qed.

(** Some lines. *)
Example reads_lines :
  reads (str "/key  -1") (Ok (mkCmd KeyOfferCmd 4294967295 [] [])) ∧
  reads (str "4294967298:hi") (Ok (mkCmd ChatById 2 [] (str "hi"))) ∧
  reads (str "18446744073709551616:hi") (Throw (out_of_range (str "stoul"))) ∧
  reads (str "bob:a:b") (Ok (mkCmd ChatByNickname 0 (str "bob") (str "a:b"))).
Proof. split_and!; [exact (reads_complete _ 0)..]. Qed.

(** The text of a command is part of the line. *)
Lemma parse_input_line_text line from_id cmd :
  parse_input_line line from_id = Ok cmd → (length (cmd_text cmd) ≤ length line)%nat.
Proof.
  assert (length (cmd_text (parse_key_line line)) = 0%nat) as Hk.
  { unfold parse_key_line. case_decide; [done|]. repeat case_match; done. }
  destruct (std.starts_with (str "/key") line) eqn:Ek.
  { unfold parse_input_line. rewrite Ek. repeat (case_decide; [intros [= <-]; cbn; lia|]). intros [= <-]. lia. }
  destruct (std.find message.colon line) as [pos|] eqn:E.
  - apply std.find_Some in E as [E Hr]. revert Ek. rewrite E. intros Ek.
    rewrite parse_chat_line_aux by done. rewrite length_app. cbn [length].
    repeat case_match; intros [= <-]; cbn; lia.
  - unfold parse_input_line, message.parse_id_message, message.parse_nickname_message.
    rewrite E, Ek. repeat (case_decide; [intros [= <-]; cbn; lia|]). intros [= <-]. cbn. lia.
Qed.

(** The builder that goes with a recipient. *)
Definition build_chat (from_id : Z) (r : Recipient) (text : bytes) : outcome bytes :=
  match r with
  | ToId id => build_chat_by_id from_id id text
  | ToNickname n => build_chat_by_nickname from_id n text
  | ToAll => build_chat_broadcast from_id text
  end.

Lemma build_chat_spec from_id r text : is_u32 from_id → wf_addressee r → wf_string text →
  ∃ c, build_chat from_id r text = Ok (chat_bytes c) ∧ wf_chat c ∧
       chat_from_id c = from_id ∧ chat_text c = text ∧ addressed_to c = Some r.
Proof.
  intros Hf Hr Ht. destruct r as [id|nick|]; cbn [build_chat wf_addressee] in *.
  - exists (mkChat from_id kRecipientById (be32 id) text).
    unfold build_chat_by_id, build_chat_like, encode_u32_be. rewrite write_u32_be_spec. cbn [app].
    split_and!; try done; [by apply encode_chat_iff|split_and!; [done|by left|done]|].
    unfold addressed_to. cbn [recipient_tag recipient_data]. rewrite decide_True by done.
    rewrite (proj2 (read_u32_be_iff _ id)); [done|]. split; [done|]. exists []. by rewrite app_nil_r.
  - exists (mkChat from_id kRecipientByNickname (lstr nick) text).
    unfold build_chat_by_nickname. rewrite (proj2 (encode_string_iff _ _)) by eauto.
    cbn [mbind outcome_bind].
    split_and!; try done; [by apply encode_chat_iff|split_and!; [done|right; left; eauto|done]|].
    unfold addressed_to. cbn [recipient_tag recipient_data]. rewrite decide_False, decide_True by done.
    rewrite <-(app_nil_r (lstr nick)), decode_string_head by done. done.
  - exists (mkChat from_id kRecipientBroadcast [] text).
    split_and!; try done; [by apply encode_chat_iff|split_and!; [done|by right; right|done]].
Qed.

(** What the server decodes from a payload the client built is a chat with
    the sender, the text and the recipient (id, nickname or everyone) the client
    gave, for each of the three message types with this layout. *)
Theorem build_chat_decoded from_id r text type tid :
  is_u32 from_id → wf_addressee r → wf_string text → type ∈ [Chat; KeyOffer; RoomKeyOffer] →
  ∃ payload c, build_chat from_id r text = Ok payload ∧
    decode_app_message (make_frame type payload tid) = Ok (mkMessage type (PChat c)) ∧
    chat_from_id c = from_id ∧ chat_text c = text ∧ addressed_to c = Some r.
Proof.
  intros Hf Hr Ht Hty. destruct (build_chat_spec from_id r text Hf Hr Ht) as (c & E & Hc & H).
  exists (chat_bytes c), c. split; [done|]. split; [|done].
  apply decode_app_message_iff. exists (chat_bytes c). split; [done|]. cbn [msg_type msg_payload].
  destruct (decode_chat_head c [] Hc) as [_ Ed]. rewrite app_nil_r in Ed.
  repeat (apply elem_of_cons in Hty as [->|Hty]; [cbn [decode_payload]; by rewrite Ed|]).
  by apply elem_of_nil in Hty.
Qed.

Lemma build_chat_decoded_witness :
  ∃ payload c, build_chat_by_id 1 2 (str "hi") = Ok payload ∧
    decode_app_message (make_frame KeyOffer payload 0) = Ok (mkMessage KeyOffer (PChat c)) ∧
    chat_from_id c = 1 ∧ chat_text c = str "hi" ∧ addressed_to c = Some (ToId 2).
Proof.
  apply (build_chat_decoded 1 (ToId 2) (str "hi") KeyOffer 0);
    [unfold is_u32; lia|cbn; unfold is_u32; lia|unfold wf_string; cbn; lia|set_solver].
Defined.

End client_viewmodel.
