(* ===== verification/CommandQueue.v ===== *)
(** * The command queue: common/concurrency/QueuedCommandExecutor.hpp, ICommand.hpp

    Any thread may [post] a command; one dispatcher thread takes commands in turn
    and executes them.  A step is one critical section of [mutex_], one notification
    of [cv_], one wake-up of the dispatcher or one execution of a command, so every
    interleaving the code allows is a sequence of steps.  [cv_.wait] is not assumed
    to wake without a notification, nor not to: the step [Wake] is there, and the
    theorem on [stop] does not need it. *)
From S2P Require Import Prelude.

Module concurrency.

Section executor.
Context {Target Command : Type}.

(** [ICommand<Target>::execute]. *)
Class ICommand := execute : Command → Target → Target.
Context `{ICommand}.

(** Where the dispatcher thread is: about to lock [mutex_], asleep in
    [cv_.wait], between the block that takes a command and the end of its
    execution, or returned from [dispatcher_loop]. *)
Inductive dispatcher_state := AtLock | Asleep | Executing (command : Command) | Returned.

Record QueuedCommandExecutor := mkExecutor {
  target_ : Target;
  queue_ : list Command;
  running_ : bool;
  dispatcher_ : dispatcher_state;
  (* the threads past their critical section that have yet to notify [cv_] *)
  notifying_ : nat
}.

(** The constructor. *)
Definition construct (target : Target) : QueuedCommandExecutor := mkExecutor target [] true AtLock 0.

(** [post] up to the notification; [None] is a null pointer. *)
Definition post (command : option Command) (s : QueuedCommandExecutor) : QueuedCommandExecutor :=
  match command with
  | None => s
  | Some c =>
      if negb (running_ s) then s
      else mkExecutor (target_ s) (queue_ s ++ [c]) (running_ s) (dispatcher_ s) (S (notifying_ s))
  end.

(** [stop] up to the notification; its [join] returns when the dispatcher has. *)
Definition stop (s : QueuedCommandExecutor) : QueuedCommandExecutor :=
  mkExecutor (target_ s) (queue_ s) false (dispatcher_ s) (S (notifying_ s)).

Definition at_dispatcher (s : QueuedCommandExecutor) (d : dispatcher_state) : QueuedCommandExecutor :=
  mkExecutor (target_ s) (queue_ s) (running_ s) d (notifying_ s).

Definition woken (d : dispatcher_state) : dispatcher_state :=
  match d with Asleep => AtLock | _ => d end.

(** [cv_.notify_one] and [cv_.notify_all]: the dispatcher is the only waiter. *)
Definition notify (s : QueuedCommandExecutor) : option QueuedCommandExecutor :=
  match notifying_ s with
  | O => None
  | S n => Some (mkExecutor (target_ s) (queue_ s) (running_ s) (woken (dispatcher_ s)) n)
  end.

(** A step of [dispatcher_loop]; [None] where the thread is blocked or gone. *)
Definition dispatcher_loop (s : QueuedCommandExecutor) : option QueuedCommandExecutor :=
  match dispatcher_ s with
  | AtLock =>
      match queue_ s with
      | [] => Some (at_dispatcher s (if running_ s then Asleep else Returned))
      | command :: rest =>
          Some (mkExecutor (target_ s) rest (running_ s) (Executing command) (notifying_ s))
      end
  | Executing command =>
      Some (mkExecutor (execute command (target_ s)) (queue_ s) (running_ s) AtLock (notifying_ s))
  | Asleep | Returned => None
  end.

(** ** Steps *)

Inductive label := Post (command : option Command) | Stop | Notify | Wake | Dispatch.

Inductive step (s : QueuedCommandExecutor) : label → QueuedCommandExecutor → Prop :=
| step_post c : step s (Post c) (post c s)
| step_stop : step s Stop (stop s)
| step_notify s' : notify s = Some s' → step s Notify s'
| step_wake : dispatcher_ s = Asleep → step s Wake (at_dispatcher s AtLock)
| step_dispatch s' : dispatcher_loop s = Some s' → step s Dispatch s'.

(** The command a step puts in the queue, and the one it executes. *)
Definition accepted (s : QueuedCommandExecutor) (l : label) : list Command :=
  match l with Post (Some c) => if running_ s then [c] else [] | _ => [] end.
Definition in_flight (s : QueuedCommandExecutor) : list Command :=
  match dispatcher_ s with Executing c => [c] | _ => [] end.
Definition executed (s : QueuedCommandExecutor) (l : label) : list Command :=
  match l with Dispatch => in_flight s | _ => [] end.

(** A run, with the commands it accepted and those it executed, in order. *)
Inductive run : QueuedCommandExecutor → list Command → list Command → QueuedCommandExecutor → Prop :=
| run_done s : run s [] [] s
| run_step s l s1 acc ex s2 : step s l s1 → run s1 acc ex s2 →
    run s (accepted s l ++ acc) (executed s l ++ ex) s2.

(** ** The order of the commands *)

(** The dispatcher returns only when there is nothing left to do, and does not
    sleep when there is, unless a notification is on its way. *)
Record exec_inv (s : QueuedCommandExecutor) : Prop := {
  ei_returned : dispatcher_ s = Returned → queue_ s = [] ∧ running_ s = false;
  ei_asleep : dispatcher_ s = Asleep → notifying_ s = O → queue_ s = [] ∧ running_ s = true
}.

Lemma construct_inv t : exec_inv (construct t).
Proof. done. Qed.

Lemma step_inv s l s' : step s l s' → exec_inv s → exec_inv s'.
Proof.
  intros Hs [Hr Ha]. destruct Hs as [c| |s' Hn|Hw|s' Hd].
  - destruct c as [c|]; [|by split]. cbn. destruct (running_ s) eqn:E; cbn; [|split; naive_solver].
    split; cbn; [|done]. intros Hd. destruct (Hr Hd). congruence.
  - split; cbn; [|done]. intros Hd. by destruct (Hr Hd).
  - unfold notify in Hn. destruct (notifying_ s); simplify_eq. split; cbn; destruct (dispatcher_ s); naive_solver.
  - done.
  - unfold dispatcher_loop in Hd. destruct (dispatcher_ s) eqn:E; try done; [|by simplify_eq].
    destruct (queue_ s) eqn:Eq; simplify_eq; [|done]. destruct (running_ s) eqn:Er; split; cbn; naive_solver.
Qed.

Lemma step_order s l s' : step s l s' →
  in_flight s ++ queue_ s ++ accepted s l = executed s l ++ in_flight s' ++ queue_ s'.
Proof.
  intros Hs. destruct Hs as [c| |s' Hn|Hw|s' Hd]; unfold in_flight, accepted, executed.
  - destruct c as [c|]; cbn; [|by rewrite app_nil_r]. destruct (running_ s); cbn; [done|by rewrite app_nil_r].
  - by rewrite app_nil_r.
  - unfold notify in Hn. destruct (notifying_ s); simplify_eq. cbn. rewrite app_nil_r. by destruct (dispatcher_ s).
  - cbn. rewrite Hw, app_nil_r. done.
  - unfold dispatcher_loop in Hd. unfold in_flight. rewrite app_nil_r.
    destruct (dispatcher_ s) eqn:E; simplify_eq; [|done].
    destruct (queue_ s) eqn:Eq; simplify_eq; cbn; rewrite ?Eq; [by destruct (running_ s)|done].
Qed.

Lemma step_target s l s' : step s l s' → target_ s' = foldl (λ t c, execute c t) (target_ s) (executed s l).
Proof.
  intros Hs. destruct Hs as [c| |s' Hn|Hw|s' Hd]; cbn; [|done| |done|].
  - destruct c as [c|]; [|done]. cbn. by destruct (running_ s).
  - unfold notify in Hn. by destruct (notifying_ s); simplify_eq.
  - unfold dispatcher_loop, in_flight in *. destruct (dispatcher_ s); simplify_eq; [|done].
    by destruct (queue_ s); simplify_eq.
Qed.

Lemma run_spec s acc ex s' : run s acc ex s' → exec_inv s →
  exec_inv s' ∧ in_flight s ++ queue_ s ++ acc = ex ++ in_flight s' ++ queue_ s' ∧
  target_ s' = foldl (λ t c, execute c t) (target_ s) ex.
Proof.
  induction 1 as [s|s l s1 acc ex s2 Hs _ IH]; intros Hi; [by rewrite app_nil_r|].
  destruct (IH (step_inv _ _ _ Hs Hi)) as (Hi2 & Eo & Et). split_and!; [done| |].
  - transitivity ((in_flight s ++ queue_ s ++ accepted s l) ++ acc); [by rewrite <-!app_assoc|].
    by rewrite (step_order _ _ _ Hs), <-!app_assoc, Eo.
  - by rewrite Et, (step_target _ _ _ Hs), foldl_app.
Qed.

(** Order.  Whatever the threads do, the commands executed are those accepted
    by [post], in the order in which they were accepted, less the one being
    executed and those still in the queue; and the target is what these
    executions, one after the other, make of it. *)
Theorem executor_order t acc ex s : run (construct t) acc ex s →
  acc = ex ++ in_flight s ++ queue_ s ∧ target_ s = foldl (λ t c, execute c t) t ex.
Proof.
  intros Hr. destruct (run_spec _ _ _ _ Hr (construct_inv t)) as (_ & Eo & Et). by split.
Qed.

(** ** Stopping *)

(** A step that needs no new call of [post] or [stop]. *)
Definition own_step (s s' : QueuedCommandExecutor) : Prop :=
  step s Notify s' ∨ step s Wake s' ∨ step s Dispatch s'.

Definition steps_left (s : QueuedCommandExecutor) : nat :=
  2 * length (queue_ s) + notifying_ s +
  match dispatcher_ s with Returned => 0 | AtLock => 1 | Asleep | Executing _ => 2 end.

Lemma own_step_stopped s s' : own_step s s' → running_ s = false →
  running_ s' = false ∧ (steps_left s' < steps_left s)%nat.
Proof.
  intros [Hs|[Hs|Hs]] Hr; inversion Hs as [| |s1 Hn|Hw|s1 Hd]; subst; unfold steps_left.
  - unfold notify in Hn. destruct (notifying_ s) eqn:E; simplify_eq. cbn. split; [done|].
    destruct (dispatcher_ s); cbn; lia.
  - cbn. rewrite Hw. split; [done|lia].
  - unfold dispatcher_loop in Hd. destruct (dispatcher_ s) eqn:E; simplify_eq; cbn; [|split; [done|lia]].
    destruct (queue_ s) eqn:Eq; simplify_eq; cbn; rewrite ?Hr, ?Eq; cbn; split; try done; lia.
Qed.

Lemma own_steps_finite s : running_ s = false → sn own_step s.
Proof.
  intros Hr. apply (sn_measure _ steps_left (λ s, running_ s = false)); [|done].
  intros s1 s2 Hr1 Hs. by apply own_step_stopped.
Qed.

(** One schedule of them: notifications first. *)
Definition own_next (s : QueuedCommandExecutor) : option QueuedCommandExecutor :=
  match notify s with Some s' => Some s' | None => dispatcher_loop s end.
Fixpoint own_run (fuel : nat) (s : QueuedCommandExecutor) : QueuedCommandExecutor :=
  match fuel with
  | O => s
  | S fuel => match own_next s with Some s' => own_run fuel s' | None => s end
  end.

Lemma own_run_steps fuel s : rtc own_step s (own_run fuel s).
Proof.
  revert s. induction fuel as [|fuel IH]; intros s; cbn [own_run]; [apply rtc_refl|].
  unfold own_next. destruct (notify s) as [s'|] eqn:En; [|destruct (dispatcher_loop s) as [s'|] eqn:Ed].
  - apply rtc_l with s'; [|apply IH]. left. by constructor.
  - apply rtc_l with s'; [|apply IH]. right. right. by constructor.
  - apply rtc_refl.
Qed.

Lemma own_next_none s : own_next s = None →
  (∀ s', ¬ step s Notify s') ∧ (∀ s', ¬ step s Dispatch s').
Proof.
  unfold own_next. intros Hn. split; intros s' Hs; inversion Hs as [| |? E| |? E]; subst; rewrite E in Hn; [done|].
  by destruct (notify s).
Qed.

Lemma own_step_run s s' : own_step s s' → ∃ ex, ∀ acc1 ex1 s2, run s' acc1 ex1 s2 → run s acc1 (ex ++ ex1) s2.
Proof.
  intros [Hs|[Hs|Hs]]; [exists []|exists []|exists (in_flight s)]; intros acc1 ex1 s2 Hr;
    exact (run_step _ _ _ _ _ _ Hs Hr).
Qed.

Lemma own_steps_run s s' : rtc own_step s s' → ∃ ex, run s [] ex s'.
Proof.
  induction 1 as [s|s s1 s2 Hs _ [ex Hr]]; [exists []; constructor|].
  destruct (own_step_run _ _ Hs) as [ex' H']. eexists. by apply H'.
Qed.

Lemma run_trans s acc ex s1 acc' ex' s2 : run s acc ex s1 → run s1 acc' ex' s2 →
  run s (acc ++ acc') (ex ++ ex') s2.
Proof.
  induction 1; intros Hr; [done|]. rewrite <-!app_assoc. by econstructor; [|apply IHrun].
Qed.

Lemma own_steps_stopped s s' : rtc own_step s s' → running_ s = false → running_ s' = false.
Proof. induction 1 as [s|s s1 s2 Hs _ IH]; intros Hr; [done|]. by apply IH, (own_step_stopped _ _ Hs). Qed.

(** Once stopped, with nothing left to do but to wait, the dispatcher is gone. *)
Lemma stopped_idle s : exec_inv s → running_ s = false →
  (∀ s', ¬ step s Notify s') → (∀ s', ¬ step s Dispatch s') → dispatcher_ s = Returned.
Proof.
  intros [_ Ha] Hr Hn Hd. destruct (dispatcher_ s) eqn:E; [| | |done]; exfalso.
  - destruct (queue_ s) eqn:Eq; eapply Hd; constructor; unfold dispatcher_loop; by rewrite E, Eq.
  - destruct (notifying_ s) eqn:Ec; [destruct (Ha eq_refl eq_refl); congruence|].
    eapply Hn. constructor. unfold notify. by rewrite Ec.
  - eapply Hd. constructor. unfold dispatcher_loop. by rewrite E.
Qed.

Lemma stop_drains_aux t acc ex s : run (construct t) acc ex s → running_ s = false →
  sn own_step s ∧
  ∀ s', rtc own_step s s' → (∀ s2, ¬ step s' Notify s2) → (∀ s2, ¬ step s' Dispatch s2) →
    dispatcher_ s' = Returned ∧ target_ s' = foldl (λ t c, execute c t) t acc.
Proof.
  intros Hr Hstop. split; [by apply own_steps_finite|]. intros s' Hown Hn Hd.
  destruct (own_steps_run _ _ Hown) as [ex' Hr'].
  destruct (run_spec _ _ _ _ (run_trans _ _ _ _ _ _ _ Hr Hr') (construct_inv t)) as (Hi & Eo & Et).
  assert (dispatcher_ s' = Returned) as E.
  { apply stopped_idle; [done|by eapply own_steps_stopped|done..]. }
  split; [done|]. destruct (ei_returned _ Hi E) as [Eq _]. unfold in_flight in Eo. rewrite E, Eq in Eo.
  cbn in Eo. rewrite !app_nil_r in Eo. by rewrite Et, Eo.
Qed.

(** C29. Stopping.  After [stop] has cleared [running_], whatever happened before
    and however the threads are scheduled, the executor takes finitely many steps
    of its own, and where no notification and no step of the dispatcher is left
    the dispatcher has returned, so that [join] returns, and every command that
    [post] ever accepted has been executed, in order. *)
Theorem stop_drains t acc ex s : run (construct t) acc ex s → running_ s = false →
  sn own_step s ∧
  ∀ s', rtc own_step s s' → (∀ s2, ¬ step s' Notify s2) → (∀ s2, ¬ step s' Dispatch s2) →
    dispatcher_ s' = Returned ∧ target_ s' = foldl (λ t c, execute c t) t acc.
Proof. apply stop_drains_aux. Qed.

End executor.

Arguments QueuedCommandExecutor : clear implicits.
Arguments ICommand : clear implicits.

(** A target that is a list of numbers, and commands that append to it. *)
#[local] Instance demo_command : ICommand (list nat) nat := λ c t, t ++ [c].

Definition demo_run : @run (list nat) nat _ (construct []) [7; 8]%nat []
    (mkExecutor [] [7; 8]%nat false AtLock 3) :=
  run_step _ _ _ _ _ _ (step_post _ (Some 7%nat)) (run_step _ _ _ _ _ _ (step_post _ (Some 8%nat))
    (run_step _ _ _ _ _ _ (step_stop _) (run_step _ _ _ _ _ _ (step_post _ (Some 9%nat)) (run_done _)))).

Lemma executor_order_witness : [7; 8]%nat = [] ++ [] ++ [7; 8]%nat ∧ [] = foldl (λ t c, execute c t) [] [].
Proof. exact (executor_order [] _ _ _ demo_run). Defined.

Definition demo_end : QueuedCommandExecutor (list nat) nat :=
  own_run 20 (mkExecutor [] [7; 8]%nat false AtLock 3).

Lemma stop_drains_witness : dispatcher_ demo_end = Returned ∧
  target_ demo_end = foldl (λ t c, execute c t) [] [7; 8]%nat.
Proof.
  apply (proj2 (stop_drains [] _ _ _ demo_run eq_refl) demo_end (own_run_steps 20 _)).
  - apply own_next_none. reflexivity.
  - apply own_next_none. reflexivity.
Defined.

End concurrency.
