(* ===== verification/FileLogger.v ===== *)
(** * The log file: common/logging/FileLogger.hpp, FileLogger.cpp

    Any thread may log; one writer thread takes entries from the queue and appends
    them to the file.  A step is one critical section of [mutex_], one
    notification, one wake-up or one [write_entry], as in CommandQueue; the object
    is opened and stopped by one thread.  The clock gives the time of each line;
    the file takes what is written to it. *)
From S2P Require Import Prelude.
From S2P Require Import CppString.

Module logging.

(** ** The time stamp *)

Record tm := mkTm { tm_year : Z; tm_mon : Z; tm_mday : Z; tm_hour : Z; tm_min : Z; tm_sec : Z }.

(** [gmtime_r]: the Gregorian date of a number of seconds since 1970, by eras of
    400 years that start on the first of March. *)
Definition gmtime_r (t : Z) : tm :=
  let days := t / 86400 + 719468 in
  let era := days / 146097 in
  let doe := days mod 146097 in
  let yoe := (doe - doe / 1460 + doe / 36524 - doe / 146096) / 365 in
  let doy := doe - (365 * yoe + yoe / 4 - yoe / 100) in
  let mp := (5 * doy + 2) / 153 in
  let month := if mp <? 10 then mp + 3 else mp - 9 in
  let year := yoe + era * 400 + (if month <=? 2 then 1 else 0) in
  let secs := t mod 86400 in
  mkTm year month (doy - (153 * mp + 2) / 5 + 1) (secs / 3600) (secs / 60 mod 60) (secs mod 60).

Definition pad2 (n : Z) : bytes := (if n <? 10 then str "0" else []) ++ std.to_string n.

(** [put_time] with ["%Y-%m-%dT%H:%M:%SZ"], for a time after the year 1. *)
Definition put_time (d : tm) : bytes :=
  std.to_string (tm_year d) ++ str "-" ++ pad2 (tm_mon d) ++ str "-" ++ pad2 (tm_mday d) ++ str "T" ++
  pad2 (tm_hour d) ++ str ":" ++ pad2 (tm_min d) ++ str ":" ++ pad2 (tm_sec d) ++ str "Z".

Definition utc_timestamp (now : Z) : bytes := put_time (gmtime_r now).

Example epoch : utc_timestamp 0 = str "1970-01-01T00:00:00Z".
Proof. reflexivity. Qed.
Example leap_day : utc_timestamp 1709208061 = str "2024-02-29T12:01:01Z".
Proof. reflexivity. Qed.

(** ** The logger *)

Record Entry := mkEntry { level : bytes; message : bytes }.

(** Where the writer thread is, as in [concurrency.dispatcher_state]. *)
Inductive writer_state := AtLock | Asleep | Writing (entry : Entry) | Returned.

Record FileLogger := mkLogger {
  path_ : bytes;
  (* the contents of the open file *)
  stream_ : option bytes;
  queue_ : list Entry;
  running_ : bool;
  open_ : bool;
  (* [None] when [writer_] is not joinable *)
  writer_ : option writer_state;
  (* the threads past their critical section that have yet to notify [cv_has_work_] *)
  notifying_ : nat
}.

Definition initial : FileLogger := mkLogger [] None [] false false None 0.

Definition with_writer (s : FileLogger) (w : writer_state) : FileLogger :=
  mkLogger (path_ s) (stream_ s) (queue_ s) (running_ s) (open_ s) (Some w) (notifying_ s).

(** [open] after its call of [stop]: [file] is what the file holds already, [None]
    when it cannot be opened. *)
Definition open (path : bytes) (file : option bytes) (s : FileLogger) : FileLogger :=
  match file with
  | None => mkLogger path (stream_ s) (queue_ s) (running_ s) false (writer_ s) (notifying_ s)
  | Some contents => mkLogger path (Some contents) (queue_ s) true true (Some AtLock) (notifying_ s)
  end.

Definition is_open (s : FileLogger) : bool := open_ s.

(** [enqueue] up to the notification. *)
Definition enqueue (lvl text : bytes) (s : FileLogger) : FileLogger :=
  if negb (running_ s) || negb (open_ s) then s
  else mkLogger (path_ s) (stream_ s) (queue_ s ++ [mkEntry lvl text]) (running_ s) (open_ s) (writer_ s)
         (S (notifying_ s)).

Definition info (text : bytes) : FileLogger → FileLogger := enqueue (str "INFO") text.
Definition warn (text : bytes) : FileLogger → FileLogger := enqueue (str "WARN") text.
Definition error (text : bytes) : FileLogger → FileLogger := enqueue (str "ERROR") text.

(** What [flush] waits for. *)
Definition flush_returns (s : FileLogger) : bool := bool_decide (queue_ s = []).

(** [stop] up to the notification, [None] where it returns at once; and from the
    [join], which returns when the writer has, to the end. *)
Definition stop_begin (s : FileLogger) : option FileLogger :=
  match running_ s, writer_ s with
  | false, None => None
  | _, _ => Some (mkLogger (path_ s) (stream_ s) (queue_ s) false (open_ s) (writer_ s) (S (notifying_ s)))
  end.
Definition stop_end (s : FileLogger) : option FileLogger :=
  match writer_ s with
  | Some Returned => Some (mkLogger (path_ s) None [] (running_ s) false None (notifying_ s))
  | _ => None
  end.

Definition line (now : Z) (entry : Entry) : bytes :=
  utc_timestamp now ++ str " " ++ level entry ++ str " " ++ message entry ++ [Byte.x0a].

#[global] Arguments line : simpl never.

Definition write_entry (now : Z) (entry : Entry) (stream : option bytes) : option bytes :=
  match stream with None => None | Some contents => Some (contents ++ line now entry) end.

Definition woken (w : option writer_state) : option writer_state :=
  match w with Some Asleep => Some AtLock | _ => w end.

Definition notify (s : FileLogger) : option FileLogger :=
  match notifying_ s with
  | O => None
  | S n => Some (mkLogger (path_ s) (stream_ s) (queue_ s) (running_ s) (open_ s) (woken (writer_ s)) n)
  end.

(** A step of [writer_loop]; [now] is the time it reads when it writes. *)
Definition writer_loop (now : Z) (s : FileLogger) : option FileLogger :=
  match writer_ s with
  | Some AtLock =>
      match queue_ s with
      | [] => Some (with_writer s (if running_ s then Asleep else Returned))
      | entry :: rest => Some (mkLogger (path_ s) (stream_ s) rest (running_ s) (open_ s)
                                 (Some (Writing entry)) (notifying_ s))
      end
  | Some (Writing entry) =>
      Some (mkLogger (path_ s) (write_entry now entry (stream_ s)) (queue_ s) (running_ s) (open_ s)
              (Some AtLock) (notifying_ s))
  | _ => None
  end.

(** ** Steps between [open] and the end of [stop] *)

Inductive label := Log (lvl text : bytes) | StopBegin | Notify | Wake | Write (now : Z).

Inductive step (s : FileLogger) : label → FileLogger → Prop :=
| step_log lvl text : step s (Log lvl text) (enqueue lvl text s)
| step_stop s' : stop_begin s = Some s' → step s StopBegin s'
| step_notify s' : notify s = Some s' → step s Notify s'
| step_wake : writer_ s = Some Asleep → step s Wake (with_writer s AtLock)
| step_write now s' : writer_loop now s = Some s' → step s (Write now) s'.

Definition accepted (s : FileLogger) (l : label) : list Entry :=
  match l with Log lvl text => if running_ s && open_ s then [mkEntry lvl text] else [] | _ => [] end.
Definition in_flight (s : FileLogger) : list Entry :=
  match writer_ s with Some (Writing e) => [e] | _ => [] end.
Definition written (s : FileLogger) (l : label) : list (Z * Entry) :=
  match l with Write now => (λ e, (now, e)) <$> in_flight s | _ => [] end.

(** A run, with the entries it accepted and those it wrote, and when. *)
Inductive run : FileLogger → list Entry → list (Z * Entry) → FileLogger → Prop :=
| run_done s : run s [] [] s
| run_step s l s1 acc wr s2 : step s l s1 → run s1 acc wr s2 →
    run s (accepted s l ++ acc) (written s l ++ wr) s2.

Definition lines (wr : list (Z * Entry)) : bytes := concat ((λ '(now, e), line now e) <$> wr).

(** Between two uses: what [stop] leaves. *)
Definition idle (s : FileLogger) : Prop :=
  stream_ s = None ∧ queue_ s = [] ∧ running_ s = false ∧ writer_ s = None.

Lemma initial_idle : idle initial.
Proof. done. Qed.

Lemma stop_end_idle s s' : stop_end s = Some s' → running_ s = false → idle s'.
Proof. unfold stop_end. intros. repeat case_match; by simplify_eq. Qed.

(** In use: the file is open and the writer does not miss work, as in
    [concurrency.exec_inv]. *)
Record log_inv (contents : bytes) (s : FileLogger) : Prop := {
  li_stream : stream_ s = Some contents;
  li_open : open_ s = true;
  li_writer : is_Some (writer_ s);
  li_returned : writer_ s = Some Returned → queue_ s = [] ∧ running_ s = false;
  li_asleep : writer_ s = Some Asleep → notifying_ s = O → queue_ s = [] ∧ running_ s = true
}.

Lemma open_inv path contents s : log_inv contents (open path (Some contents) s).
Proof. by split. Qed.

Lemma log_step_inv contents s l s' : step s l s' → log_inv contents s →
  log_inv (contents ++ lines (written s l)) s' ∧
  in_flight s ++ queue_ s ++ accepted s l = (written s l).*2 ++ in_flight s' ++ queue_ s'.
Proof.
  intros Hs [Hst Ho Hw Hr Ha]. unfold lines, written, in_flight, accepted.
  destruct Hs as [lvl text|s' Hb|s' Hn|Hwk|now s' Hd]; cbn; rewrite ?app_nil_r, ?Ho.
  - unfold enqueue. rewrite Ho. destruct (running_ s) eqn:E; cbn; rewrite ?app_nil_r.
    + split; [|done]. split; try done. cbn. intros Hret. destruct (Hr Hret). congruence.
    + split; [|done]. split; cbn; first [done|by eexists|naive_solver].
  - unfold stop_begin in Hb.
    assert (s' = mkLogger (path_ s) (stream_ s) (queue_ s) false (open_ s) (writer_ s) (S (notifying_ s))) as ->
      by (destruct (running_ s), (writer_ s); simplify_eq; done).
    split; [|done]. split; try done. cbn. intros Hret. by destruct (Hr Hret).
  - unfold notify in Hn. destruct (notifying_ s); simplify_eq. cbn.
    destruct (writer_ s) as [[]|]; cbn; (split; [split; cbn; first [done|by eexists]|done]).
  - rewrite Hwk. split; [|done]. split; cbn; first [done|by eexists|naive_solver].
  - unfold writer_loop in Hd. destruct (writer_ s) as [[| |e|]|] eqn:E; simplify_eq; cbn.
    + destruct (queue_ s) eqn:Eq; simplify_eq; cbn; rewrite ?Eq, ?app_nil_r; destruct (running_ s) eqn:Er;
        cbn; (split; [split; cbn; first [done|by eexists]|done]).
    + rewrite Hst, app_nil_r. split; [|done]. split; cbn; first [done|by eexists|naive_solver].
Qed.

Lemma run_inv contents s acc wr s' : run s acc wr s' → log_inv contents s →
  log_inv (contents ++ lines wr) s' ∧ in_flight s ++ queue_ s ++ acc = wr.*2 ++ in_flight s' ++ queue_ s'.
Proof.
  intros Hr. revert contents. induction Hr as [s|s l s1 acc wr s2 Hs _ IH]; intros contents Hi.
  { unfold lines. cbn. by rewrite !app_nil_r. }
  destruct (log_step_inv _ _ _ _ Hs Hi) as [Hi1 E1]. destruct (IH _ Hi1) as [Hi2 E2]. split.
  - unfold lines in *. by rewrite fmap_app, concat_app, app_assoc.
  - transitivity ((in_flight s ++ queue_ s ++ accepted s l) ++ acc); [by rewrite <-!app_assoc|].
    by rewrite E1, fmap_app, <-!app_assoc, E2.
Qed.

(** The log file.  The file holds what it held before followed by one line for
    each entry written; these are the entries accepted, in order, less the one
    being written and those in the queue.  So where [flush] returns at most one
    accepted entry, the one being written, is not in the file yet. *)
Theorem logger_order path contents s0 acc wr s : run (open path (Some contents) s0) acc wr s →
  idle s0 →
  stream_ s = Some (contents ++ lines wr) ∧ acc = wr.*2 ++ in_flight s ++ queue_ s ∧
  (flush_returns s = true → acc = wr.*2 ++ in_flight s ∧ (length (in_flight s) <= 1)%nat).
Proof.
  intros Hr (_ & Eq & _). destruct (run_inv _ _ _ _ _ Hr (open_inv _ _ _)) as [[Hst _ _ _ _] E].
  cbn in E. rewrite Eq in E. split_and!; [done|done|]. intros Hf%bool_decide_eq_true. rewrite Hf, app_nil_r in E.
  split; [done|]. unfold in_flight. by destruct (writer_ s) as [[]|]; cbn; lia.
Qed.

(** The one entry may be missing: [flush] can return while an entry logged before
    it was called is not in the file. *)
Theorem flush_returns_early : ∃ s, run (open (str "c.log") (Some []) initial) [mkEntry (str "INFO") (str "x")] [] s ∧
  flush_returns s = true ∧ stream_ s = Some [].
Proof.
  eexists. split; [|split].
  - refine (run_step _ (Log (str "INFO") (str "x")) _ [] [] _ (step_log _ _ _) _).
    refine (run_step _ (Write 0) _ [] [] _ _ (run_done _)). by constructor.
  - reflexivity.
  - reflexivity.
Qed.

(** ** Stopping *)

Definition own_step (s s' : FileLogger) : Prop :=
  step s Notify s' ∨ step s Wake s' ∨ ∃ now, step s (Write now) s'.

Definition steps_left (s : FileLogger) : nat :=
  2 * length (queue_ s) + notifying_ s +
  match writer_ s with None | Some Returned => 0 | Some AtLock => 1 | Some Asleep | Some (Writing _) => 2 end.

Lemma log_own_step_stopped s s' : own_step s s' → running_ s = false →
  running_ s' = false ∧ (steps_left s' < steps_left s)%nat.
Proof.
  intros [Hs|[Hs|[now Hs]]] Hr; inversion Hs as [| |s1 Hn|Hw|now1 s1 Hd]; subst; unfold steps_left.
  - unfold notify in Hn. destruct (notifying_ s) eqn:E; simplify_eq. cbn. split; [done|].
    destruct (writer_ s) as [[]|]; cbn; lia.
  - cbn. rewrite Hw. split; [done|lia].
  - unfold writer_loop in Hd. destruct (writer_ s) as [[| |e|]|] eqn:E; simplify_eq; cbn; [|split; [done|lia]].
    destruct (queue_ s) eqn:Eq; simplify_eq; cbn; rewrite ?Hr, ?Eq; cbn; split; try done; lia.
Qed.

Lemma log_own_steps_finite s : running_ s = false → sn own_step s.
Proof.
  intros Hr. apply (sn_measure _ steps_left (λ s, running_ s = false)); [|done].
  intros s1 s2 Hr1 Hs. by apply log_own_step_stopped.
Qed.

Lemma log_own_steps_run s s' : rtc own_step s s' → running_ s = false → running_ s' = false ∧ ∃ wr, run s [] wr s'.
Proof.
  induction 1 as [s|s s1 s2 Hs _ IH]; intros Hr; [split; [done|exists []; constructor]|].
  destruct (log_own_step_stopped _ _ Hs Hr) as [Hr1 _]. destruct (IH Hr1) as [Hr2 [wr Hrun]]. split; [done|].
  destruct Hs as [Hs|[Hs|[now Hs]]]; eexists; exact (run_step _ _ _ _ _ _ Hs Hrun).
Qed.

Lemma log_run_trans s acc wr s1 acc' wr' s2 : run s acc wr s1 → run s1 acc' wr' s2 →
  run s (acc ++ acc') (wr ++ wr') s2.
Proof. induction 1; intros Hr; [done|]. rewrite <-!app_assoc. by econstructor; [|apply IHrun]. Qed.

Lemma log_stopped_idle contents s : log_inv contents s → running_ s = false →
  (∀ s', ¬ step s Notify s') → (∀ now s', ¬ step s (Write now) s') → writer_ s = Some Returned.
Proof.
  intros [_ _ [w E] _ Ha] Hr Hn Hd. destruct w; [| | |done]; exfalso.
  - destruct (queue_ s) eqn:Eq; eapply (Hd 0); constructor; unfold writer_loop; by rewrite E, Eq.
  - destruct (notifying_ s) eqn:Ec; [destruct (Ha E eq_refl); congruence|].
    eapply Hn. constructor. unfold notify. by rewrite Ec.
  - eapply (Hd 0). constructor. unfold writer_loop. by rewrite E.
Qed.

(** C31. Stopping the logger.  After [stop] has cleared [running_], however the
    threads are scheduled, finitely many steps of the logger's own are left, and
    where no notification and no step of the writer is left the writer has
    returned, [stop] runs to its end, and the file holds one line for every entry
    that was ever accepted, in order. *)
Theorem logger_stop_drains path contents s0 acc wr s : run (open path (Some contents) s0) acc wr s →
  idle s0 → running_ s = false →
  sn own_step s ∧
  ∀ s', rtc own_step s s' → (∀ s2, ¬ step s' Notify s2) → (∀ now s2, ¬ step s' (Write now) s2) →
    ∃ wr' s2, wr'.*2 = acc ∧ stream_ s' = Some (contents ++ lines wr') ∧ stop_end s' = Some s2 ∧ idle s2.
Proof.
  intros Hr (_ & Eq0 & _) Hstop. split; [by apply log_own_steps_finite|]. intros s' Hown Hn Hd.
  destruct (log_own_steps_run _ _ Hown Hstop) as [Hstop' [wr' Hr']].
  destruct (run_inv _ _ _ _ _ (log_run_trans _ _ _ _ _ _ _ Hr Hr') (open_inv _ _ _)) as [Hi E].
  assert (writer_ s' = Some Returned) as Ew by (by eapply log_stopped_idle).
  destruct (li_returned _ _ Hi Ew) as [Eq _]. unfold in_flight in E. rewrite Ew, Eq in E. cbn in E.
  rewrite Eq0, !app_nil_r in E. cbn in E.
  assert (∃ s2, stop_end s' = Some s2) as [s2 E2] by (unfold stop_end; rewrite Ew; by eexists).
  exists (wr ++ wr'), s2. split_and!; [done|apply Hi|done|by eapply stop_end_idle].
Qed.

(** ** The theorems applied *)

Definition demo_entry : Entry := mkEntry (str "INFO") (str "x").

Lemma demo_run : run (open (str "c.log") (Some []) initial) [demo_entry] []
  (mkLogger (str "c.log") (Some []) [demo_entry] false true (Some AtLock) 2).
Proof.
  refine (run_step _ (Log (str "INFO") (str "x")) _ [] [] _ (step_log _ _ _) _).
  refine (run_step _ StopBegin _ [] [] _ (step_stop _ _ _) _); [reflexivity|].
  refine (run_step _ (Log (str "INFO") (str "y")) _ [] [] _ (step_log _ _ _) (run_done _)).
Qed.

Lemma logger_order_witness : Some [] = Some ([] ++ lines []) ∧ [demo_entry] = [] ++ [] ++ [demo_entry].
Proof.
  destruct (logger_order _ _ _ _ _ _ demo_run initial_idle) as (E1 & E2 & _).
  split; [exact E1|exact E2].
Defined.

Definition demo_end : FileLogger :=
  mkLogger (str "c.log") (Some (lines [(0, demo_entry)])) [] false true (Some Returned) 0.

Lemma logger_stop_drains_witness : ∃ wr s2, wr.*2 = [demo_entry] ∧ stream_ demo_end = Some ([] ++ lines wr) ∧
  stop_end demo_end = Some s2 ∧ idle s2.
Proof.
  apply (proj2 (logger_stop_drains _ _ _ _ _ _ demo_run initial_idle eq_refl)).
  - repeat (eapply rtc_l; [first [left; constructor; reflexivity
      |right; right; exists 0; constructor; reflexivity]|]). apply rtc_refl.
  - intros s Hs. inversion Hs. discriminate.
  - intros now s Hs. inversion Hs. discriminate.
Defined.

End logging.
