(* ===== verification/Sockets.v ===== *)
(** * The sockets: server/transport/TcpListenSocket.cpp, client/transport/TcpClientConnector.cpp

    The operating system is outside: the result of each system call is an input.
    The state has the set of the process's open descriptors, which [socket] adds
    to and [close] takes from, so that the theorems can say what is left open. *)
From S2P Require Import Prelude.
From S2P Require Import CppString.
From S2P Require Import Config.

(** ** The listening socket *)

Module TcpListenSocket.
Import config.

Definition kListenBacklog : Z := 16.
Definition kReuseAddrEnabled : Z := 1.

Record TcpListenSocket := mkListen {
  config_ : ServerConfig;
  listen_fd_ : Z;
  (* the outside *)
  open_fds : gset Z
}.

Definition construct (c : ServerConfig) (fds : gset Z) : TcpListenSocket := mkListen c (-1) fds.

(** What the system calls of [open] return: [socket], [setsockopt], [inet_pton],
    the error of [bind] if any, [listen] and the port that [getsockname] finds. *)
Record open_results := mkOpen {
  os_socket : Z;
  os_setsockopt : Z;
  os_inet_pton : Z;
  os_bind : option bytes;
  os_listen : Z;
  os_getsockname : option Z
}.

Abbreviation M := (SM TcpListenSocket).

Definition socket_call (fd : Z) : M unit :=
  modify_ (λ s, mkListen (config_ s) fd (if fd <? 0 then open_fds s else {[fd]} ∪ open_fds s)).

Definition open (r : open_results) : M unit :=
  _ ← socket_call (os_socket r);
  if os_socket r <? 0 then throw (runtime_error (str "Failed to create listen socket")) else
  if os_setsockopt r <? 0 then throw (runtime_error (str "setsockopt failed")) else
  s ← get_ config_;
  if os_inet_pton r <=? 0 then throw (runtime_error (str "Invalid bind_ip: " ++ bind_ip s)) else
  match os_bind r with
  | Some err => throw (runtime_error (str "bind failed: " ++ err))
  | None =>
      if os_listen r <? 0 then throw (runtime_error (str "listen failed")) else
      match os_getsockname r with
      | Some port => modify_ (λ s, mkListen (mkServerConfig (bind_ip (config_ s)) port) (listen_fd_ s) (open_fds s))
      | None => mret tt
      end
  end.

Definition close : M unit :=
  fd ← get_ listen_fd_;
  if 0 <=? fd then modify_ (λ s, mkListen (config_ s) (-1) (open_fds s ∖ {[fd]})) else mret tt.

Definition fd (s : TcpListenSocket) : Z := listen_fd_ s.
Definition accept (result : Z) : M Z := mret result.
Definition port (s : TcpListenSocket) : Z := server_port (config_ s).
Definition is_open (s : TcpListenSocket) : bool := 0 <=? listen_fd_ s.

(** All the calls of [open] succeed. *)
Definition all_succeed (r : open_results) : Prop :=
  0 <= os_socket r ∧ 0 <= os_setsockopt r ∧ 0 < os_inet_pton r ∧ os_bind r = None ∧ 0 <= os_listen r.

#[global] Instance all_succeed_dec r : Decision (all_succeed r).
Proof. unfold all_succeed. apply _. Defined.

Lemma close_run s : 0 <= listen_fd_ s →
  close s = (mkListen (config_ s) (-1) (open_fds s ∖ {[listen_fd_ s]}), Ok tt).
Proof. intros Hfd. unfold close. rewrite SM_get, (proj2 (Z.leb_le _ _) Hfd). done. Qed.

(** The state once [socket] has returned [sk]. *)
Definition opened (s : TcpListenSocket) (sk port' : Z) : TcpListenSocket :=
  mkListen (mkServerConfig (bind_ip (config_ s)) port') sk ({[sk]} ∪ open_fds s).

Lemma open_run r s : 0 <= os_socket r → ∃ port' res, open r s = (opened s (os_socket r) port', res) ∧
  res ≠ UB ∧ (res = Ok tt ↔ all_succeed r) ∧ (res = Ok tt → port' = default (port s) (os_getsockname r)).
Proof.
  intros Hsk. unfold open, socket_call, all_succeed. rewrite SM_modify, (proj2 (Z.ltb_ge _ _) Hsk).
  assert (mkListen (config_ s) (os_socket r) ({[os_socket r]} ∪ open_fds s) = opened s (os_socket r) (port s)) as ->
    by (unfold opened, port; by destruct (config_ s)).
  destruct (Z.ltb_spec (os_setsockopt r) 0); [|rewrite SM_get; destruct (Z.leb_spec (os_inet_pton r) 0); [|
    destruct (os_bind r) as [e|] eqn:Eb; [|destruct (Z.ltb_spec (os_listen r) 0);
      [|destruct (os_getsockname r) as [p|] eqn:Eg]]]];
  (eexists _, _; split; [done|]; naive_solver lia).
Qed.

(** [open] succeeds just when every call does, and then the port is the one the
    system chose.  Whether or not it succeeds, a descriptor that [socket] returned
    stays open and [is_open] holds: [open] does not close it when it throws, and
    there is no destructor that does; only [close] gives it back. *)
Theorem listen_open_spec (r : open_results) s : os_socket r ∉ open_fds s →
  ∃ s' res, open r s = (s', res) ∧ res ≠ UB ∧ (res = Ok tt ↔ all_succeed r) ∧
    (res = Ok tt → port s' = default (port s) (os_getsockname r)) ∧
    (0 <= os_socket r → is_open s' = true ∧ open_fds s' = {[os_socket r]} ∪ open_fds s ∧
       open_fds (close s').1 = open_fds s) ∧
    (os_socket r < 0 → is_open s' = false ∧ open_fds s' = open_fds s).
Proof.
  intros Hnew. destruct (Z.lt_ge_cases (os_socket r) 0) as [Hsk|Hsk].
  { eexists _, _. unfold open, socket_call, is_open, all_succeed.
    rewrite SM_modify, (proj2 (Z.ltb_lt _ _) Hsk). split; [done|]. cbn.
    split_and!; [done|split; [done|lia]|done|lia|]. intros _. split; [by apply Z.leb_gt|done]. }
  destruct (open_run r s Hsk) as (port' & res & E & Hub & Hok & Hport).
  eexists _, res. split; [exact E|]. split_and!; [done|done|done| |lia]. intros _. rewrite close_run by done.
  split_and!; [by apply Z.leb_le|done|cbn; set_solver].
Qed.

End TcpListenSocket.

(** ** The connection to the server *)

Module TcpClientConnector.
Import config.

(** What [socket], [inet_pton] and [connect] return, the last with its error. *)
Record connect_results := mkConnect { os_socket : Z; os_inet_pton : Z; os_connect : option bytes }.

Definition connect (r : connect_results) (c : ClientConfig) : SM (gset Z) Z :=
  let fd := os_socket r in
  if fd <? 0 then throw (runtime_error (str "Failed to create socket")) else
  _ ← modify_ (λ fds, {[fd]} ∪ fds);
  if os_inet_pton r <=? 0 then
    _ ← modify_ (λ fds, fds ∖ {[fd]});
    throw (runtime_error (str "Invalid server_ip: " ++ server_ip c))
  else
  match os_connect r with
  | Some err =>
      _ ← modify_ (λ fds, fds ∖ {[fd]});
      throw (runtime_error (str "connect failed: " ++ err))
  | None => mret fd
  end.

(** [connect] returns an open descriptor or throws and leaves the descriptors of
    the process as they were. *)
Theorem connect_spec r c fds : os_socket r ∉ fds →
  (∃ e, connect r c fds = (fds, Throw e)) ∨
  (0 <= os_socket r ∧ connect r c fds = ({[os_socket r]} ∪ fds, Ok (os_socket r))).
Proof.
  intros Hnew. unfold connect. destruct r as [sk ip cn]. cbn in *.
  assert (({[sk]} ∪ fds) ∖ {[sk]} = fds) as Hset by set_solver.
  destruct (Z.ltb_spec sk 0); [left; by eexists|]. rewrite SM_modify.
  destruct (Z.leb_spec ip 0); [left; rewrite SM_modify, Hset; by eexists|].
  destruct cn as [e|]; [left; rewrite SM_modify, Hset; by eexists|]. right. by split.
Qed.

End TcpClientConnector.
