(* ===== verification/Interleaving.v ===== *)
(** * Threads that share a state and a mutex

    A thread is a program of atomic actions, [proc]; between any two of them the
    other threads may run.  [step] lets one thread do its next action, so the
    executions of a pool are all interleavings.  [alone] runs a program without
    interruption, which relates it to the same code written in [SM].

    [ok] is a proof rule for one thread: every action, started in any state that
    the thread's [view] allows, keeps to the [guar]antee.  When the guarantees of
    the threads preserve a common invariant, [pool_inv] says that it holds in every
    reachable configuration and [pool_progress] that threads do not block each
    other for good. *)
From S2P Require Import Prelude.

Module threads.

(** A state with one [std::mutex]. *)
Class Mutex (St : Type) := {
  mutex_held : St → bool;
  set_mutex : bool → St → St
}.

Section threads.
Context {St : Type} `{Mutex St}.

Inductive proc (A : Type) : Type :=
| Done (r : outcome A)
| Act {B : Type} (m : SM St B) (k : outcome B → proc A)
| Lock (k : proc A)
| Unlock (k : proc A).
#[global] Arguments Done {A} r.
#[global] Arguments Act {A B} m k.
#[global] Arguments Lock {A} k.
#[global] Arguments Unlock {A} k.

#[global] Instance proc_ret : MRet proc := λ A a, Done (Ok a).

#[global] Instance proc_bind : MBind proc := λ A B f,
  fix bind p :=
    match p with
    | Done (Ok a) => f a
    | Done (Throw e) => Done (Throw e)
    | Done UB => Done UB
    | Act m k => Act m (λ r, bind (k r))
    | Lock k => Lock (bind k)
    | Unlock k => Unlock (bind k)
    end.

(** One action. *)
Definition act {A} (m : SM St A) : proc A := Act m Done.

(** What a thread computes by itself. *)
Definition pure {A} (m : outcome A) : proc A := Done m.
Definition nop : proc unit := Done (Ok tt).

Fixpoint catch {A} (p : proc A) (h : exn → proc A) : proc A :=
  match p with
  | Done (Throw e) => h e
  | Done r => Done r
  | Act m k => Act m (λ r, catch (k r) h)
  | Lock k => Lock (catch k h)
  | Unlock k => Unlock (catch k h)
  end.

(** [{ std::lock_guard<std::mutex> lock(mutex); p }] *)
Fixpoint unlock_after {A} (p : proc A) : proc A :=
  match p with
  | Done r => Unlock (Done r)
  | Act m k => Act m (λ r, unlock_after (k r))
  | Lock k => Lock (unlock_after k)
  | Unlock k => Unlock (unlock_after k)
  end.
Definition guarded {A} (p : proc A) : proc A := Lock (unlock_after p).

Fixpoint each {A} (l : list A) (body : A → proc unit) : proc unit :=
  match l with
  | [] => nop
  | x :: l' => _ ← body x; each l' body
  end.

(** ** Executions *)

(** The next action of a thread; [None] when it is over or waits for the mutex. *)
Definition advance {A} (p : proc A) (s : St) : option (proc A * St) :=
  match p with
  | Done _ => None
  | Act m k => let '(s', r) := m s in Some (k r, s')
  | Lock k => if mutex_held s then None else Some (k, set_mutex true s)
  | Unlock k => Some (k, set_mutex false s)
  end.

Definition is_done {A} (p : proc A) : bool := match p with Done _ => true | _ => false end.

Abbreviation config := (St * list (proc unit))%type.

(** One of the threads goes on, or a new thread comes up that runs [handler]. *)
Inductive step (handler : proc unit) : config → config → Prop :=
| step_thread i p p' s s' ps :
    ps !! i = Some p → advance p s = Some (p', s') → step handler (s, ps) (s', <[i:=p']> ps)
| step_spawn s ps : step handler (s, ps) (s, ps ++ [handler]).

(** The execution in which the threads go on in the given order. *)
Fixpoint execute (order : list nat) (c : config) : option config :=
  match order with
  | [] => Some c
  | i :: order =>
      p ← c.2 !! i;
      '(p', s') ← advance p c.1;
      execute order (s', <[i:=p']> c.2)
  end.

Lemma execute_steps handler order c c' : execute order c = Some c' → rtc (step handler) c c'.
Proof.
  revert c. induction order as [|i order IH]; intros [s ps] E; cbn in E; [by simplify_eq|].
  destruct (ps !! i) as [p|] eqn:Ep; [|done]. cbn in E.
  destruct (advance p s) as [[p' s']|] eqn:Ea; [|done].
  eapply rtc_l; [by eapply step_thread|]. by apply IH.
Qed.

(** ** A thread that is not interrupted *)

Fixpoint alone {A} (p : proc A) : SM St A :=
  match p with
  | Done r => λ s, (s, r)
  | Act m k => λ s, let '(s', r) := m s in alone (k r) s'
  | Lock k => λ s, if mutex_held s then (s, UB) else alone k (set_mutex true s)
  | Unlock k => λ s, alone k (set_mutex false s)
  end.

Lemma alone_bind {A B} (p : proc A) (f : A → proc B) (g : A → SM St B) s :
  (∀ a s', alone (f a) s' = g a s') → alone (mbind f p) s = mbind g (alone p) s.
Proof.
  intros Hf. unfold mbind, SM_bind. revert s.
  induction p as [[a|e|]|B' m k IH|k IH|k IH]; intros s; cbn; [apply Hf|done|done| | |apply IH].
  - destruct (m s) as [s' r]. apply IH.
  - destruct (mutex_held s); [done|apply IH].
Qed.

Lemma alone_catch {A} (p : proc A) h (h' : exn → SM St A) s :
  (∀ e s', alone (h e) s' = h' e s') → alone (catch p h) s = try_catch (alone p) h' s.
Proof.
  intros Hh. unfold try_catch. revert s.
  induction p as [[a|e|]|B' m k IH|k IH|k IH]; intros s; cbn; [done|apply Hh|done| | |apply IH].
  - destruct (m s) as [s' r]. apply IH.
  - destruct (mutex_held s); [done|apply IH].
Qed.

Lemma alone_each {A} (l : list A) body (body' : A → SM St unit) s :
  (∀ x s', alone (body x) s' = body' x s') → alone (each l body) s = for_each l body' s.
Proof.
  intros Hb. revert s. induction l as [|x l IH]; intros s; [done|]. cbn [each for_each].
  erewrite alone_bind by (intros; apply IH). unfold mbind, SM_bind. by rewrite Hb.
Qed.

(** Programs that take no mutex: bodies of critical sections. *)
Fixpoint lock_free {A} (p : proc A) : Prop :=
  match p with
  | Done _ => True
  | Act m k => ∀ r, lock_free (k r)
  | Lock _ | Unlock _ => False
  end.

Lemma alone_guarded {A} (p : proc A) s : lock_free p →
  alone (guarded p) s =
  if mutex_held s then (s, UB)
  else let '(s', r) := alone p (set_mutex true s) in (set_mutex false s', r).
Proof.
  intros Hp. cbn. destruct (mutex_held s); [done|]. generalize (set_mutex true s). clear s. revert Hp.
  induction p as [r|B' m k IH|k IH|k IH]; cbn; intros Hp s; [done| |done|done].
  destruct (m s) as [s' r]. by apply IH.
Qed.

Lemma lock_free_bind {A B} (p : proc A) (f : A → proc B) :
  lock_free p → (∀ a, lock_free (f a)) → lock_free (mbind f p).
Proof.
  intros Hp Hf. induction p as [[]|B' m k IH|k IH|k IH]; cbn in *; [apply Hf|done|done| |done|done].
  intros r. by apply IH.
Qed.

Lemma lock_free_catch {A} (p : proc A) h : lock_free p → (∀ e, lock_free (h e)) → lock_free (catch p h).
Proof.
  intros Hp Hh. induction p as [[]|B' m k IH|k IH|k IH]; cbn in *; [done|apply Hh|done| |done|done].
  intros r. by apply IH.
Qed.

Lemma lock_free_act {A} (m : SM St A) : lock_free (act m).
Proof. done. Qed.

Lemma lock_free_each {A} (l : list A) body : (∀ x, lock_free (body x)) → lock_free (each l body).
Proof.
  intros Hb. induction l as [|x l IH]; [done|]. by apply lock_free_bind; [|intros _].
Qed.

(** ** What every interleaving keeps *)

Section rule.
(** What the proof knows of a thread; the states in which a thread of this
    knowledge may be; what an action may do. *)
Context {G : Type} (holding : G → bool) (view : G → St → Prop) (guar : G → St → G → St → Prop).

Fixpoint ok {A} (p : proc A) (Q : G → outcome A → Prop) (g : G) : Prop :=
  match p with
  | Done r => Q g r
  | Act m k => ∀ s, view g s → ∃ g', guar g s g' (m s).1 ∧ ok (k (m s).2) Q g'
  | Lock k => holding g = false ∧
      ∀ s, view g s → mutex_held s = false → ∃ g', guar g s g' (set_mutex true s) ∧ ok k Q g'
  | Unlock k => ∀ s, view g s → ∃ g', guar g s g' (set_mutex false s) ∧ ok k Q g'
  end.

Lemma ok_mono {A} (p : proc A) (Q Q' : G → outcome A → Prop) g :
  ok p Q g → (∀ g' r, Q g' r → Q' g' r) → ok p Q' g.
Proof.
  intros Hp HQ. revert g Hp. induction p as [r|B' m k IH|k IH|k IH]; cbn; intros g Hp; [by apply HQ|..].
  - intros s Hs. destruct (Hp s Hs) as (g' & ? & ?). eauto.
  - destruct Hp as [Hh Hp]. split; [done|]. intros s Hs Hm. destruct (Hp s Hs Hm) as (g' & ? & ?). eauto.
  - intros s Hs. destruct (Hp s Hs) as (g' & ? & ?). eauto.
Qed.

(** The result of a program, when it is bound to the rest. *)
Definition then_ {A B} (f : A → proc B) (Q : G → outcome B → Prop) (g : G) (r : outcome A) : Prop :=
  match r with
  | Ok a => ok (f a) Q g
  | Throw e => Q g (Throw e)
  | UB => Q g UB
  end.

Lemma ok_bind {A B} (p : proc A) (f : A → proc B) Q g : ok p (then_ f Q) g → ok (mbind f p) Q g.
Proof.
  revert g. induction p as [[]|B' m k IH|k IH|k IH]; cbn; intros g Hp; [done..| | |].
  - intros s Hs. destruct (Hp s Hs) as (g' & ? & ?). eauto.
  - destruct Hp as [Hh Hp]. split; [done|]. intros s Hs Hm. destruct (Hp s Hs Hm) as (g' & ? & ?). eauto.
  - intros s Hs. destruct (Hp s Hs) as (g' & ? & ?). eauto.
Qed.

Lemma ok_catch {A} (p : proc A) h Q g :
  ok p (λ g r, match r with Throw e => ok (h e) Q g | _ => Q g r end) g → ok (catch p h) Q g.
Proof.
  revert g. induction p as [[]|B' m k IH|k IH|k IH]; cbn; intros g Hp; [done..| | |].
  - intros s Hs. destruct (Hp s Hs) as (g' & ? & ?). eauto.
  - destruct Hp as [Hh Hp]. split; [done|]. intros s Hs Hm. destruct (Hp s Hs Hm) as (g' & ? & ?). eauto.
  - intros s Hs. destruct (Hp s Hs) as (g' & ? & ?). eauto.
Qed.

Lemma ok_unlock_after {A} (p : proc A) Q g :
  ok p (λ g r, ok (Unlock (Done r)) Q g) g → ok (unlock_after p) Q g.
Proof.
  revert g. induction p as [r|B' m k IH|k IH|k IH]; cbn; intros g Hp; [done|..].
  - intros s Hs. destruct (Hp s Hs) as (g' & ? & ?). eauto.
  - destruct Hp as [Hh Hp]. split; [done|]. intros s Hs Hm. destruct (Hp s Hs Hm) as (g' & ? & ?). eauto.
  - intros s Hs. destruct (Hp s Hs) as (g' & ? & ?). eauto.
Qed.

(** A loop whose body keeps a fact about the thread. *)
Lemma ok_each {A} (l : list A) body (P : G → Prop) (Q : G → outcome unit → Prop) g :
  P g → (∀ g, P g → Q g (Ok tt)) →
  (∀ x g, x ∈ l → P g → ok (body x) (λ g r, r = Ok tt ∧ P g) g) → ok (each l body) Q g.
Proof.
  intros Hg HQ. revert g Hg. induction l as [|x l IH]; intros g Hg Hb; [by apply HQ|].
  cbn [each]. apply ok_bind. eapply ok_mono; [apply Hb; [apply list_elem_of_here|done]|].
  intros g' r [-> Hg']. apply IH; [done|]. intros y g'' Hy. apply Hb. by apply list_elem_of_further.
Qed.

(** ** The pool *)

Context (Inv : St → list G → Prop) (fresh : G) (handler : proc unit).
(** What the result of each thread satisfies. *)
Context (post : nat → G → outcome unit → Prop).

Record fits : Prop := {
  fit_view s gs i g : Inv s gs → gs !! i = Some g → view g s;
  fit_guar s gs i g g' s' : Inv s gs → gs !! i = Some g → guar g s g' s' → Inv s' (<[i:=g']> gs);
  fit_spawn s gs : Inv s gs → Inv s (gs ++ [fresh]);
  fit_handler i : ok handler (post i) fresh;
  fit_holder s gs : Inv s gs → mutex_held s = true → ∃ i g, gs !! i = Some g ∧ holding g = true;
  fit_post i g r : post i g r → holding g = false
}.
Context (Hfit : fits).

(** The invariant of a configuration. *)
Definition good (c : config) : Prop :=
  ∃ gs, Inv c.1 gs ∧ length gs = length c.2 ∧
    ∀ i p g, c.2 !! i = Some p → gs !! i = Some g → ok p (post i) g.

Lemma advance_ok {A} (p p' : proc A) Q g s s' : ok p Q g → view g s → advance p s = Some (p', s') →
  ∃ g', guar g s g' s' ∧ ok p' Q g'.
Proof.
  destruct p as [r|B' m k|k|k]; cbn; intros Hp Hs Ha; [done|..].
  - destruct (Hp s Hs) as (g' & ? & ?). destruct (m s). simplify_eq. eauto.
  - destruct Hp as [_ Hp]. destruct (mutex_held s) eqn:E; [done|]. simplify_eq. by apply Hp.
  - simplify_eq. by apply Hp.
Qed.

Lemma step_good c c' : step handler c c' → good c → good c'.
Proof using Hfit.
  intros Hs (gs & Hi & Hlen & Hok). destruct Hs as [i p p' s s' ps Hp Ha|s ps]; cbn [fst snd] in *.
  - destruct (lookup_lt_is_Some_2 gs i) as [g Hg]; [rewrite Hlen; by eapply lookup_lt_Some|].
    destruct (advance_ok p p' (post i) g s s') as (g' & Hgu & Hok'); [by eapply Hok|by eapply fit_view|done|].
    exists (<[i:=g']> gs). cbn [fst snd]. split_and!; [by eapply fit_guar|by rewrite !length_insert|].
    intros j q gj Hq Hgj. destruct (decide (i = j)) as [<-|Hne].
    + rewrite list_lookup_insert_eq in Hq by (by eapply lookup_lt_Some).
      rewrite list_lookup_insert_eq in Hgj by (by eapply lookup_lt_Some). by simplify_eq.
    + rewrite list_lookup_insert_ne in Hq by done. rewrite list_lookup_insert_ne in Hgj by done. by eapply Hok.
  - exists (gs ++ [fresh]). cbn [fst snd]. split_and!; [by eapply fit_spawn|rewrite !length_app; cbn; lia|].
    intros j q gj Hq Hgj. destruct (decide (j < length ps)%nat).
    + rewrite lookup_app_l in Hq by done. rewrite lookup_app_l in Hgj by lia. by eapply Hok.
    + rewrite lookup_app_r in Hq by lia. rewrite lookup_app_r in Hgj by lia. rewrite Hlen in Hgj.
      apply list_lookup_singleton_Some in Hq as [? <-], Hgj as [? <-]. by apply fit_handler.
Qed.

Lemma pool_inv c c' : rtc (step handler) c c' → good c → good c'.
Proof using Hfit. induction 1; eauto using step_good. Qed.

(** A configuration in which nobody can go on is one in which everybody is done. *)
Lemma pool_progress c : good c →
  (∃ i p, c.2 !! i = Some p ∧ is_Some (advance p c.1)) ∨
  ∀ i p, c.2 !! i = Some p → ∃ r, p = Done r.
Proof using Hfit.
  intros (gs & Hi & Hlen & Hok). destruct c as [s ps]; cbn in *. destruct (mutex_held s) eqn:E.
  - left. destruct (fit_holder Hfit s gs Hi E) as (i & g & Hg & Hh).
    destruct (lookup_lt_is_Some_2 ps i) as [p Hp]; [rewrite <-Hlen; by eapply lookup_lt_Some|].
    exists i, p. split; [done|]. specialize (Hok i p g Hp Hg). destruct p as [r|B' m k|k|k]; cbn in *.
    + apply (fit_post Hfit) in Hok. congruence.
    + by destruct (m s).
    + destruct Hok as [Hf _]. congruence.
    + done.
  - destruct (decide (Forall (λ p, is_done p = true) ps)) as [He|He].
    + right. intros i p Hp. apply (Forall_lookup_1 _ _ _ _ He) in Hp. destruct p; [eauto|done..].
    + left. apply not_Forall_Exists in He; [|apply _]. apply Exists_exists in He as (p & Hp & Hd).
      apply list_elem_of_lookup in Hp as [i Hp]. exists i, p. split; [done|].
      destruct p; cbn in *; [done|by destruct (m s)|by rewrite E|done].
Qed.

End rule.

End threads.

#[global] Arguments proc St A : clear implicits.

End threads.
