(* ===== verification/ClientRegistry.v ===== *)
(** * The registry of connected clients:
    server/model/ClientRecord.hpp, IClientRegistry.hpp, ClientRegistry.cpp

    [IClientRegistry] is the interface as a type class over the type of the
    registry's state; [RegistryLaws] is what the server relies on: the registry
    behaves like one finite map from descriptors to client records.
    [ClientRegistry] is the implementation with its three hash maps.  The order
    in which a hash map is traversed is not specified by C++; here it is the
    order of [map_to_list], and no theorem depends on it. *)
From S2P Require Import Prelude.
From S2P Require Import Protocol.
From S2P Require Import CppString.

Module server_model.
Import protocol.

Record ClientRecord := mkRecord {
  rec_fd : Z;
  rec_id : Z;
  rec_nickname : bytes;
  registered : bool
}.

#[global] Instance ClientRecord_eq_dec : EqDecision ClientRecord.
Proof. solve_decision. Defined.

(** The operations that change the registry return its new state first. *)
Class IClientRegistry (R : Type) := {
  add : R → Z → Z → R * ClientRecord;
  remove : R → Z → R * option ClientRecord;
  find_by_fd : R → Z → option ClientRecord;
  fd_by_id : R → Z → option Z;
  id_by_nickname : R → bytes → option Z;
  nickname_taken_by_other : R → bytes → Z → bool;
  set_nickname : R → Z → bytes → R;
  collect_users : R → list UserInfo;
  resolve_recipient : R → ChatPayload → outcome (option Z);
  recipient_label : R → ChatPayload → outcome bytes;
  all_fds : R → list Z
}.

(** ** ClientRegistry *)

Record ClientRegistry := mkRegistry {
  clients_by_fd_ : gmap Z ClientRecord;
  fd_by_id_ : gmap Z Z;
  id_by_nickname_ : gmap bytes Z
}.

Definition empty_registry : ClientRegistry := mkRegistry ∅ ∅ ∅.

Definition reg_add (r : ClientRegistry) (fd id : Z) : ClientRegistry * ClientRecord :=
  let record := mkRecord fd id [] false in
  (mkRegistry (<[fd := record]> (clients_by_fd_ r)) (<[id := fd]> (fd_by_id_ r)) (id_by_nickname_ r),
   record).

Definition reg_remove (r : ClientRegistry) (fd : Z) : ClientRegistry * option ClientRecord :=
  match clients_by_fd_ r !! fd with
  | None => (r, None)
  | Some record =>
      let nicks := if decide (rec_nickname record = []) then id_by_nickname_ r
                   else delete (rec_nickname record) (id_by_nickname_ r) in
      (mkRegistry (delete fd (clients_by_fd_ r)) (delete (rec_id record) (fd_by_id_ r)) nicks,
       Some record)
  end.

Definition reg_find_by_fd (r : ClientRegistry) (fd : Z) : option ClientRecord :=
  clients_by_fd_ r !! fd.

Definition reg_fd_by_id (r : ClientRegistry) (id : Z) : option Z := fd_by_id_ r !! id.

Definition reg_id_by_nickname (r : ClientRegistry) (nickname : bytes) : option Z :=
  id_by_nickname_ r !! nickname.

Definition reg_nickname_taken_by_other (r : ClientRegistry) (nickname : bytes) (id : Z) : bool :=
  match id_by_nickname_ r !! nickname with
  | None => false
  | Some other => negb (other =? id)
  end.

Definition reg_set_nickname (r : ClientRegistry) (fd : Z) (nickname : bytes) : ClientRegistry :=
  match reg_find_by_fd r fd with
  | None => r
  | Some record =>
      let nicks := if decide (rec_nickname record = []) then id_by_nickname_ r
                   else delete (rec_nickname record) (id_by_nickname_ r) in
      let record := mkRecord (rec_fd record) (rec_id record) nickname true in
      mkRegistry (<[fd := record]> (clients_by_fd_ r)) (fd_by_id_ r)
                 (<[nickname := rec_id record]> nicks)
  end.

Definition info_of (c : ClientRecord) : UserInfo := mkUserInfo (rec_id c) (rec_nickname c).

(** The comparison of [std::sort], as the order it sorts by. *)
Definition user_le (a b : UserInfo) : Prop := user_id a <= user_id b.

#[global] Instance user_le_dec : RelDecision user_le.
Proof. intros a b. unfold user_le. apply _. Defined.

Definition reg_collect_users (r : ClientRegistry) : list UserInfo :=
  merge_sort user_le ((λ p, info_of p.2) <$> map_to_list (clients_by_fd_ r)).

Definition reg_resolve_recipient (r : ClientRegistry) (chat : ChatPayload) : outcome (option Z) :=
  if decide (recipient_tag chat = kRecipientById) then
    if decide (length (recipient_data chat) < kUint32Size)%nat then mret None else
    id ← read_u32_be (recipient_data chat);
    match reg_fd_by_id r id with
    | None => mret None
    | Some _ => mret (Some id)
    end
  else if decide (recipient_tag chat = kRecipientByNickname) then
    nickname ← decode_string (recipient_data chat);
    mret (reg_id_by_nickname r nickname)
  else mret None.

Definition reg_recipient_label (r : ClientRegistry) (chat : ChatPayload) : outcome bytes :=
  if decide (recipient_tag chat = kRecipientBroadcast) then mret kBroadcastRecipient else
  if decide (recipient_tag chat = kRecipientById ∧ kUint32Size ≤ length (recipient_data chat))%nat then
    id ← read_u32_be (recipient_data chat);
    mret (std.to_string id)
  else if decide (recipient_tag chat = kRecipientByNickname) then
    decode_string (recipient_data chat)
  else mret (str "?").

Definition reg_all_fds (r : ClientRegistry) : list Z := (map_to_list (clients_by_fd_ r)).*1.

#[global] Instance ClientRegistry_IClientRegistry : IClientRegistry ClientRegistry := {
  add := reg_add;
  remove := reg_remove;
  find_by_fd := reg_find_by_fd;
  fd_by_id := reg_fd_by_id;
  id_by_nickname := reg_id_by_nickname;
  nickname_taken_by_other := reg_nickname_taken_by_other;
  set_nickname := reg_set_nickname;
  collect_users := reg_collect_users;
  resolve_recipient := reg_resolve_recipient;
  recipient_label := reg_recipient_label;
  all_fds := reg_all_fds
}.

(** ** The contract *)

(** A record with its nickname set. *)
Definition named (c : ClientRecord) (nickname : bytes) : ClientRecord :=
  mkRecord (rec_fd c) (rec_id c) nickname true.

Class RegistryLaws (R : Type) `{IClientRegistry R} := {
  clients : R → gmap Z ClientRecord;
  reg_ok : R → Prop;

  law_find r fd : find_by_fd r fd = clients r !! fd;
  law_rec_fd r fd c : reg_ok r → clients r !! fd = Some c → rec_fd c = fd;
  law_fd_by_id r i fd : reg_ok r →
    fd_by_id r i = Some fd ↔ ∃ c, clients r !! fd = Some c ∧ rec_id c = i;
  law_id_by_nickname r n i : reg_ok r →
    id_by_nickname r n = Some i ↔
    n ≠ [] ∧ ∃ fd c, clients r !! fd = Some c ∧ rec_nickname c = n ∧ rec_id c = i;
  law_taken r n i : nickname_taken_by_other r n i = true ↔
    ∃ j, id_by_nickname r n = Some j ∧ j ≠ i;
  law_all_fds r : all_fds r ≡ₚ elements (dom (clients r));
  law_collect_sorted r : Sorted user_le (collect_users r);
  law_collect_perm r : collect_users r ≡ₚ (λ p, info_of p.2) <$> map_to_list (clients r);

  law_add r fd i : reg_ok r → clients r !! fd = None →
    (∀ fd' c, clients r !! fd' = Some c → rec_id c ≠ i) →
    let '(r', c) := add r fd i in
    reg_ok r' ∧ c = mkRecord fd i [] false ∧ clients r' = <[fd := c]> (clients r);
  law_remove r fd : reg_ok r →
    let '(r', c) := remove r fd in
    reg_ok r' ∧ c = clients r !! fd ∧ clients r' = delete fd (clients r);
  law_set_nickname r fd n c : reg_ok r → clients r !! fd = Some c → n ≠ [] →
    nickname_taken_by_other r n (rec_id c) = false →
    reg_ok (set_nickname r fd n) ∧ clients (set_nickname r fd n) = <[fd := named c n]> (clients r);

  law_resolve_id r chat i : recipient_tag chat = kRecipientById →
    length (recipient_data chat) = 4%nat → read_u32_be (recipient_data chat) = Ok i →
    resolve_recipient r chat = Ok ((λ _, i) <$> fd_by_id r i);
  law_resolve_nickname r chat n : recipient_tag chat = kRecipientByNickname →
    decode_string (recipient_data chat) = Ok n →
    resolve_recipient r chat = Ok (id_by_nickname r n);
  law_label r chat : wf_chat chat →
    ∃ l, recipient_label r chat = Ok l
}.

(** Consequences for every registry that keeps the contract. *)
Section contract.
Context {R : Type} `{RegistryLaws R}.

(** Two clients never share an id, nor a nickname. *)
Lemma ids_unique r fd1 fd2 c1 c2 : reg_ok r →
  clients r !! fd1 = Some c1 → clients r !! fd2 = Some c2 → rec_id c1 = rec_id c2 → fd1 = fd2.
Proof.
  intros Hr H1 H2 He.
  assert (fd_by_id r (rec_id c1) = Some fd1) as E1 by (apply law_fd_by_id; eauto).
  assert (fd_by_id r (rec_id c1) = Some fd2) as E2 by (apply law_fd_by_id; eauto).
  congruence.
Qed.

Lemma nicknames_unique r fd1 fd2 c1 c2 : reg_ok r →
  clients r !! fd1 = Some c1 → clients r !! fd2 = Some c2 →
  rec_nickname c1 = rec_nickname c2 → rec_nickname c1 ≠ [] → fd1 = fd2.
Proof.
  intros Hr H1 H2 He Hne.
  assert (id_by_nickname r (rec_nickname c1) = Some (rec_id c1)) as E1
    by (apply law_id_by_nickname; eauto 10).
  assert (id_by_nickname r (rec_nickname c1) = Some (rec_id c2)) as E2
    by (apply law_id_by_nickname; eauto 10).
  eapply ids_unique; eauto. congruence.
Qed.

Lemma elem_of_all_fds r fd : fd ∈ all_fds r ↔ is_Some (clients r !! fd).
Proof. rewrite law_all_fds, elem_of_elements. apply elem_of_dom. Qed.

Lemma NoDup_all_fds r : NoDup (all_fds r).
Proof. rewrite law_all_fds. apply NoDup_elements. Qed.

End contract.

(** ** ClientRegistry keeps the contract *)

(** The two indexes are exactly the inverses of the records. *)
Record reg_inv (r : ClientRegistry) : Prop := {
  inv_fd fd c : clients_by_fd_ r !! fd = Some c → rec_fd c = fd;
  inv_id i fd : fd_by_id_ r !! i = Some fd ↔
    ∃ c, clients_by_fd_ r !! fd = Some c ∧ rec_id c = i;
  inv_nick n i : id_by_nickname_ r !! n = Some i ↔
    n ≠ [] ∧ ∃ fd c, clients_by_fd_ r !! fd = Some c ∧ rec_nickname c = n ∧ rec_id c = i
}.

Lemma reg_inv_empty : reg_inv empty_registry.
Proof. split; cbn; intros; rewrite ?lookup_empty in *; naive_solver. Qed.

Lemma reg_add_ok r fd i : reg_inv r → clients_by_fd_ r !! fd = None →
  (∀ fd' c, clients_by_fd_ r !! fd' = Some c → rec_id c ≠ i) → reg_inv (reg_add r fd i).1.
Proof.
  intros [Hfd Hid Hnick] Hnew Hfresh. split; cbn.
  - intros fd' c. rewrite lookup_insert. case_decide; naive_solver.
  - intros j fd'. rewrite !lookup_insert. repeat case_decide; subst; rewrite ?Hid; naive_solver.
  - intros n j. rewrite Hnick. split; intros [Hne (fd' & c & Hc & Hn & Hj)]; (split; [done|]); exists fd', c.
    + rewrite lookup_insert_ne by congruence. done.
    + rewrite lookup_insert in Hc. case_decide; [|done]. simplify_eq/=.
Qed.

Lemma inv_uniq r fd fd' c c' : reg_inv r →
  clients_by_fd_ r !! fd = Some c → clients_by_fd_ r !! fd' = Some c' →
  rec_id c = rec_id c' → fd = fd'.
Proof.
  intros [_ Hid _] Hc Hc' He.
  assert (fd_by_id_ r !! rec_id c = Some fd) by (apply Hid; eauto).
  assert (fd_by_id_ r !! rec_id c = Some fd') by (apply Hid; eauto). congruence.
Qed.

(** The nickname index without the nickname of one client. *)
Definition drop_nick (r : ClientRegistry) (c : ClientRecord) : gmap bytes Z :=
  if decide (rec_nickname c = []) then id_by_nickname_ r
  else delete (rec_nickname c) (id_by_nickname_ r).

Lemma drop_nick_spec r fd c n j : reg_inv r → clients_by_fd_ r !! fd = Some c →
  drop_nick r c !! n = Some j ↔
  n ≠ [] ∧ ∃ fd' c', fd' ≠ fd ∧ clients_by_fd_ r !! fd' = Some c' ∧ rec_nickname c' = n ∧ rec_id c' = j.
Proof.
  intros Hinv Hc. pose proof (inv_uniq r) as Huniq. destruct (Hinv) as [Hfd Hid Hnick].
  assert (drop_nick r c !! n = Some j ↔ id_by_nickname_ r !! n = Some j ∧ n ≠ rec_nickname c) as ->.
  { unfold drop_nick. case_decide as Hne.
    - split; [|by intros [? _]]. intros Hj. split; [done|]. apply Hnick in Hj as [? _]. congruence.
    - rewrite lookup_delete. case_decide; naive_solver. }
  rewrite Hnick. split.
  - intros [[Hne (fd' & c' & Hc' & Hn & Hi)] Hnn]. split; [done|]. exists fd', c'.
    split_and!; [congruence|done..].
  - intros [Hne (fd' & c' & Hd & Hc' & Hn & Hi)]. split; [eauto 10|]. intros ->.
    assert (id_by_nickname_ r !! rec_nickname c = Some j) as E1 by (apply Hnick; eauto 10).
    assert (id_by_nickname_ r !! rec_nickname c = Some (rec_id c)) as E2 by (apply Hnick; eauto 10).
    apply Hd. eapply Huniq; [done..|congruence].
Qed.

Lemma reg_remove_ok r fd : reg_inv r →
  reg_inv (reg_remove r fd).1 ∧ (reg_remove r fd).2 = clients_by_fd_ r !! fd ∧
  clients_by_fd_ (reg_remove r fd).1 = delete fd (clients_by_fd_ r).
Proof.
  intros Hinv. unfold reg_remove. destruct (clients_by_fd_ r !! fd) as [c|] eqn:E; cbn; cycle 1.
  { rewrite delete_id by done. done. }
  split_and!; [|done..]. split; cbn.
  - intros fd' c'. rewrite lookup_delete. case_decide; [done|]. apply Hinv.
  - intros j fd'. rewrite !lookup_delete. destruct (decide (rec_id c = j)) as [<-|Hj].
    + split; [done|]. intros (c' & Hc & Hi). case_decide as Hf; [done|].
      by apply (inv_uniq r fd fd' c c') in Hinv.
    + rewrite (inv_id r Hinv). split; intros (c' & Hc & Hi); exists c'; (case_decide; [simplify_eq/=|done]).
  - intros n j. fold (drop_nick r c). rewrite (drop_nick_spec r fd) by done.
    split; intros [Hne (fd' & c' & H)]; (split; [done|]); exists fd', c'.
    + rewrite lookup_delete_ne by (by destruct H). by destruct H.
    + rewrite lookup_delete in H. case_decide; naive_solver.
Qed.

Lemma reg_set_nickname_ok r fd n c : reg_inv r → clients_by_fd_ r !! fd = Some c → n ≠ [] →
  reg_nickname_taken_by_other r n (rec_id c) = false →
  reg_inv (reg_set_nickname r fd n) ∧
  clients_by_fd_ (reg_set_nickname r fd n) = <[fd := named c n]> (clients_by_fd_ r).
Proof.
  intros Hinv Hc Hn Htaken. unfold reg_set_nickname, reg_find_by_fd. rewrite Hc. split; [|done].
  fold (drop_nick r c). split; cbn.
  - intros fd' c'. rewrite lookup_insert. case_decide; [|apply Hinv].
    intros [= <-]. subst. by apply (inv_fd r Hinv) in Hc.
  - intros j fd'. rewrite (inv_id r Hinv), lookup_insert. case_decide as Hf; [subst fd'|done].
    rewrite Hc. naive_solver.
  - intros m j. rewrite lookup_insert. destruct (decide (n = m)) as [<-|Hm].
    + split.
      * intros [= <-]. split; [done|]. exists fd, (named c n). by rewrite lookup_insert_eq.
      * intros [_ (fd' & c' & Hc' & Hnick & <-)]. rewrite lookup_insert in Hc'.
        case_decide as Hf; [by injection Hc' as <-|].
        assert (id_by_nickname_ r !! n = Some (rec_id c')) as E by (apply Hinv; eauto 10).
        unfold reg_nickname_taken_by_other in Htaken. rewrite E in Htaken.
        apply negb_false_iff in Htaken. zify_bools. congruence.
    + rewrite (drop_nick_spec r fd) by done.
      split; intros [Hne (fd' & c' & H)]; (split; [done|]); exists fd', c'.
      * rewrite lookup_insert_ne by (by destruct H). by destruct H.
      * rewrite lookup_insert in H. case_decide as Hf; [|naive_solver].
        destruct H as ([= <-] & He & _). by cbn in He.
Qed.

Lemma reg_collect_sorted r : Sorted user_le (reg_collect_users r).
Proof. apply Sorted_merge_sort. intros a b. unfold user_le. lia. Qed.

#[global, refine] Instance ClientRegistry_laws : RegistryLaws ClientRegistry :=
  { clients := clients_by_fd_; reg_ok := reg_inv }.
Proof.
  - done.
  - intros r fd c Hr. apply Hr.
  - intros r i fd Hr. apply Hr.
  - intros r n i Hr. apply Hr.
  - intros r n i. cbn. unfold reg_nickname_taken_by_other, reg_id_by_nickname.
    destruct (id_by_nickname_ r !! n) as [j|]; [|naive_solver].
    rewrite negb_true_iff, Z.eqb_neq. naive_solver.
  - intros r. cbn. unfold reg_all_fds. apply NoDup_Permutation.
    + apply NoDup_fst_map_to_list.
    + apply NoDup_elements.
    + intros fd. rewrite elem_of_elements, elem_of_dom, list_elem_of_fmap.
      setoid_rewrite elem_of_map_to_list'. unfold is_Some. split; [naive_solver|].
      intros [c Hc]. by exists (fd, c).
  - apply reg_collect_sorted.
  - intros r. cbn. apply merge_sort_Permutation.
  - intros r fd i Hr Hn Hf. cbn. split_and!; [by apply reg_add_ok|done..].
  - intros r fd Hr. cbn. pose proof (reg_remove_ok r fd Hr) as Ho. by destruct (reg_remove r fd).
  - intros r fd n c. apply reg_set_nickname_ok.
  - intros r chat i Ht Hl Hi. cbn. unfold reg_resolve_recipient, kUint32Size.
    rewrite decide_True, decide_False, Hi by (done || lia). cbn [mbind outcome_bind].
    by destruct (reg_fd_by_id r i).
  - intros r chat n Ht Hd. cbn. unfold reg_resolve_recipient.
    rewrite decide_False, decide_True, Hd by (done || by rewrite Ht). done.
  - intros r chat (_ & Hr & _). cbn. unfold reg_recipient_label, kUint32Size.
    destruct Hr as [[-> Hl]|[(-> & n & Hn & ->)|[-> _]]].
    + rewrite decide_False, decide_True by (done || (split; [done|lia])).
      destruct (read_u32_be_ok (recipient_data chat)) as [v ->]; [lia|by eexists].
    + rewrite decide_False, decide_False, decide_True by (done || by intros []).
      exists n. rewrite <-(app_nil_r (lstr n)). by apply decode_string_head.
    + by eexists.
Defined.

(** ** The registry as one finite map *)

Inductive reg_op :=
| OpAdd (fd id : Z)
| OpRemove (fd : Z)
| OpSetNickname (fd : Z) (nickname : bytes).

(** What the operations do to the abstract map, and when the server calls them:
    a new client has a new descriptor and an unused id, a nickname is not empty
    and not that of another client. *)
Definition abs_step (m : gmap Z ClientRecord) (op : reg_op) : gmap Z ClientRecord :=
  match op with
  | OpAdd fd id => <[fd := mkRecord fd id [] false]> m
  | OpRemove fd => delete fd m
  | OpSetNickname fd n => match m !! fd with Some c => <[fd := named c n]> m | None => m end
  end.

Definition op_ok (m : gmap Z ClientRecord) (op : reg_op) : Prop :=
  match op with
  | OpAdd fd id => m !! fd = None ∧ map_Forall (λ _ c, rec_id c ≠ id) m
  | OpRemove _ => True
  | OpSetNickname fd n => n ≠ [] ∧ map_Forall (λ fd' c, rec_nickname c = n → fd' = fd) m
  end.

#[global] Instance op_ok_dec m op : Decision (op_ok m op).
Proof. destruct op; cbn; apply _. Defined.

Fixpoint ops_ok (m : gmap Z ClientRecord) (ops : list reg_op) : Prop :=
  match ops with
  | [] => True
  | op :: ops => op_ok m op ∧ ops_ok (abs_step m op) ops
  end.

#[global] Instance ops_ok_dec m ops : Decision (ops_ok m ops).
Proof. revert m. induction ops; intros m; cbn; apply _. Defined.

Definition reg_step (r : ClientRegistry) (op : reg_op) : ClientRegistry :=
  match op with
  | OpAdd fd id => (add r fd id).1
  | OpRemove fd => (remove r fd).1
  | OpSetNickname fd n => set_nickname r fd n
  end.

Lemma reg_step_refines r op : reg_inv r → op_ok (clients r) op →
  reg_inv (reg_step r op) ∧ clients (reg_step r op) = abs_step (clients r) op.
Proof.
  intros Hr Hop. destruct op as [fd i|fd|fd n]; cbn [reg_step abs_step op_ok] in *.
  - destruct Hop. split; [by apply reg_add_ok|done].
  - destruct (reg_remove_ok r fd Hr) as (? & _ & ?). done.
  - destruct Hop as [Hn Hother]. destruct (clients r !! fd) as [c|] eqn:E.
    + apply reg_set_nickname_ok; [done..|]. apply not_true_is_false. intros Ht.
      change (nickname_taken_by_other r n (rec_id c) = true) in Ht.
      apply law_taken in Ht as (j & Hj & Hne).
      apply law_id_by_nickname in Hj as (_ & fd' & c' & Hc' & Hn' & <-); [|done].
      rewrite (Hother _ _ Hc' Hn') in Hc'. congruence.
    + change (clients r !! fd) with (clients_by_fd_ r !! fd) in E.
      cbn. unfold reg_set_nickname, reg_find_by_fd. rewrite E. done.
Qed.

Lemma reg_run_refines ops r : reg_inv r → ops_ok (clients r) ops →
  reg_inv (foldl reg_step r ops) ∧ clients (foldl reg_step r ops) = foldl abs_step (clients r) ops.
Proof.
  revert r. induction ops as [|op ops IH]; intros r Hr Hops; cbn [foldl ops_ok] in *; [done|].
  destruct Hops as [Hop Hops]. destruct (reg_step_refines r op Hr Hop) as [Hr' E].
  rewrite <-E in Hops |- *. by apply IH.
Qed.

(** C15. The registry with its three hash maps behaves like one finite map from
    descriptors to records.  After any sequence of operations in which [add] is given a
    descriptor and an id that are not in use and [set_nickname] a nickname that is not
    empty and that no other client has (the registry relies on its caller for this;
    the server checks it before each call), lookups by descriptor, by id and by nickname, the list of
    descriptors and the sorted list of users are those of the map that the
    abstract operations build. *)
Theorem registry_refines ops : ops_ok ∅ ops →
  let r := foldl reg_step empty_registry ops in
  let m := foldl abs_step ∅ ops in
  (∀ fd, find_by_fd r fd = m !! fd) ∧
  (∀ i fd, fd_by_id r i = Some fd ↔ ∃ c, m !! fd = Some c ∧ rec_id c = i) ∧
  (∀ n i, id_by_nickname r n = Some i ↔
     n ≠ [] ∧ ∃ fd c, m !! fd = Some c ∧ rec_nickname c = n ∧ rec_id c = i) ∧
  all_fds r ≡ₚ elements (dom m) ∧
  Sorted user_le (collect_users r) ∧
  collect_users r ≡ₚ (λ p, info_of p.2) <$> map_to_list m.
Proof.
  intros Hops. destruct (reg_run_refines ops empty_registry reg_inv_empty Hops) as [Hr E].
  cbn zeta. change (clients empty_registry) with (∅ : gmap Z ClientRecord) in E. rewrite <-E.
  split_and!; intros.
  - apply law_find.
  - by apply law_fd_by_id.
  - by apply law_id_by_nickname.
  - apply law_all_fds.
  - apply law_collect_sorted.
  - apply law_collect_perm.
Qed.

Definition some_ops : list reg_op := [OpAdd 5 1; OpAdd 6 2; OpSetNickname 5 (str "bob"); OpRemove 6].

Lemma registry_refines_witness :
  find_by_fd (foldl reg_step empty_registry some_ops) 5 = Some (mkRecord 5 1 (str "bob") true).
Proof.
  destruct (registry_refines some_ops) as [H _].
  - apply (bool_decide_unpack _). vm_compute. exact I.
  - exact (H 5).
Defined.

End server_model.
