(* ===== verification/ServerHandlers.v ===== *)
(** * The server's state, presence and message handlers:
    server/viewmodel/ServerContext.hpp, PresenceBroadcaster.cpp,
    MessageDispatcher.cpp, MessageDispatcherFactory.cpp, handlers/*.cpp

    The handlers are written against [IClientRegistry]; the sections below take
    the registry as a parameter and, for the theorems, [RegistryLaws].  What the
    server does to the outside (messages sent, sockets shut down and closed,
    calls of the view) is recorded in order in [effects].  Nothing in the server
    looks at the result of a [send]. *)
From S2P Require Import Prelude.
From S2P Require Import ModbusTcp.
From S2P Require Import Protocol.
From S2P Require Import CppString.
From S2P Require Import ClientRegistry.

Module server.
Import protocol server_model.

(** The methods of [IServerView]. *)
Inductive view_call :=
| show_listening (bind_ip : bytes) (port : Z)
| show_accept_failed (error : bytes)
| show_client_connected (id : Z)
| show_client_disconnected (id : Z) (nickname : bytes)
| show_client_registered (id : Z) (nickname : bytes)
| show_chat (from_id : Z) (to_label kind : bytes)
| show_decode_error (error : bytes)
| show_admin_message (text : bytes).

Inductive effect :=
| Sent (fd : Z) (type : MsgType) (payload : bytes)
| Shutdown (fd : Z)
| Closed (fd : Z)
| View (call : view_call).

(** The members of [ServerViewModel] that change, and what it has done. *)
Record server (R : Type) := mkServer {
  registry_ : R;
  next_id_ : Z;
  free_ids_ : gset Z;
  banned_ids_ : gset Z;
  admin_queue_ : list bytes;
  running_ : bool;
  listening_ : bool;
  effects : list effect
}.
Arguments mkServer {R} _ _ _ _ _ _ _ _.
Arguments registry_ {R} _.
Arguments next_id_ {R} _.
Arguments free_ids_ {R} _.
Arguments banned_ids_ {R} _.
Arguments admin_queue_ {R} _.
Arguments running_ {R} _.
Arguments listening_ {R} _.
Arguments effects {R} _.

Section handlers.
Context {R : Type} `{IClientRegistry R}.
Abbreviation M := (SM (server R)).

Definition with_registry (s : server R) (r : R) : server R :=
  mkServer r (next_id_ s) (free_ids_ s) (banned_ids_ s) (admin_queue_ s) (running_ s) (listening_ s)
           (effects s).
Definition with_effects (s : server R) (es : list effect) : server R :=
  mkServer (registry_ s) (next_id_ s) (free_ids_ s) (banned_ids_ s) (admin_queue_ s) (running_ s)
           (listening_ s) (effects s ++ es).

Definition emit (e : effect) : M unit := modify_ (λ s, with_effects s [e]).
Definition view (call : view_call) : M unit := emit (View call).

(** [transport.send(fd, type, payload)], the result not being used. *)
Definition send (fd : Z) (type : MsgType) (payload : bytes) : M unit := emit (Sent fd type payload).

(** [transport.send(fd, MsgType::Error, protocol::encode_error(text))] *)
Definition send_error (fd : Z) (text : bytes) : M unit :=
  payload ← lift (encode_error text);
  send fd Error payload.

(** [context.is_banned(id)] *)
Definition is_banned (id : Z) : M bool := get_ (λ s, bool_decide (id ∈ banned_ids_ s)).

Definition registry {A} (f : R → A) : M A := get_ (λ s, f (registry_ s)).

(** ** PresenceBroadcaster *)

Definition broadcast (type : MsgType) (payload : bytes) (except_fd : Z) : M unit :=
  fds ← registry all_fds;
  for_each fds (λ client_fd,
    when (negb (client_fd =? except_fd)) (send client_fd type payload)).

Definition user_joined (id : Z) (nickname : bytes) (except_fd : Z) : M unit :=
  payload ← lift (encode_user_joined id nickname);
  broadcast UserJoined payload except_fd.

Definition user_left (id : Z) (nickname : bytes) : M unit :=
  payload ← lift (encode_user_left id nickname);
  broadcast UserLeft payload (-1).

(** ** Handlers *)

Definition as_register (p : AppPayload) : option RegisterPayload :=
  match p with PRegister r => Some r | _ => None end.
Definition as_chat (p : AppPayload) : option ChatPayload :=
  match p with PChat c => Some c | _ => None end.

Definition register_handle (fd : Z) (message : AppMessage) : M unit :=
  reg ← lift (get_alternative (as_register (msg_payload message)));
  let nickname := reg_nickname reg in
  record ← registry (λ r, find_by_fd r fd);
  match record with
  | None => skip
  | Some record =>
      if decide (nickname = []) then send_error fd (str "Nickname cannot be empty") else
      if decide (nickname = kBroadcastRecipient)
      then send_error fd (str "Nickname 'all' is reserved") else
      taken ← registry (λ r, nickname_taken_by_other r nickname (rec_id record));
      if taken : bool then send_error fd (str "Nickname already taken") else
      _ ← modify_ (λ s, with_registry s (set_nickname (registry_ s) fd nickname));
      _ ← view (show_client_registered (rec_id record) nickname);
      user_joined (rec_id record) nickname fd
  end.

(** The loop both relaying handlers use for the broadcast recipient. *)
Definition relay_to_all (fd : Z) (deliver_type : MsgType) (deliver : bytes) : M unit :=
  fds ← registry all_fds;
  for_each fds (λ target_fd,
    if target_fd =? fd then skip else
    target ← registry (λ r, find_by_fd r target_fd);
    match target with
    | None => skip
    | Some target =>
        banned ← is_banned (rec_id target);
        if banned : bool then skip else send target_fd deliver_type deliver
    end).

(** ChatMessageHandler::handle *)
Definition chat_handle (fd : Z) (message : AppMessage) : M unit :=
  chat ← lift (get_alternative (as_chat (msg_payload message)));
  sender ← registry (λ r, find_by_fd r fd);
  match sender with
  | None => skip
  | Some sender =>
      banned ← is_banned (rec_id sender);
      if banned : bool then skip else
      let from_id := rec_id sender in
      label ← registry (λ r, recipient_label r chat);
      to_label ← lift label;
      _ ← view (show_chat from_id to_label (str "Chat"));
      if decide (recipient_tag chat = kRecipientBroadcast) then
        deliver ← lift (encode_deliver from_id (chat_text chat));
        relay_to_all fd Deliver deliver
      else
      target ← registry (λ r, resolve_recipient r chat);
      target_id ← lift target;
      match target_id with
      | None => send_error fd (str "Unknown recipient: " ++ to_label)
      | Some target_id =>
          banned ← is_banned target_id;
          if banned : bool then send_error fd (str "Recipient banned: " ++ to_label) else
          target_fd ← registry (λ r, fd_by_id r target_id);
          match target_fd with
          | None => send_error fd (str "Recipient offline: " ++ to_label)
          | Some target_fd =>
              payload ← lift (encode_deliver from_id (chat_text chat));
              send target_fd Deliver payload
          end
      end
  end.

(** OpaqueUnicastHandler::handle *)
Definition opaque_handle (deliver_type : MsgType) (log_label : bytes)
    (fd : Z) (message : AppMessage) : M unit :=
  chat ← lift (get_alternative (as_chat (msg_payload message)));
  sender ← registry (λ r, find_by_fd r fd);
  match sender with
  | None => skip
  | Some sender =>
      banned ← is_banned (rec_id sender);
      if banned : bool then skip else
      let from_id := rec_id sender in
      label ← registry (λ r, recipient_label r chat);
      to_label ← lift label;
      _ ← view (show_chat from_id to_label log_label);
      if decide (recipient_tag chat = kRecipientBroadcast) then
        deliver ← lift (encode_deliver from_id (chat_text chat));
        relay_to_all fd deliver_type deliver
      else
      target ← registry (λ r, resolve_recipient r chat);
      target_id ← lift target;
      match target_id with
      | None => send_error fd (str "Unknown recipient: " ++ to_label)
      | Some target_id =>
          banned ← is_banned target_id;
          if banned : bool then send_error fd (str "Recipient banned: " ++ to_label) else
          target_fd ← registry (λ r, fd_by_id r target_id);
          match target_fd with
          | None => send_error fd (str "Recipient offline: " ++ to_label)
          | Some target_fd =>
              payload ← lift (encode_deliver from_id (chat_text chat));
              send target_fd deliver_type payload
          end
      end
  end.

Definition list_users_handle (fd : Z) (message : AppMessage) : M unit :=
  users ← registry collect_users;
  payload ← lift (encode_users_list users);
  send fd UsersList payload.

(** ** MessageDispatcher *)

Record IMessageHandler := mkHandler {
  can_handle : MsgType → bool;
  handle : Z → AppMessage → M unit
}.

Definition handles (request_type type : MsgType) : bool := bool_decide (type = request_type).

Definition create_message_dispatcher : list IMessageHandler :=
  [mkHandler (handles Register) register_handle;
   mkHandler (handles Chat) chat_handle;
   mkHandler (handles KeyOffer) (opaque_handle PeerKey (str "KeyOffer"));
   mkHandler (handles RoomKeyOffer) (opaque_handle RoomKey (str "RoomKeyOffer"));
   mkHandler (handles ListUsers) list_users_handle].

Fixpoint dispatch (handlers : list IMessageHandler) (fd : Z) (message : AppMessage) : M unit :=
  match handlers with
  | [] => send_error fd (str "Unsupported message type")
  | h :: handlers =>
      if can_handle h (msg_type message) then handle h fd message
      else dispatch handlers fd message
  end.

End handlers.

(** ** Running the monad *)

Section running.
Context {R : Type} `{IClientRegistry R}.
Implicit Types s : server R.

Lemma bind_registry {A B} (f : R → A) (k : A → SM (server R) B) s :
  (x ← registry f; k x) s = k (f (registry_ s)) s.
Proof. done. Qed.

Lemma bind_is_banned {B} id (k : bool → SM (server R) B) s :
  (b ← is_banned id; k b) s = k (bool_decide (id ∈ banned_ids_ s)) s.
Proof. done. Qed.

Lemma bind_view {B} c (k : unit → SM (server R) B) s :
  (x ← view c; k x) s = k tt (with_effects s [View c]).
Proof. done. Qed.

Lemma bind_modify {B} f (k : unit → SM (server R) B) s : (x ← modify_ f; k x) s = k tt (f s).
Proof. done. Qed.

Lemma bind_lift_ok {A B} (m : outcome A) a (k : A → SM (server R) B) s :
  m = Ok a → (x ← lift m; k x) s = k a s.
Proof. by intros ->. Qed.

Lemma with_effects_nil s : with_effects s [] = s.
Proof. destruct s. unfold with_effects. cbn. by rewrite app_nil_r. Qed.

Lemma with_effects_app s a b : with_effects (with_effects s a) b = with_effects s (a ++ b).
Proof. unfold with_effects. cbn. by rewrite app_assoc. Qed.

(** A loop whose body only emits effects. *)
Lemma for_each_emit {A} (l : list A) (body : A → SM (server R) unit) (g : A → list effect) s :
  (∀ x es, x ∈ l → body x (with_effects s es) = (with_effects s (es ++ g x), Ok tt)) →
  for_each l body s = (with_effects s (concat (g <$> l)), Ok tt).
Proof.
  intros Hb. enough (∀ es, for_each l body (with_effects s es) =
    (with_effects s (es ++ concat (g <$> l)), Ok tt)) as E.
  { rewrite <-(with_effects_nil s) at 1. apply E. }
  revert Hb. induction l as [|x l IH]; intros Hb es; cbn [for_each fmap list_fmap concat].
  { by rewrite app_nil_r. }
  rewrite (SM_bind_ok _ _ _ _ _ (Hb x es ltac:(set_solver))). rewrite IH.
  - by rewrite app_assoc.
  - intros y es' Hy. apply Hb. set_solver.
Qed.

(** One message to each descriptor that satisfies a test. *)
Lemma concat_sends (p : Z → bool) type payload l :
  concat ((λ t, if p t then [Sent t type payload] else []) <$> l) =
  (λ t, Sent t type payload) <$> filter (λ t, p t = true) l.
Proof.
  induction l as [|t l IH]; [done|]. rewrite fmap_cons, filter_cons. cbn [concat].
  rewrite IH. destruct (p t) eqn:E; [by rewrite decide_True|by rewrite decide_False].
Qed.

Lemma broadcast_run type payload except s :
  broadcast type payload except s =
  (with_effects s ((λ t, Sent t type payload) <$>
     filter (λ t, negb (t =? except) = true) (all_fds (registry_ s))), Ok tt).
Proof.
  unfold broadcast. rewrite bind_registry, <-concat_sends. apply for_each_emit.
  intros t es _. unfold when, send, emit, modify_.
  destruct (negb (t =? except)); [by rewrite with_effects_app|by rewrite app_nil_r].
Qed.

(** The descriptors a broadcast message is relayed to. *)
Definition relay_target s (fd t : Z) : bool :=
  negb (t =? fd) &&
  match find_by_fd (registry_ s) t with
  | Some c => negb (bool_decide (rec_id c ∈ banned_ids_ s))
  | None => false
  end.

Lemma relay_to_all_run fd type deliver s :
  relay_to_all fd type deliver s =
  (with_effects s ((λ t, Sent t type deliver) <$>
     filter (λ t, relay_target s fd t = true) (all_fds (registry_ s))), Ok tt).
Proof.
  unfold relay_to_all. rewrite bind_registry, <-concat_sends. apply for_each_emit.
  intros t es _. unfold relay_target. destruct (t =? fd); cbn [negb andb].
  { by rewrite app_nil_r. }
  rewrite bind_registry. cbn [registry_ with_effects].
  destruct (find_by_fd (registry_ s) t) as [c|]; [|by rewrite app_nil_r].
  rewrite bind_is_banned. cbn [banned_ids_ with_effects].
  destruct (bool_decide (rec_id c ∈ banned_ids_ s)); cbn [negb]; [by rewrite app_nil_r|].
  unfold send, emit, modify_. by rewrite with_effects_app.
Qed.

Lemma send_error_run fd text s : wf_string text →
  send_error fd text s = (with_effects s [Sent fd Error (lstr text)], Ok tt).
Proof.
  intros Ht. unfold send_error. erewrite bind_lift_ok; [done|]. by apply encode_string_iff.
Qed.

(** Which request is relayed as which message. *)
Definition relay_type (t : MsgType) : option (MsgType * bytes) :=
  match t with
  | Chat => Some (Deliver, str "Chat")
  | KeyOffer => Some (PeerKey, str "KeyOffer")
  | RoomKeyOffer => Some (RoomKey, str "RoomKeyOffer")
  | _ => None
  end.

Lemma dispatch_relay t dt label fd m : relay_type t = Some (dt, label) → msg_type m = t →
  dispatch create_message_dispatcher fd m = opaque_handle (R:=R) dt label fd m.
Proof. intros Ht <-. destruct m as [[] p]; cbn in Ht; simplify_eq; reflexivity. Qed.

End running.

(** ** What the handlers do *)

Section handler_facts.
Context {R : Type} `{RegistryLaws R}.
Implicit Types s : server R.

(** A client that may send: connected on [fd] and not banned. *)
Definition may_send s (fd : Z) (c : ClientRecord) : Prop :=
  reg_ok (registry_ s) ∧ clients (registry_ s) !! fd = Some c ∧ rec_id c ∉ banned_ids_ s.

Lemma opaque_handle_start s fd sender dt label chat t : may_send s fd sender → wf_chat chat →
  ∃ to_label, recipient_label (registry_ s) chat = Ok to_label ∧
  opaque_handle dt label fd (mkMessage t (PChat chat)) s =
  (if decide (recipient_tag chat = kRecipientBroadcast) then
     deliver ← lift (encode_deliver (rec_id sender) (chat_text chat));
     relay_to_all fd dt deliver
   else
     target ← registry (λ r, resolve_recipient r chat);
     target_id ← lift target;
     match target_id with
     | None => send_error fd (str "Unknown recipient: " ++ to_label)
     | Some target_id =>
         banned ← is_banned target_id;
         if banned : bool then send_error fd (str "Recipient banned: " ++ to_label) else
         target_fd ← registry (λ r, fd_by_id r target_id);
         match target_fd with
         | None => send_error fd (str "Recipient offline: " ++ to_label)
         | Some target_fd =>
             payload ← lift (encode_deliver (rec_id sender) (chat_text chat));
             send target_fd dt payload
         end
     end) (with_effects s [View (show_chat (rec_id sender) to_label label)]).
Proof.
  intros (Hr & Hc & Hb) Hwf. destruct (law_label (registry_ s) chat Hwf) as [l Hl].
  exists l. split; [done|]. unfold opaque_handle. erewrite bind_lift_ok; [|done].
  rewrite bind_registry, law_find, Hc, bind_is_banned, bool_decide_eq_false_2 by done.
  rewrite bind_registry. erewrite bind_lift_ok; [|done]. by rewrite bind_view.
Qed.

(** The payload the server relays: the text with the sender's id in the registry. *)
Definition relayed (sender : ClientRecord) (chat : ChatPayload) : bytes :=
  deliver_bytes (mkDeliver (rec_id sender) (chat_text chat)).

Lemma encode_relayed sender chat : wf_chat chat →
  encode_deliver (rec_id sender) (chat_text chat) = Ok (relayed sender chat).
Proof. intros (_ & _ & Ht). by apply encode_deliver_iff. Qed.

Lemma elem_of_relay_targets s fd t : reg_ok (registry_ s) →
  t ∈ filter (λ t, relay_target s fd t = true) (all_fds (registry_ s)) ↔
  t ≠ fd ∧ ∃ c, clients (registry_ s) !! t = Some c ∧ rec_id c ∉ banned_ids_ s.
Proof.
  intros Hr. rewrite list_elem_of_filter, elem_of_all_fds. unfold relay_target.
  rewrite law_find, andb_true_iff, negb_true_iff, Z.eqb_neq. unfold is_Some.
  destruct (clients (registry_ s) !! t) as [c|]; [|naive_solver].
  rewrite negb_true_iff, bool_decide_eq_false. naive_solver.
Qed.

Lemma relay_broadcast_aux s fd sender t dt label chat :
  relay_type t = Some (dt, label) → may_send s fd sender → wf_chat chat →
  recipient_tag chat = kRecipientBroadcast →
  ∃ to_label targets,
    dispatch create_message_dispatcher fd (mkMessage t (PChat chat)) s =
      (with_effects s (View (show_chat (rec_id sender) to_label label) ::
                       ((λ t, Sent t dt (relayed sender chat)) <$> targets)), Ok tt) ∧
    NoDup targets ∧
    ∀ t, t ∈ targets ↔
      t ≠ fd ∧ ∃ c, clients (registry_ s) !! t = Some c ∧ rec_id c ∉ banned_ids_ s.
Proof.
  intros Ht Hs Hwf Hb. rewrite (dispatch_relay t dt label) by done.
  destruct (opaque_handle_start s fd sender dt label chat t Hs Hwf) as (l & _ & ->).
  rewrite decide_True by done. erewrite bind_lift_ok; [|by apply encode_relayed].
  rewrite relay_to_all_run, with_effects_app. cbn [app].
  change (registry_ (with_effects s _)) with (registry_ s).
  exists l, (filter (λ t, relay_target s fd t = true) (all_fds (registry_ s))).
  split_and!; [done|apply NoDup_filter, NoDup_all_fds|].
  intros t'. apply elem_of_relay_targets, Hs.
Qed.

(** C18. A chat to everyone, and likewise a key offer to everyone, goes to every
    other connected client that is not banned, exactly once each, to nobody else,
    under the id the server gave the sender (the id in the payload is not used),
    with the text unchanged; the registry does not change. *)
Theorem relay_broadcast s fd sender t dt label chat :
  relay_type t = Some (dt, label) → may_send s fd sender → wf_chat chat →
  recipient_tag chat = kRecipientBroadcast →
  ∃ to_label targets,
    dispatch create_message_dispatcher fd (mkMessage t (PChat chat)) s =
      (with_effects s (View (show_chat (rec_id sender) to_label label) ::
                       ((λ t, Sent t dt (relayed sender chat)) <$> targets)), Ok tt) ∧
    NoDup targets ∧
    ∀ t, t ∈ targets ↔
      t ≠ fd ∧ ∃ c, clients (registry_ s) !! t = Some c ∧ rec_id c ∉ banned_ids_ s.
Proof. apply relay_broadcast_aux. Qed.

(** The clients a recipient names. *)
Definition is_addressee (r : Recipient) (c : ClientRecord) : Prop :=
  match r with
  | ToId i => rec_id c = i
  | ToNickname n => n ≠ [] ∧ rec_nickname c = n
  | ToAll => False
  end.

Lemma resolve_addressee s chat r tid : reg_ok (registry_ s) → wf_chat chat →
  addressed_to chat = Some r → r ≠ ToAll →
  ∃ o, resolve_recipient (registry_ s) chat = Ok o ∧
    (o = Some tid ↔ ∃ tfd c, clients (registry_ s) !! tfd = Some c ∧ is_addressee r c ∧ rec_id c = tid).
Proof.
  intros Hr Hwf Ha Hne. pose proof (addressed_to_wf chat r Hwf Ha) as Hx.
  destruct r as [i|n|]; [| |done].
  - destruct Hx as (Ht & Hl & Hi). eexists. split; [by apply law_resolve_id|].
    cbn [is_addressee]. rewrite fmap_Some. split.
    + intros (tfd & Hf & ->). apply law_fd_by_id in Hf as (c & Hc & <-); [|done]. eauto 10.
    + intros (tfd & c & Hc & <- & Hid). exists tfd. split; [|done]. apply law_fd_by_id; eauto.
  - destruct Hx as (Ht & Hd). eexists. split; [by apply law_resolve_nickname|].
    cbn [is_addressee]. rewrite law_id_by_nickname by done. naive_solver.
Qed.

Lemma relay_unicast_aux s fd sender t dt label chat r :
  relay_type t = Some (dt, label) → may_send s fd sender → wf_chat chat →
  addressed_to chat = Some r → r ≠ ToAll →
  ∃ to_label,
    let s' := with_effects s [View (show_chat (rec_id sender) to_label label)] in
    let run := dispatch create_message_dispatcher fd (mkMessage t (PChat chat)) s in
    (∀ tfd c, clients (registry_ s) !! tfd = Some c → is_addressee r c →
       run = if decide (rec_id c ∈ banned_ids_ s)
             then send_error fd (str "Recipient banned: " ++ to_label) s'
             else (with_effects s' [Sent tfd dt (relayed sender chat)], Ok tt)) ∧
    ((∀ tfd c, clients (registry_ s) !! tfd = Some c → ¬ is_addressee r c) →
       run = send_error fd (str "Unknown recipient: " ++ to_label) s').
Proof.
  intros Ht Hs Hwf Ha Hne. rewrite (dispatch_relay t dt label) by done.
  destruct (opaque_handle_start s fd sender dt label chat t Hs Hwf) as (l & _ & ->).
  exists l. cbn zeta. rewrite decide_False; cycle 1.
  { intros Hb. pose proof (addressed_to_wf chat r Hwf Ha) as Hx. rewrite Hb in Hx.
    destruct r; [by destruct Hx..|done]. }
  rewrite bind_registry. change (registry_ (with_effects s _)) with (registry_ s).
  set (s' := with_effects s _). destruct Hs as (Hr & _ & _). split.
  - intros tfd c Hc Hadd. destruct (resolve_addressee s chat r (rec_id c) Hr Hwf Ha Hne) as (o & Eo & Ho).
    erewrite bind_lift_ok by exact Eo. rewrite (proj2 Ho) by eauto.
    rewrite bind_is_banned. change (banned_ids_ s') with (banned_ids_ s).
    case_decide; [by rewrite bool_decide_eq_true_2|]. rewrite bool_decide_eq_false_2 by done.
    rewrite bind_registry. change (registry_ s') with (registry_ s).
    assert (fd_by_id (registry_ s) (rec_id c) = Some tfd) as -> by (apply law_fd_by_id; eauto).
    erewrite bind_lift_ok; [|by apply encode_relayed]. done.
  - intros Hnone. destruct (resolve_addressee s chat r 0 Hr Hwf Ha Hne) as (o & Eo & _).
    erewrite bind_lift_ok by exact Eo. destruct o as [tid|]; [|done].
    destruct (resolve_addressee s chat r tid Hr Hwf Ha Hne) as (o & Eo' & Ho).
    rewrite Eo in Eo'. injection Eo' as <-. destruct (proj1 Ho eq_refl) as (tfd & c & Hc & Hadd & _).
    by destruct (Hnone tfd c Hc).
Qed.

(** C16. A message to one client, by id or by nickname, goes to the connected
    client the recipient names and to nobody else; if that client is banned or
    there is none, the sender gets an error and nothing is relayed.  The branch
    "Recipient offline" is never taken. *)
Theorem relay_unicast s fd sender t dt label chat r :
  relay_type t = Some (dt, label) → may_send s fd sender → wf_chat chat →
  addressed_to chat = Some r → r ≠ ToAll →
  ∃ to_label,
    let s' := with_effects s [View (show_chat (rec_id sender) to_label label)] in
    let run := dispatch create_message_dispatcher fd (mkMessage t (PChat chat)) s in
    (∀ tfd c, clients (registry_ s) !! tfd = Some c → is_addressee r c →
       run = if decide (rec_id c ∈ banned_ids_ s)
             then send_error fd (str "Recipient banned: " ++ to_label) s'
             else (with_effects s' [Sent tfd dt (relayed sender chat)], Ok tt)) ∧
    ((∀ tfd c, clients (registry_ s) !! tfd = Some c → ¬ is_addressee r c) →
       run = send_error fd (str "Unknown recipient: " ++ to_label) s').
Proof. apply relay_unicast_aux. Qed.

(** A message from a descriptor that has no client, or whose client is
    banned, is dropped: it changes nothing and nothing is sent. *)
Theorem relay_refused s fd t dt label chat :
  relay_type t = Some (dt, label) → reg_ok (registry_ s) →
  (∀ c, clients (registry_ s) !! fd = Some c → rec_id c ∈ banned_ids_ s) →
  dispatch create_message_dispatcher fd (mkMessage t (PChat chat)) s = (s, Ok tt).
Proof.
  intros Ht Hr Hb. rewrite (dispatch_relay t dt label) by done.
  unfold opaque_handle. erewrite bind_lift_ok; [|done]. rewrite bind_registry, law_find.
  destruct (clients (registry_ s) !! fd) as [c|]; [|done].
  by rewrite bind_is_banned, bool_decide_eq_true_2 by auto.
Qed.

Lemma register_nickname_aux s fd c n :
  reg_ok (registry_ s) → clients (registry_ s) !! fd = Some c → wf_string n →
  let run := dispatch create_message_dispatcher fd (mkMessage Register (PRegister (mkRegister n))) s in
  let refused text := (with_effects s [Sent fd Error (lstr (str text))], Ok tt) in
  if decide (n = []) then run = refused "Nickname cannot be empty"
  else if decide (n = str "all") then run = refused "Nickname 'all' is reserved"
  else
    (∀ fd' c', clients (registry_ s) !! fd' = Some c' → rec_nickname c' = n → fd' ≠ fd →
       run = refused "Nickname already taken") ∧
    ((∀ fd' c', clients (registry_ s) !! fd' = Some c' → rec_nickname c' = n → fd' = fd) →
     ∃ r' others,
       run = (with_effects (with_registry s r')
                (View (show_client_registered (rec_id c) n) ::
                 ((λ t, Sent t UserJoined (user_bytes (mkUserInfo (rec_id c) n))) <$> others)), Ok tt) ∧
       reg_ok r' ∧ clients r' = <[fd := named c n]> (clients (registry_ s)) ∧
       id_by_nickname r' n = Some (rec_id c) ∧
       NoDup others ∧ ∀ t, t ∈ others ↔ t ≠ fd ∧ is_Some (clients (registry_ s) !! t)).
Proof.
  intros Hr Hc Hn. cbn zeta.
  change (dispatch create_message_dispatcher fd _) with
    (register_handle (R:=R) fd (mkMessage Register (PRegister (mkRegister n)))).
  unfold register_handle.
  erewrite bind_lift_ok; [|done]. cbn [reg_nickname]. rewrite bind_registry, law_find, Hc.
  case_decide as H1; [apply send_error_run; unfold wf_string; cbn; lia|].
  unfold kBroadcastRecipient. case_decide as H2; [apply send_error_run; unfold wf_string; cbn; lia|].
  rewrite bind_registry. split.
  - intros fd' c' Hc' Hn' Hne.
    assert (nickname_taken_by_other (registry_ s) n (rec_id c) = true) as ->.
    { apply law_taken. exists (rec_id c'). split; [apply law_id_by_nickname; eauto 10|].
      intros He. apply Hne. eapply ids_unique; eauto. }
    apply send_error_run. unfold wf_string; cbn; lia.
  - intros Hfree. assert (nickname_taken_by_other (registry_ s) n (rec_id c) = false) as Hf.
    { apply not_true_is_false. intros (j & Hj & Hne)%law_taken.
      apply law_id_by_nickname in Hj as (_ & fd' & c' & Hc' & Hn' & <-); [|done].
      rewrite (Hfree fd' c') in Hc' by done. congruence. }
    rewrite Hf, bind_modify, bind_view. destruct (law_set_nickname _ _ _ _ Hr Hc H1 Hf) as [Hr' Hcl].
    unfold user_joined. erewrite bind_lift_ok; [|by apply encode_user_info_iff].
    rewrite broadcast_run, with_effects_app. cbn [app].
    set (r' := set_nickname (registry_ s) fd n) in *.
    exists r', (filter (λ t, negb (t =? fd) = true) (all_fds r')).
    split_and!; [done..| |apply NoDup_filter, NoDup_all_fds|].
    + apply law_id_by_nickname; [done|]. split; [done|]. exists fd, (named c n).
      by rewrite Hcl, lookup_insert_eq.
    + intros t. rewrite list_elem_of_filter, elem_of_all_fds, Hcl, negb_true_iff, Z.eqb_neq.
      rewrite lookup_insert. case_decide; naive_solver.
Qed.

(** C37. Registration.  An empty nickname, the reserved nickname [all] and the
    nickname of another client are refused with an error to the client and the
    registry is left alone; any other nickname is set, under it the client can be
    found, and every other client is told, once. *)
Theorem register_nickname s fd c n :
  reg_ok (registry_ s) → clients (registry_ s) !! fd = Some c → wf_string n →
  let run := dispatch create_message_dispatcher fd (mkMessage Register (PRegister (mkRegister n))) s in
  let refused text := (with_effects s [Sent fd Error (lstr (str text))], Ok tt) in
  if decide (n = []) then run = refused "Nickname cannot be empty"
  else if decide (n = str "all") then run = refused "Nickname 'all' is reserved"
  else
    (∀ fd' c', clients (registry_ s) !! fd' = Some c' → rec_nickname c' = n → fd' ≠ fd →
       run = refused "Nickname already taken") ∧
    ((∀ fd' c', clients (registry_ s) !! fd' = Some c' → rec_nickname c' = n → fd' = fd) →
     ∃ r' others,
       run = (with_effects (with_registry s r')
                (View (show_client_registered (rec_id c) n) ::
                 ((λ t, Sent t UserJoined (user_bytes (mkUserInfo (rec_id c) n))) <$> others)), Ok tt) ∧
       reg_ok r' ∧ clients r' = <[fd := named c n]> (clients (registry_ s)) ∧
       id_by_nickname r' n = Some (rec_id c) ∧
       NoDup others ∧ ∀ t, t ∈ others ↔ t ≠ fd ∧ is_Some (clients (registry_ s) !! t)).
Proof. apply register_nickname_aux. Qed.

End handler_facts.

(** ** A small server: clients 1, 2 and 3 on descriptors 5, 6 and 7, client 2
    called [bob], client 3 banned. *)

Definition demo_ops : list reg_op :=
  [OpAdd 5 1; OpAdd 6 2; OpAdd 7 3; OpSetNickname 6 (str "bob")].

Definition demo : server ClientRegistry :=
  mkServer (foldl reg_step empty_registry demo_ops) 4 ∅ {[3]} [] true true [].

Lemma demo_ok : reg_ok (registry_ demo).
Proof.
  apply (reg_run_refines demo_ops empty_registry reg_inv_empty).
  apply (bool_decide_unpack _). vm_compute. exact I.
Qed.

Lemma demo_may_send : may_send demo 5 (mkRecord 5 1 [] false).
Proof. split_and!; [apply demo_ok|reflexivity|]. apply (bool_decide_unpack _). vm_compute. exact I. Qed.

Definition demo_chat (tag : byte) (data : bytes) : ChatPayload := mkChat 99 tag data (str "hi").

Lemma demo_chat_wf : wf_chat (demo_chat kRecipientBroadcast []) ∧
  wf_chat (demo_chat kRecipientByNickname (lstr (str "bob"))).
Proof.
  split; (split; [cbn; unfold is_u32; lia|split; [|unfold wf_string; cbn; lia]]).
  - right; right. done.
  - right; left. split; [done|]. exists (str "bob"). split; [unfold wf_string; cbn; lia|done].
Qed.

Lemma relay_broadcast_witness :
  ∃ to_label targets,
    dispatch create_message_dispatcher 5
      (mkMessage Chat (PChat (demo_chat kRecipientBroadcast []))) demo =
      (with_effects demo (View (show_chat 1 to_label (str "Chat")) ::
         ((λ t, Sent t Deliver (deliver_bytes (mkDeliver 1 (str "hi")))) <$> targets)), Ok tt) ∧
    NoDup targets ∧
    ∀ t, t ∈ targets ↔ t ≠ 5 ∧ ∃ c, clients (registry_ demo) !! t = Some c ∧ rec_id c ∉ banned_ids_ demo.
Proof.
  exact (relay_broadcast demo 5 (mkRecord 5 1 [] false) Chat Deliver (str "Chat")
    (demo_chat kRecipientBroadcast []) eq_refl demo_may_send (proj1 demo_chat_wf) eq_refl).
Defined.

Lemma relay_unicast_witness : ∃ to_label,
  dispatch create_message_dispatcher 5
    (mkMessage KeyOffer (PChat (demo_chat kRecipientByNickname (lstr (str "bob"))))) demo =
  (with_effects (with_effects demo [View (show_chat 1 to_label (str "KeyOffer"))])
     [Sent 6 PeerKey (deliver_bytes (mkDeliver 1 (str "hi")))], Ok tt).
Proof.
  destruct (relay_unicast demo 5 (mkRecord 5 1 [] false) KeyOffer PeerKey (str "KeyOffer")
    (demo_chat kRecipientByNickname (lstr (str "bob"))) (ToNickname (str "bob"))
    eq_refl demo_may_send (proj2 demo_chat_wf)) as (l & Hrun & _).
  - vm_compute. reflexivity.
  - discriminate.
  - exists l. rewrite (Hrun 6 (mkRecord 6 2 (str "bob") true)).
    + reflexivity.
    + vm_compute. reflexivity.
    + split; [discriminate|reflexivity].
Defined.

Lemma relay_refused_witness :
  dispatch create_message_dispatcher 7
    (mkMessage Chat (PChat (demo_chat kRecipientBroadcast []))) demo = (demo, Ok tt).
Proof.
  apply (relay_refused demo 7 Chat Deliver (str "Chat")); [reflexivity|exact demo_ok|].
  intros c Hc. vm_compute in Hc. injection Hc as <-. apply (bool_decide_unpack _). vm_compute. exact I.
Defined.

Lemma register_nickname_witness :
  dispatch create_message_dispatcher 5 (mkMessage Register (PRegister (mkRegister (str "bob")))) demo =
  (with_effects demo [Sent 5 Error (lstr (str "Nickname already taken"))], Ok tt).
Proof.
  destruct (register_nickname demo 5 (mkRecord 5 1 [] false) (str "bob")) as [Htaken _].
  - exact demo_ok.
  - vm_compute. reflexivity.
  - unfold wf_string. cbn. lia.
  - apply (Htaken 6 (mkRecord 6 2 (str "bob") true)); [vm_compute; reflexivity|reflexivity|discriminate].
Defined.

End server.
