(* ===== verification/ServerViewModel.v ===== *)
(** * The server's event loop: server/viewmodel/ServerViewModel.cpp

    Client ids, bans, accepting and removing clients, one turn of the poll loop
    and the loop as a step relation.  What the operating system answers is an
    argument: the result of [accept], what [transport_->receive] gives for a
    descriptor ([outcome (option AppMessage)], see Transport), and for a turn of
    the loop the result of [poll].  [request_stop] is called from a signal
    handler; a turn allows it while the loop is blocked in [poll] and before every
    entry that it looks at (which includes while it is blocked in [receive]), and the
    step relation between turns. *)
From S2P Require Import Prelude.
From S2P Require Import ModbusTcp.
From S2P Require Import Protocol.
From S2P Require Import CppString.
From S2P Require Import ClientRegistry.
From S2P Require Import AdminCommandParser.
From S2P Require Import ServerHandlers.

Module server_viewmodel.
Import protocol server_model server.

Section viewmodel.
Context {R : Type} `{IClientRegistry R}.
Abbreviation M := (SM (server R)).

Definition kFirstClientId : Z := 1.

Definition with_ids (s : server R) (next : Z) (free : gset Z) : server R :=
  mkServer (registry_ s) next free (banned_ids_ s) (admin_queue_ s) (running_ s) (listening_ s)
           (effects s).
Definition with_bans (s : server R) (free banned : gset Z) : server R :=
  mkServer (registry_ s) (next_id_ s) free banned (admin_queue_ s) (running_ s) (listening_ s)
           (effects s).
Definition with_queue (s : server R) (queue : list bytes) : server R :=
  mkServer (registry_ s) (next_id_ s) (free_ids_ s) (banned_ids_ s) queue (running_ s) (listening_ s)
           (effects s).
Definition stopped (s : server R) : server R :=
  mkServer (registry_ s) (next_id_ s) (free_ids_ s) (banned_ids_ s) (admin_queue_ s) false false
           (effects s).

(** A server that has just been constructed. *)
Definition initial (r : R) : server R := mkServer r kFirstClientId ∅ ∅ [] true false [].

(** ** Stopping *)

Definition request_stop : M unit :=
  _ ← modify_ stopped;
  fds ← registry all_fds;
  for_each fds (λ fd, emit (Shutdown fd)).

Definition submit_admin_line (line : bytes) : M unit :=
  modify_ (λ s, with_queue s (admin_queue_ s ++ [line])).

(** ** Ids *)

(** The first loop of [allocate_client_id], over the free ids in ascending
    order: the id found, if any, and the ids that are still free. *)
Fixpoint take_free (ids : list Z) (banned free : gset Z) : option Z * gset Z :=
  match ids with
  | [] => (None, free)
  | id :: ids =>
      let free := free ∖ {[id]} in
      if decide (id ∈ banned) then take_free ids banned free else (Some id, free)
  end.

(** [while (is_banned(next_id_)) ++next_id_;], [next_id_] being 32 bits wide. *)
Fixpoint skip_banned (fuel : nat) (banned : gset Z) (next : Z) : option Z :=
  match fuel with
  | O => None
  | S fuel => if decide (next ∈ banned) then skip_banned fuel banned (to_u32 (next + 1)) else Some next
  end.

(** The elements of a [std::set<uint32_t>] from [begin()] to [end()]. *)
Definition ascending (ids : gset Z) : list Z := merge_sort Z.le (elements ids).

(** The id and the new values of [next_id_] and [free_ids_]; [None] is a loop
    that does not end. *)
Definition allocate (next : Z) (free banned : gset Z) : option (Z * Z * gset Z) :=
  match take_free (ascending free) banned free with
  | (Some id, free') => Some (id, next, free')
  | (None, free') =>
      id ← skip_banned (S (size banned)) banned next;
      Some (id, to_u32 (id + 1), free')
  end.

Definition allocate_client_id : M Z := λ s,
  match allocate (next_id_ s) (free_ids_ s) (banned_ids_ s) with
  | Some (id, next, free) => (with_ids s next free, Ok id)
  | None => (s, UB)
  end.

Definition release_client_id (id : Z) : M unit :=
  banned ← is_banned id;
  if banned : bool then skip else modify_ (λ s, with_ids s (next_id_ s) ({[id]} ∪ free_ids_ s)).

(** ** Bans *)

Definition broadcast_banned_ids (ids : list Z) : M unit :=
  payload ← lift (encode_banned_ids ids);
  fds ← registry all_fds;
  for_each fds (λ fd,
    client ← registry (λ r, find_by_fd r fd);
    match client with
    | None => skip
    | Some client =>
        banned ← is_banned (rec_id client);
        if banned : bool then skip else send fd BannedIds payload
    end).

(** The first loop of [ban_ids]: the ids banned by it, in order. *)
Fixpoint ban_each (ids newly_banned : list Z) : M (list Z) :=
  match ids with
  | [] => mret newly_banned
  | id :: ids =>
      if id =? 0 then ban_each ids newly_banned else
      known ← is_banned id;
      _ ← modify_ (λ s, with_bans s (free_ids_ s ∖ {[id]}) ({[id]} ∪ banned_ids_ s));
      ban_each ids (if known : bool then newly_banned else newly_banned ++ [id])
  end.

Definition ban_ids (ids : list Z) : M unit :=
  newly_banned ← ban_each ids [];
  if decide (newly_banned = []) then view (show_admin_message (str "no new ids banned")) else
  _ ← broadcast_banned_ids newly_banned;
  _ ← for_each newly_banned (λ id,
        fd ← registry (λ r, fd_by_id r id);
        match fd with None => skip | Some fd => emit (Shutdown fd) end);
  view (show_admin_message (str "banned ids=" ++ server_admin.join_ids newly_banned)).

(** The body of the loop over the queued lines. *)
Definition console_line (line : bytes) : M unit :=
  match server_admin.parse_admin_command line with
  | None => view (show_admin_message server_admin.admin_help_text)
  | Some command => ban_ids (server_admin.ids command)
  end.

Definition process_admin_queue : M unit :=
  lines ← get_ admin_queue_;
  _ ← modify_ (λ s, with_queue s []);
  for_each lines console_line.

(** ** Clients *)

Record pollfd := mkPollfd {
  pfd_fd : Z;
  pfd_hup : bool;   (* revents & (POLLERR | POLLHUP | POLLNVAL) *)
  pfd_in : bool     (* revents & POLLIN *)
}.

Definition closed_pollfd (p : pollfd) : pollfd := mkPollfd (-1) (pfd_hup p) (pfd_in p).

Definition registry_add (fd id : Z) : M ClientRecord := λ s,
  let '(r, record) := add (registry_ s) fd id in (with_registry s r, Ok record).
Definition registry_remove (fd : Z) : M (option ClientRecord) := λ s,
  let '(r, record) := remove (registry_ s) fd in (with_registry s r, Ok record).

(** [acc] is what [listen_socket_->accept()] returns, and [strerror(errno)] when
    it fails.  Returns the entries pushed to [pollfds]. *)
Definition accept_client (acc : Z * bytes) : M (list pollfd) :=
  let '(client_fd, error) := acc in
  if client_fd <? 0 then _ ← view (show_accept_failed error); mret [] else
  fds ← registry all_fds;
  let create_room := bool_decide (fds = []) in
  id ← allocate_client_id;
  record ← registry_add client_fd id;
  _ ← view (show_client_connected (rec_id record));
  _ ← send client_fd AssignId (encode_assign_id (rec_id record) create_room);
  _ ← user_joined (rec_id record) [] client_fd;
  mret [mkPollfd client_fd false false].

Definition remove_client (fd : Z) : M unit :=
  record ← registry_remove fd;
  match record with
  | None => skip
  | Some record =>
      _ ← view (show_client_disconnected (rec_id record) (rec_nickname record));
      _ ← release_client_id (rec_id record);
      _ ← emit (Closed fd);
      user_left (rec_id record) (rec_nickname record)
  end.

(** [rx] is what [transport_->receive(fd)] returns or throws. *)
Definition handle_client_data (fd : Z) (rx : outcome (option AppMessage)) : M unit :=
  try_catch
    (sender ← registry (λ r, find_by_fd r fd);
     banned ← match sender with
              | None => mret false
              | Some sender => is_banned (rec_id sender)
              end;
     if banned : bool then remove_client fd else
     message ← lift rx;
     match message with
     | None => running ← get_ running_; when running (remove_client fd)
     | Some message => dispatch create_message_dispatcher fd message
     end)
    (λ ex, _ ← view (show_decode_error (what ex)); send_error fd (what ex)).

Definition disconnect_all_clients : M unit :=
  fds ← registry all_fds;
  for_each fds (λ fd,
    record ← registry_remove fd;
    match record with
    | None => skip
    | Some record =>
        _ ← view (show_client_disconnected (rec_id record) (rec_nickname record));
        _ ← release_client_id (rec_id record);
        _ ← emit (Shutdown fd);
        emit (Closed fd)
    end).

(** ** The loop *)

(** What the outside does during one turn: the result of [poll] (negative, zero
    or positive), whether [errno] is [EINTR], the events it reports for each
    entry, whether [request_stop] comes in while it waits, before the entry [i] of
    the first and of the second [for] loop ([i] one past the last: at the loop's
    end), and what the accept or the receive made for each entry give. *)
Record turn := mkTurn {
  poll_ready : Z;
  poll_eintr : bool;
  poll_events : nat → bool * bool;
  stop_in_poll : bool;
  hup_stop : nat → bool;
  in_stop : nat → bool;
  turn_accept : nat → Z * bytes;
  turn_receive : nat → outcome (option AppMessage)
}.

Definition poll_results (t : turn) (pollfds : list pollfd) : list pollfd :=
  imap (λ i p, mkPollfd (pfd_fd p) (poll_events t i).1 (poll_events t i).2) pollfds.

(** The first [for] loop, over the entries after the listening socket. *)
Fixpoint hup_loop (t : turn) (i : nat) (pollfds : list pollfd) : M (list pollfd) :=
  _ ← when (hup_stop t i) request_stop;
  match pollfds with
  | [] => mret []
  | p :: pollfds =>
      p ← (if pfd_hup p then
             running ← get_ running_;
             _ ← when running (remove_client (pfd_fd p));
             mret (closed_pollfd p)
           else mret p);
      rest ← hup_loop t (S i) pollfds;
      mret (p :: rest)
  end.

(** The second [for] loop: entries [visited] have been handled, entry [i] is the
    first of [todo]; an accepted client is appended to the entries that are still
    to be visited. *)
Fixpoint in_loop (fuel : nat) (listen_fd : Z) (t : turn) (i : nat) (visited todo : list pollfd)
    : M (list pollfd) :=
  match fuel with
  | O => lift UB
  | S fuel =>
      _ ← when (in_stop t i) request_stop;
      match todo with
      | [] => mret visited
      | p :: todo =>
          if (pfd_fd p <? 0) || negb (pfd_in p)
          then in_loop fuel listen_fd t (S i) (visited ++ [p]) todo else
          listening ← get_ listening_;
          if pfd_fd p =? (if listening : bool then listen_fd else -1) then
            pushed ← accept_client (turn_accept t i);
            in_loop fuel listen_fd t (S i) (visited ++ [p]) (todo ++ pushed)
          else
            _ ← handle_client_data (pfd_fd p) (turn_receive t i);
            client ← registry (λ r, find_by_fd r (pfd_fd p));
            let p := match client with None => closed_pollfd p | Some _ => p end in
            in_loop fuel listen_fd t (S i) (visited ++ [p]) todo
      end
  end.

Definition in_loop_fuel (pollfds : list pollfd) : nat := (2 * length pollfds + 1)%nat.

(** One turn of [while (running_)]: the entries for the next turn, or [None] for
    a [break]. *)
Definition loop_turn (listen_fd : Z) (t : turn) (pollfds : list pollfd) : M (option (list pollfd)) :=
  _ ← process_admin_queue;
  _ ← when (stop_in_poll t) request_stop;
  if poll_ready t <? 0 then
    if poll_eintr t then mret (Some pollfds) else
    running ← get_ running_;
    if negb running then mret None else throw (runtime_error (str "poll failed"))
  else
  let pollfds := poll_results t pollfds in
  if poll_ready t =? 0 then mret (Some pollfds) else
  pollfds ← match pollfds with
            | [] => mret []
            | p :: rest => rest ← hup_loop t 1 rest; mret (p :: rest)
            end;
  running ← get_ running_;
  if negb running then mret None else
  pollfds ← in_loop (in_loop_fuel pollfds) listen_fd t 0 [] pollfds;
  mret (Some (filter (λ p, ¬ pfd_fd p < 0) pollfds)).

(** [run] up to the loop: the socket is open and listening on [listen_fd]. *)
Definition start (listen_fd : Z) (bind_ip : bytes) (port : Z) : M (list pollfd) :=
  _ ← modify_ (λ s, mkServer (registry_ s) (next_id_ s) (free_ids_ s) (banned_ids_ s) (admin_queue_ s)
                             (running_ s) true (effects s));
  _ ← view (show_listening bind_ip port);
  mret [mkPollfd listen_fd false false].

End viewmodel.

(** ** Ids *)

Lemma ascending_perm ids : ascending ids ≡ₚ elements ids.
Proof. apply merge_sort_Permutation. Qed.

Lemma elem_of_ascending i ids : i ∈ ascending ids ↔ i ∈ ids.
Proof. by rewrite ascending_perm, elem_of_elements. Qed.

Lemma ascending_head i l ids : ascending ids = i :: l → i ∈ ids ∧ ∀ j, j ∈ ids → i <= j.
Proof.
  intros E. assert (StronglySorted Z.le (i :: l)) as Hs.
  { rewrite <-E. apply StronglySorted_merge_sort; apply _. }
  apply StronglySorted_inv in Hs as [_ Hall]. rewrite Forall_forall in Hall.
  assert (∀ j, j ∈ ids ↔ j = i ∨ j ∈ l) as Hj.
  { intros j. rewrite <-elem_of_ascending, E. apply elem_of_cons. }
  split; [apply Hj; by left|]. intros j [->|Hin]%Hj; [done|by apply Hall].
Qed.

(** No free id is banned: the first loop takes the least free id. *)
Lemma take_free_spec banned free : (∀ i, i ∈ free → i ∉ banned) →
  (free = ∅ ∧ take_free (ascending free) banned free = (None, ∅)) ∨
  (∃ i, i ∈ free ∧ (∀ j, j ∈ free → i <= j) ∧
        take_free (ascending free) banned free = (Some i, free ∖ {[i]})).
Proof.
  intros Hfree. destruct (ascending free) as [|i l] eqn:E.
  - left. assert (free = ∅) as ->; [|done]. apply set_eq. intros j.
    rewrite <-elem_of_ascending, E. set_solver.
  - right. destruct (ascending_head _ _ _ E) as [Hi Hmin]. exists i. split_and!; [done..|].
    cbn. by rewrite decide_False by auto.
Qed.

(** The ids at or above a given one. *)
Abbreviation above next banned := (filter (λ i, next <= i) banned : gset Z).

Lemma above_succ next banned : next ∈ banned → (size (above (next + 1) banned) < size (above next banned))%nat.
Proof.
  intros Hn. apply subset_size. split.
  - intros i. rewrite !elem_of_filter. intros [? ?]. split; [lia|done].
  - intros Hsub. assert (next ∈ above (next + 1) banned) as Hin by (apply Hsub, elem_of_filter; split; [lia|done]).
    apply elem_of_filter in Hin. lia.
Qed.

(** The second loop ends: it stops at the first id at or above [next_id_] that is
    not banned or, when there is none, wraps around and stops at 0. *)
Lemma skip_banned_spec fuel banned next : is_u32 next → (∀ i, i ∈ banned → 1 <= i < 4294967296) →
  (size (above next banned) < fuel)%nat →
  ∃ id, skip_banned fuel banned next = Some id ∧ id ∉ banned ∧ is_u32 id ∧
    ((next <= id ∧ ∀ j, next <= j < id → j ∈ banned) ∨
     (id = 0 ∧ ∀ j, next <= j < 4294967296 → j ∈ banned)).
Proof.
  revert next. induction fuel as [|fuel IH]; intros next Hn Hb Hf; [lia|].
  cbn [skip_banned]. case_decide as Hin; cycle 1.
  { exists next. split_and!; [done..|]. left. split; [lia|]. intros j. lia. }
  pose proof (above_succ next banned Hin) as Hlt. unfold is_u32 in Hn.
  destruct (decide (next = 4294967295)) as [->|Hne].
  - destruct fuel as [|fuel].
    + assert (size (above 4294967295 banned) = 0)%nat as Hz by lia.
      apply size_empty_inv in Hz. assert (4294967295 ∈ above 4294967295 banned) as Hx
        by (apply elem_of_filter; split; [lia|done]). set_solver.
    + change (to_u32 (4294967295 + 1)) with 0. cbn [skip_banned].
      rewrite decide_False by (intros H0; apply Hb in H0; lia). exists 0.
      split_and!; [done|intros H0; apply Hb in H0; lia|unfold is_u32; lia|].
      right. split; [done|]. intros j Hj. by replace j with 4294967295 by lia.
  - rewrite to_u32_small by (unfold is_u32; lia).
    destruct (IH (next + 1)) as (id & E & Hnb & Hu & Hcase); [unfold is_u32; lia|done|lia|].
    exists id. split_and!; [done..|]. destruct Hcase as [[Hle Hj]|[-> Hj]]; [left|right].
    + split; [lia|]. intros j Hjr. destruct (decide (j = next)) as [->|]; [done|]. apply Hj. lia.
    + split; [done|]. intros j Hjr. destruct (decide (j = next)) as [->|]; [done|]. apply Hj. lia.
Qed.

Lemma above_size next banned : (size (above next banned) < S (size banned))%nat.
Proof. apply le_n_S, subseteq_size. intros i. by rewrite elem_of_filter; intros [? ?]. Qed.

Lemma allocate_spec_aux next free banned :
  is_u32 next → (∀ i, i ∈ free → i ∉ banned) → (∀ i, i ∈ banned → 1 <= i < 4294967296) →
  ∃ id next' free', allocate next free banned = Some (id, next', free') ∧ id ∉ banned ∧
    ((id ∈ free ∧ (∀ j, j ∈ free → id <= j) ∧ next' = next ∧ free' = free ∖ {[id]}) ∨
     (free = ∅ ∧ free' = ∅ ∧ next' = to_u32 (id + 1) ∧
      ((next <= id < 4294967296 ∧ ∀ j, next <= j < id → j ∈ banned) ∨
       (id = 0 ∧ ∀ j, next <= j < 4294967296 → j ∈ banned)))).
Proof.
  intros Hn Hfree Hb. unfold allocate.
  destruct (take_free_spec banned free Hfree) as [[-> ->]|(i & Hi & Hmin & ->)].
  - destruct (skip_banned_spec (S (size banned)) banned next Hn Hb (above_size _ _))
      as (id & -> & Hnb & Hu & Hcase). cbn [mbind option_bind].
    do 3 eexists. split; [done|]. split; [done|]. right. unfold is_u32 in *.
    split_and!; [done..|]. destruct Hcase as [[? ?]|?]; [left|by right]. split; [lia|done].
  - do 3 eexists. split; [done|]. split; [by apply Hfree|]. left. done.
Qed.

(** Allocating an id always ends, the fuel of the model being enough, and
    never gives a banned id: the least free id if there is one, otherwise the
    first id from [next_id_] on that is not banned (or 0 after a wrap-around,
    when no such 32-bit id is left). *)
Theorem allocate_spec next free banned :
  is_u32 next → (∀ i, i ∈ free → i ∉ banned) → (∀ i, i ∈ banned → 1 <= i < 4294967296) →
  ∃ id next' free', allocate next free banned = Some (id, next', free') ∧ id ∉ banned ∧
    ((id ∈ free ∧ (∀ j, j ∈ free → id <= j) ∧ next' = next ∧ free' = free ∖ {[id]}) ∨
     (free = ∅ ∧ free' = ∅ ∧ next' = to_u32 (id + 1) ∧
      ((next <= id < 4294967296 ∧ ∀ j, next <= j < id → j ∈ banned) ∨
       (id = 0 ∧ ∀ j, next <= j < 4294967296 → j ∈ banned)))).
Proof. apply allocate_spec_aux. Qed.

Lemma allocate_spec_witness : ∃ id next' free',
  allocate 1 ∅ {[1; 2]} = Some (id, next', free') ∧ id ∉ ({[1; 2]} : gset Z).
Proof.
  destruct (allocate_spec 1 ∅ {[1; 2]}) as (id & n & f & E & Hnb & _).
  - unfold is_u32. lia.
  - intros i Hi. exfalso. revert Hi. apply not_elem_of_empty.
  - intros i Hi. rewrite elem_of_union, !elem_of_singleton in Hi. lia.
  - exists id, n, f. split; [exact E|exact Hnb].
Defined.

End server_viewmodel.
