(* ===== verification/ServerLoop.v ===== *)
(** * The server as a whole: what every operation of ServerViewModel keeps

    [srv_inv] is the invariant of the server's state.  It is kept by every
    handler, by accepting and removing clients, by bans and by a turn of the poll
    loop; [server_step] is the loop with what the rest of the process does to it
    between two turns, and [server_reachable] what holds in every state it can
    reach.  The results of [transport_->receive] are assumed to be as Transport
    proves them ([rx_ok]). *)
From S2P Require Import Prelude.
From S2P Require Import ModbusTcp.
From S2P Require Import Protocol.
From S2P Require Import Transport.
From S2P Require Import CppString.
From S2P Require Import ClientRegistry.
From S2P Require Import AdminCommandParser.
From S2P Require Import ServerHandlers.
From S2P Require Import ServerViewModel.

Module server_loop.
Import protocol ModbusMessageTransport server_model server server_viewmodel.

(** A queued line bans at most as many ids as one BannedIds message can hold. *)
Definition line_ok (line : bytes) : Prop :=
  match server_admin.parse_admin_command line with
  | Some command => size_t (server_admin.ids command) <= 65535
  | None => True
  end.

Section facts.
Context {R : Type} `{RegistryLaws R}.
Implicit Types s : server R.

(** What is known of a client in the registry. *)
Definition client_ok (next fd : Z) (c : ClientRecord) : Prop :=
  0 <= fd ∧ 1 <= rec_id c < next ∧ wf_string (rec_nickname c) ∧ rec_nickname c ≠ kBroadcastRecipient.

Record srv_inv s : Prop := {
  si_reg : reg_ok (registry_ s);
  si_next : 1 <= next_id_ s < 4294967296;
  si_client : map_Forall (client_ok (next_id_ s)) (clients (registry_ s));
  si_free i : i ∈ free_ids_ s → 1 <= i < next_id_ s ∧ i ∉ banned_ids_ s ∧
    map_Forall (λ _ c, rec_id c ≠ i) (clients (registry_ s));
  si_banned i : i ∈ banned_ids_ s → 1 <= i < 4294967296;
  si_queue : Forall line_ok (admin_queue_ s)
}.

(** ** The handlers

    Parametrised by any property [P] of the state that contains the invariant,
    does not look at the effects and survives a change of nickname. *)

Lemma srv_inv_effects s es : srv_inv s → srv_inv (with_effects s es).
Proof. by intros []. Qed.

Lemma clients_nickname_inv s fd c n : srv_inv s → clients (registry_ s) !! fd = Some c →
  n ≠ [] → n ≠ kBroadcastRecipient → wf_string n →
  nickname_taken_by_other (registry_ s) n (rec_id c) = false →
  srv_inv (with_registry s (set_nickname (registry_ s) fd n)).
Proof.
  intros [Hr Hn Hc Hf Hb Hq] Hcl Hne Hall Hwf Ht.
  destruct (law_set_nickname _ _ _ _ Hr Hcl Hne Ht) as [Hr' E].
  pose proof (Hc _ _ Hcl) as (Hfd & Hid & _).
  split; cbn [with_registry registry_ next_id_ free_ids_ banned_ids_ admin_queue_]; try done.
  - rewrite E. apply map_Forall_insert_2; [|done]. split_and!; cbn [named rec_id rec_nickname]; lia || done.
  - intros i (Hi & Hnb & Hu)%Hf. split_and!; [lia|lia|done|]. rewrite E.
    apply map_Forall_insert_2; [|done]. exact (Hu _ _ Hcl).
Qed.

Section handlers.
Context (P : server R → Prop).
Hypothesis P_inv : ∀ s, P s → srv_inv s.
Hypothesis P_effects : ∀ s es, P s → P (with_effects s es).
Hypothesis P_nickname : ∀ s fd c n, P s → clients (registry_ s) !! fd = Some c →
  n ≠ [] → n ≠ kBroadcastRecipient → wf_string n →
  nickname_taken_by_other (registry_ s) n (rec_id c) = false →
  P (with_registry s (set_nickname (registry_ s) fd n)).

Lemma emit_total e : total P (emit (R:=R) e).
Proof. intros s Hs. split; [by apply P_effects|by eexists]. Qed.

Lemma broadcast_total type payload except : total P (broadcast (R:=R) type payload except).
Proof. intros s Hs. rewrite broadcast_run. split; [by apply P_effects|by eexists]. Qed.

Lemma relay_to_all_safe fd type deliver : safe P (relay_to_all (R:=R) fd type deliver).
Proof. intros s Hs. rewrite relay_to_all_run. split; [by apply P_effects|done]. Qed.

Lemma view_total c : total P (view (R:=R) c).
Proof. apply emit_total. Qed.

Lemma send_total fd type payload : total P (send (R:=R) fd type payload).
Proof. apply emit_total. Qed.

#[local] Hint Resolve emit_total view_total send_total broadcast_total relay_to_all_safe : chat.

Lemma send_error_safe fd text : safe P (send_error (R:=R) fd text).
Proof. apply safe_bind; [apply safe_lift, encode_string_safe|]. intros p. auto with chat. Qed.

Lemma send_error_total fd text : wf_string text → total P (send_error (R:=R) fd text).
Proof.
  intros Ht s Hs. rewrite send_error_run by done. split; [by apply P_effects|by eexists].
Qed.

Lemma user_joined_safe id n fd : safe P (user_joined (R:=R) id n fd).
Proof. apply safe_bind; [apply safe_lift, encode_user_info_safe|]. intros p. auto with chat. Qed.

Lemma user_left_total id n : wf_string n → total P (user_left (R:=R) id n).
Proof.
  intros Hn s Hs. unfold user_left. erewrite bind_lift_ok; [|by apply encode_user_info_iff].
  by apply broadcast_total.
Qed.

#[local] Hint Resolve send_error_safe send_error_total user_joined_safe user_left_total : chat.

Lemma register_handle_safe fd m : wf_message m → msg_type m = Register →
  safe P (register_handle (R:=R) fd m).
Proof.
  intros Hwf Ht s Hs. destruct m as [t p]. cbn in Ht. subst t.
  unfold wf_message in Hwf. cbn [msg_type msg_payload wf_payload] in Hwf.
  destruct p as [[n]| | | | | | | | |]; cbn in Hwf; try done.
  unfold register_handle. erewrite bind_lift_ok; [|done]. cbn [reg_nickname].
  rewrite bind_registry, law_find. destruct (clients (registry_ s) !! fd) as [c|] eqn:Hc; [|done].
  case_decide as Hne; [by apply send_error_safe|]. case_decide as Hall; [by apply send_error_safe|].
  rewrite bind_registry. destruct (nickname_taken_by_other _ n (rec_id c)) eqn:Htk;
    [by apply send_error_safe|].
  rewrite bind_modify, bind_view. apply user_joined_safe, P_effects.
  by apply (P_nickname s fd c).
Qed.

Lemma opaque_handle_safe dt label fd chat t : wf_chat chat →
  safe P (opaque_handle (R:=R) dt label fd (mkMessage t (PChat chat))).
Proof.
  intros Hwf s Hs. destruct (clients (registry_ s) !! fd) as [c|] eqn:Hc; cycle 1.
  { unfold opaque_handle. erewrite bind_lift_ok; [|done]. by rewrite bind_registry, law_find, Hc. }
  destruct (decide (rec_id c ∈ banned_ids_ s)) as [Hb|Hb].
  { unfold opaque_handle. erewrite bind_lift_ok; [|done]. rewrite bind_registry, law_find, Hc.
    by rewrite bind_is_banned, bool_decide_eq_true_2. }
  destruct (opaque_handle_start s fd c dt label chat t) as (l & _ & ->); [|done|].
  { split; [by apply P_inv|done]. }
  assert (P (with_effects s [View (show_chat (rec_id c) l label)])) as Hs' by by apply P_effects.
  revert Hs'. generalize (with_effects s [View (show_chat (rec_id c) l label)]). clear s Hs Hc Hb.
  intros s Hs. case_decide as Htag.
  { erewrite bind_lift_ok; [|by apply encode_relayed]. by apply relay_to_all_safe. }
  destruct (addressed_to_total chat Hwf) as [r Ha].
  assert (r ≠ ToAll) as Hne.
  { intros ->. apply (addressed_to_wf chat) in Ha; [|done]. done. }
  destruct (resolve_addressee s chat r 0 (si_reg s (P_inv s Hs)) Hwf Ha Hne) as (o & Eo & _).
  rewrite bind_registry. erewrite bind_lift_ok by exact Eo.
  destruct o as [tid|]; [|by apply send_error_safe].
  rewrite bind_is_banned. destruct (bool_decide _); [by apply send_error_safe|].
  rewrite bind_registry. destruct (fd_by_id _ tid); [|by apply send_error_safe].
  erewrite bind_lift_ok; [|by apply encode_relayed]. by apply (total_safe _ _ (send_total _ _ _)).
Qed.

Lemma list_users_handle_safe fd m : safe P (list_users_handle (R:=R) fd m).
Proof.
  apply safe_bind; [apply safe_get|]. intros us. apply safe_bind; [apply safe_lift, encode_users_list_safe|].
  intros p. auto with chat.
Qed.

(** Every message is handled without undefined behaviour and keeps the invariant. *)
Lemma dispatch_safe fd m : wf_message m → safe P (dispatch (R:=R) create_message_dispatcher fd m).
Proof.
  intros Hwf. destruct (relay_type (msg_type m)) as [[dt label]|] eqn:Hrt.
  - rewrite (dispatch_relay (msg_type m) dt label) by done. destruct m as [t p].
    unfold wf_message in Hwf. cbn [msg_type msg_payload] in *.
    destruct t; try done; destruct p; try done; by apply opaque_handle_safe.
  - destruct m as [t p]. destruct t; try done; try apply send_error_safe.
    + by apply register_handle_safe.
    + apply list_users_handle_safe.
Qed.

End handlers.

(** ** Accepting a client *)

(** A 32-bit id below the last one is left above [next_id_]. *)
Definition ids_left s : Prop := ∃ i, next_id_ s <= i < 4294967295 ∧ i ∉ banned_ids_ s.

(** The id a new client gets and the invariant of the id pool. *)
Lemma allocate_inv s : srv_inv s → ids_left s →
  ∃ id next free, allocate (next_id_ s) (free_ids_ s) (banned_ids_ s) = Some (id, next, free) ∧
    id ∉ banned_ids_ s ∧ map_Forall (λ _ c, rec_id c ≠ id) (clients (registry_ s)) ∧
    1 <= id < next ∧ next_id_ s <= next < 4294967296 ∧ free = free_ids_ s ∖ {[id]} ∧
    (∀ j, j ∈ free_ids_ s → id <= j).
Proof.
  intros [Hr Hn Hc Hf Hb Hq] (i & Hi & Hib).
  destruct (allocate_spec_aux (next_id_ s) (free_ids_ s) (banned_ids_ s))
    as (id & next & free & E & Hnb & Hcase); [unfold is_u32; lia|intros j Hj; by apply Hf|done|].
  exists id, next, free. split; [done|]. split; [done|].
  destruct Hcase as [(Hin & Hmin & -> & ->)|(He & -> & -> & [[Hle Hskip]|[-> Hall]])].
  - destruct (Hf id Hin) as (? & _ & ?). split_and!; done || lia.
  - assert (id <= i) as Hid.
    { destruct (decide (id <= i)); [done|]. exfalso. apply Hib, Hskip. lia. }
    rewrite to_u32_small by (unfold is_u32; lia). rewrite He.
    split_and!; try lia; [|set_solver..]. intros fd c Hcl. destruct (Hc _ _ Hcl) as (_ & ? & _). lia.
  - exfalso. apply Hib, Hall. lia.
Qed.

Lemma accept_client_run s fd err : srv_inv s → ids_left s → 0 <= fd →
  clients (registry_ s) !! fd = None →
  ∃ id next r',
    let s' := with_registry (with_ids s next (free_ids_ s ∖ {[id]})) r' in
    accept_client (fd, err) s =
      (with_effects s'
         (View (show_client_connected id) ::
          Sent fd AssignId (encode_assign_id id (bool_decide (clients (registry_ s) = ∅))) ::
          ((λ t, Sent t UserJoined (user_bytes (mkUserInfo id []))) <$>
             filter (λ t, negb (t =? fd) = true) (all_fds r'))),
       Ok [mkPollfd fd false false]) ∧
    srv_inv s' ∧ clients r' = <[fd := mkRecord fd id [] false]> (clients (registry_ s)) ∧
    id ∉ banned_ids_ s ∧ map_Forall (λ _ c, rec_id c ≠ id) (clients (registry_ s)) ∧
    1 <= id < next ∧ next_id_ s <= next ∧ (∀ j, j ∈ free_ids_ s → id <= j).
Proof.
  intros Hs Hleft Hfd Hnew.
  destruct (allocate_inv s Hs Hleft) as (id & next & free & E & Hnb & Hfresh & Hid & Hnext & -> & Hmin).
  destruct (Hs) as [Hr Hn Hc Hf Hb Hq].
  pose proof (law_add (registry_ s) fd id Hr Hnew Hfresh) as Hadd.
  destruct (add (registry_ s) fd id) as [r' rec] eqn:Ea. destruct Hadd as (Hr' & -> & Ecl).
  exists id, next, r'. cbn zeta. split; [|split_and!; [|done || lia..]].
  - unfold accept_client. destruct (Z.ltb_spec fd 0); [lia|]. rewrite bind_registry.
    assert (bool_decide (all_fds (registry_ s) = []) = bool_decide (clients (registry_ s) = ∅)) as ->.
    { apply bool_decide_ext. rewrite <-Permutation_nil_r, law_all_fds, Permutation_nil_r.
      by rewrite elements_empty_iff, dom_empty_iff. }
    erewrite SM_bind_ok; [|unfold allocate_client_id; by rewrite E].
    erewrite SM_bind_ok; [|unfold registry_add; cbn [with_ids registry_]; by rewrite Ea].
    rewrite bind_view. erewrite SM_bind_ok; [|done].
    unfold user_joined. erewrite SM_bind_ok; cycle 1.
    { erewrite bind_lift_ok; [|apply encode_user_info_iff; split; [unfold wf_string; cbn; lia|done]].
      apply broadcast_run. }
    rewrite !with_effects_app. done.
  - split; cbn [with_registry with_ids registry_ next_id_ free_ids_ banned_ids_ admin_queue_]; try done; try lia.
    + rewrite Ecl. apply map_Forall_insert_2.
      * split_and!; cbn [rec_id rec_nickname]; [lia..|unfold wf_string; cbn; lia|done].
      * eapply map_Forall_impl; [exact Hc|]. intros fd' c (?&?&?). split_and!; [lia|lia|lia|naive_solver..].
    + intros i [Hi Hne]%elem_of_difference. destruct (Hf i Hi) as (? & ? & ?).
      split_and!; [lia|lia|done|]. rewrite Ecl. apply map_Forall_insert_2; [cbn; set_solver|done].
Qed.

(** ** Removing a client *)

(** The ids that are free once a client with this id is gone. *)
Definition freed s (id : Z) : gset Z :=
  if decide (id ∈ banned_ids_ s) then free_ids_ s else {[id]} ∪ free_ids_ s.

Lemma release_run s id : release_client_id id s = (with_ids s (next_id_ s) (freed s id), Ok tt).
Proof.
  unfold release_client_id. rewrite bind_is_banned. unfold freed. case_decide.
  - rewrite bool_decide_eq_true_2 by done. by destruct s.
  - by rewrite bool_decide_eq_false_2.
Qed.

(** Taking a client out of the registry and giving its id back. *)
Lemma removed_inv s fd c r' : srv_inv s → clients (registry_ s) !! fd = Some c →
  reg_ok r' → clients r' = delete fd (clients (registry_ s)) →
  srv_inv (with_ids (with_registry s r') (next_id_ s) (freed s (rec_id c))).
Proof.
  intros Hs Hc Hr' E. destruct (Hs) as [Hr Hn Hcl Hf Hb Hq].
  destruct (Hcl _ _ Hc) as (_ & Hid & _).
  split; cbn [with_registry with_ids registry_ next_id_ free_ids_ banned_ids_ admin_queue_]; try done.
  - rewrite E. by apply map_Forall_delete.
  - assert (∀ i, i ∈ free_ids_ s → 1 ≤ i < next_id_ s ∧ i ∉ banned_ids_ s ∧
      map_Forall (λ _ c, rec_id c ≠ i) (clients r')) as Hold.
    { intros i (? & ? & ?)%Hf. split_and!; [lia|lia|done|]. rewrite E. by apply map_Forall_delete. }
    intros i. unfold freed. case_decide as Hban; [by apply Hold|].
    intros [->%elem_of_singleton|Hi]%elem_of_union; [|by apply Hold]. split_and!; [lia|lia|done|].
    intros fd' c'. rewrite E, lookup_delete. case_decide as Hne; [done|]. intros Hc' He.
    apply Hne. by eapply ids_unique.
Qed.

Lemma remove_client_run s fd c : srv_inv s → clients (registry_ s) !! fd = Some c →
  ∃ r',
    let s' := with_ids (with_registry s r') (next_id_ s) (freed s (rec_id c)) in
    remove_client fd s =
      (with_effects s'
         (View (show_client_disconnected (rec_id c) (rec_nickname c)) :: Closed fd ::
          ((λ t, Sent t UserLeft (user_bytes (info_of c))) <$>
             filter (λ t, negb (t =? -1) = true) (all_fds r'))), Ok tt) ∧
    srv_inv s' ∧ clients r' = delete fd (clients (registry_ s)).
Proof.
  intros Hs Hc. pose proof (law_remove (registry_ s) fd (si_reg s Hs)) as Hrm.
  destruct (remove (registry_ s) fd) as [r' o] eqn:Er. destruct Hrm as (Hr' & -> & E).
  exists r'. cbn zeta. split_and!; [|by apply (removed_inv s fd)|done].
  unfold remove_client. erewrite SM_bind_ok; [|unfold registry_remove; by rewrite Er].
  rewrite Hc, bind_view. erewrite SM_bind_ok; [|apply release_run].
  unfold emit. rewrite bind_modify. unfold user_left.
  erewrite bind_lift_ok; [|apply encode_user_info_iff; split; [apply (si_client s Hs _ _ Hc)|done]].
  rewrite broadcast_run. cbn [with_effects with_ids with_registry next_id_ free_ids_ banned_ids_].
  unfold with_effects. cbn. by rewrite <-!app_assoc.
Qed.

Lemma remove_client_none s fd : srv_inv s → clients (registry_ s) !! fd = None →
  ∃ r', remove_client fd s = (with_registry s r', Ok tt) ∧ srv_inv (with_registry s r') ∧
    clients r' = clients (registry_ s).
Proof.
  intros Hs Hc. pose proof (law_remove (registry_ s) fd (si_reg s Hs)) as Hrm.
  destruct (remove (registry_ s) fd) as [r' o] eqn:Er. destruct Hrm as (Hr' & -> & E).
  rewrite delete_id in E by done. exists r'. split_and!; [| |done].
  - unfold remove_client. erewrite SM_bind_ok; [|unfold registry_remove; by rewrite Er]. by rewrite Hc.
  - destruct Hs. split; cbn [with_registry registry_ next_id_ free_ids_ banned_ids_ admin_queue_];
      rewrite ?E; done.
Qed.

(** The flags and the connected descriptors while data from [fd] is handled. *)
Definition steady (running listening : bool) (fds : gset Z) (fd : Z) s : Prop :=
  srv_inv s ∧ running_ s = running ∧ listening_ s = listening ∧
  (dom (clients (registry_ s)) = fds ∨ dom (clients (registry_ s)) = fds ∖ {[fd]}).

Lemma steady_effects r l fds fd s es : steady r l fds fd s → steady r l fds fd (with_effects s es).
Proof. intros [Hs ?]. split; [by apply srv_inv_effects|done]. Qed.

Lemma steady_nickname r l fds fd s fd' c n : steady r l fds fd s →
  clients (registry_ s) !! fd' = Some c →
  n ≠ [] → n ≠ kBroadcastRecipient → wf_string n →
  nickname_taken_by_other (registry_ s) n (rec_id c) = false →
  steady r l fds fd (with_registry s (set_nickname (registry_ s) fd' n)).
Proof.
  intros (Hs & Hr & Hl & Hd) Hc Hn Ha Hw Ht. split; [by eapply clients_nickname_inv|].
  split_and!; [done..|]. cbn [with_registry registry_].
  destruct (law_set_nickname _ _ _ _ (si_reg s Hs) Hc Hn Ht) as [_ ->].
  rewrite dom_insert_lookup_L by (by eexists). done.
Qed.

Lemma steady_inv r l fds fd s : steady r l fds fd s → srv_inv s.
Proof. by intros [? _]. Qed.

Lemma remove_client_steady r l fds fd : total (steady r l fds fd) (remove_client (R:=R) fd).
Proof.
  intros s (Hs & Hr & Hl & Hd). destruct (clients (registry_ s) !! fd) as [c|] eqn:Hc.
  - destruct (remove_client_run s fd c Hs Hc) as (r' & -> & Hs' & E).
    split; [apply steady_effects|by eexists]. split_and!; [done..|].
    cbn [with_ids with_registry registry_]. rewrite E, dom_delete_L. set_solver.
  - destruct (remove_client_none s fd Hs Hc) as (r' & -> & Hs' & E). split; [|by eexists].
    split_and!; [done..|]. cbn [with_registry registry_ fst]. by rewrite E.
Qed.

Lemma remove_client_gone s fd : srv_inv s →
  clients (registry_ (remove_client fd s).1) !! fd = None.
Proof.
  intros Hs. destruct (clients (registry_ s) !! fd) as [c|] eqn:Hc.
  - destruct (remove_client_run s fd c Hs Hc) as (r' & -> & _ & E).
    cbn [fst with_effects with_ids with_registry registry_]. by rewrite E, lookup_delete_eq.
  - destruct (remove_client_none s fd Hs Hc) as (r' & -> & _ & E).
    cbn [fst with_registry registry_]. by rewrite E.
Qed.

(** ** Data from a client *)

Lemma handle_client_data_steady r l fds fd rx : rx_ok rx →
  total (steady r l fds fd) (handle_client_data (R:=R) fd rx).
Proof.
  intros [Hrx Hwf]. unfold handle_client_data. apply total_try_catch.
  - apply safe_bind; [apply safe_get|]. intros sender. apply safe_bind.
    { destruct sender; [apply safe_get|apply safe_ret]. }
    intros banned. destruct banned; [apply total_safe, remove_client_steady|].
    intros s Hs. destruct rx as [[m|]|e|]; [| |split; done|done].
    + erewrite bind_lift_ok; [|done]. eapply dispatch_safe; [apply steady_inv|..|done].
      * apply steady_effects.
      * apply steady_nickname.
      * by apply Hwf.
    + erewrite bind_lift_ok; [|done]. revert s Hs. apply safe_bind; [apply safe_get|].
      intros running. apply safe_when, total_safe, remove_client_steady.
  - intros e He. apply total_bind; [apply view_total, steady_effects|].
    intros _. apply send_error_total; [apply steady_effects|done].
Qed.

(** ** Bans *)

(** The ids of a command that were not banned before, once each. *)
Fixpoint new_bans (ids : list Z) (banned : gset Z) : list Z :=
  match ids with
  | [] => []
  | id :: ids =>
      if decide (id ∈ banned) then new_bans ids banned else id :: new_bans ids ({[id]} ∪ banned)
  end.

Lemma elem_of_new_bans ids banned i : i ∈ new_bans ids banned ↔ i ∈ ids ∧ i ∉ banned.
Proof.
  revert banned. induction ids as [|id ids IH]; intros banned; cbn [new_bans]; [set_solver|].
  case_decide; [rewrite IH|rewrite elem_of_cons, IH];
    destruct (decide (i = id)) as [->|]; set_solver.
Qed.

Lemma NoDup_new_bans ids banned : NoDup (new_bans ids banned).
Proof.
  revert banned. induction ids as [|id ids IH]; intros banned; cbn [new_bans]; [constructor|].
  case_decide; [done|]. constructor; [|done]. rewrite elem_of_new_bans. set_solver.
Qed.

Lemma sublist_new_bans ids banned : new_bans ids banned `sublist_of` ids.
Proof.
  revert banned. induction ids as [|id ids IH]; intros banned; cbn [new_bans]; [constructor|].
  case_decide; by constructor.
Qed.

Lemma length_new_bans ids banned : (length (new_bans ids banned) ≤ length ids)%nat.
Proof.
  revert banned. induction ids as [|id ids IH]; intros banned; cbn [new_bans length]; [lia|].
  case_decide; cbn [length]; [specialize (IH banned)|specialize (IH ({[id]} ∪ banned))]; lia.
Qed.

Lemma ban_each_run s ids acc : (∀ i, i ∈ ids → 1 <= i) →
  ban_each ids acc s =
  (with_bans s (free_ids_ s ∖ list_to_set ids) (list_to_set ids ∪ banned_ids_ s),
   Ok (acc ++ new_bans ids (banned_ids_ s))).
Proof.
  revert s acc. induction ids as [|id ids IH]; intros s acc Hids; cbn [ban_each new_bans].
  { rewrite app_nil_r. unfold with_bans. destruct s. cbn. by rewrite difference_empty_L, union_empty_l_L. }
  destruct (Z.eqb_spec id 0) as [->|Hne]; [specialize (Hids 0 ltac:(set_solver)); lia|].
  rewrite bind_is_banned, bind_modify, IH by set_solver. cbn [with_bans free_ids_ banned_ids_ list_to_set].
  unfold with_bans. cbn. f_equal.
  - f_equal; set_solver.
  - f_equal. case_decide as Hin.
    + rewrite bool_decide_eq_true_2 by done. by replace ({[id]} ∪ banned_ids_ s) with (banned_ids_ s) by set_solver.
    + rewrite bool_decide_eq_false_2 by done. by rewrite <-app_assoc.
Qed.

(** The clients a BannedIds message goes to. *)
Definition not_banned_fd s (t : Z) : bool :=
  match find_by_fd (registry_ s) t with
  | Some c => negb (bool_decide (rec_id c ∈ banned_ids_ s))
  | None => false
  end.

(** The payload of a BannedIds message. *)
Definition banned_bytes (ids : list Z) : bytes := be16 (size_t ids) ++ concat (be32 <$> ids).

Lemma broadcast_banned_ids_run s ids : size_t ids <= 65535 →
  broadcast_banned_ids ids s =
  (with_effects s ((λ t, Sent t BannedIds (banned_bytes ids)) <$>
     filter (λ t, not_banned_fd s t = true) (all_fds (registry_ s))), Ok tt).
Proof.
  intros Hl. unfold broadcast_banned_ids. erewrite bind_lift_ok; cycle 1.
  { unfold encode_banned_ids, kMaxU16Count. rewrite decide_False by lia.
    rewrite to_u16_small by (unfold is_u16; lia). rewrite foldl_write_u32_be, write_u16_be_spec. done. }
  rewrite bind_registry, <-concat_sends. apply for_each_emit. intros t es _.
  unfold not_banned_fd. rewrite bind_registry. cbn [registry_ with_effects].
  destruct (find_by_fd (registry_ s) t) as [c|]; [|by rewrite app_nil_r].
  rewrite bind_is_banned. cbn [banned_ids_ with_effects].
  destruct (bool_decide (rec_id c ∈ banned_ids_ s)); cbn [negb]; [by rewrite app_nil_r|].
  unfold send, emit, modify_. by rewrite with_effects_app.
Qed.

Lemma shutdown_each_run s ids :
  for_each ids (λ id,
    fd ← registry (λ r, fd_by_id r id);
    match fd with None => skip | Some fd => emit (Shutdown fd) end) s =
  (with_effects s (Shutdown <$> omap (fd_by_id (registry_ s)) ids), Ok tt).
Proof.
  assert (Shutdown <$> omap (fd_by_id (registry_ s)) ids =
    concat ((λ id, match fd_by_id (registry_ s) id with Some fd => [Shutdown fd] | None => [] end) <$> ids)) as ->.
  { induction ids as [|id ids IH]; [done|]. cbn. destruct (fd_by_id (registry_ s) id); cbn; by rewrite <-IH. }
  apply for_each_emit. intros id es _. rewrite bind_registry. cbn [registry_ with_effects].
  destruct (fd_by_id (registry_ s) id) as [fd|]; [|by rewrite app_nil_r].
  unfold emit, modify_. by rewrite with_effects_app.
Qed.

(** What banning ids emits, in a state where they have been banned already. *)
Definition ban_effects s (newly : list Z) : list effect :=
  if decide (newly = []) then [View (show_admin_message (str "no new ids banned"))] else
  ((λ t, Sent t BannedIds (banned_bytes newly)) <$>
     filter (λ t, not_banned_fd s t = true) (all_fds (registry_ s))) ++
  (Shutdown <$> omap (fd_by_id (registry_ s)) newly) ++
  [View (show_admin_message (str "banned ids=" ++ server_admin.join_ids newly))].

Definition with_new_bans s (ids : list Z) : server R :=
  with_bans s (free_ids_ s ∖ list_to_set ids) (list_to_set ids ∪ banned_ids_ s).

Lemma ban_ids_run s ids : (∀ i, i ∈ ids → 1 <= i) → size_t ids <= 65535 →
  ban_ids ids s =
  (with_effects (with_new_bans s ids)
     (ban_effects (with_new_bans s ids) (new_bans ids (banned_ids_ s))), Ok tt).
Proof.
  intros Hids Hl. unfold ban_ids. erewrite SM_bind_ok; [|by apply ban_each_run].
  cbn [app]. fold (with_new_bans s ids). unfold ban_effects. case_decide; [done|].
  pose proof (length_new_bans ids (banned_ids_ s)).
  erewrite SM_bind_ok; [|apply broadcast_banned_ids_run; lia].
  erewrite SM_bind_ok; [|apply shutdown_each_run].
  unfold view, emit, modify_. by rewrite !with_effects_app.
Qed.

Lemma elem_of_told s fd : fd ∈ filter (λ t, not_banned_fd s t = true) (all_fds (registry_ s)) ↔
  ∃ c, clients (registry_ s) !! fd = Some c ∧ rec_id c ∉ banned_ids_ s.
Proof.
  rewrite list_elem_of_filter, elem_of_all_fds. unfold not_banned_fd, is_Some. rewrite law_find.
  destruct (clients (registry_ s) !! fd) as [c|]; [|naive_solver].
  rewrite negb_true_iff, bool_decide_eq_false. naive_solver.
Qed.

Lemma elem_of_cut s (ids : list Z) fd : reg_ok (registry_ s) → fd ∈ omap (fd_by_id (registry_ s)) ids ↔
  ∃ c, clients (registry_ s) !! fd = Some c ∧ rec_id c ∈ ids.
Proof.
  intros Hr. rewrite list_elem_of_omap. setoid_rewrite law_fd_by_id; [|done..].
  split; [|naive_solver]. intros (i & Hi & c & Hc & <-). eauto.
Qed.

Lemma NoDup_cut s (ids : list Z) : reg_ok (registry_ s) → NoDup ids → NoDup (omap (fd_by_id (registry_ s)) ids).
Proof.
  intros Hr. induction 1 as [|i ids Hi Hnd IH]; [constructor|]. cbn.
  destruct (fd_by_id (registry_ s) i) as [fd|] eqn:E; [|done]. constructor; [|done].
  rewrite elem_of_cut by done. apply law_fd_by_id in E as (c & Hc & <-); [|done].
  intros (c' & Hc' & Hin). congruence.
Qed.

Lemma new_bans_inv s ids : srv_inv s → Forall server_admin.bannable ids → srv_inv (with_new_bans s ids).
Proof.
  intros [Hr Hn Hc Hf Hb Hq] Hids. rewrite Forall_forall in Hids.
  split; cbn [with_new_bans with_bans registry_ next_id_ free_ids_ banned_ids_ admin_queue_]; try done.
  - intros i [Hi Hni]%elem_of_difference. destruct (Hf i Hi) as (?&?&?). split_and!; [lia|lia| |done].
    set_solver.
  - intros i [Hi%elem_of_list_to_set|Hi]%elem_of_union; [|by apply Hb]. apply Hids in Hi. unfold server_admin.bannable in Hi. lia.
Qed.

(** ** The console *)

(** What the admin queue does not touch. *)
Definition calm s0 s : Prop :=
  srv_inv s ∧ registry_ s = registry_ s0 ∧ running_ s = running_ s0 ∧ listening_ s = listening_ s0.

Lemma ban_ids_calm s0 line command : server_admin.parse_admin_command line = Some command →
  line_ok line → total (calm s0) (ban_ids (R:=R) (server_admin.ids command)).
Proof.
  intros Hp Hl s (Hs & Hcalm). unfold line_ok in Hl. rewrite Hp in Hl.
  destruct (server_admin.parse_admin_command_ids _ _ Hp) as [_ Hids].
  rewrite ban_ids_run; [|intros i Hi; rewrite Forall_forall in Hids; specialize (Hids i Hi);
    unfold server_admin.bannable in Hids; lia|done].
  split; [|by eexists]. split; [by apply srv_inv_effects, new_bans_inv|done].
Qed.

Lemma total_for_each {A} (P : server R → Prop) (l : list A) body :
  (∀ x, x ∈ l → total P (body x)) → total P (for_each l body).
Proof.
  induction l as [|x l IH]; intros Hb; cbn [for_each].
  - intros s Hs. split; [done|by eexists].
  - apply total_bind; [apply Hb; set_solver|]. intros _. apply IH. set_solver.
Qed.

Lemma process_admin_queue_calm s : srv_inv s →
  calm s (process_admin_queue s).1 ∧ (process_admin_queue s).2 = Ok tt.
Proof.
  intros Hs. assert (calm s (with_queue s [])) as Hc.
  { split; [|done]. destruct Hs. by split. }
  unfold process_admin_queue, get_. unfold mbind at 1, SM_bind at 1. rewrite bind_modify.
  match goal with |- context [for_each ?l ?b _] => assert (total (calm s) (for_each l b)) as Ht end;
    [|destruct (Ht _ Hc) as [? [[] ?]]; done].
  apply total_for_each. intros line Hin. unfold console_line. destruct (server_admin.parse_admin_command line) as [command|] eqn:Hp.
  - apply (ban_ids_calm s line); [done|]. destruct Hs as [_ _ _ _ _ Hq].
    rewrite Forall_forall in Hq. by apply Hq.
  - apply view_total. intros s' es [? ?]. split; [by apply srv_inv_effects|done].
Qed.

(** ** Stopping *)

Lemma request_stop_run s :
  request_stop s = (with_effects (stopped s) (Shutdown <$> all_fds (registry_ s)), Ok tt).
Proof.
  unfold request_stop. rewrite bind_modify, bind_registry.
  replace (Shutdown <$> all_fds (registry_ s)) with (concat ((λ fd, [Shutdown fd]) <$> all_fds (registry_ s))).
  - apply for_each_emit. intros fd es _. unfold emit, modify_. by rewrite with_effects_app.
  - generalize (all_fds (registry_ s)). intros l. induction l; [done|]. cbn. by f_equal.
Qed.

Lemma stopped_inv s es : srv_inv s → srv_inv (with_effects (stopped s) es).
Proof. intros []. by split. Qed.

(** A list of descriptors that names every connected client once. *)
Definition covers (fds : list Z) (m : gmap Z ClientRecord) : Prop :=
  NoDup fds ∧ ∀ fd, fd ∈ fds ↔ is_Some (m !! fd).

Lemma covers_delete fd fds m : covers (fd :: fds) m → covers fds (delete fd m).
Proof.
  intros [[Hni Hnd]%NoDup_cons Hin]. split; [done|]. intros fd'. rewrite lookup_delete.
  case_decide as He; [subst; split; [done|by intros []]|]. rewrite <-Hin. set_solver.
Qed.

#[global] Instance covers_proper : Proper ((≡ₚ) ==> (=) ==> iff) covers.
Proof.
  intros fds fds' Hp m m' <-. unfold covers. rewrite Hp. by setoid_rewrite Hp.
Qed.

Lemma covers_dom fds m m' : dom m = dom m' → covers fds m → covers fds m'.
Proof.
  intros E [Hnd Hin]. split; [done|]. intros fd. rewrite Hin, <-!elem_of_dom. by rewrite E.
Qed.

Lemma covers_insert fd c fds m : covers fds m → m !! fd = None → covers (fd :: fds) (<[fd := c]> m).
Proof.
  intros [Hnd Hin] Hn. split.
  - constructor; [|done]. rewrite Hin, Hn. by intros [].
  - intros fd'. rewrite elem_of_cons, lookup_insert, Hin. case_decide; naive_solver.
Qed.

Lemma covers_removed front fd rest m m' : covers (front ++ fd :: rest) m → m' !! fd = None →
  dom m' = dom m ∨ dom m' = dom m ∖ {[fd]} → covers (front ++ rest) m'.
Proof.
  rewrite <-Permutation_middle. intros Hcov Hn Hd.
  assert (dom (delete fd m) = dom m') as E.
  { rewrite dom_delete_L. apply not_elem_of_dom in Hn. destruct Hd as [Hd|Hd]; rewrite Hd in *; set_solver. }
  by apply (covers_dom _ (delete fd m)), covers_delete.
Qed.

Lemma covers_all_fds r : covers (all_fds r) (clients r).
Proof. split; [apply NoDup_all_fds|apply elem_of_all_fds]. Qed.

(** What disconnecting does to one client of the registry. *)
Definition disconnect_effects (m : gmap Z ClientRecord) (fd : Z) : list effect :=
  match m !! fd with
  | Some c => [View (show_client_disconnected (rec_id c) (rec_nickname c)); Shutdown fd; Closed fd]
  | None => []
  end.

Lemma disconnect_all_run s : srv_inv s →
  ∃ s', disconnect_all_clients s = (s', Ok tt) ∧ srv_inv s' ∧ clients (registry_ s') = ∅ ∧
    running_ s' = running_ s ∧ banned_ids_ s' = banned_ids_ s ∧
    effects s' = effects s ++
      concat (disconnect_effects (clients (registry_ s)) <$> all_fds (registry_ s)).
Proof.
  unfold disconnect_all_clients. rewrite bind_registry.
  generalize (covers_all_fds (registry_ s)). generalize (all_fds (registry_ s)). intros fds.
  revert s. induction fds as [|fd fds IH]; intros s Hcov Hs.
  - exists s. cbn. rewrite app_nil_r. split_and!; [done..| |done|done|done].
    apply map_empty. intros fd. apply eq_None_not_Some. intros Hfd%Hcov. set_solver.
  - destruct (proj1 (proj2 Hcov fd)) as [c Hc]; [set_solver|].
    pose proof (law_remove (registry_ s) fd (si_reg s Hs)) as Hrm.
    destruct (remove (registry_ s) fd) as [r' o] eqn:Er. destruct Hrm as (Hr' & -> & E).
    cbn [for_each].
    set (s1 := with_effects (with_ids (with_registry s r') (next_id_ s) (freed s (rec_id c)))
                 (disconnect_effects (clients (registry_ s)) fd)).
    destruct (IH s1) as (s' & Erun & Hs' & He & Hrun & Hban & Heff).
    + unfold s1. cbn [with_effects with_ids with_registry registry_]. rewrite E. by apply covers_delete.
    + by apply srv_inv_effects, removed_inv with fd.
    + exists s'. split_and!; [|done..|].
      * erewrite SM_bind_ok; [exact Erun|].
        erewrite SM_bind_ok; [|unfold registry_remove; by rewrite Er].
        rewrite Hc, bind_view. erewrite SM_bind_ok; [|apply release_run].
        unfold emit. rewrite bind_modify. unfold modify_, s1, disconnect_effects. rewrite Hc.
        unfold with_effects. cbn. by rewrite <-!app_assoc.
      * rewrite Heff. cbn [fmap list_fmap concat]. unfold s1. cbn [with_effects effects registry_].
        rewrite <-app_assoc. do 3 f_equal. cbn [with_ids with_registry registry_]. rewrite E.
        apply list_fmap_ext. intros i fd' Hi. unfold disconnect_effects.
        rewrite lookup_delete_ne; [done|]. intros <-. apply list_elem_of_lookup_2 in Hi.
        destruct Hcov as [[Hni _]%NoDup_cons _]. done.
Qed.

(** ** The poll loop *)

(** The descriptors of the entries that are not closed. *)
Definition live (l : list pollfd) : list Z := filter (λ fd, 0 <= fd) (pfd_fd <$> l).

Lemma live_app l k : live (l ++ k) = live l ++ live k.
Proof. unfold live. by rewrite fmap_app, filter_app. Qed.

Lemma live_closed p l : live (closed_pollfd p :: l) = live l.
Proof. done. Qed.

Lemma live_cons p l : 0 <= pfd_fd p → live (p :: l) = pfd_fd p :: live l.
Proof. intros. unfold live. rewrite fmap_cons, filter_cons. by rewrite decide_True. Qed.

Lemma live_cons_neg p l : pfd_fd p < 0 → live (p :: l) = live l.
Proof. intros. unfold live. rewrite fmap_cons, filter_cons. rewrite decide_False by lia. done. Qed.

Lemma poll_results_fds t l : pfd_fd <$> poll_results t l = pfd_fd <$> l.
Proof.
  unfold poll_results. apply list_eq. intros i.
  rewrite !list_lookup_fmap, list_lookup_imap. by destruct (l !! i).
Qed.

Lemma fds_filter l : pfd_fd <$> filter (λ p, ¬ pfd_fd p < 0) l = live l.
Proof.
  induction l as [|p l IH]; [done|]. rewrite filter_cons. case_decide.
  - rewrite live_cons by lia. by rewrite fmap_cons, IH.
  - rewrite live_cons_neg by lia. done.
Qed.

Lemma live_all l : Forall (λ fd, 0 <= fd) (pfd_fd <$> l) → live l = pfd_fd <$> l.
Proof.
  unfold live. generalize (pfd_fd <$> l). intros k Hk. induction Hk; [done|].
  rewrite filter_cons, decide_True by done. by f_equal.
Qed.

Lemma clients_nonneg s : srv_inv s → map_Forall (λ fd _, 0 <= fd) (clients (registry_ s)).
Proof. intros Hs fd c Hc. by apply (si_client s Hs) in Hc as [? _]. Qed.

(** A request to stop may come in. *)
Lemma may_stop b s : srv_inv s →
  ∃ s', when b request_stop s = (s', Ok tt) ∧ srv_inv s' ∧ registry_ s' = registry_ s ∧
    (b = false ∧ s' = s ∨ b = true ∧ running_ s' = false ∧ listening_ s' = false).
Proof.
  intros Hs. destruct b; cbn [when]; [|by exists s; split_and!; auto].
  rewrite request_stop_run. eexists. split_and!; [done|by apply stopped_inv|done|by right].
Qed.

(** What becomes of an entry in the hang-up pass, and the client that goes with it. *)
Definition closing (p : pollfd) : pollfd := if pfd_hup p then closed_pollfd p else p.

Lemma hup_entry p s : srv_inv s →
  ∃ s', (if pfd_hup p then
           running ← get_ running_;
           _ ← when running (remove_client (pfd_fd p));
           mret (closed_pollfd p)
         else mret p) s = (s', Ok (closing p)) ∧ srv_inv s' ∧
    s' = (if pfd_hup p && running_ s then (remove_client (pfd_fd p) s).1 else s) ∧
    running_ s' = running_ s ∧ listening_ s' = listening_ s ∧
    dom (clients (registry_ s')) ⊆ dom (clients (registry_ s)) ∧
    (running_ s = true → ∀ front l, covers (front ++ live (p :: l)) (clients (registry_ s)) →
     ∃ front', covers (front' ++ live l) (clients (registry_ s')) ∧
       ∀ l', front ++ live (closing p :: l') = front' ++ live l').
Proof.
  intros Hs. unfold closing. destruct (pfd_hup p); cbn [andb]; cycle 1.
  { exists s. split_and!; [done..|]. intros _ front l Hcov. destruct (decide (0 <= pfd_fd p)).
    - exists (front ++ [pfd_fd p]). rewrite live_cons in Hcov by done. rewrite <-app_assoc. split; [done|].
      intros l'. rewrite live_cons by done. by rewrite <-app_assoc.
    - exists front. rewrite live_cons_neg in Hcov by lia. split; [done|]. intros l'. by rewrite live_cons_neg by lia. }
  unfold get_. unfold mbind at 1, SM_bind at 1. destruct (running_ s) eqn:Hrun; cbn [when]; cycle 1.
  { exists s. by split_and!. }
  pose proof (remove_client_gone s (pfd_fd p) Hs) as Hgone.
  destruct (remove_client_steady true (listening_ s) (dom (clients (registry_ s))) (pfd_fd p) s)
    as [(Hs1 & Hr1 & Hl1 & Hd1) [[] Ho]]; [by split_and!; auto|].
  destruct (remove_client (pfd_fd p) s) as [s1 o] eqn:Erm. cbn [fst snd] in *. subst o.
  exists s1. split_and!; [by erewrite SM_bind_ok; [|done]|done..| |].
  { destruct Hd1 as [->| ->]; set_solver. }
  intros _ front l Hcov. exists front. split; [|done].
  destruct (decide (0 <= pfd_fd p)) as [Hp|Hp].
  - rewrite live_cons in Hcov by done. by eapply covers_removed.
  - rewrite live_cons_neg in Hcov by lia. eapply covers_dom; [|done].
    assert (pfd_fd p ∉ dom (clients (registry_ s))); [|destruct Hd1 as [->| ->]; set_solver].
    apply not_elem_of_dom. destruct (clients (registry_ s) !! pfd_fd p) eqn:Ec; [|done].
    apply (clients_nonneg s Hs) in Ec. cbn in Ec. lia.
Qed.

(** The hang-up pass: as long as the server runs it removes the clients whose
    entries it closes, and no others. *)
Lemma hup_loop_run t i l front s : srv_inv s →
  (running_ s = true → covers (front ++ live l) (clients (registry_ s))) →
  ∃ s', hup_loop t i l s = (s', Ok (closing <$> l)) ∧ srv_inv s' ∧
    dom (clients (registry_ s')) ⊆ dom (clients (registry_ s)) ∧
    (running_ s' = true → running_ s = true ∧ listening_ s' = listening_ s ∧
       covers (front ++ live (closing <$> l)) (clients (registry_ s'))).
Proof.
  revert i front s. induction l as [|p l IH]; intros i front s Hs Hcov; cbn [hup_loop].
  all: destruct (may_stop (hup_stop t i) s Hs) as (s0 & E0 & Hs0 & Hreg & Hb);
    rewrite (SM_bind_ok _ _ _ _ _ E0).
  { exists s0. rewrite Hreg. split_and!; [done..|].
    intros Hr. destruct Hb as [[_ ->]|(_ & ? & _)]; [by auto|congruence]. }
  destruct (hup_entry p s0 Hs0) as (s1 & E1 & Hs1 & _ & Hr1 & Hl1 & Hd1 & Hc1).
  rewrite (SM_bind_ok _ _ _ _ _ E1).
  assert (∃ front', (running_ s1 = true → covers (front' ++ live l) (clients (registry_ s1)) ∧
      ∀ l', front ++ live (closing p :: l') = front' ++ live l')) as [front' Hf].
  { destruct (running_ s1) eqn:Er; [|by exists []].
    destruct Hb as [[_ ->]|(_ & ? & _)]; [|congruence]. symmetry in Hr1.
    destruct (Hc1 Hr1 _ _ (Hcov Hr1)) as (front' & ? & ?). by exists front'. }
  destruct (IH (S i) front' s1 Hs1) as (s' & E & Hs' & Hd & Hrun); [intros; by apply Hf|].
  exists s'. rewrite (SM_bind_ok _ _ _ _ _ E). split_and!; [done..|rewrite <-Hreg; set_solver|].
  intros Hr. destruct (Hrun Hr) as (Hra & Hla & Hca). destruct (Hf Hra) as [_ Hl'].
  rewrite fmap_cons, Hl'. destruct Hb as [[_ ->]|(_ & ? & _)]; [|congruence]. split_and!; congruence.
Qed.

(** The state of the second pass: the flags and the watched descriptors. *)
Definition looping (listen_fd : Z) (l : list pollfd) s : Prop :=
  srv_inv s ∧ listening_ s = running_ s ∧
  clients (registry_ s) !! listen_fd = None ∧ covers (live l) (clients (registry_ s)).

Lemma looping_stop listen_fd l b s : looping listen_fd l s →
  ∃ s', when b request_stop s = (s', Ok tt) ∧ looping listen_fd l s' ∧ registry_ s' = registry_ s ∧
    (b = false ∧ s' = s ∨ b = true ∧ running_ s' = false).
Proof.
  intros (Hs & Hlis & Hfd & Hcov). destruct (may_stop b s Hs) as (s' & E & Hs' & Hreg & Hb).
  exists s'. split_and!; [done| |done|].
  - unfold looping. rewrite Hreg. split_and!; [done| |done..]. destruct Hb as [[_ ->]|(_ & -> & ->)]; done.
  - destruct Hb as [|(? & ? & _)]; auto.
Qed.

(** One entry that is not the listening socket. *)
Lemma handle_entry listen_fd v p todo rx s :
  looping listen_fd (v ++ p :: todo) s → rx_ok rx → 0 <= pfd_fd p →
  ∃ s' p', (_ ← handle_client_data (pfd_fd p) rx;
            client ← registry (λ r, find_by_fd r (pfd_fd p));
            mret (match client with None => closed_pollfd p | Some _ => p end)) s = (s', Ok p') ∧
    looping listen_fd (v ++ p' :: todo) s' ∧ running_ s' = running_ s.
Proof.
  intros (Hs & Hlis & Hfd & Hcov) Hrx Hp.
  destruct (handle_client_data_steady (running_ s) (running_ s) (dom (clients (registry_ s))) (pfd_fd p) rx Hrx s)
    as [(Hs1 & Hr1 & Hl1 & Hd1) [[] Ho]]; [by split_and!; auto|].
  destruct (handle_client_data (pfd_fd p) rx s) as [s1 o] eqn:Eh. cbn [fst snd] in *. subst o.
  assert (clients (registry_ s1) !! listen_fd = None) as Hfd1.
  { apply not_elem_of_dom. apply not_elem_of_dom in Hfd. destruct Hd1 as [->| ->]; set_solver. }
  rewrite live_app, live_cons in Hcov by done.
  assert (pfd_fd p ∈ dom (clients (registry_ s))) as Hin by (apply elem_of_dom, Hcov; set_solver).
  destruct (clients (registry_ s1) !! pfd_fd p) as [c|] eqn:Ec.
  - exists s1, p. split.
    + erewrite SM_bind_ok; [|done]. by rewrite bind_registry, law_find, Ec.
    + split; [|done]. split_and!; [done|congruence|done|]. rewrite live_app, live_cons by done.
      eapply covers_dom; [|done]. apply elem_of_dom_2 in Ec. destruct Hd1 as [Hd1|Hd1]; set_solver.
  - exists s1, (closed_pollfd p). split.
    + erewrite SM_bind_ok; [|done]. by rewrite bind_registry, law_find, Ec.
    + split; [|done]. split_and!; [done|congruence|done|]. rewrite live_app, live_closed. by eapply covers_removed.
Qed.

(** The second pass, after the listening socket's entry. *)
Lemma in_loop_clients fuel listen_fd t i p0 v todo s :
  (length todo < fuel)%nat → (∀ j, rx_ok (turn_receive t j)) → looping listen_fd (v ++ todo) s →
  ∃ s' v', in_loop fuel listen_fd t i (p0 :: v) todo s = (s', Ok (p0 :: v')) ∧ looping listen_fd v' s' ∧
    (running_ s' = true → running_ s = true).
Proof.
  intros Hfuel Hrx. revert i v s todo Hfuel.
  induction fuel as [|fuel IH]; intros i v s todo Hfuel Hl; [lia|]. cbn [in_loop].
  destruct (looping_stop _ _ (in_stop t i) s Hl) as (s0 & E0 & Hl0 & _ & Hb).
  rewrite (SM_bind_ok _ _ _ _ _ E0).
  assert (running_ s0 = true → running_ s = true) as Hr0 by (destruct Hb as [[_ ->]|[_ ->]]; done).
  destruct todo as [|p todo]; [rewrite app_nil_r in Hl0; by exists s0, v|]. cbn [length] in Hfuel.
  change ((p0 :: v) ++ [p]) with (p0 :: (v ++ [p])).
  destruct ((pfd_fd p <? 0) || negb (pfd_in p)) eqn:Eskip.
  { destruct (IH (S i) (v ++ [p]) s0 todo) as (s' & v' & ? & ? & ?); [lia|by rewrite <-app_assoc|].
    exists s', v'. auto. }
  apply orb_false_iff in Eskip as [Ep _]. zify_bools.
  destruct (Hl0) as (_ & _ & Hfd & Hcov).
  unfold get_. unfold mbind at 1, SM_bind at 1.
  destruct (Z.eqb_spec (pfd_fd p) (if listening_ s0 then listen_fd else -1)) as [E|Hne].
  { exfalso. destruct (listening_ s0); [|lia].
    rewrite <-E in Hfd. destruct (proj1 (proj2 Hcov (pfd_fd p))) as [? ?]; [|congruence].
    rewrite live_app, live_cons by done. set_solver. }
  destruct (handle_entry listen_fd v p todo (turn_receive t i) s0 Hl0 (Hrx i) Ep)
    as (s1 & p' & Eh & Hl1 & Hr1).
  destruct (handle_client_data (pfd_fd p) (turn_receive t i) s0) as [s2 [[]|e|]] eqn:Eh2;
    [|unfold mbind, SM_bind in Eh; by rewrite Eh2 in Eh..].
  rewrite (SM_bind_ok _ _ _ _ _ Eh2). rewrite (SM_bind_ok _ _ _ _ _ Eh2) in Eh. injection Eh as <- <-.
  rewrite bind_registry.
  set (p' := match find_by_fd _ _ with None => _ | Some _ => _ end) in *.
  destruct (IH (S i) (v ++ [p']) s2 todo) as (s' & v' & ? & ? & ?); [lia|by rewrite <-app_assoc|].
  exists s', v'. rewrite Hr1 in *. auto.
Qed.

(** The state in which [accept] may be called: the console has been served, [poll]
    has returned, hung-up clients are gone. *)
Definition after_poll (t : turn) s : server R :=
  (when (stop_in_poll t) request_stop (process_admin_queue s).1).1.
Definition after_hup (t : turn) (pollfds : list pollfd) s : server R :=
  (hup_loop t 1 (tail (poll_results t pollfds)) (after_poll t s)).1.

(** What the kernel and the transport may do during a turn: [receive] behaves as
    proved in Transport and finds nothing on the listening socket when this has just
    been closed, a descriptor that [accept] returns is not in use, and the ids have
    not run out. *)
Definition turn_ok (listen_fd : Z) (t : turn) (pollfds : list pollfd) s : Prop :=
  let s' := after_hup t pollfds s in
  let fd := (turn_accept t 0).1 in
  (∀ i, rx_ok (turn_receive t i)) ∧ (in_stop t 0 = true → turn_receive t 0 = Ok None) ∧ ids_left s' ∧
  (0 <= fd → fd ≠ listen_fd ∧ clients (registry_ s') !! fd = None).

(** What holds at the head of the loop: the first entry is the listening socket,
    unless it was closed by a request to stop, and the others are the connected
    clients, once each. *)
Definition watched (listen_fd : Z) (pollfds : list pollfd) s : Prop :=
  ∃ rest, covers rest (clients (registry_ s)) ∧
    (pfd_fd <$> pollfds = listen_fd :: rest ∨ running_ s = false ∧ pfd_fd <$> pollfds = rest).

Record loop_inv (listen_fd : Z) (pollfds : list pollfd) s : Prop := {
  li_inv : srv_inv s;
  li_listening : running_ s = true → listening_ s = true;
  li_listen_fd : 0 <= listen_fd;
  li_listen_client : clients (registry_ s) !! listen_fd = None;
  li_pollfds : watched listen_fd pollfds s
}.

Lemma after_poll_run t s : srv_inv s →
  let s' := after_poll t s in
  (_ ← process_admin_queue; when (stop_in_poll t) request_stop) s = (s', Ok tt) ∧ srv_inv s' ∧
  registry_ s' = registry_ s ∧
  (if stop_in_poll t then running_ s' = false
   else running_ s' = running_ s ∧ listening_ s' = listening_ s).
Proof.
  intros Hs s'. destruct (process_admin_queue_calm s Hs) as [(H1 & H2 & H3 & H4) Ho].
  unfold s', after_poll. destruct (process_admin_queue s) as [s1 o] eqn:E. cbn [fst snd] in *. subst o.
  rewrite (SM_bind_ok _ _ _ _ _ E). destruct (stop_in_poll t); cbn [when].
  - rewrite request_stop_run. split_and!; [done|by apply stopped_inv|done..].
  - by split_and!.
Qed.

Lemma accept_entry listen_fd t l s : looping listen_fd l s → ids_left s →
  (0 <= (turn_accept t 0).1 →
   (turn_accept t 0).1 ≠ listen_fd ∧ clients (registry_ s) !! (turn_accept t 0).1 = None) →
  ∃ s' pushed, accept_client (turn_accept t 0) s = (s', Ok pushed) ∧ (length pushed ≤ 1)%nat ∧
    looping listen_fd (l ++ pushed) s' ∧
    pushed = (if 0 <=? (turn_accept t 0).1 then [mkPollfd (turn_accept t 0).1 false false] else []).
Proof.
  intros (Hs & Hlis & Hfd & Hcov) Hleft Hacc. destruct (turn_accept t 0) as [fd err].
  cbn [fst] in *. destruct (decide (0 <= fd)) as [Hp|Hp].
  - destruct (Hacc Hp) as [Hne Hnew].
    destruct (accept_client_run s fd err Hs Hleft Hp Hnew) as (id & next & r' & E & Hs' & Ecl & _).
    eexists _, _. split; [exact E|]. split; [done|]. destruct (Z.leb_spec 0 fd); [|lia]. split; [|done].
    split_and!; [by apply srv_inv_effects|done|..];
      cbn [with_effects with_registry with_ids registry_]; rewrite Ecl.
    + by rewrite lookup_insert_ne by done.
    + rewrite live_app, (live_cons (mkPollfd fd false false) []), <-Permutation_cons_append by done.
      by apply covers_insert.
  - exists (with_effects s [View (show_accept_failed err)]), []. unfold accept_client.
    destruct (Z.ltb_spec fd 0); [|lia]. rewrite app_nil_r. split_and!; [done|cbn; lia| |].
    + split_and!; [by apply srv_inv_effects|done..].
    + destruct (Z.leb_spec 0 fd); [lia|done].
Qed.

(** The entry of the listening socket when a request to stop has just closed it:
    it is taken for a client's. *)
Lemma closed_entry listen_fd l s : looping listen_fd l s → running_ s = false →
  handle_client_data listen_fd (Ok None) s = (s, Ok tt).
Proof.
  intros (_ & _ & Hfd & _) Hrun. unfold handle_client_data, try_catch.
  rewrite bind_registry, law_find, Hfd. unfold mbind, SM_bind, mret, SM_ret, lift, get_. by rewrite Hrun.
Qed.

(** The second pass of a turn, from the listening socket on. *)
Lemma in_loop_run listen_fd t p rest s : looping listen_fd rest s → running_ s = true → pfd_fd p = listen_fd →
  0 <= listen_fd → (∀ i, rx_ok (turn_receive t i)) → (in_stop t 0 = true → turn_receive t 0 = Ok None) →
  ids_left s →
  (0 <= (turn_accept t 0).1 →
   (turn_accept t 0).1 ≠ listen_fd ∧ clients (registry_ s) !! (turn_accept t 0).1 = None) →
  ∃ s' p' v, in_loop (in_loop_fuel (p :: rest)) listen_fd t 0 [] (p :: rest) s = (s', Ok (p' :: v)) ∧
    looping listen_fd v s' ∧ (p' = p ∨ running_ s' = false ∧ p' = closed_pollfd p).
Proof.
  intros Hl Hrun Hp Hfd Hrx Hstop Hleft Hacc. unfold in_loop_fuel.
  replace (2 * length (p :: rest) + 1)%nat with (S (2 * length rest + 2)) by (cbn [length]; lia).
  cbn [in_loop app]. destruct (looping_stop _ _ (in_stop t 0) s Hl) as (s0 & E0 & Hl0 & _ & Hb).
  rewrite (SM_bind_ok _ _ _ _ _ E0). pose proof (proj1 (proj2 Hl0)) as Hlis.
  destruct (Z.ltb_spec (pfd_fd p) 0); [lia|]. cbn [orb]. destruct (pfd_in p); cbn [negb]; cycle 1.
  { destruct (in_loop_clients (2 * length rest + 2) listen_fd t 1 p [] rest s0) as (s' & v & E & Hl' & _); [lia|done..|].
    exists s', p, v. auto. }
  unfold get_. unfold mbind at 1, SM_bind at 1. rewrite Hlis, Hp. destruct Hb as [[_ ->]|[Ht Hr0]].
  - rewrite Hrun, Z.eqb_refl.
    destruct (accept_entry listen_fd t rest s Hl Hleft Hacc) as (s1 & pushed & E & Hlen & Hl1 & _).
    rewrite (SM_bind_ok _ _ _ _ _ E).
    destruct (in_loop_clients (2 * length rest + 2) listen_fd t 1 p [] (rest ++ pushed) s1)
      as (s' & v & E' & Hl' & _); [rewrite length_app; lia|done..|].
    exists s', p, v. auto.
  - rewrite Hr0. destruct (Z.eqb_spec listen_fd (-1)); [lia|]. rewrite (Hstop Ht).
    rewrite (SM_bind_ok _ _ _ _ _ (closed_entry _ _ _ Hl0 Hr0)), bind_registry, law_find.
    destruct Hl0 as (Hs0 & Hlis0 & Hn0 & Hcov0). rewrite Hn0.
    destruct (in_loop_clients (2 * length rest + 2) listen_fd t 1 (closed_pollfd p) [] rest s0)
      as (s' & v & E' & Hl' & Hr'); [lia|done|done|].
    exists s', (closed_pollfd p), v. split_and!; [done..|]. right. split; [|done].
    destruct (running_ s'); [|done]. rewrite Hr0 in Hr'. by discriminate Hr'.
Qed.

Lemma bind_assoc {A B C} (m : SM (server R) A) (f : A → SM (server R) B) (g : B → SM (server R) C) s :
  (x ← m; y ← f x; g y) s = (y ← (x ← m; f x); g y) s.
Proof. unfold mbind, SM_bind. by destruct (m s) as [s' []]. Qed.

Definition turn_result (listen_fd : Z) (t : turn) (res : server R * outcome (option (list pollfd))) : Prop :=
  match res with
  | (s', Ok (Some pollfds')) => loop_inv listen_fd pollfds' s'
  | (s', Ok None) => srv_inv s' ∧ running_ s' = false
  | (s', Throw e) =>
      srv_inv s' ∧ poll_ready t < 0 ∧ poll_eintr t = false ∧ running_ s' = true ∧
      e = runtime_error (str "poll failed")
  | (_, UB) => False
  end.

(** A turn of the poll loop ends, without undefined behaviour, in one of three
    ways: at the head of the loop with the loop's invariant, out of the loop
    because the server was stopped, or with the exception for a failed [poll].
    In particular no exception of a client's making leaves it. *)
Theorem loop_turn_run listen_fd t pollfds s : loop_inv listen_fd pollfds s → running_ s = true →
  turn_ok listen_fd t pollfds s →
  turn_result listen_fd t (loop_turn listen_fd t pollfds s).
Proof.
  intros [Hs Hlis Hfd Hnl (rest & Hcov & [Hpoll|[? _]])] Hrun (Hrx & Hstop & Hleft & Hacc); [|congruence].
  unfold loop_turn. rewrite bind_assoc.
  destruct (after_poll_run t s Hs) as (E & Hs1 & Hreg & Hflags). rewrite (SM_bind_ok _ _ _ _ _ E).
  unfold after_hup in Hleft, Hacc. set (s1 := after_poll t s) in *. clear E.
  assert (running_ s1 = true → listening_ s1 = true) as Hlis1.
  { destruct (stop_in_poll t); [congruence|]. destruct Hflags as [-> ->]. done. }
  rewrite <-Hreg in Hcov, Hnl.
  assert (∀ l, pfd_fd <$> l = listen_fd :: rest → loop_inv listen_fd l s1) as Hinv.
  { intros l El. split; try done. exists rest. auto. }
  destruct (poll_ready t <? 0) eqn:Eready; zify_bools.
  { destruct (poll_eintr t) eqn:Eintr; [by apply Hinv|]. unfold get_. unfold mbind at 1, SM_bind at 1.
    destruct (running_ s1) eqn:Erun; cbn [negb]; by split_and!. }
  pose proof (poll_results_fds t pollfds) as Efds. rewrite Hpoll in Efds.
  destruct (poll_ready t =? 0); [by apply Hinv|].
  destruct (poll_results t pollfds) as [|p rest']; [done|]. cbn [tail] in *.
  rewrite fmap_cons in Efds. injection Efds as Hp Efds. rewrite <-Efds in Hcov.
  destruct (hup_loop_run t 1 rest' [] s1 Hs1) as (s2 & E & Hs2 & Hdom & Hrun2).
  { intros _. cbn [app]. rewrite live_all; [done|]. apply Forall_forall. intros fd [c Hc]%Hcov.
    by apply (clients_nonneg s1 Hs1) in Hc. }
  rewrite E in Hleft, Hacc. cbn [fst] in Hleft, Hacc.
  rewrite (SM_bind_ok _ _ s1 s2 (p :: (closing <$> rest'))) by (by rewrite (SM_bind_ok _ _ _ _ _ E)).
  unfold get_. unfold mbind at 1, SM_bind at 1. destruct (running_ s2) eqn:Er2; cbn [negb]; [|done].
  destruct (Hrun2 eq_refl) as (Er1 & Hlis2 & Hcov2).
  destruct (in_loop_run listen_fd t p (closing <$> rest') s2) as (s3 & p' & v & E3 & (Hs3 & Hlis3 & Hnl3 & Hcov3) & Hp');
    [|done..|].
  { split_and!; [done|by rewrite Hlis2, Hlis1| |done].
    apply not_elem_of_dom. apply not_elem_of_dom in Hnl. set_solver. }
  rewrite (SM_bind_ok _ _ _ _ _ E3). split; [done|by rewrite Hlis3|done|done|].
  exists (live v). split; [done|]. rewrite filter_cons. destruct Hp' as [->|[? ->]].
  - left. rewrite decide_True by lia. by rewrite fmap_cons, fds_filter, Hp.
  - right. rewrite decide_False by (cbn; lia). by rewrite fds_filter.
Qed.

(** ** The server as a step relation *)

(** Between two turns a line is typed on the console or the process is told to
    stop; a turn is made while the server is running. *)
Inductive server_step (listen_fd : Z) : relation (server R * list pollfd) :=
| step_admin line s pollfds : line_ok line →
    server_step listen_fd (s, pollfds) ((submit_admin_line line s).1, pollfds)
| step_stop s pollfds :
    server_step listen_fd (s, pollfds) ((request_stop s).1, pollfds)
| step_turn t s pollfds s' pollfds' : running_ s = true → turn_ok listen_fd t pollfds s →
    loop_turn listen_fd t pollfds s = (s', Ok (Some pollfds')) →
    server_step listen_fd (s, pollfds) (s', pollfds').

(** The head of the loop for the first time, with an empty registry. *)
Definition started (r : R) (listen_fd : Z) (ip : bytes) (port : Z) : server R * list pollfd :=
  ((start listen_fd ip port (initial r)).1, [mkPollfd listen_fd false false]).

Lemma started_inv r listen_fd ip port : reg_ok r → clients r = ∅ → 0 <= listen_fd →
  loop_inv listen_fd (started r listen_fd ip port).2 (started r listen_fd ip port).1.
Proof.
  intros Hr He Hfd. cbn [started fst snd].
  change (start listen_fd ip port (initial r)).1 with
    (mkServer r 1 ∅ ∅ [] true true [View (show_listening ip port)]).
  split; cbn [registry_ running_ listening_]; rewrite ?He; [|done..|].
  - split; cbn [registry_ next_id_ free_ids_ banned_ids_ admin_queue_]; rewrite ?He;
      [done|lia|apply map_Forall_empty|set_solver|set_solver|constructor].
  - exists []. split; [|by left]. cbn [registry_]. rewrite He.
    split; [constructor|]. intros fd. rewrite lookup_empty. split; [set_solver|by intros []].
Qed.

Lemma server_step_inv listen_fd st st' : server_step listen_fd st st' →
  loop_inv listen_fd st.2 st.1 → loop_inv listen_fd st'.2 st'.1.
Proof.
  intros [line s pollfds Hl|s pollfds|t s pollfds s' pollfds' Hrun Ht E] Hinv; cbn [fst snd] in *.
  - destruct Hinv as [[] ? ? ? ?]. split; [|done..]. split; try done.
    by apply Forall_app_2; [|constructor].
  - rewrite request_stop_run. destruct Hinv as [? ? ? ? (rest & Hc & Hp)]. split; [by apply stopped_inv|done..|].
    exists rest. split; [done|]. destruct Hp as [|[_ ?]]; auto.
  - pose proof (loop_turn_run _ _ _ _ Hinv Hrun Ht) as Hres. by rewrite E in Hres.
Qed.

Lemma reachable_inv r listen_fd ip port st : reg_ok r → clients r = ∅ → 0 <= listen_fd →
  rtc (server_step listen_fd) (started r listen_fd ip port) st → loop_inv listen_fd st.2 st.1.
Proof.
  intros Hr He Hfd Hrtc. pose proof (started_inv r listen_fd ip port Hr He Hfd) as Hinv.
  induction Hrtc as [|st st' st'' Hstep _ IH]; [done|]. apply IH. by eapply server_step_inv.
Qed.

(** ** The properties *)

(** C34. Accepting a client.  It gets an id that is not banned and that no client
    has, the least free one if there is one; it is told its id and, when it is the
    first client, to create the room key; every client that was connected before
    is told that it joined, once each. *)
Theorem accept_client_spec s fd err : srv_inv s → ids_left s → 0 <= fd →
  clients (registry_ s) !! fd = None →
  ∃ id s' others,
    accept_client (fd, err) s =
      (with_effects s'
         (View (show_client_connected id) ::
          Sent fd AssignId (encode_assign_id id (bool_decide (clients (registry_ s) = ∅))) ::
          ((λ t, Sent t UserJoined (user_bytes (mkUserInfo id []))) <$> others)),
       Ok [mkPollfd fd false false]) ∧
    srv_inv s' ∧ effects s' = effects s ∧
    clients (registry_ s') = <[fd := mkRecord fd id [] false]> (clients (registry_ s)) ∧
    id ∉ banned_ids_ s ∧ map_Forall (λ _ c, rec_id c ≠ id) (clients (registry_ s)) ∧
    (∀ j, j ∈ free_ids_ s → id <= j) ∧ id ∉ free_ids_ s' ∧
    covers others (clients (registry_ s)).
Proof.
  intros Hs Hleft Hfd Hnew.
  destruct (accept_client_run s fd err Hs Hleft Hfd Hnew)
    as (id & next & r' & E & Hs' & Ecl & Hnb & Hfresh & _ & _ & Hmin).
  eexists id, _, _. split; [exact E|]. split_and!; [done..| |].
  - cbn [with_registry with_ids free_ids_]. set_solver.
  - split; [apply NoDup_filter, NoDup_all_fds|]. intros t.
    rewrite list_elem_of_filter, elem_of_all_fds, negb_true_iff, Z.eqb_neq, Ecl, lookup_insert.
    destruct (decide (fd = t)) as [<-|Hne]; [rewrite Hnew; split; [by intros []|by intros []]|]. naive_solver.
Qed.

(** C35. Removing a client takes it, and only it, out of the registry, closes its
    descriptor, makes its id free again unless it is banned, and tells every
    client that is left, once each. *)
Theorem remove_client_spec s fd c : srv_inv s → clients (registry_ s) !! fd = Some c →
  ∃ s' others,
    remove_client fd s =
      (with_effects s'
         (View (show_client_disconnected (rec_id c) (rec_nickname c)) :: Closed fd ::
          ((λ t, Sent t UserLeft (user_bytes (info_of c))) <$> others)), Ok tt) ∧
    srv_inv s' ∧ effects s' = effects s ∧
    clients (registry_ s') = delete fd (clients (registry_ s)) ∧
    (rec_id c ∈ free_ids_ s' ↔ rec_id c ∉ banned_ids_ s) ∧
    covers others (delete fd (clients (registry_ s))).
Proof.
  intros Hs Hc. destruct (remove_client_run s fd c Hs Hc) as (r' & E & Hs' & Ecl).
  eexists _, _. split; [exact E|]. split_and!; [done..| |].
  - cbn [with_registry with_ids free_ids_]. unfold freed.
    case_decide as Hb; [|set_solver]. split; [|done]. intros Hf _. by apply (si_free s Hs) in Hf as (_ & ? & _).
  - split; [apply NoDup_filter, NoDup_all_fds|]. intros t.
    rewrite list_elem_of_filter, elem_of_all_fds, negb_true_iff, Z.eqb_neq, Ecl.
    split; [by intros [_ ?]|]. intros [c' Hc']. split; [|by eexists]. intros ->.
    apply lookup_delete_Some in Hc' as [_ Hc']. apply (clients_nonneg s Hs) in Hc'. cbn in Hc'. lia.
Qed.

(** C36. Banning ids.  The bans and the free ids are updated for all of them; if
    some were not banned before, exactly the clients that are still not banned
    get one message with the new bans, in the order of the command, and exactly
    the connections of the newly banned clients are shut down. *)
Theorem ban_ids_spec s ids : srv_inv s → Forall server_admin.bannable ids → size_t ids <= 65535 →
  ∃ newly told cut s',
    ban_ids ids s =
      (with_effects s'
         (if decide (newly = []) then [View (show_admin_message (str "no new ids banned"))] else
          ((λ t, Sent t BannedIds (banned_bytes newly)) <$> told) ++ (Shutdown <$> cut) ++
          [View (show_admin_message (str "banned ids=" ++ server_admin.join_ids newly))]), Ok tt) ∧
    srv_inv s' ∧ registry_ s' = registry_ s ∧ effects s' = effects s ∧
    (∀ i, i ∈ banned_ids_ s' ↔ i ∈ ids ∨ i ∈ banned_ids_ s) ∧
    (∀ i, i ∈ free_ids_ s' ↔ i ∈ free_ids_ s ∧ i ∉ ids) ∧
    newly `sublist_of` ids ∧ NoDup newly ∧ (∀ i, i ∈ newly ↔ i ∈ ids ∧ i ∉ banned_ids_ s) ∧
    NoDup told ∧
    (∀ fd, fd ∈ told ↔ ∃ c, clients (registry_ s) !! fd = Some c ∧ rec_id c ∉ banned_ids_ s') ∧
    (∀ fd, fd ∈ cut ↔ ∃ c, clients (registry_ s) !! fd = Some c ∧ rec_id c ∈ newly).
Proof.
  intros Hs Hids Hl.
  exists (new_bans ids (banned_ids_ s)),
    (filter (λ t, not_banned_fd (with_new_bans s ids) t = true) (all_fds (registry_ s))),
    (omap (fd_by_id (registry_ s)) (new_bans ids (banned_ids_ s))), (with_new_bans s ids).
  split_and!.
  - rewrite ban_ids_run; [done| |done]. intros i Hi. rewrite Forall_forall in Hids.
    specialize (Hids i Hi). unfold server_admin.bannable in Hids. lia.
  - by apply new_bans_inv.
  - done.
  - done.
  - intros i. cbn [with_new_bans with_bans banned_ids_]. set_solver.
  - intros i. cbn [with_new_bans with_bans free_ids_]. set_solver.
  - apply sublist_new_bans.
  - apply NoDup_new_bans.
  - intros i. apply elem_of_new_bans.
  - apply NoDup_filter, NoDup_all_fds.
  - intros fd. apply (elem_of_told (with_new_bans s ids)).
  - intros fd. by apply elem_of_cut, Hs.
Qed.

(** Whatever a client sends, or if its connection ends, handling it returns
    normally (the exception handler included), keeps the invariant and the flags,
    and no client is lost but the one whose data is handled. *)
Theorem handle_client_data_returns s fd rx : srv_inv s → rx_ok rx →
  ∃ s', handle_client_data fd rx s = (s', Ok tt) ∧ srv_inv s' ∧
    running_ s' = running_ s ∧ listening_ s' = listening_ s ∧
    ∀ fd', fd' ≠ fd → is_Some (clients (registry_ s') !! fd') ↔ is_Some (clients (registry_ s) !! fd').
Proof.
  intros Hs Hrx.
  destruct (handle_client_data_steady (running_ s) (listening_ s) (dom (clients (registry_ s))) fd rx Hrx s)
    as [(Hs' & Hr & Hl & Hd) [[] Ho]]; [by split_and!; auto|].
  destruct (handle_client_data fd rx s) as [s' o]. cbn [fst snd] in *. subst o.
  exists s'. split_and!; [done..|]. intros fd' Hne. rewrite <-!elem_of_dom.
  destruct Hd as [->| ->]; [done|]. set_solver.
Qed.

(** When the server stops, every client that is connected is shut down and
    closed, once each, and the registry is empty afterwards. *)
Theorem disconnect_all_spec s : srv_inv s →
  ∃ s' fds, disconnect_all_clients s = (s', Ok tt) ∧ srv_inv s' ∧ clients (registry_ s') = ∅ ∧
    covers fds (clients (registry_ s)) ∧
    effects s' = effects s ++ concat (disconnect_effects (clients (registry_ s)) <$> fds).
Proof.
  intros Hs. destruct (disconnect_all_run s Hs) as (s' & E & Hs' & He & _ & _ & Heff).
  exists s', (all_fds (registry_ s)). split_and!; [done..|apply covers_all_fds|done].
Qed.

(** C8. In every state the server can reach from its start, by any interleaving
    of turns, console lines and requests to stop, also in the middle of a turn: the
    ids of the clients are distinct and positive, their nicknames are distinct and
    never [all], a free id is neither banned nor in use, and the loop watches the
    listening socket (unless it has been told to stop) and every connected client,
    once each. *)
Theorem server_reachable r listen_fd ip port s pollfds :
  reg_ok r → clients r = ∅ → 0 <= listen_fd →
  rtc (server_step listen_fd) (started r listen_fd ip port) (s, pollfds) →
  (∀ fd c, clients (registry_ s) !! fd = Some c →
     1 <= rec_id c < 4294967296 ∧ rec_nickname c ≠ str "all") ∧
  (∀ fd1 c1 fd2 c2, clients (registry_ s) !! fd1 = Some c1 → clients (registry_ s) !! fd2 = Some c2 →
     (rec_id c1 = rec_id c2 ∨ rec_nickname c1 = rec_nickname c2 ∧ rec_nickname c1 ≠ []) → fd1 = fd2) ∧
  (∀ i, i ∈ free_ids_ s → i ∉ banned_ids_ s ∧
     ∀ fd c, clients (registry_ s) !! fd = Some c → rec_id c ≠ i) ∧
  (∃ rest, covers rest (clients (registry_ s)) ∧
     (pfd_fd <$> pollfds = listen_fd :: rest ∨ running_ s = false ∧ pfd_fd <$> pollfds = rest)).
Proof.
  intros Hr He Hfd Hrtc. destruct (reachable_inv _ _ _ _ _ Hr He Hfd Hrtc) as [Hs _ _ _ Hpoll].
  cbn [fst snd] in *. split_and!.
  - intros fd c Hc. destruct (si_client s Hs fd c Hc) as (_ & ? & _ & ?). pose proof (si_next s Hs).
    split; [lia|done].
  - intros fd1 c1 fd2 c2 H1 H2 [Hi|[Hn Hne]].
    + by eapply ids_unique; [apply (si_reg s Hs)|..].
    + by eapply nicknames_unique; [apply (si_reg s Hs)|..].
  - intros i Hi. by destruct (si_free s Hs i Hi) as (_ & ? & ?).
  - exact Hpoll.
Qed.

End facts.

(** ** The properties on the small server of ServerHandlers *)

#[global] Instance client_ok_dec next fd c : Decision (client_ok next fd c).
Proof. unfold client_ok, wf_string. apply _. Defined.

Lemma demo_inv : srv_inv demo.
Proof.
  split.
  - exact demo_ok.
  - cbn. lia.
  - apply (bool_decide_unpack _). vm_compute. exact I.
  - intros i Hi. exfalso. revert Hi. apply not_elem_of_empty.
  - intros i Hi. cbn in Hi. apply elem_of_singleton in Hi. lia.
  - constructor.
Qed.

Lemma demo_ids_left : ids_left demo.
Proof. exists 4. split; [cbn; lia|]. apply (bool_decide_unpack _). vm_compute. exact I. Qed.

Lemma accept_client_spec_witness : ∃ id s' others,
  accept_client (8, []) demo =
    (with_effects s' (View (show_client_connected id) :: Sent 8 AssignId (encode_assign_id id false) ::
       ((λ t, Sent t UserJoined (user_bytes (mkUserInfo id []))) <$> others)),
     Ok [mkPollfd 8 false false]) ∧ id ∉ banned_ids_ demo ∧ covers others (clients (registry_ demo)).
Proof.
  destruct (accept_client_spec demo 8 []) as (id & s' & others & E & _ & _ & _ & Hb & _ & _ & _ & Ho).
  - exact demo_inv.
  - exact demo_ids_left.
  - lia.
  - vm_compute. reflexivity.
  - exists id, s', others. split; [exact E|]. split; [exact Hb|exact Ho].
Defined.

Lemma remove_client_spec_witness : ∃ s' others,
  remove_client 6 demo =
    (with_effects s' (View (show_client_disconnected 2 (str "bob")) :: Closed 6 ::
       ((λ t, Sent t UserLeft (user_bytes (mkUserInfo 2 (str "bob")))) <$> others)), Ok tt) ∧
  clients (registry_ s') = delete 6 (clients (registry_ demo)).
Proof.
  destruct (remove_client_spec demo 6 (mkRecord 6 2 (str "bob") true))
    as (s' & others & E & _ & _ & Ec & _).
  - exact demo_inv.
  - vm_compute. reflexivity.
  - exists s', others. split; [exact E|exact Ec].
Defined.

Lemma ban_ids_spec_witness : ∃ newly told cut s',
  ban_ids [3; 2; 2] demo =
    (with_effects s'
       (if decide (newly = []) then [View (show_admin_message (str "no new ids banned"))] else
        ((λ t, Sent t BannedIds (banned_bytes newly)) <$> told) ++ (Shutdown <$> cut) ++
        [View (show_admin_message (str "banned ids=" ++ server_admin.join_ids newly))]), Ok tt) ∧
  ∀ i, i ∈ newly ↔ i ∈ [3; 2; 2] ∧ i ∉ banned_ids_ demo.
Proof.
  destruct (ban_ids_spec demo [3; 2; 2])
    as (newly & told & cut & s' & E & _ & _ & _ & _ & _ & _ & _ & Hn & _).
  - exact demo_inv.
  - repeat constructor; unfold server_admin.bannable; lia.
  - cbn. lia.
  - exists newly, told, cut, s'. split; [exact E|exact Hn].
Defined.

Lemma handle_client_data_returns_witness : ∃ s',
  handle_client_data 5 (Throw (runtime_error (str "PDU too short"))) demo = (s', Ok tt) ∧ srv_inv s'.
Proof.
  destruct (handle_client_data_returns demo 5 (Throw (runtime_error (str "PDU too short"))))
    as (s' & E & Hs' & _).
  - exact demo_inv.
  - split; [cbn; lia|discriminate].
  - exists s'. split; [exact E|exact Hs'].
Defined.

Lemma disconnect_all_spec_witness : ∃ s', disconnect_all_clients demo = (s', Ok tt) ∧
  clients (registry_ s') = ∅.
Proof.
  destruct (disconnect_all_spec demo demo_inv) as (s' & fds & E & _ & He & _).
  exists s'. split; [exact E|exact He].
Defined.

(** A turn in which client 1 hangs up, one is accepted, and a request to stop comes
    in before client 2 says that it ends. *)
Definition demo_turn : turn :=
  mkTurn 3 false (λ i, match i with 0%nat => (false, true) | 1%nat => (true, true) | 2%nat => (false, true) | _ => (false, false) end)
    false (λ _, false) (λ i, bool_decide (i = 2%nat)) (λ _, (8, [])) (λ _, Ok None).

Definition demo_pollfds : list pollfd := (λ fd, mkPollfd fd false false) <$> [4; 5; 6; 7].

Lemma demo_loop_inv : loop_inv 4 demo_pollfds demo.
Proof.
  split.
  - exact demo_inv.
  - done.
  - lia.
  - vm_compute. reflexivity.
  - exists [5; 6; 7]. split; [|by left]. change (covers [5; 6; 7] (clients (registry_ demo))).
    assert ([5; 6; 7] ≡ₚ all_fds (registry_ demo)) as ->; [|apply covers_all_fds].
    apply (bool_decide_unpack _). vm_compute. exact I.
Qed.

Lemma demo_turn_ok : turn_ok 4 demo_turn demo_pollfds demo.
Proof.
  split_and!.
  - intros i. split; [exact I|discriminate].
  - reflexivity.
  - exists 4. split; [vm_compute; split; discriminate || reflexivity|].
    apply (bool_decide_unpack _). vm_compute. exact I.
  - intros _. split; [discriminate|vm_compute; reflexivity].
Qed.

Example demo_turn_result : turn_result 4 demo_turn (loop_turn 4 demo_turn demo_pollfds demo).
Proof. apply loop_turn_run; [exact demo_loop_inv|reflexivity|exact demo_turn_ok]. Qed.

(** From the start: id 1 is banned on the console, then a client is accepted. *)
Definition boot_turn : turn :=
  mkTurn 1 false (λ i, (false, bool_decide (i = 0%nat))) false (λ _, false) (λ _, false) (λ _, (5, [])) (λ _, Ok None).

Definition boot : server ClientRegistry * list pollfd :=
  started empty_registry 4 (str "127.0.0.1") 1502.
Definition boot_admin : server ClientRegistry * list pollfd :=
  ((submit_admin_line (str "ban:1") boot.1).1, boot.2).
Definition boot_accepted : server ClientRegistry * list pollfd :=
  match loop_turn 4 boot_turn boot_admin.2 boot_admin.1 with
  | (s, Ok (Some pollfds)) => (s, pollfds)
  | (s, _) => (s, [])
  end.

Lemma boot_steps : rtc (server_step 4) boot boot_accepted.
Proof.
  apply rtc_l with boot_admin; [|apply rtc_once].
  - apply (step_admin 4 (str "ban:1") boot.1 boot.2). vm_compute. discriminate.
  - change boot_admin with (boot_admin.1, boot_admin.2). rewrite (surjective_pairing boot_accepted).
    apply (step_turn 4 boot_turn); [reflexivity| |vm_compute; reflexivity]. split_and!.
    + intros i. split; [exact I|discriminate].
    + discriminate.
    + exists 2. split; [vm_compute; split; discriminate || reflexivity|].
      apply (bool_decide_unpack _). vm_compute. exact I.
    + intros _. split; [discriminate|vm_compute; reflexivity].
Qed.

Lemma server_reachable_witness :
  clients (registry_ boot_accepted.1) !! 5 = Some (mkRecord 5 2 [] false) ∧
  ∃ rest, covers rest (clients (registry_ boot_accepted.1)) ∧ pfd_fd <$> boot_accepted.2 = 4 :: rest.
Proof.
  split; [vm_compute; reflexivity|].
  destruct (server_reachable empty_registry 4 (str "127.0.0.1") 1502 boot_accepted.1 boot_accepted.2)
    as (_ & _ & _ & rest & Hc & Hp).
  - exact reg_inv_empty.
  - reflexivity.
  - lia.
  - rewrite <-surjective_pairing. exact boot_steps.
  - exists rest. split; [exact Hc|]. destruct Hp as [Hp|[Hr _]]; [exact Hp|]. vm_compute in Hr. discriminate Hr.
Defined.

End server_loop.
