(* ===== verification/ChatService.v ===== *)
(** * What the server promises: a chat room

    An abstract specification of the server, without registry, id pool, poll set or
    bytes: a room has members, each on a connection with an id and a nickname, a set
    of banned ids, and a sign that it is going to close, after which broken
    connections are no longer looked at.  [respond] says, for every input of the room, which messages
    go to which connections and which connections are ended; where the order is up
    to the server (the members of a broadcast) any order is allowed.  ServerRefines
    proves that the server implements it; here are the facts about every run of a
    room. *)
From S2P Require Import Prelude.
From S2P Require Import ModbusTcp.
From S2P Require Import Protocol.
From S2P Require Import CppString.
From S2P Require Import AdminCommandParser.
From S2P Require Import ClientRegistry.
From S2P Require Import ServerHandlers.

Module chat_service.
Import protocol.

Record member := mkMember { m_id : Z; m_name : bytes }.
Record room := mkRoom { members : gmap Z member; banned : gset Z; stopping : bool }.
Definition empty_room : room := mkRoom ∅ ∅ false.

(** Somebody connects (negative: the attempt failed), a connection breaks, something
    is read from it, a line is typed on the console, the server is told to stop, the
    server closes. *)
Inductive input :=
| Connect (c : Z)
| Gone (c : Z)
| Data (c : Z) (rx : outcome (option AppMessage))
| Console (line : bytes)
| Stop
| Close.

(** A message to a connection, the end of a connection, and a connection that is
    shut down so that its end will be seen. *)
Inductive output :=
| Tell (c : Z) (m : AppMessage)
| Hangup (c : Z)
| Cut (c : Z).

(** ** Messages *)

Definition tell_all (ts : list Z) (m : AppMessage) : list output := (λ t, Tell t m) <$> ts.
Definition refuse (c : Z) (text : bytes) : list output := [Tell c (mkMessage Error (PError (mkError text)))].
Definition assigned (id : Z) (create : bool) : AppMessage := mkMessage AssignId (PAssignId (mkAssignId id create)).
Definition joined (id : Z) (n : bytes) : AppMessage := mkMessage UserJoined (PUserJoined (mkUserJoined id n)).
Definition left_ (m : member) : AppMessage := mkMessage UserLeft (PUserLeft (mkUserLeft (m_id m) (m_name m))).
Definition passed (dt : MsgType) (m : member) (chat : ChatPayload) : AppMessage :=
  mkMessage dt (PDeliver (mkDeliver (m_id m) (chat_text chat))).
Definition user_of (m : member) : UserInfo := mkUserInfo (m_id m) (m_name m).

(** ** Who hears what *)

Definition everyone (r : room) : list Z := elements (dom (members r)).
Definition others (r : room) (c : Z) : list Z := elements (dom (delete c (members r))).
Definition allowed (r : room) (c : Z) : Prop := ∃ m, members r !! c = Some m ∧ m_id m ∉ banned r.

Definition names (to : Recipient) (m : member) : Prop :=
  match to with
  | ToId i => m_id m = i
  | ToNickname n => n ≠ [] ∧ m_name m = n
  | ToAll => False
  end.

Definition request (t : MsgType) : bool :=
  match t with Register | Chat | KeyOffer | RoomKeyOffer | ListUsers => true | _ => false end.

(** A request of the member [m] on connection [c]. *)
Inductive serve (r : room) (c : Z) (m : member) : AppMessage → list output → room → Prop :=
| serve_rename n ts : n ≠ [] → n ≠ str "all" →
    (∀ c' m', members r !! c' = Some m' → m_name m' = n → c' = c) → ts ≡ₚ others r c →
    serve r c m (mkMessage Register (PRegister (mkRegister n))) (tell_all ts (joined (m_id m) n))
      (mkRoom (<[c := mkMember (m_id m) n]> (members r)) (banned r) (stopping r))
| serve_no_rename n text :
    n = [] ∨ n = str "all" ∨ (∃ c' m', members r !! c' = Some m' ∧ m_name m' = n ∧ c' ≠ c) →
    serve r c m (mkMessage Register (PRegister (mkRegister n))) (refuse c text) r
| serve_everyone t dt label chat ts : server.relay_type t = Some (dt, label) →
    addressed_to chat = Some ToAll → NoDup ts → (∀ t, t ∈ ts ↔ t ≠ c ∧ allowed r t) →
    serve r c m (mkMessage t (PChat chat)) (tell_all ts (passed dt m chat)) r
| serve_one t dt label chat to c' m' : server.relay_type t = Some (dt, label) →
    addressed_to chat = Some to → names to m' → members r !! c' = Some m' → m_id m' ∉ banned r →
    serve r c m (mkMessage t (PChat chat)) [Tell c' (passed dt m chat)] r
| serve_banned t dt label chat to c' m' text : server.relay_type t = Some (dt, label) →
    addressed_to chat = Some to → names to m' → members r !! c' = Some m' → m_id m' ∈ banned r →
    serve r c m (mkMessage t (PChat chat)) (refuse c text) r
| serve_nobody t dt label chat to text : server.relay_type t = Some (dt, label) →
    addressed_to chat = Some to → to ≠ ToAll → (∀ c' m', members r !! c' = Some m' → ¬ names to m') →
    serve r c m (mkMessage t (PChat chat)) (refuse c text) r
| serve_list us : Sorted server_model.user_le us → us ≡ₚ (λ x, user_of x.2) <$> map_to_list (members r) →
    size_t us <= 65535 →
    serve r c m (mkMessage ListUsers PListUsers) [Tell c (mkMessage UsersList (PUsersList (mkUsersList us)))] r
| serve_no_list text : 65535 < Z.of_nat (size (members r)) →
    serve r c m (mkMessage ListUsers PListUsers) (refuse c text) r
| serve_unsupported msg text : request (msg_type msg) = false → serve r c m msg (refuse c text) r.

(** A member leaves: the connection is ended and everyone left is told. *)
Inductive depart (r : room) (c : Z) : list output → room → Prop :=
| departs m ts : members r !! c = Some m → ts ≡ₚ others r c →
    depart r c (Hangup c :: tell_all ts (left_ m)) (mkRoom (delete c (members r)) (banned r) (stopping r)).

(** ** The room *)

Inductive respond (r : room) : input → list output → room → Prop :=
| connect_fails c : c < 0 → respond r (Connect c) [] r
| connects c id ts : 0 <= c → members r !! c = None → 1 <= id → id ∉ banned r →
    (∀ c' m', members r !! c' = Some m' → m_id m' ≠ id) → ts ≡ₚ everyone r →
    respond r (Connect c)
      (Tell c (assigned id (bool_decide (members r = ∅))) :: tell_all ts (joined id []))
      (mkRoom (<[c := mkMember id []]> (members r)) (banned r) (stopping r))
| goes c outs r' : stopping r = false → depart r c outs r' → respond r (Gone c) outs r'
| goes_unseen c : stopping r = true → respond r (Gone c) [] r
| goes_stranger c : members r !! c = None → respond r (Gone c) [] r
| ends c m rx outs r' : members r !! c = Some m → m_id m ∈ banned r ∨ rx = Ok None ∧ stopping r = false →
    depart r c outs r' → respond r (Data c rx) outs r'
| ends_unseen c m : members r !! c = Some m → m_id m ∉ banned r → stopping r = true →
    respond r (Data c (Ok None)) [] r
| garbled c m e : members r !! c = Some m → m_id m ∉ banned r →
    respond r (Data c (Throw e)) (refuse c (what e)) r
| asks c m msg outs r' : members r !! c = Some m → m_id m ∉ banned r → serve r c m msg outs r' →
    respond r (Data c (Ok (Some msg))) outs r'
| console_help line : server_admin.parse_admin_command line = None → respond r (Console line) [] r
| console_old line cmd : server_admin.parse_admin_command line = Some cmd →
    (∀ i, i ∈ server_admin.ids cmd → i ∈ banned r) → respond r (Console line) [] r
| console_bans line cmd newly told cut (b' := list_to_set (server_admin.ids cmd) ∪ banned r) :
    server_admin.parse_admin_command line = Some cmd →
    newly ≠ [] → NoDup newly → (∀ i, i ∈ newly ↔ i ∈ server_admin.ids cmd ∧ i ∉ banned r) →
    NoDup told → (∀ c, c ∈ told ↔ allowed (mkRoom (members r) b' (stopping r)) c) →
    NoDup cut → (∀ c, c ∈ cut ↔ ∃ m, members r !! c = Some m ∧ m_id m ∈ newly) →
    respond r (Console line)
      (tell_all told (mkMessage BannedIds (PBannedIds (mkBannedIds newly))) ++ (Cut <$> cut))
      (mkRoom (members r) b' (stopping r))
| stops ts : ts ≡ₚ everyone r → respond r Stop (Cut <$> ts) (mkRoom (members r) (banned r) true)
| closes ts : stopping r = true → ts ≡ₚ everyone r →
    respond r Close (ts ≫= λ c, [Cut c; Hangup c]) (mkRoom ∅ (banned r) true).

(** A run: the inputs in order, and all that was put out. *)
Inductive runs : room → list input → list output → room → Prop :=
| runs_nil r : runs r [] [] r
| runs_snoc r ins outs r1 i os r2 : runs r ins outs r1 → respond r1 i os r2 →
    runs r (ins ++ [i]) (outs ++ os) r2.

Lemma runs_one r i os r' : respond r i os r' → runs r [i] os r'.
Proof. intros Hr. apply (runs_snoc r [] [] r i os r'); [constructor|done]. Qed.

Lemma runs_app r1 i1 o1 r2 i2 o2 r3 : runs r1 i1 o1 r2 → runs r2 i2 o2 r3 → runs r1 (i1 ++ i2) (o1 ++ o2) r3.
Proof.
  intros H1 H2. revert H1. induction H2 as [r|r ins outs r' i os r'' _ IH Hr]; intros H1.
  - by rewrite !app_nil_r.
  - rewrite !app_assoc. by eapply runs_snoc; [apply IH|].
Qed.

(** ** Where a relayed message comes from *)

Lemma elem_of_tell_all t msg ts m : Tell t msg ∈ tell_all ts m ↔ t ∈ ts ∧ msg = m.
Proof. unfold tell_all. rewrite list_elem_of_fmap. naive_solver. Qed.

(** The types of relayed messages. *)
Definition relays (t : MsgType) : bool :=
  match t with Deliver | PeerKey | RoomKey => true | _ => false end.

(** A message of a member to [t], as [t] gets it. *)
Definition heard (r : room) (c t : Z) (msg m : AppMessage) : Prop :=
  ∃ sender dt label chat target, members r !! c = Some sender ∧ m_id sender ∉ banned r ∧
    msg = mkMessage (msg_type msg) (PChat chat) ∧ server.relay_type (msg_type msg) = Some (dt, label) ∧
    m = passed dt sender chat ∧ members r !! t = Some target ∧ m_id target ∉ banned r ∧
    (addressed_to chat = Some ToAll ∧ t ≠ c ∨ ∃ to, addressed_to chat = Some to ∧ names to target).

Lemma serve_passed r c m msg outs r' t dm : serve r c m msg outs r' →
  members r !! c = Some m → m_id m ∉ banned r →
  Tell t dm ∈ outs → relays (msg_type dm) = true → heard r c t msg dm.
Proof.
  intros Hs Hc Hb Hin Hp.
  destruct Hs as [n ts| |ty dt label chat ts Ht Ha _ Hts|ty dt label chat to c' m' Ht Ha Hn Hc' Hb'| | | | |].
  - apply elem_of_tell_all in Hin as [_ ->]. done.
  - apply list_elem_of_singleton in Hin. by simplify_eq.
  - apply elem_of_tell_all in Hin as [Hin ->]. apply Hts in Hin as [Hne (m' & Hm' & Hb')].
    exists m, dt, label, chat, m'. split_and!; try done. by left.
  - apply list_elem_of_singleton in Hin. simplify_eq. exists m, dt, label, chat, m'. split_and!; try done.
    right. by exists to.
  - apply list_elem_of_singleton in Hin. by simplify_eq.
  - apply list_elem_of_singleton in Hin. by simplify_eq.
  - apply list_elem_of_singleton in Hin. by simplify_eq.
  - apply list_elem_of_singleton in Hin. by simplify_eq.
  - apply list_elem_of_singleton in Hin. by simplify_eq.
Qed.

Lemma depart_told r c outs r' t m : depart r c outs r' → Tell t m ∈ outs →
  ∃ u, members r !! c = Some u ∧ m = left_ u.
Proof.
  intros [u ts Hu _] [?|Hin]%elem_of_cons; [done|]. apply elem_of_tell_all in Hin as [_ ->]. eauto.
Qed.

Lemma respond_passed r i outs r' t dm : respond r i outs r' → Tell t dm ∈ outs → relays (msg_type dm) = true →
  ∃ c msg, i = Data c (Ok (Some msg)) ∧ heard r c t msg dm.
Proof.
  intros Hr Hin Hp.
  destruct Hr as [|c id ts|c outs r' _ Hd| | |c m rx outs r' _ _ Hd| |c m e|c m msg outs r' Hc Hb Hs| |
    |line cmd newly told cut|ts|ts]; try by apply elem_of_nil in Hin.
  - apply elem_of_cons in Hin as [Hin|Hin]; [by simplify_eq|]. apply elem_of_tell_all in Hin as [_ ->]. done.
  - destruct (depart_told _ _ _ _ _ _ Hd Hin) as (u & _ & ->). done.
  - destruct (depart_told _ _ _ _ _ _ Hd Hin) as (u & _ & ->). done.
  - apply list_elem_of_singleton in Hin. by simplify_eq.
  - exists c, msg. split; [done|]. by eapply serve_passed.
  - apply elem_of_app in Hin as [Hin|Hin]; [by apply elem_of_tell_all in Hin as [_ ->]|].
    by apply list_elem_of_fmap in Hin as (? & ? & _).
  - by apply list_elem_of_fmap in Hin as (? & ? & _).
  - apply list_elem_of_bind in Hin as (? & Hin & _). rewrite !elem_of_cons, elem_of_nil in Hin. naive_solver.
Qed.

(** In a run, every relayed message was read before from a member that had the id
    under which it was relayed. *)
Lemma runs_passed r0 ins outs r t dm : runs r0 ins outs r → Tell t dm ∈ outs → relays (msg_type dm) = true →
  ∃ before c msg after outs1 r1, ins = before ++ Data c (Ok (Some msg)) :: after ∧
    runs r0 before outs1 r1 ∧ heard r1 c t msg dm.
Proof.
  intros Hruns Hin Hp. induction Hruns as [r|r ins outs r1 i os r2 Hruns IH Hr]; [by apply elem_of_nil in Hin|].
  apply elem_of_app in Hin as [Hin|Hin].
  - destruct (IH Hin) as (b & c & msg & a & o1 & r' & -> & Hb & Hh). exists b, c, msg, (a ++ [i]), o1, r'.
    split; [|done]. by rewrite <-app_assoc.
  - destruct (respond_passed _ _ _ _ _ _ Hr Hin Hp) as (c & msg & -> & Hh).
    by exists ins, c, msg, [], outs, r1.
Qed.

End chat_service.
