(* ===== verification/ServerRefines.v ===== *)
(** * The server implements the chat room of ChatService

    The server's state is a room ([room_of]), and what it does to the outside, calls
    of the view aside, is what the room puts out, a message being sent as the bytes
    of its encoder ([shows]).  The inputs of a turn of the poll loop are read off
    what the outside does in it ([inputs_of]): the console lines that were queued,
    requests to stop, the connections that broke, the connection accepted and the
    data received, in the order in which the loop takes them.  An [execution] goes
    from the head of the loop through turns, lines and requests to the end of [run]. *)
From S2P Require Import Prelude.
From S2P Require Import ModbusTcp.
From S2P Require Import Protocol.
From S2P Require Import Transport.
From S2P Require Import CppString.
From S2P Require Import ClientRegistry.
From S2P Require Import AdminCommandParser.
From S2P Require Import ServerHandlers.
From S2P Require Import ServerViewModel.
From S2P Require Import ServerLoop.
From S2P Require Import ChatService.

Module server_refines.
Import protocol ModbusMessageTransport server_model server server_viewmodel server_loop chat_service.

(** ** Effects and outputs *)

Inductive shows : effect → output → Prop :=
| shows_sent fd m p : encode_payload (msg_payload m) = Ok p → shows (Sent fd (msg_type m) p) (Tell fd m)
| shows_closed fd : shows (Closed fd) (Hangup fd)
| shows_shutdown fd : shows (Shutdown fd) (Cut fd).

Definition is_view (e : effect) : bool := match e with View _ => true | _ => false end.
Definition outward (es : list effect) : list effect := filter (λ e, is_view e = false) es.

Lemma outward_app a b : outward (a ++ b) = outward a ++ outward b.
Proof. apply filter_app. Qed.

Lemma outward_cons e es : outward (e :: es) = if is_view e then outward es else e :: outward es.
Proof. unfold outward. rewrite filter_cons. by destruct (is_view e). Qed.

Lemma outward_sent ts (f : Z → effect) : (∀ t, is_view (f t) = false) → outward (f <$> ts) = f <$> ts.
Proof.
  intros Hf. unfold outward. induction ts as [|t ts IH]; [done|]. rewrite fmap_cons, filter_cons, decide_True by done.
  by rewrite IH.
Qed.

(** One message to many. *)
Lemma shows_all ts m p : encode_payload (msg_payload m) = Ok p →
  Forall2 shows (outward ((λ t, Sent t (msg_type m) p) <$> ts)) (tell_all ts m).
Proof.
  intros Hp. rewrite outward_sent by done. unfold tell_all. apply Forall2_fmap, Forall_Forall2_diag, Forall_true.
  intros t. by constructor.
Qed.

Lemma shows_refuse fd text : wf_string text → Forall2 shows [Sent fd Error (lstr text)] (refuse fd text).
Proof.
  intros Hw. constructor; [|constructor].
  apply (shows_sent fd (mkMessage Error (PError (mkError text)))). by apply encode_string_iff.
Qed.

Lemma shows_cut ts : Forall2 shows (outward (Shutdown <$> ts)) (Cut <$> ts).
Proof.
  rewrite outward_sent by done. apply Forall2_fmap, Forall_Forall2_diag, Forall_true. intros t. constructor.
Qed.

Section refines.
Context {R : Type} `{RegistryLaws R}.
Implicit Types s : server R.

Definition member_of (c : ClientRecord) : member := mkMember (rec_id c) (rec_nickname c).
Definition room_of s : room := mkRoom (member_of <$> clients (registry_ s)) (banned_ids_ s) (negb (running_ s)).

Lemma room_of_effects s es : room_of (with_effects s es) = room_of s.
Proof. done. Qed.

Lemma room_member s fd c : clients (registry_ s) !! fd = Some c → members (room_of s) !! fd = Some (member_of c).
Proof. intros Hc. cbn. by rewrite lookup_fmap, Hc. Qed.

Lemma room_member_inv s fd m : members (room_of s) !! fd = Some m →
  ∃ c, clients (registry_ s) !! fd = Some c ∧ m = member_of c.
Proof. cbn. rewrite lookup_fmap. intros (c & -> & Hc)%fmap_Some. eauto. Qed.

Lemma covers_perm fds (m : gmap Z ClientRecord) : covers fds m → fds ≡ₚ elements (dom (member_of <$> m)).
Proof.
  intros [Hnd Hm]. apply NoDup_Permutation; [done|apply NoDup_elements|].
  intros t. by rewrite elem_of_elements, dom_fmap_L, elem_of_dom.
Qed.

Lemma covers_others s fd fds : covers fds (delete fd (clients (registry_ s))) → fds ≡ₚ others (room_of s) fd.
Proof. intros Hc. unfold others. cbn. rewrite <-fmap_delete. by apply covers_perm. Qed.

(** The server goes from [s] to [s'] as the room does on the inputs. *)
Definition tracks (ins : list input) s s' : Prop :=
  ∃ es outs, effects s' = effects s ++ es ∧ Forall2 shows (outward es) outs ∧
    runs (room_of s) ins outs (room_of s').

Lemma tracks_refl s : tracks [] s s.
Proof. exists [], []. rewrite app_nil_r. split_and!; [done|constructor..]. Qed.

Lemma tracks_trans i1 i2 s1 s2 s3 : tracks i1 s1 s2 → tracks i2 s2 s3 → tracks (i1 ++ i2) s1 s3.
Proof.
  intros (e1 & o1 & E1 & F1 & R1) (e2 & o2 & E2 & F2 & R2). exists (e1 ++ e2), (o1 ++ o2).
  rewrite E2, E1, app_assoc, outward_app. split_and!; [done|by apply Forall2_app|by eapply runs_app].
Qed.

(** One input. *)
Lemma tracks_respond i s s' es outs : effects s' = effects s ++ es → Forall2 shows (outward es) outs →
  respond (room_of s) i outs (room_of s') → tracks [i] s s'.
Proof. intros E F Hr. exists es, outs. split_and!; [done..|by apply runs_one]. Qed.

(** ** Connections *)

Lemma accept_tracks s acc : srv_inv s → ids_left s →
  (0 <= acc.1 → clients (registry_ s) !! acc.1 = None) → tracks [Connect acc.1] s (accept_client acc s).1.
Proof.
  intros Hs Hleft Hnew. destruct acc as [fd err]. cbn [fst] in *. destruct (decide (0 <= fd)) as [Hfd|Hfd].
  - destruct (accept_client_run s fd err Hs Hleft Hfd (Hnew Hfd))
      as (id & next & r' & E & Hs' & Ecl & Hnb & Hfresh & Hid & _ & _). rewrite E. cbn [fst].
    set (ts := filter _ _). assert (covers ts (clients (registry_ s))) as Hts.
    { split; [apply NoDup_filter, NoDup_all_fds|]. intros t. unfold ts.
      rewrite list_elem_of_filter, elem_of_all_fds, negb_true_iff, Z.eqb_neq, Ecl, lookup_insert.
      destruct (decide (fd = t)) as [<-|Hne]; [rewrite (Hnew Hfd); split; [by intros []|by intros []]|].
      clear -Hne. naive_solver. }
    eapply tracks_respond; [done| |].
    + rewrite !outward_cons. cbn [is_view]. constructor.
      * by apply (shows_sent fd (assigned id (bool_decide (clients (registry_ s) = ∅)))).
      * apply (shows_all ts (joined id [])). apply encode_user_info_iff. split; [unfold wf_string; cbn; lia|done].
    + replace (bool_decide (clients (registry_ s) = ∅)) with (bool_decide (members (room_of s) = ∅)).
      * unfold room_of at 4. cbn. rewrite Ecl, fmap_insert.
        apply connects; [done| |lia|done| |by apply covers_perm].
        -- cbn. by rewrite lookup_fmap, Hnew.
        -- intros c' m' (c & Hc & ->)%room_member_inv. by apply (Hfresh c' c).
      * apply bool_decide_ext. cbn. apply fmap_empty_iff.
  - unfold accept_client. destruct (Z.ltb_spec fd 0); [|lia]. eapply tracks_respond; [done|constructor|].
    apply connect_fails. lia.
Qed.

(** A client is removed: it departs. *)
Lemma remove_departs s fd c : srv_inv s → clients (registry_ s) !! fd = Some c →
  ∃ es outs, effects (remove_client fd s).1 = effects s ++ es ∧ Forall2 shows (outward es) outs ∧
    depart (room_of s) fd outs (room_of (remove_client fd s).1).
Proof.
  intros Hs Hc. destruct (remove_client_run s fd c Hs Hc) as (r' & E & Hs' & Ecl). rewrite E. cbn [fst].
  set (ts := filter _ _). assert (covers ts (delete fd (clients (registry_ s)))) as Hts.
  { split; [apply NoDup_filter, NoDup_all_fds|]. intros t. unfold ts.
    rewrite list_elem_of_filter, elem_of_all_fds, negb_true_iff, Z.eqb_neq, Ecl.
    split; [by intros [_ ?]|]. intros [c' Hc']. split; [|by eexists]. intros ->.
    apply lookup_delete_Some in Hc' as [_ Hc']. apply (clients_nonneg s Hs) in Hc'. cbn in Hc'. lia. }
  eexists _, _. split_and!; [done| |].
  - rewrite !outward_cons. cbn [is_view]. constructor; [constructor|].
    apply (shows_all ts (left_ (member_of c))). apply encode_user_info_iff.
    split; [by apply (si_client s Hs _ _ Hc)|done].
  - unfold room_of at 2. cbn. rewrite Ecl, fmap_delete.
    apply (departs (room_of s)); [by apply room_member|by apply covers_others].
Qed.

Lemma remove_tracks s fd : srv_inv s → running_ s = true → tracks [Gone fd] s (remove_client fd s).1.
Proof.
  intros Hs Hrun. destruct (clients (registry_ s) !! fd) as [c|] eqn:Hc.
  - destruct (remove_departs s fd c Hs Hc) as (es & outs & E & F & Hd).
    eapply tracks_respond; [done..|]. apply goes; [|done]. cbn. by rewrite Hrun.
  - destruct (remove_client_none s fd Hs Hc) as (r' & -> & _ & Ecl). apply (tracks_respond _ _ _ [] []).
    + by rewrite app_nil_r.
    + constructor.
    + unfold room_of at 2. cbn. rewrite Ecl. apply goes_stranger. cbn. by rewrite lookup_fmap, Hc.
Qed.

(** ** Requests *)

(** The handler of an exception in [handle_client_data]. *)
Definition answered (fd : Z) (res : server R * outcome unit) : server R :=
  match res with
  | (s', Throw e) => with_effects s' [View (show_decode_error (what e)); Sent fd Error (lstr (what e))]
  | (s', _) => s'
  end.

Lemma handle_message s fd c m : may_send s fd c → wf_message m → srv_inv s →
  (handle_client_data fd (Ok (Some m)) s).1 = answered fd (dispatch create_message_dispatcher fd m s).
Proof.
  intros (Hr & Hc & Hb) Hwf Hs. unfold handle_client_data, try_catch.
  rewrite bind_registry, law_find, Hc, bind_is_banned, bool_decide_eq_false_2 by done.
  rewrite (bind_lift_ok _ (Some m)) by done.
  assert (safe srv_inv (dispatch (R:=R) create_message_dispatcher fd m)) as Hsafe.
  { apply dispatch_safe; [done|apply srv_inv_effects|apply clients_nickname_inv|done]. }
  destruct (Hsafe s Hs) as [_ Hres]. destruct (dispatch _ fd m s) as [s' [[]|e|]]; [done| |done].
  cbn in Hres. rewrite bind_view, send_error_run by done. cbn [fst answered]. by rewrite with_effects_app.
Qed.

(** What comes of a [send_error], the exception of a text that is too long included. *)
Lemma refused s fd text es : outward es = [] →
  ∃ es' text', answered fd (send_error fd text (with_effects s es)) = with_effects s es' ∧
    Forall2 shows (outward es') (refuse fd text').
Proof.
  intros Hes. destruct (decide (wf_string text)) as [Hwf|Hwf].
  - rewrite send_error_run by done. cbn [answered]. rewrite with_effects_app. eexists _, text. split; [done|].
    rewrite outward_app, Hes, outward_cons. cbn [is_view app]. by apply shows_refuse.
  - unfold send_error, encode_error. 
    assert (∃ e, encode_string text = Throw e ∧ wf_string (what e)) as (e & E & He).
    { unfold encode_string, wf_string, kMaxU16Count in *. rewrite decide_True by lia. eexists. split; [done|]. cbn. lia. }
    unfold mbind at 1, SM_bind at 1, lift. rewrite E. cbn [answered]. rewrite with_effects_app.
    eexists _, (what e). split; [done|]. rewrite outward_app, Hes, !outward_cons. cbn [is_view app].
    by apply shows_refuse.
Qed.

(** The member's request is served. *)
Definition serves s fd c m s' : Prop :=
  ∃ es outs, effects s' = effects s ++ es ∧ Forall2 shows (outward es) outs ∧
    serve (room_of s) fd (member_of c) m outs (room_of s').

Lemma serves_refusal s fd c m text es : outward es = [] →
  (∀ text, serve (room_of s) fd (member_of c) m (refuse fd text) (room_of s)) →
  serves s fd c m (answered fd (send_error fd text (with_effects s es))).
Proof.
  intros Hes Hr. destruct (refused s fd text es Hes) as (es' & text' & -> & F). by exists es', (refuse fd text').
Qed.

Lemma names_addressee to c : names to (member_of c) ↔ is_addressee to c.
Proof. by destruct to. Qed.

#[local] Instance is_addressee_dec to c : Decision (is_addressee to c).
Proof. destruct to; cbn [is_addressee]; apply _. Defined.

Lemma relay_serves s fd c t dt label chat : may_send s fd c → wf_chat chat → relay_type t = Some (dt, label) →
  serves s fd c (mkMessage t (PChat chat))
    (answered fd (dispatch create_message_dispatcher fd (mkMessage t (PChat chat)) s)).
Proof.
  intros Hs Hwf Ht. destruct (addressed_to_total chat Hwf) as [to Ha].
  assert (encode_payload (msg_payload (passed dt (member_of c) chat)) = Ok (relayed c chat)) as Hp
    by by apply encode_relayed.
  assert (to = ToAll ∨ to ≠ ToAll) as [->|Hne] by (destruct to; auto).
  - destruct (relay_broadcast_aux s fd c t dt label chat Ht Hs Hwf) as (l & ts & -> & Hnd & Hts).
    { by apply addressed_to_wf in Ha. }
    eexists _, (tell_all ts (passed dt (member_of c) chat)). split_and!; [done| |].
    + rewrite outward_cons. cbn [is_view]. by apply (shows_all ts (passed dt (member_of c) chat)).
    + apply (serve_everyone _ _ _ _ _ label); [done..|]. intros t'. rewrite Hts. unfold allowed.
      split; intros [Hx (c' & Hc' & Hb)]; (split; [done|]).
      * exists (member_of c'). split; [by apply room_member|done].
      * apply room_member_inv in Hc' as (c2 & Hc2 & ->). eauto.
  - destruct (relay_unicast_aux s fd c t dt label chat to Ht Hs Hwf Ha Hne) as (l & Hone & Hnone). cbn zeta in *.
    destruct (decide (map_Exists (λ _ c', is_addressee to c') (clients (registry_ s)))) as [(t' & c' & Hc' & Hx)|Hno].
    + rewrite (Hone t' c' Hc' Hx). case_decide as Hb.
      * apply serves_refusal; [done|]. intros text. eapply (serve_banned _ _ _ _ _ _ _ to t' (member_of c'));
          [done|done|by apply names_addressee|by apply room_member|done].
      * cbn [answered]. rewrite with_effects_app. eexists _, [Tell t' (passed dt (member_of c) chat)].
        split_and!; [done| |].
        -- cbn [app]. rewrite !outward_cons. cbn [is_view]. constructor; [|constructor].
           by apply (shows_sent t' (passed dt (member_of c) chat)).
        -- eapply (serve_one _ _ _ _ _ _ _ to t' (member_of c'));
             [done|done|by apply names_addressee|by apply room_member|done].
    + rewrite Hnone by (intros t' c' Hc' Hx; apply Hno; by exists t', c').
      apply serves_refusal; [done|]. intros text. eapply serve_nobody; [done|done|done|].
      intros t' m' (c' & Hc' & ->)%room_member_inv Hx%names_addressee. apply Hno. by exists t', c'.
Qed.

Lemma register_serves s fd c n : may_send s fd c → wf_string n →
  serves s fd c (mkMessage Register (PRegister (mkRegister n)))
    (answered fd (dispatch create_message_dispatcher fd (mkMessage Register (PRegister (mkRegister n))) s)).
Proof.
  intros (Hr & Hc & _) Hn. pose proof (register_nickname_aux s fd c n Hr Hc Hn) as Hrun. cbn zeta in Hrun.
  assert (∀ text, wf_string (str text) → (∀ text, serve (room_of s) fd (member_of c)
      (mkMessage Register (PRegister (mkRegister n))) (refuse fd text) (room_of s)) →
    serves s fd c (mkMessage Register (PRegister (mkRegister n))) (with_effects s [Sent fd Error (lstr (str text))])) as Href.
  { intros text Hw Hs. exists [Sent fd Error (lstr (str text))], (refuse fd (str text)).
    split_and!; [done|by apply shows_refuse|done]. }
  case_decide as H1. { rewrite Hrun. cbn [answered]. apply Href; [unfold wf_string; cbn; lia|]. intros; apply serve_no_rename; auto. }
  case_decide as H2. { rewrite Hrun. cbn [answered]. apply Href; [unfold wf_string; cbn; lia|]. intros; apply serve_no_rename; auto. }
  destruct Hrun as [Htaken Hfree].
  destruct (decide (map_Exists (λ fd' c', rec_nickname c' = n ∧ fd' ≠ fd) (clients (registry_ s))))
    as [(fd' & c' & Hc' & Hn' & Hne)|Hno].
  - rewrite (Htaken fd' c' Hc' Hn' Hne). cbn [answered]. apply Href; [unfold wf_string; cbn; lia|].
    intros. apply serve_no_rename. right; right. exists fd', (member_of c'). split; [by apply room_member|done].
  - assert (∀ fd' c', clients (registry_ s) !! fd' = Some c' → rec_nickname c' = n → fd' = fd) as Hun.
    { intros fd' c' Hc' Hn'. destruct (decide (fd' = fd)); [done|]. destruct Hno. by exists fd', c'. }
    destruct (Hfree Hun) as (r' & ts & -> & _ & Ecl & _ & Hnd & Hts). cbn [answered].
    eexists _, (tell_all ts (joined (rec_id c) n)). split_and!; [done| |].
    + rewrite outward_cons. cbn [is_view]. apply (shows_all ts (joined (rec_id c) n)). by apply encode_user_info_iff.
    + unfold room_of at 2. cbn. rewrite Ecl, fmap_insert. apply (serve_rename (room_of s)); [done|done| |].
      * intros fd' m' (c' & Hc' & ->)%room_member_inv. by apply Hun.
      * apply covers_others. split; [done|]. intros t. rewrite Hts, lookup_delete.
        case_decide; [|naive_solver]. split; [naive_solver|by intros []].
Qed.

Lemma list_serves s fd c : srv_inv s →
  serves s fd c (mkMessage ListUsers PListUsers)
    (answered fd (dispatch create_message_dispatcher fd (mkMessage ListUsers PListUsers) s)).
Proof.
  intros Hs. change (dispatch create_message_dispatcher fd _) with
    (list_users_handle (R:=R) fd (mkMessage ListUsers PListUsers)).
  unfold list_users_handle. rewrite bind_registry. set (us := collect_users (registry_ s)).
  assert (us ≡ₚ (λ x, user_of x.2) <$> map_to_list (members (room_of s))) as Hus.
  { unfold us. rewrite law_collect_perm. cbn. rewrite map_to_list_fmap, <-list_fmap_compose. done. }
  destruct (decide (size_t us <= 65535)) as [Hn|Hn].
  - destruct (decode_users_list us []) as (e & E & _); [|done|].
    { apply Forall_forall. intros u. unfold us. rewrite law_collect_perm. intros ([fd' c'] & -> & Hin)%list_elem_of_fmap.
      apply elem_of_map_to_list in Hin. destruct (si_client s Hs _ _ Hin) as (_ & ? & ? & _).
      pose proof (si_next s Hs). split; cbn; [unfold is_u32; lia|done]. }
    erewrite bind_lift_ok by exact E. cbn [answered send emit modify_].
    eexists [Sent fd UsersList e], _. split_and!; [done| |].
    + constructor; [|constructor]. by apply (shows_sent fd (mkMessage UsersList (PUsersList (mkUsersList us)))).
    + apply serve_list; [apply law_collect_sorted|done|done].
  - unfold lift, mbind, SM_bind, encode_users_list, kMaxU16Count. rewrite decide_True by lia. cbn [answered].
    eexists _, (refuse fd (str "Too many users")). split_and!; [done| |].
    + rewrite !outward_cons. cbn [is_view]. apply (shows_refuse fd (str "Too many users")). unfold wf_string. cbn. lia.
    + apply (serve_no_list (room_of s)). apply Permutation_length in Hus. rewrite length_fmap, length_map_to_list in Hus. rewrite <-Hus. lia.
Qed.

Lemma message_serves s fd c m : srv_inv s → may_send s fd c → wf_message m →
  serves s fd c m (handle_client_data fd (Ok (Some m)) s).1.
Proof.
  intros Hs Hm Hwf. rewrite (handle_message s fd c) by done.
  destruct (relay_type (msg_type m)) as [[dt label]|] eqn:Hrt.
  - destruct m as [t p]. unfold wf_message in Hwf. cbn [msg_type msg_payload] in *.
    destruct t; try done; destruct p; try done; by eapply relay_serves.
  - assert (request (msg_type m) = false → serves s fd c m (answered fd (dispatch create_message_dispatcher fd m s))) as Hun.
    { intros Hr. replace (dispatch create_message_dispatcher fd m s) with
        (send_error (R:=R) fd (str "Unsupported message type") (with_effects s [])).
      - apply serves_refusal; [done|]. intros text. by apply serve_unsupported.
      - rewrite with_effects_nil. destruct m as [[] p]; done. }
    destruct m as [t p]. unfold wf_message in Hwf. cbn [msg_type msg_payload] in *.
    destruct t; try done; try (by apply Hun); destruct p as [[n]| | | | | | | | |]; try done.
    + by apply register_serves.
    + by apply list_serves.
Qed.

(** Whatever is read from a client. *)
Lemma data_tracks s fd c rx : srv_inv s → clients (registry_ s) !! fd = Some c → rx_ok rx →
  tracks [Data fd rx] s (handle_client_data fd rx s).1.
Proof.
  intros Hs Hc [Hsafe Hwf]. destruct (remove_departs s fd c Hs Hc) as (es & outs & E & F & Hd).
  destruct (remove_client_steady (running_ s) (listening_ s) (dom (clients (registry_ s))) fd s) as [_ [[] Ho]];
    [by split_and!; auto|].
  destruct (decide (rec_id c ∈ banned_ids_ s)) as [Hb|Hb].
  - replace (handle_client_data fd rx s).1 with (remove_client fd s).1.
    { eapply tracks_respond; [done..|]. by eapply ends; [by apply room_member|left|]. }
    unfold handle_client_data, try_catch.
    rewrite bind_registry, law_find, Hc, bind_is_banned, bool_decide_eq_true_2 by done.
    destruct (remove_client fd s) as [s' r]. cbn in Ho. by subst r.
  - destruct rx as [[m|]|e|]; [| | |done].
    + destruct (message_serves s fd c m Hs) as (es' & outs' & E' & F' & Hserve);
        [by split_and!; [apply Hs|..]|by apply Hwf|].
      eapply tracks_respond; [done..|]. eapply asks; [by apply room_member|done..].
    + assert (handle_client_data fd (Ok None) s = when (running_ s) (remove_client fd) s) as Eh.
      { unfold handle_client_data, try_catch.
        rewrite bind_registry, law_find, Hc, bind_is_banned, bool_decide_eq_false_2 by done.
        rewrite (bind_lift_ok _ None) by done. unfold get_. unfold mbind at 1, SM_bind at 1.
        destruct (running_ s); [cbn [when]|done]. destruct (remove_client fd s) as [s' r]. cbn in Ho. by subst r. }
      rewrite Eh. destruct (running_ s) eqn:Hrun; cbn [when].
      * eapply tracks_respond; [done..|]. eapply ends; [by apply room_member|right|done]. cbn. by rewrite Hrun.
      * apply (tracks_respond _ _ _ [] []); [by rewrite app_nil_r|constructor|].
        apply (ends_unseen _ _ (member_of c)); [by apply room_member|done|]. cbn. by rewrite Hrun.
    + unfold handle_client_data, try_catch.
      rewrite bind_registry, law_find, Hc, bind_is_banned, bool_decide_eq_false_2 by done.
      unfold lift. unfold mbind at 1, SM_bind at 1. rewrite bind_view, send_error_run by done.
      cbn [fst]. rewrite with_effects_app. eapply tracks_respond; [done| |].
      * cbn [app]. rewrite !outward_cons. cbn [is_view]. by apply shows_refuse.
      * by apply (garbled (room_of s) fd (member_of c)); [apply room_member|].
Qed.

(** ** The console and the request to stop *)

Lemma stop_tracks s : tracks [Stop] s (request_stop s).1.
Proof.
  rewrite request_stop_run. eapply tracks_respond; [done|apply shows_cut|].
  apply (stops (room_of s)), covers_perm, covers_all_fds.
Qed.

Lemma console_run line s : srv_inv s → line_ok line →
  (console_line line s).2 = Ok tt ∧ srv_inv (console_line line s).1 ∧ tracks [Console line] s (console_line line s).1.
Proof.
  intros Hs Hl. unfold console_line, line_ok in *. destruct (server_admin.parse_admin_command line) as [cmd|] eqn:Hp; cycle 1.
  { split_and!; [done|by apply srv_inv_effects|]. eapply tracks_respond; [done|constructor|by apply console_help]. }
  destruct (server_admin.parse_admin_command_ids _ _ Hp) as [_ Hids].
  assert (∀ i, i ∈ server_admin.ids cmd → 1 <= i) as Hpos.
  { intros i Hi. rewrite Forall_forall in Hids. specialize (Hids i Hi). unfold server_admin.bannable in Hids. lia. }
  rewrite ban_ids_run by done. cbn [fst snd].
  split_and!; [done|by apply srv_inv_effects, new_bans_inv|].
  set (newly := new_bans _ _). pose proof (elem_of_new_bans (server_admin.ids cmd) (banned_ids_ s)) as Hnew.
  fold newly in Hnew. unfold ban_effects. case_decide as Hnil.
  - assert (∀ i, i ∈ server_admin.ids cmd → i ∈ banned_ids_ s) as Hold.
    { intros i Hi. destruct (decide (i ∈ banned_ids_ s)) as [|Hb]; [done|].
      assert (i ∈ newly) as Hx by (by apply Hnew). rewrite Hnil in Hx. by apply elem_of_nil in Hx. }
    assert (room_of (with_new_bans s (server_admin.ids cmd)) = room_of s) as Er.
    { unfold room_of. cbn. f_equal. apply set_eq. intros i. rewrite elem_of_union, elem_of_list_to_set. naive_solver. }
    eapply tracks_respond; [done|constructor|]. rewrite room_of_effects, Er. by eapply console_old.
  - eapply tracks_respond; [done| |].
    + rewrite !outward_app. apply Forall2_app.
      * apply (shows_all _ (mkMessage BannedIds (PBannedIds (mkBannedIds newly)))). cbn.
        assert (length newly ≤ length (server_admin.ids cmd))%nat by apply length_new_bans.
        unfold encode_banned_ids, kMaxU16Count. rewrite decide_False by lia.
        rewrite to_u16_small by (unfold is_u16; lia). by rewrite foldl_write_u32_be, write_u16_be_spec.
      * rewrite app_nil_r. apply shows_cut.
    + apply (console_bans (room_of s)); [done|done|apply NoDup_new_bans|done|apply NoDup_filter, NoDup_all_fds
        | |apply NoDup_cut; [apply Hs|apply NoDup_new_bans]|].
      * intros t. rewrite elem_of_told. unfold allowed. cbn [members].
        split; [intros (c & Hc & Hb)|intros (m & (c & Hc & ->)%room_member_inv & Hb)].
        -- exists (member_of c). split; [by apply room_member|done].
        -- by exists c.
      * intros t. rewrite elem_of_cut by apply Hs.
        split; [intros (c & Hc & Hb)|intros (m & (c & Hc & ->)%room_member_inv & Hb)].
        -- exists (member_of c). split; [by apply room_member|done].
        -- by exists c.
Qed.

Lemma console_each lines s : srv_inv s → Forall line_ok lines →
  srv_inv (for_each lines console_line s).1 ∧ (for_each lines console_line s).2 = Ok tt ∧
  tracks (Console <$> lines) s (for_each lines console_line s).1.
Proof.
  intros Hs Hl. revert s Hs. induction Hl as [|line lines Hline _ IH]; intros s Hs.
  { split_and!; [done..|apply tracks_refl]. }
  cbn [for_each fmap list_fmap]. destruct (console_run line s Hs Hline) as (Ho & Hs1 & Ht).
  destruct (console_line line s) as [s1 r] eqn:E. cbn in Ho, Hs1, Ht. subst r.
  rewrite (SM_bind_ok _ _ _ _ _ E). destruct (IH s1 Hs1) as (Hs2 & Ho2 & Ht2).
  split_and!; [done..|]. by apply (tracks_trans [Console line] _ _ s1).
Qed.

Lemma queue_tracks s : srv_inv s → tracks (Console <$> admin_queue_ s) s (process_admin_queue s).1.
Proof.
  intros Hs. unfold process_admin_queue, get_. unfold mbind at 1, SM_bind at 1. rewrite bind_modify.
  destruct (console_each (admin_queue_ s) (with_queue s [])) as (_ & _ & Ht); [destruct Hs; by split|apply Hs|].
  exact Ht.
Qed.

(** ** A turn of the loop *)

(** A request to stop that may come in. *)
Lemma may_stop_tracks (b : bool) s : tracks (if b then [Stop] else []) s (when b request_stop s).1.
Proof. destruct b; [apply stop_tracks|apply tracks_refl]. Qed.

(** The inputs of the hang-up pass, from the entry [i] on. *)
Fixpoint hup_inputs (t : turn) (i : nat) (l : list pollfd) : list input :=
  (if hup_stop t i then [Stop] else []) ++
  match l with
  | [] => []
  | p :: l => (if pfd_hup p then [Gone (pfd_fd p)] else []) ++ hup_inputs t (S i) l
  end.

Lemma hup_tracks t i l s : srv_inv s → tracks (hup_inputs t i l) s (hup_loop t i l s).1.
Proof.
  revert i s. induction l as [|p l IH]; intros i s Hs; cbn [hup_loop hup_inputs].
  all: pose proof (may_stop_tracks (hup_stop t i) s) as Ht;
    destruct (may_stop (hup_stop t i) s Hs) as (s0 & E0 & Hs0 & _);
    rewrite E0 in Ht; cbn [fst] in Ht; rewrite (SM_bind_ok _ _ _ _ _ E0);
    apply (tracks_trans _ _ _ s0); [done|].
  { apply tracks_refl. }
  destruct (hup_entry p s0 Hs0) as (s1 & E1 & Hs1 & Es1 & _). rewrite (SM_bind_ok _ _ _ _ _ E1).
  apply (tracks_trans _ _ _ s1).
  - rewrite Es1. destruct (pfd_hup p); [|apply tracks_refl]. cbn [andb]. destruct (running_ s0) eqn:Hrun.
    + by apply remove_tracks.
    + apply (tracks_respond _ _ _ [] []); [by rewrite app_nil_r|constructor|]. apply goes_unseen. cbn. by rewrite Hrun.
  - pose proof (IH (S i) s1 Hs1) as Ht1. destruct (hup_loop t (S i) l s1) as [s2 []] eqn:E2; unfold mbind, SM_bind; by rewrite E2.
Qed.

(** The inputs of the second pass, from the entry [i] on. *)
Fixpoint in_inputs (t : turn) (i : nat) (l : list pollfd) : list input :=
  (if in_stop t i then [Stop] else []) ++
  match l with
  | [] => []
  | p :: l =>
      (if (pfd_fd p <? 0) || negb (pfd_in p) then [] else [Data (pfd_fd p) (turn_receive t i)]) ++
      in_inputs t (S i) l
  end.

Lemma in_loop_tracks fuel listen_fd t i p0 v todo s :
  (length todo < fuel)%nat → (∀ j, rx_ok (turn_receive t j)) → looping listen_fd (v ++ todo) s →
  tracks (in_inputs t i todo) s (in_loop fuel listen_fd t i (p0 :: v) todo s).1.
Proof.
  intros Hfuel Hrx. revert i v s todo Hfuel.
  induction fuel as [|fuel IH]; intros i v s todo Hfuel Hl; [lia|]. cbn [in_loop].
  pose proof (may_stop_tracks (in_stop t i) s) as Ht0.
  destruct (looping_stop _ _ (in_stop t i) s Hl) as (s0 & E0 & Hl0 & _). rewrite E0 in Ht0. cbn [fst] in Ht0.
  rewrite (SM_bind_ok _ _ _ _ _ E0).
  destruct todo as [|p todo]; cbn [in_inputs]; (apply (tracks_trans _ _ _ s0); [done|]); [apply tracks_refl|].
  cbn [length] in *. change ((p0 :: v) ++ [p]) with (p0 :: (v ++ [p])).
  destruct ((pfd_fd p <? 0) || negb (pfd_in p)) eqn:Eskip.
  { apply IH; [lia|]. by rewrite <-app_assoc. }
  apply orb_false_iff in Eskip as [Ep _]. zify_bools. pose proof Hl0 as (Hs & _ & Hfd & Hcov).
  assert (is_Some (clients (registry_ s0) !! pfd_fd p)) as [c Hc].
  { apply Hcov. rewrite live_app, live_cons by done. set_solver. }
  unfold get_. unfold mbind at 1, SM_bind at 1.
  destruct (Z.eqb_spec (pfd_fd p) (if listening_ s0 then listen_fd else -1)) as [E|Hne].
  { destruct (listening_ s0); [congruence|lia]. }
  pose proof (data_tracks s0 (pfd_fd p) c (turn_receive t i) Hs Hc (Hrx i)) as Ht.
  destruct (handle_entry listen_fd v p todo (turn_receive t i) s0 Hl0 (Hrx i) Ep) as (s1 & p' & Eh & Hl1 & _).
  destruct (handle_client_data (pfd_fd p) (turn_receive t i) s0) as [s2 [[]|e|]] eqn:Eh2;
    [|by unfold mbind at 1, SM_bind at 1 in Eh; rewrite Eh2 in Eh..].
  rewrite (SM_bind_ok _ _ _ _ _ Eh2), bind_registry. rewrite (SM_bind_ok _ _ _ _ _ Eh2), bind_registry in Eh.
  injection Eh as <- <-.
  apply (tracks_trans [Data _ _] _ _ s2); [done|].
  change ((p0 :: v) ++ [?x]) with (p0 :: (v ++ [x])). apply IH; [lia|]. by rewrite <-app_assoc.
Qed.

(** The entry of the listening socket: its input, and the entry that an accepted
    client gets. *)
Definition listen_inputs (t : turn) (p : pollfd) : list input :=
  if in_stop t 0 then [Stop] else if pfd_in p then [Connect (turn_accept t 0).1] else [].
Definition accepted (t : turn) (p : pollfd) : list pollfd :=
  let fd := (turn_accept t 0).1 in
  if pfd_in p && negb (in_stop t 0) && (0 <=? fd) then [mkPollfd fd false false] else [].

(** The inputs of a turn. *)
Definition inputs_of (t : turn) (pollfds : list pollfd) s : list input :=
  (Console <$> admin_queue_ s) ++ (if stop_in_poll t then [Stop] else []) ++
  (if poll_ready t <=? 0 then [] else
   match poll_results t pollfds with
   | [] => []
   | p :: rest =>
       hup_inputs t 1 rest ++
       (if running_ (after_hup t pollfds s)
        then listen_inputs t p ++ in_inputs t 1 ((closing <$> rest) ++ accepted t p) else [])
   end).

Lemma poll_tracks t s : srv_inv s →
  tracks ((Console <$> admin_queue_ s) ++ if stop_in_poll t then [Stop] else []) s (after_poll t s).
Proof.
  intros Hs. apply (tracks_trans _ _ _ (process_admin_queue s).1); [by apply queue_tracks|apply may_stop_tracks].
Qed.

(** The second pass, from the listening socket on. *)
Lemma entries_track listen_fd t p rest s : looping listen_fd rest s → running_ s = true → pfd_fd p = listen_fd →
  0 <= listen_fd → (∀ i, rx_ok (turn_receive t i)) → (in_stop t 0 = true → turn_receive t 0 = Ok None) →
  ids_left s →
  (0 <= (turn_accept t 0).1 →
   (turn_accept t 0).1 ≠ listen_fd ∧ clients (registry_ s) !! (turn_accept t 0).1 = None) →
  tracks (listen_inputs t p ++ in_inputs t 1 (rest ++ accepted t p)) s
    (in_loop (in_loop_fuel (p :: rest)) listen_fd t 0 [] (p :: rest) s).1.
Proof.
  intros Hl Hrun Hp Hfd Hrx Hstop Hleft Hacc. unfold in_loop_fuel.
  replace (2 * length (p :: rest) + 1)%nat with (S (2 * length rest + 2)) by (cbn [length]; lia).
  cbn [in_loop app]. pose proof (may_stop_tracks (in_stop t 0) s) as Ht0.
  destruct (looping_stop _ _ (in_stop t 0) s Hl) as (s0 & E0 & Hl0 & _ & Hb). rewrite E0 in Ht0. cbn [fst] in Ht0.
  rewrite (SM_bind_ok _ _ _ _ _ E0). pose proof (proj1 (proj2 Hl0)) as Hlis. unfold listen_inputs, accepted.
  destruct (Z.ltb_spec (pfd_fd p) 0); [lia|]. cbn [orb]. destruct Hb as [[Es ->]|[Es Hr0]]; rewrite Es in *.
  - destruct (pfd_in p); cbn [negb andb]; [|rewrite app_nil_r; apply in_loop_tracks; [lia|done..]].
    unfold get_. unfold mbind at 1, SM_bind at 1. rewrite Hlis, Hrun, Hp, Z.eqb_refl.
    pose proof (accept_tracks s (turn_accept t 0) (proj1 Hl) Hleft ltac:(intros Hx; by apply Hacc)) as Ht.
    destruct (accept_entry listen_fd t rest s Hl Hleft Hacc) as (s1 & pushed & E & Hlen & Hl1 & <-).
    rewrite (SM_bind_ok _ _ _ _ _ E). rewrite E in Ht. cbn [fst] in Ht.
    apply (tracks_trans [Connect _] _ _ s1); [done|]. apply in_loop_tracks; [rewrite length_app; lia|done..].
  - rewrite andb_false_r, app_nil_r. apply (tracks_trans [Stop] _ _ s0); [done|].
    destruct (pfd_in p); cbn [negb]; [|apply in_loop_tracks; [lia|done..]].
    unfold get_. unfold mbind at 1, SM_bind at 1. rewrite Hlis, Hr0, Hp.
    destruct (Z.eqb_spec listen_fd (-1)); [lia|]. rewrite (Hstop eq_refl).
    rewrite (SM_bind_ok _ _ _ _ _ (closed_entry _ _ _ Hl0 Hr0)), bind_registry, law_find.
    pose proof Hl0 as (_ & _ & Hn0 & _). rewrite Hn0. apply in_loop_tracks; [lia|done..].
Qed.

Lemma turn_tracks listen_fd t pollfds s : loop_inv listen_fd pollfds s → running_ s = true →
  turn_ok listen_fd t pollfds s → tracks (inputs_of t pollfds s) s (loop_turn listen_fd t pollfds s).1.
Proof.
  intros [Hs Hlis Hfd Hnl (rest & Hcov & [Hpoll|[? _]])] Hrun (Hrx & Hstop & Hleft & Hacc); [|congruence].
  unfold loop_turn. rewrite bind_assoc.
  destruct (after_poll_run t s Hs) as (E & Hs1 & Hreg & Hflags). rewrite (SM_bind_ok _ _ _ _ _ E).
  pose proof (poll_tracks t s Hs) as Ht. unfold inputs_of. rewrite (assoc_L (++)).
  unfold after_hup in *. set (s1 := after_poll t s) in *. clear E.
  apply (tracks_trans _ _ _ s1); [done|]. clear Ht.
  assert (running_ s1 = true → listening_ s1 = true) as Hlis1.
  { destruct (stop_in_poll t); [congruence|]. destruct Hflags as [-> ->]. done. }
  rewrite <-Hreg in Hcov, Hnl.
  destruct (poll_ready t <? 0) eqn:Eready; zify_bools.
  { rewrite (proj2 (Z.leb_le _ _)) by lia. destruct (poll_eintr t); [apply tracks_refl|].
    unfold get_. unfold mbind at 1, SM_bind at 1. destruct (running_ s1); apply tracks_refl. }
  pose proof (poll_results_fds t pollfds) as Efds. rewrite Hpoll in Efds.
  destruct (Z.eqb_spec (poll_ready t) 0) as [Hz|Hz].
  { rewrite (proj2 (Z.leb_le _ _)) by lia. apply tracks_refl. }
  rewrite (proj2 (Z.leb_gt _ _)) by lia.
  destruct (poll_results t pollfds) as [|p rest']; [done|]. cbn [tail] in *.
  rewrite fmap_cons in Efds. injection Efds as Hp Efds. rewrite <-Efds in Hcov.
  pose proof (hup_tracks t 1 rest' s1 Hs1) as Ht2.
  destruct (hup_loop_run t 1 rest' [] s1 Hs1) as (s2 & E & Hs2 & Hdom & Hrun2).
  { intros _. cbn [app]. rewrite live_all; [done|]. apply Forall_forall. intros fd [c Hc]%Hcov.
    by apply (clients_nonneg s1 Hs1) in Hc. }
  rewrite E in *. cbn [fst] in *. apply (tracks_trans _ _ _ s2); [done|].
  rewrite (SM_bind_ok _ _ s1 s2 (p :: (closing <$> rest'))) by (by rewrite (SM_bind_ok _ _ _ _ _ E)).
  unfold get_. unfold mbind at 1, SM_bind at 1. destruct (running_ s2) eqn:Er2; cbn [negb]; [|apply tracks_refl].
  destruct (Hrun2 eq_refl) as (Er1 & Hlis2 & Hcov2).
  assert (looping listen_fd (closing <$> rest') s2) as Hl.
  { split_and!; [done|by rewrite Hlis2, Hlis1| |done].
    apply not_elem_of_dom. apply not_elem_of_dom in Hnl. set_solver. }
  pose proof (entries_track listen_fd t p (closing <$> rest') s2 Hl Er2 Hp Hfd Hrx Hstop Hleft Hacc) as Ht3.
  destruct (in_loop_run listen_fd t p (closing <$> rest') s2) as (s3 & p' & v & E3 & _); [done..|].
  rewrite (SM_bind_ok _ _ _ _ _ E3). by rewrite E3 in Ht3.
Qed.

(** The end of [run]. *)
Lemma close_tracks s : srv_inv s → running_ s = false → tracks [Close] s (disconnect_all_clients s).1.
Proof.
  intros Hs Hrun. destruct (disconnect_all_run s Hs) as (s' & -> & _ & He & Hr' & Hb' & Heff). cbn [fst].
  eapply (tracks_respond _ _ _ _ (all_fds (registry_ s) ≫= λ c, [Cut c; Hangup c])); [done| |].
  - unfold disconnect_effects. pose proof (proj2 (covers_all_fds (registry_ s))) as Hall.
    assert (∀ fd, fd ∈ all_fds (registry_ s) → is_Some (clients (registry_ s) !! fd)) as Hin by (intros; by apply Hall).
    clear Hall Heff. induction (all_fds (registry_ s)) as [|fd fds IH]; [constructor|]. cbn.
    destruct (Hin fd) as [c Hc]; [set_solver|]. rewrite Hc, outward_app, !outward_cons. cbn [is_view app].
    do 2 (apply Forall2_cons; split; [constructor|]). apply IH. intros fd' Hfd'. apply Hin. by right.
  - replace (room_of s') with (mkRoom ∅ (banned (room_of s)) true).
    + apply closes; [cbn; by rewrite Hrun|]. apply covers_perm, covers_all_fds.
    + unfold room_of. cbn. by rewrite He, fmap_empty, Hb', Hr', Hrun.
Qed.

(** ** Runs of the server *)

(** Where [run] is: at the head of the loop, behind it, or at its end. *)
Inductive position := AtHead (pollfds : list pollfd) | OutOfLoop | Returned.

(** A run from the head of the loop on, with the inputs it took: a console line is
    queued and taken by the next turn. *)
Inductive execution (listen_fd : Z) (st : server R * list pollfd) : list input → server R → position → Prop :=
| run_nil : execution listen_fd st [] st.1 (AtHead st.2)
| run_admin ins line s pos : execution listen_fd st ins s pos → line_ok line →
    execution listen_fd st ins (submit_admin_line line s).1 pos
| run_stop ins s pos : execution listen_fd st ins s pos →
    execution listen_fd st (ins ++ [Stop]) (request_stop s).1 pos
| run_turn ins t s pollfds s' next : execution listen_fd st ins s (AtHead pollfds) →
    running_ s = true → turn_ok listen_fd t pollfds s → loop_turn listen_fd t pollfds s = (s', Ok next) →
    execution listen_fd st (ins ++ inputs_of t pollfds s) s' (from_option AtHead OutOfLoop next)
| run_leave ins s pollfds : execution listen_fd st ins s (AtHead pollfds) → running_ s = false →
    execution listen_fd st ins s OutOfLoop
| run_end ins s s' : execution listen_fd st ins s OutOfLoop → disconnect_all_clients s = (s', Ok tt) →
    execution listen_fd st (ins ++ [Close]) s' Returned.

(** Up to the end of the loop these are the runs of [server_step]. *)
Lemma execution_steps listen_fd st ins s pollfds : execution listen_fd st ins s (AtHead pollfds) →
  rtc (server_step listen_fd) st (s, pollfds).
Proof.
  remember (AtHead pollfds) as pos eqn:Epos. intros Hrun. revert pollfds Epos.
  induction Hrun as [|ins line s pos _ IH|ins s pos _ IH|ins t s pollfds s' next _ IH| |]; intros pollfds1 Epos; [|..]; try done.
  - injection Epos as <-. by rewrite <-surjective_pairing.
  - eapply rtc_r; [by apply IH|by constructor].
  - eapply rtc_r; [by apply IH|by constructor].
  - destruct next as [pollfds'|]; [|done]. injection Epos as <-. eapply rtc_r; [by apply IH|]. by eapply (step_turn listen_fd t).
Qed.

Definition position_ok (listen_fd : Z) (pos : position) s : Prop :=
  match pos with
  | AtHead pollfds => loop_inv listen_fd pollfds s
  | OutOfLoop => srv_inv s ∧ running_ s = false
  | Returned => srv_inv s
  end.

Lemma run_tracks listen_fd st ins s pos : execution listen_fd st ins s pos → loop_inv listen_fd st.2 st.1 →
  tracks ins st.1 s ∧ position_ok listen_fd pos s.
Proof.
  intros Hrun Hinv.
  induction Hrun as [|ins line s pos _ IH Hl|ins s pos _ IH|ins t s pollfds s' next _ IH Hr Ht E
    |ins s pollfds _ IH Hr|ins s s' _ IH E]; [split; [apply tracks_refl|done]|..]; destruct IH as [Htr Hi]; cbn [position_ok] in *.
  - split; [exact Htr|]. assert (srv_inv s → srv_inv (submit_admin_line line s).1) as Hs.
    { intros []. split; try done. by apply Forall_app_2; [|constructor]. }
    destruct pos as [pollfds| |]; cbn [position_ok] in *; [|by destruct Hi; auto|auto].
    by apply (server_step_inv listen_fd (s, pollfds) ((submit_admin_line line s).1, pollfds)); [constructor|].
  - split; [apply (tracks_trans _ _ _ s); [done|apply stop_tracks]|].
    destruct pos as [pollfds| |]; cbn [position_ok] in *.
    + by apply (server_step_inv listen_fd (s, pollfds) ((request_stop s).1, pollfds)); [constructor|].
    + rewrite request_stop_run. split; [by apply stopped_inv, Hi|done].
    + rewrite request_stop_run. by apply stopped_inv.
  - pose proof (turn_tracks listen_fd t pollfds s Hi Hr Ht) as Hx. rewrite E in Hx.
    pose proof (loop_turn_run listen_fd t pollfds s Hi Hr Ht) as Hres. rewrite E in Hres.
    split; [by apply (tracks_trans _ _ _ s)|]. by destruct next.
  - split; [done|]. split; [apply Hi|done].
  - destruct Hi as [Hs Hr]. pose proof (close_tracks s Hs Hr) as Hx. rewrite E in Hx.
    split; [by apply (tracks_trans _ _ _ s)|]. destruct (disconnect_all_run s Hs) as (s2 & E2 & Hs2 & _). congruence.
Qed.

Lemma reachable_tracks r listen_fd ip port ins s pos : reg_ok r → clients r = ∅ → 0 <= listen_fd →
  execution listen_fd (started r listen_fd ip port) ins s pos →
  ∃ outs, runs empty_room ins outs (room_of s) ∧ Forall2 shows (outward (effects s)) outs.
Proof.
  intros Hr He Hfd Hrun.
  destruct (run_tracks _ _ _ _ _ Hrun (started_inv r listen_fd ip port Hr He Hfd)) as [(es & outs & E & F & Hruns) _].
  exists outs. split.
  - replace empty_room with (room_of (started r listen_fd ip port).1); [done|].
    change (room_of (started r listen_fd ip port).1) with (mkRoom (member_of <$> clients r) ∅ false).
    by rewrite He, fmap_empty.
  - rewrite E. done.
Qed.

(** C2. The server implements the chat room.  In every run of the server from its
    start to its end, whatever connections, messages, broken connections, console
    lines and requests to stop come, the last also in the middle of a turn, all that
    it has done to the outside is what the room of ChatService puts out for exactly
    these inputs in this order, and the connected clients and the bans are the
    members and the bans of the room. *)
Theorem server_refines_room r listen_fd ip port ins s pos : reg_ok r → clients r = ∅ → 0 <= listen_fd →
  execution listen_fd (started r listen_fd ip port) ins s pos →
  ∃ outs, runs empty_room ins outs (room_of s) ∧ Forall2 shows (outward (effects s)) outs.
Proof. apply reachable_tracks. Qed.

(** C4. Nothing is made up or misdirected.  In every run of the server, a message it
    relayed to a connection was read before from a member that was not banned; it
    is relayed under the id that this member had then, with the text it sent, and
    the connection was that of a member not banned, to which it was addressed, or
    any other one than the sender's when it was addressed to all. *)
Theorem relayed_was_sent r listen_fd ip port ins s pos : reg_ok r → clients r = ∅ → 0 <= listen_fd →
  execution listen_fd (started r listen_fd ip port) ins s pos →
  ∀ fd t p, Sent fd t p ∈ effects s → relays t = true →
  ∃ before c msg after outs1 r1 m, ins = before ++ Data c (Ok (Some msg)) :: after ∧
    runs empty_room before outs1 r1 ∧ heard r1 c fd msg m ∧
    msg_type m = t ∧ encode_payload (msg_payload m) = Ok p.
Proof.
  intros Hr He Hfd Hrun fd t p Hin Ht.
  destruct (reachable_tracks _ _ _ _ _ _ _ Hr He Hfd Hrun) as (outs & Hruns & F).
  assert (Sent fd t p ∈ outward (effects s)) as Hin' by (by apply list_elem_of_filter).
  apply list_elem_of_lookup in Hin' as [i Hi].
  destruct (Forall2_lookup_l _ _ _ _ _ F Hi) as (o & Ho & Hs). apply list_elem_of_lookup_2 in Ho.
  inversion Hs as [fd' m p' Hp Efd| |]; subst.
  destruct (runs_passed _ _ _ _ _ _ Hruns Ho Ht) as (b & c & msg & a & o1 & r1 & -> & Hb & Hh).
  by exists b, c, msg, a, o1, r1, m.
Qed.

End refines.

(** ** A run *)

(** Two clients connect; the first one says something to all, the server is told to
    stop before it comes to the second one, whose end it does not look at any more,
    and closes. *)
Definition hello : AppMessage := mkMessage Chat (PChat (mkChat 9 kRecipientBroadcast [] (str "hi"))).
Definition connect_turn (fd : Z) : turn :=
  mkTurn 1 false (λ i, (false, bool_decide (i = 0%nat))) false (λ _, false) (λ _, false) (λ _, (fd, [])) (λ _, Ok None).
Definition hello_turn : turn :=
  mkTurn 2 false (λ i, (false, bool_decide (i ≠ 0%nat))) false (λ _, false) (λ i, bool_decide (i = 2%nat))
    (λ _, (-1, [])) (λ i, if decide (i = 1%nat) then Ok (Some hello) else Ok None).

Definition taken (t : turn) (st : server ClientRegistry * list pollfd) : server ClientRegistry * list pollfd :=
  match loop_turn 4 t st.2 st.1 with
  | (s, Ok (Some pollfds)) => (s, pollfds)
  | (s, _) => (s, [])
  end.

Definition one_in : server ClientRegistry * list pollfd := taken (connect_turn 5) boot.
Definition two_in : server ClientRegistry * list pollfd := taken (connect_turn 6) one_in.
Definition hello_said : server ClientRegistry * list pollfd := taken hello_turn two_in.
Definition all_closed : server ClientRegistry := (disconnect_all_clients hello_said.1).1.

Definition hello_inputs : list input :=
  [Connect 5; Connect 6; Data 5 (Ok (Some hello)); Stop; Data 6 (Ok None); Close].

Lemma take_turn t st ins : execution 4 boot ins st.1 (AtHead st.2) → running_ st.1 = true →
  turn_ok 4 t st.2 st.1 → (∃ s pollfds, loop_turn 4 t st.2 st.1 = (s, Ok (Some pollfds))) →
  execution 4 boot (ins ++ inputs_of t st.2 st.1) (taken t st).1 (AtHead (taken t st).2).
Proof.
  intros Hr Hrun Hok (s & pollfds & E). unfold taken. rewrite E.
  by apply (run_turn 4 boot ins t _ _ s (Some pollfds)).
Qed.

Ltac fresh_id k := exists k; split; [vm_compute; split; discriminate || reflexivity|];
  apply (bool_decide_unpack _); vm_compute; exact I.

Lemma connected_run : execution 4 boot [Connect 5; Connect 6] two_in.1 (AtHead two_in.2).
Proof.
  assert (execution 4 boot [Connect 5] one_in.1 (AtHead one_in.2)) as H1.
  { apply (take_turn (connect_turn 5) boot []); [constructor|reflexivity| |do 2 eexists; vm_compute; reflexivity].
    split_and!; [intros i; split; [exact I|discriminate]|discriminate|fresh_id 1|].
    intros _. split; [discriminate|vm_compute; reflexivity]. }
  apply (take_turn (connect_turn 6) one_in _ H1); [vm_compute; reflexivity| |do 2 eexists; vm_compute; reflexivity].
  split_and!; [intros i; split; [exact I|discriminate]|discriminate|fresh_id 2|].
  intros _. split; [discriminate|vm_compute; reflexivity].
Qed.

Lemma hello_turn_ok : turn_ok 4 hello_turn two_in.2 two_in.1.
Proof.
  split_and!; [|discriminate|fresh_id 3|cbn; lia].
  intros i. unfold hello_turn, turn_receive. case_decide; split; [exact I| |exact I|discriminate].
  intros m [= <-]. split_and!; [unfold is_u32; cbn; lia|by right; right|unfold wf_string; cbn; lia].
Qed.

Lemma hello_run : execution 4 boot hello_inputs all_closed Returned.
Proof.
  apply (run_end 4 boot [_; _; _; _; _] hello_said.1 all_closed); [|vm_compute; reflexivity].
  apply run_leave with hello_said.2; [|vm_compute; reflexivity].
  apply (take_turn hello_turn two_in _ connected_run);
    [vm_compute; reflexivity|exact hello_turn_ok|do 2 eexists; vm_compute; reflexivity].
Qed.

Lemma server_refines_room_witness :
  clients (registry_ all_closed) = ∅ ∧
  ∃ outs, runs empty_room hello_inputs outs (room_of all_closed) ∧ Forall2 shows (outward (effects all_closed)) outs.
Proof.
  split; [vm_compute; reflexivity|].
  apply (server_refines_room empty_registry 4 (str "127.0.0.1") 1502 hello_inputs all_closed Returned).
  - exact reg_inv_empty.
  - reflexivity.
  - lia.
  - exact hello_run.
Defined.

(** The second client gets the text under the id of the first, not the id 9 claimed. *)
Lemma relayed_was_sent_witness :
  Sent 6 Deliver (be32 1 ++ lstr (str "hi")) ∈ effects all_closed ∧
  ∃ before c msg after outs1 r1 m, hello_inputs = before ++ Data c (Ok (Some msg)) :: after ∧
    runs empty_room before outs1 r1 ∧ heard r1 c 6 msg m ∧
    msg_type m = Deliver ∧ encode_payload (msg_payload m) = Ok (be32 1 ++ lstr (str "hi")).
Proof.
  assert (Sent 6 Deliver (be32 1 ++ lstr (str "hi")) ∈ effects all_closed) as Hin.
  { apply (list_elem_of_lookup_2 _ 7). vm_compute. reflexivity. }
  split; [exact Hin|].
  apply (relayed_was_sent empty_registry 4 (str "127.0.0.1") 1502 hello_inputs all_closed Returned).
  - exact reg_inv_empty.
  - reflexivity.
  - lia.
  - exact hello_run.
  - exact Hin.
  - reflexivity.
Defined.

End server_refines.
