(* ===== verification/ServerThreads.v ===== *)
(** * The threads of the server's process: server/main.cpp

    [main] publishes the server in the global [g_server], starts the thread that
    reads the console and runs the server; the handlers of signals and the console
    thread look at [g_server] and call the server through it; when [run] has
    returned, [main] sets [g_server] to null, detaches the console thread and
    destroys the server.  A step is one access to [g_server], one call through it,
    one turn of the poll loop or one statement of [main].  Every access is taken to
    be atomic, so a call through a null pointer or to the destroyed server is the
    only undefined behaviour here ([undefined]); that the accesses are not
    synchronized is another one. *)
From S2P Require Import Prelude.
From S2P Require Import Protocol.
From S2P Require Import ClientRegistry.
From S2P Require Import AdminCommandParser.
From S2P Require Import ServerHandlers.
From S2P Require Import ServerViewModel.
From S2P Require Import ServerLoop.

Module server_threads.
Import server server_viewmodel server_model server_loop.

(** Where [main] is.  [Looping]: at the head of the loop of [run]. *)
Inductive main_pc :=
| Constructed | Published | HandlersInstalled | AdminStarted
| Looping (pollfds : list pollfd) | LoopLeft | RunReturned | Cleared | EofSet | Detached | Destroyed.

(** Where [admin_input_loop] is: before the test in the [while], in [getline],
    before the second test, between that test and the call, returned. *)
Inductive admin_pc := NotStarted | AtTest | Reading | GotLine (line : bytes) | Calling (line : bytes) | Returned.

(** Where [on_server_signal] is: before the test, between the test and the call. *)
Inductive handler_pc := HandlerTest | HandlerCall.
#[global] Instance handler_pc_eq_dec : EqDecision handler_pc.
Proof. solve_decision. Defined.

Record process {R : Type} := mkProcess {
  g_server : bool;            (* not null *)
  alive : bool;               (* the object [server] exists *)
  main_ : main_pc;
  admin : admin_pc;
  handlers : list handler_pc;
  srv : server R;
  undefined : bool
}.
#[global] Arguments process R : clear implicits.
#[global] Arguments mkProcess {R}.

Section process.
Context {R : Type} `{RegistryLaws R}.
Implicit Types p : process R.

Definition at_main p g a pc s : process R := mkProcess g a pc (admin p) (handlers p) s (undefined p).
Definition at_admin p pc s ub : process R := mkProcess (g_server p) (alive p) (main_ p) pc (handlers p) s ub.
Definition at_handlers p hs s ub : process R := mkProcess (g_server p) (alive p) (main_ p) (admin p) hs s ub.

(** A call through [g_server] meets the server. *)
Definition valid p : bool := g_server p && alive p.

(** A statement of [main]; the ones of [run] are given by the turns. *)
Definition main_step (listen_fd : Z) (ip : bytes) (port : Z) p : option (process R) :=
  match main_ p with
  | Constructed => Some (at_main p true (alive p) Published (srv p))
  | Published => Some (at_main p (g_server p) (alive p) HandlersInstalled (srv p))
  | HandlersInstalled =>
      Some (mkProcess (g_server p) (alive p) AdminStarted AtTest (handlers p) (srv p) (undefined p))
  | AdminStarted =>
      match start listen_fd ip port (srv p) with
      | (s, Ok pollfds) => Some (at_main p (g_server p) (alive p) (Looping pollfds) s)
      | _ => None
      end
  | Looping _ =>
      if running_ (srv p) then None else Some (at_main p (g_server p) (alive p) LoopLeft (srv p))
  | LoopLeft =>
      match disconnect_all_clients (srv p) with
      | (s, Ok _) => Some (at_main p (g_server p) (alive p) RunReturned s)
      | _ => None
      end
  | RunReturned => Some (at_main p false (alive p) Cleared (srv p))
  | Cleared => Some (at_main p (g_server p) (alive p) EofSet (srv p))
  | EofSet => Some (at_main p (g_server p) (alive p) Detached (srv p))
  | Detached => Some (at_main p (g_server p) false Destroyed (srv p))
  | Destroyed => None
  end.

(** A step of [admin_input_loop]; [line] is what [getline] gives when it is in it. *)
Definition admin_step (line : option bytes) p : option (process R) :=
  match admin p with
  | NotStarted | Returned => None
  | AtTest => Some (at_admin p (if g_server p then Reading else Returned) (srv p) (undefined p))
  | Reading =>
      Some (at_admin p (match line with Some l => GotLine l | None => Returned end) (srv p) (undefined p))
  | GotLine l => Some (at_admin p (if g_server p then Calling l else Returned) (srv p) (undefined p))
  | Calling l =>
      if valid p then Some (at_admin p AtTest (submit_admin_line l (srv p)).1 (undefined p))
      else Some (at_admin p Returned (srv p) true)
  end.

(** A step of the [i]-th handler that is active. *)
Definition handler_step (i : nat) p : option (process R) :=
  match handlers p !! i with
  | None => None
  | Some HandlerTest =>
      Some (at_handlers p (if g_server p then <[i:=HandlerCall]> (handlers p) else delete i (handlers p))
              (srv p) (undefined p))
  | Some HandlerCall =>
      if valid p then Some (at_handlers p (delete i (handlers p)) (request_stop (srv p)).1 (undefined p))
      else Some (at_handlers p (delete i (handlers p)) (srv p) true)
  end.

Definition handlers_installed p : bool :=
  match main_ p with Constructed | Published => false | _ => true end.

Context (listen_fd : Z) (ip : bytes) (port : Z).

Inductive step : process R → process R → Prop :=
| step_main p p' : main_step listen_fd ip port p = Some p' → step p p'
| step_console line p p' : (∀ l, line = Some l → line_ok l) → admin_step line p = Some p' → step p p'
| step_signal p : handlers_installed p = true →
    step p (at_handlers p (handlers p ++ [HandlerTest]) (srv p) (undefined p))
| step_handler i p p' : handler_step i p = Some p' → step p p'
| step_poll t pollfds p s' pollfds' : main_ p = Looping pollfds → running_ (srv p) = true →
    turn_ok listen_fd t pollfds (srv p) → loop_turn listen_fd t pollfds (srv p) = (s', Ok (Some pollfds')) →
    step p (at_main p (g_server p) (alive p) (Looping pollfds') s')
| step_last t pollfds p s' : main_ p = Looping pollfds → running_ (srv p) = true →
    turn_ok listen_fd t pollfds (srv p) → loop_turn listen_fd t pollfds (srv p) = (s', Ok None) →
    step p (at_main p (g_server p) (alive p) LoopLeft s').

(** [main] when the server has just been constructed. *)
Definition begin (r : R) : process R := mkProcess false true Constructed NotStarted [] (initial r) false.

(** ** What holds in every execution *)

(** The server as each stage of [main] leaves it. *)
Definition stage_ok pc (s : server R) : Prop :=
  match pc with
  | Constructed | Published | HandlersInstalled | AdminStarted =>
      srv_inv s ∧ clients (registry_ s) = ∅ ∧ 0 <= listen_fd
  | Looping pollfds => loop_inv listen_fd pollfds s
  | LoopLeft => srv_inv s ∧ running_ s = false
  | _ => srv_inv s ∧ clients (registry_ s) = ∅ ∧ running_ s = false
  end.

(** [g_server] and the object, at each stage. *)
Definition pointer_ok pc (g a : bool) : Prop :=
  match pc with
  | Constructed => g = false ∧ a = true
  | Published | HandlersInstalled | AdminStarted | Looping _ | LoopLeft | RunReturned => g = true ∧ a = true
  | Cleared | EofSet | Detached => g = false ∧ a = true
  | Destroyed => g = false ∧ a = false
  end.

(** Before [main] clears [g_server]. *)
Definition early pc : bool :=
  match pc with Cleared | EofSet | Detached | Destroyed => false | _ => true end.

Record process_inv p : Prop := {
  pi_stage : stage_ok (main_ p) (srv p);
  pi_pointer : pointer_ok (main_ p) (g_server p) (alive p);
  pi_line l : admin p = GotLine l ∨ admin p = Calling l → line_ok l;
  pi_defined : early (main_ p) = true → undefined p = false;
  pi_alone : main_ p = Constructed → admin p = NotStarted ∧ handlers p = []
}.
Lemma submit_inv line s : line_ok line → srv_inv s → srv_inv (submit_admin_line line s).1.
Proof. intros Hl []. split; try done. by apply Forall_app_2; [|constructor]. Qed.

Lemma request_stop_inv s : srv_inv s → srv_inv (request_stop s).1.
Proof. intros Hs. rewrite request_stop_run. by apply stopped_inv. Qed.

(** The two calls that other threads make do not disturb [main]. *)
Lemma stage_submit pc line s : line_ok line → stage_ok pc s → stage_ok pc (submit_admin_line line s).1.
Proof.
  intros Hl. destruct pc; cbn [stage_ok]; try (intros (Hs & ? & ?); split; [by apply submit_inv|done]).
  - intros Hi. by apply (server_step_inv listen_fd (s, pollfds) (_, pollfds)); [constructor|].
  - intros [Hs ?]. split; [by apply submit_inv|done].
Qed.

Lemma stage_stop pc s : stage_ok pc s → stage_ok pc (request_stop s).1.
Proof.
  destruct pc; cbn [stage_ok];
    try (intros (Hs & ? & ?); split; [by apply request_stop_inv|by rewrite request_stop_run]).
  - intros Hi. by apply (server_step_inv listen_fd (s, pollfds) (_, pollfds)); [constructor|].
  - intros [Hs ?]. split; [by apply request_stop_inv|by rewrite request_stop_run].
Qed.

Lemma stage_start s : stage_ok AdminStarted s →
  ∃ s' pollfds, start listen_fd ip port s = (s', Ok pollfds) ∧ stage_ok (Looping pollfds) s'.
Proof.
  intros (Hs & He & Hfd).
  exists (mkServer (registry_ s) (next_id_ s) (free_ids_ s) (banned_ids_ s) (admin_queue_ s) (running_ s) true
            (effects s ++ [View (show_listening ip port)])), [mkPollfd listen_fd false false].
  split; [done|]. cbn [stage_ok].
  split; cbn [registry_ running_ listening_]; rewrite ?He; [|done..|].
  - destruct Hs. by split.
  - exists []. split; [|by left]. cbn [registry_]. rewrite He.
    split; [constructor|]. intros fd. rewrite lookup_empty. split; [by intros ?%elem_of_nil|by intros []].
Qed.

Lemma early_valid p : process_inv p → early (main_ p) = true → main_ p ≠ Constructed → valid p = true.
Proof.
  intros [_ Hp _ _ _] He Hc. unfold valid. destruct (main_ p); cbn in *; try done; by destruct Hp as [-> ->].
Qed.

Lemma main_step_inv p p' : process_inv p → main_step listen_fd ip port p = Some p' → process_inv p'.
Proof.
  intros [Hst Hptr Hl Hd _]. unfold main_step. destruct (main_ p) as [| | | |pollfds| | | | | |] eqn:Em; cbn in Hptr, Hd.
  - intros [= <-]. destruct Hptr as [_ Ha]. by split.
  - intros [= <-]. by split.
  - intros [= <-]. split; [done..| |done|done]. cbn. by intros l [|].
  - destruct (stage_start _ Hst) as (s' & pollfds & -> & Hs'). intros [= <-]. by split.
  - destruct (running_ (srv p)) eqn:Er; [done|]. intros [= <-]. split; [|done..]. split; [apply Hst|done].
  - destruct Hst as [Hs Hr]. destruct (disconnect_all_run _ Hs) as (s' & -> & Hs' & He & Hr' & _).
    intros [= <-]. split; [|done..]. cbn. by rewrite Hr'.
  - intros [= <-]. destruct Hptr as [_ Ha]. by split.
  - intros [= <-]. by split.
  - intros [= <-]. by split.
  - intros [= <-]. destruct Hptr as [Hg _]. by split.
  - done.
Qed.

Lemma admin_step_inv line p p' : process_inv p → (∀ l, line = Some l → line_ok l) →
  admin_step line p = Some p' → process_inv p'.
Proof.
  intros Hinv Hline. pose proof Hinv as [Hst Hptr Hl Hd Hal]. unfold admin_step.
  assert (admin p ≠ NotStarted → main_ p ≠ Constructed) as Hc by (intros Ha ?; by destruct Hal).
  assert (admin p ≠ NotStarted → ∀ a, main_ p = Constructed → a = NotStarted ∧ handlers p = []) as Hal'
    by (intros Ha a ?; by destruct Hc).
  destruct (admin p) as [| | |l|l|] eqn:Ea; [done| | | | |done].
  - intros [= <-]. split; [done..| |done|by apply Hal']. cbn. destruct (g_server p); by intros l [|].
  - intros [= <-]. split; [done..| |done|by apply Hal']. cbn.
    destruct line as [l'|]; intros l [|]; simplify_eq; by apply Hline.
  - intros [= <-]. split; [done..| |done|by apply Hal']. cbn.
    destruct (g_server p); intros l' [|]; simplify_eq. by apply Hl; left.
  - destruct (valid p) eqn:Ev; intros [= <-].
    + split; [apply stage_submit; [by apply Hl; right|done]|done| |done|by apply Hal']. by intros l' [|].
    + split; [done..|by intros l' [|]| |by apply Hal']. cbn. intros He. rewrite early_valid in Ev; [done..|by apply Hc].
Qed.

Lemma handler_step_inv i p p' : process_inv p → handler_step i p = Some p' → process_inv p'.
Proof.
  intros Hinv. pose proof Hinv as [Hst Hptr Hl Hd Hal]. unfold handler_step.
  assert (is_Some (handlers p !! i) → main_ p ≠ Constructed) as Hc.
  { intros [h Hh] Hm. destruct (Hal Hm) as [_ E]. by rewrite E in Hh. }
  destruct (handlers p !! i) as [h|] eqn:Eh; [|done]. specialize (Hc ltac:(by eexists)). destruct h.
  - intros [= <-]. by split; [..|intros ?; destruct Hc].
  - destruct (valid p) eqn:Ev; intros [= <-].
    + by split; [by apply stage_stop|..|intros ?; destruct Hc].
    + split; [done..| |intros ?; by destruct Hc]. cbn. intros He. by rewrite early_valid in Ev.
Qed.

Lemma process_step_inv p p' : step p p' → process_inv p → process_inv p'.
Proof.
  intros [p0 p1 Hs|line p0 p1 Hline Hs|p0 Hi|i p0 p1 Hs|t pollfds p0 s' pollfds' Hm Hr Ht El|t pollfds p0 s' Hm Hr Ht El] Hinv.
  - by eapply main_step_inv.
  - by eapply admin_step_inv.
  - destruct Hinv as [? ? ? ? Hal]. split; [done..|]. cbn. intros E. unfold handlers_installed in Hi. by rewrite E in Hi.
  - by eapply handler_step_inv.
  - destruct Hinv as [Hst Hptr Hl Hd _]. rewrite Hm in *. split; [|done..]. cbn.
    pose proof (loop_turn_run _ _ _ _ Hst Hr Ht) as Hres. by rewrite El in Hres.
  - destruct Hinv as [Hst Hptr Hl Hd _]. rewrite Hm in *. split; [|done..]. cbn.
    pose proof (loop_turn_run _ _ _ _ Hst Hr Ht) as Hres. by rewrite El in Hres.
Qed.

Lemma begin_inv r : reg_ok r → clients r = ∅ → 0 <= listen_fd → process_inv (begin r).
Proof.
  intros Hr He Hfd. split; [|done|by intros l [|]|done|done]. cbn. split_and!; [|done..].
  split; cbn [registry_ next_id_ free_ids_ banned_ids_ admin_queue_ initial]; rewrite ?He; unfold kFirstClientId;
    [done|lia|apply map_Forall_empty|set_solver|set_solver|constructor].
Qed.

Lemma reachable_process_inv r p : reg_ok r → clients r = ∅ → 0 <= listen_fd → rtc step (begin r) p → process_inv p.
Proof.
  intros Hr He Hfd Hsteps. pose proof (begin_inv r Hr He Hfd) as Hi.
  induction Hsteps; eauto using process_step_inv.
Qed.

(** C9. While the server runs its threads are safe.  However the poll loop, the
    console thread and signal handlers are interleaved, as long as [main] has not
    set [g_server] to null every call through it meets the server and there is no
    undefined behaviour; the server's invariant holds at every stage, also when a
    signal comes before [run] has opened the socket; and when [run] has returned no
    client is left. *)
Theorem server_threads_safe r p : reg_ok r → clients r = ∅ → 0 <= listen_fd → rtc step (begin r) p →
  srv_inv (srv p) ∧ (early (main_ p) = true → undefined p = false) ∧
  (∀ pollfds, main_ p = Looping pollfds → loop_inv listen_fd pollfds (srv p)) ∧
  (early (main_ p) = false ∨ main_ p = RunReturned →
     running_ (srv p) = false ∧ clients (registry_ (srv p)) = ∅).
Proof.
  intros Hr He Hfd Hsteps. destruct (reachable_process_inv r p Hr He Hfd Hsteps) as [Hst _ _ Hd _].
  split; [|split; [done|split]].
  - destruct (main_ p); cbn in Hst; apply Hst.
  - intros pollfds Hm. by rewrite Hm in Hst.
  - intros Hl. destruct (main_ p); cbn in *; try (by destruct Hl); by destruct Hst as (_ & ? & ?).
Qed.

(** ** After [g_server] has been cleared *)

(** A thread has found [g_server] not null and has not made its call yet. *)
Definition call_in_flight p : Prop := (∃ line, admin p = Calling line) ∨ HandlerCall ∈ handlers p.

(** Cleared, and nobody in between. *)
Definition quiescent p : Prop :=
  process_inv p ∧ early (main_ p) = false ∧ undefined p = false ∧ ¬ call_in_flight p.

Lemma cleared_null p : process_inv p → early (main_ p) = false → g_server p = false.
Proof. intros [_ Hp _ _ _]. by destruct (main_ p); cbn in *; try done; destruct Hp. Qed.

Lemma quiescent_step p p' : step p p' → quiescent p → quiescent p'.
Proof.
  intros Hstep (Hinv & He & Hu & Hn). pose proof (process_step_inv _ _ Hstep Hinv) as Hinv'.
  pose proof (cleared_null p Hinv He) as Hg.
  assert (∀ l, admin p ≠ Calling l) as Ha by (intros l E; apply Hn; left; by exists l).
  assert (HandlerCall ∉ handlers p) as Hh by (intros E; apply Hn; by right).
  split; [done|]. clear Hinv Hinv' Hn.
  destruct Hstep as [p p' Hs|line p p' _ Hs|p _|i p p' Hs|t pfds p s' pfds' Hm _ _ _|t pfds p s' Hm _ _ _].
  - unfold main_step in Hs. destruct (main_ p); try done; simplify_eq; (split_and!; [done..|]);
      (intros [[l E]|E]; [by eapply Ha|done]).
  - unfold admin_step in Hs. rewrite Hg in Hs.
    destruct (admin p) as [| | |l|l|] eqn:E; [done| | | |by destruct (Ha l)|done]; simplify_eq;
      (split_and!; [done..|]); intros [[l' El]|El]; try done. by destruct line.
  - split_and!; [done..|]. intros [[l E]|E]; [by eapply Ha|]. apply elem_of_app in E as [E|E]; [done|].
    by apply list_elem_of_singleton in E.
  - unfold handler_step in Hs. rewrite Hg in Hs. destruct (handlers p !! i) as [[]|] eqn:E; [| |done].
    + simplify_eq. split_and!; [done..|]. intros [[l El]|El]; [by eapply Ha|]. by apply list_elem_of_delete_inv in El.
    + by apply list_elem_of_lookup_2 in E.
  - by rewrite Hm in He.
  - by rewrite Hm in He.
Qed.

(** C26. The end of the server's process.  When [main] has set [g_server] to null and
    nothing has gone wrong so far, the process can still have undefined behaviour
    exactly if the console thread or a signal handler is between its test of
    [g_server] and its call: nothing makes [main] wait for such a call. *)
Theorem late_call_undefined r p : reg_ok r → clients r = ∅ → 0 <= listen_fd → rtc step (begin r) p →
  early (main_ p) = false → undefined p = false →
  (∃ p', rtc step p p' ∧ undefined p' = true) ↔ call_in_flight p.
Proof.
  intros Hr He Hfd Hsteps Hearly Hu. pose proof (reachable_process_inv r p Hr He Hfd Hsteps) as Hinv. split.
  - intros (p' & Hsteps' & Hu'). destruct (admin p) as [| | |l|l|] eqn:Ea;
      [..|by left; exists l|]; (destruct (decide (HandlerCall ∈ handlers p)) as [Hh|Hh]; [by right|exfalso]).
    all: assert (quiescent p) as Hq by (split_and!; [done..|]; intros [[l' El]|El]; [by rewrite Ea in El|done]).
    all: clear -Hq Hsteps' Hu'; induction Hsteps' as [p|p1 p2 p3 Hs _ IH];
      [by destruct Hq as (_ & _ & ? & _); congruence|by apply IH; eauto using quiescent_step].
  - pose proof (cleared_null p Hinv Hearly) as Hg. intros [[l Ea]|Hh].
    + exists (at_admin p Returned (srv p) true). split; [|done]. apply rtc_once, (step_console None); [done|].
      unfold admin_step, valid. by rewrite Ea, Hg.
    + apply list_elem_of_lookup in Hh as [i Hi]. exists (at_handlers p (delete i (handlers p)) (srv p) true).
      split; [|done]. apply rtc_once, (step_handler i). unfold handler_step, valid. by rewrite Hi, Hg.
Qed.

End process.

(** ** An execution *)

Inductive move := ByMain | ByConsole (line : option bytes) | BySignal | ByHandler (i : nat).

#[local] Instance line_ok_dec line : Decision (line_ok line).
Proof. unfold line_ok. destruct (server_admin.parse_admin_command line); apply _. Defined.

Definition perform (m : move) (p : process ClientRegistry) : option (process ClientRegistry) :=
  match m with
  | ByMain => main_step 4 (str "127.0.0.1") 1502 p
  | ByConsole line => if decide (line_ok (default [] line)) then admin_step line p else None
  | BySignal =>
      if handlers_installed p
      then Some (at_handlers p (handlers p ++ [HandlerTest]) (srv p) (undefined p)) else None
  | ByHandler i => handler_step i p
  end.

Fixpoint perform_all (ms : list move) (p : process ClientRegistry) : option (process ClientRegistry) :=
  match ms with
  | [] => Some p
  | m :: ms => p' ← perform m p; perform_all ms p'
  end.

Lemma perform_steps ms p p' : perform_all ms p = Some p' → rtc (step 4 (str "127.0.0.1") 1502) p p'.
Proof.
  revert p. induction ms as [|m ms IH]; intros p E; cbn in E; [by simplify_eq|].
  destruct (perform m p) as [p1|] eqn:Ep; [|done]. eapply rtc_l; [|by apply IH].
  destruct m as [|line| |i]; cbn in Ep.
  - by apply step_main.
  - case_decide; [|done]. apply (step_console _ _ _ line); [|done]. by intros l ->.
  - destruct (handlers_installed p) eqn:Eh; [|done]. simplify_eq. by apply step_signal.
  - by eapply step_handler.
Qed.

(** A signal stops the server while a line is typed: the console thread has
    tested [g_server] when [main] clears it. *)
Definition demo_moves : list move :=
  [ByMain; ByMain; ByMain; ByMain; ByConsole None; BySignal; ByHandler 0; ByHandler 0; ByMain; ByMain;
   ByConsole (Some (str "ban:1")); ByConsole None; ByMain].
Definition demo_process : process ClientRegistry :=
  default (begin empty_registry) (perform_all demo_moves (begin empty_registry)).

Lemma demo_process_steps : rtc (step 4 (str "127.0.0.1") 1502) (begin empty_registry) demo_process.
Proof. apply (perform_steps demo_moves). vm_compute. reflexivity. Qed.

Lemma server_threads_safe_witness : srv_inv (srv demo_process) ∧ clients (registry_ (srv demo_process)) = ∅.
Proof.
  destruct (server_threads_safe 4 (str "127.0.0.1") 1502 empty_registry demo_process) as (Hs & _ & _ & Hlast).
  - exact reg_inv_empty.
  - reflexivity.
  - lia.
  - exact demo_process_steps.
  - split; [exact Hs|]. apply Hlast. left. reflexivity.
Defined.

Lemma late_call_undefined_witness : ∃ p', rtc (step 4 (str "127.0.0.1") 1502) demo_process p' ∧ undefined p' = true.
Proof.
  apply (late_call_undefined 4 (str "127.0.0.1") 1502 empty_registry demo_process).
  - exact reg_inv_empty.
  - reflexivity.
  - lia.
  - exact demo_process_steps.
  - reflexivity.
  - reflexivity.
  - left. exists (str "ban:1"). reflexivity.
Defined.

End server_threads.
