(* ===== verification/PeerKeyStore.v ===== *)
(** * The key store of a client: common/crypto/PeerKeyStore.cpp and the sizes of
    common/crypto/IMessageCipher.hpp

    [deserialize] works in place: when it throws, the members it has assigned
    before stay assigned, so it is modelled in the state monad.  The peers are a
    hash map; they are written in the order of [map_to_list]. *)
From S2P Require Import Prelude.
From S2P Require Import Protocol.

Module crypto.

Definition kPublicKeySize : nat := 32.
Definition kSecretKeySize : nat := 32.
Definition kRoomKeySize : nat := 32.
Definition kNonceSize : nat := 24.
Definition kMacSize : nat := 16.

Definition kKeyStoreVersion : byte := Byte.x01.

Record PeerKeyStore := mkStore {
  identity_secret_ : bytes;
  identity_public_ : bytes;
  room_key_ : option bytes;
  peers_ : gmap Z bytes
}.

#[global] Instance PeerKeyStore_eq_dec : EqDecision PeerKeyStore.
Proof. solve_decision. Defined.

Definition empty_store : PeerKeyStore := mkStore [] [] None ∅.

Definition with_identity (s : PeerKeyStore) (secret public : bytes) : PeerKeyStore :=
  mkStore secret public (room_key_ s) (peers_ s).
Definition with_room_key (s : PeerKeyStore) (key : option bytes) : PeerKeyStore :=
  mkStore (identity_secret_ s) (identity_public_ s) key (peers_ s).
Definition with_peers (s : PeerKeyStore) (peers : gmap Z bytes) : PeerKeyStore :=
  mkStore (identity_secret_ s) (identity_public_ s) (room_key_ s) peers.

Definition has_identity (s : PeerKeyStore) : bool := negb (bool_decide (identity_secret_ s = [])).

Definition set_identity (secret_key public_key : bytes) : SM PeerKeyStore unit :=
  if decide (length secret_key ≠ kSecretKeySize ∨ length public_key ≠ kPublicKeySize)
  then throw (runtime_error (str "invalid identity key sizes"))
  else modify_ (λ s, with_identity s secret_key public_key).

Definition set_room_key (room_key : bytes) : SM PeerKeyStore unit :=
  if decide (length room_key ≠ kRoomKeySize)
  then throw (runtime_error (str "invalid room key size"))
  else modify_ (λ s, with_room_key s (Some room_key)).

Definition clear_room_key : SM PeerKeyStore unit := modify_ (λ s, with_room_key s None).

Definition set_peer_public (peer_id : Z) (public_key : bytes) : SM PeerKeyStore unit :=
  if decide (length public_key ≠ kPublicKeySize)
  then throw (runtime_error (str "invalid peer public key size"))
  else modify_ (λ s, with_peers s (<[peer_id := public_key]> (peers_ s))).

Definition erase_peer (peer_id : Z) : SM PeerKeyStore unit :=
  modify_ (λ s, with_peers s (delete peer_id (peers_ s))).

Definition erase_peers (peer_ids : list Z) : SM PeerKeyStore unit :=
  for_each peer_ids (λ id, modify_ (λ s, with_peers s (delete id (peers_ s)))).

Definition peer_public (s : PeerKeyStore) (peer_id : Z) : option bytes := peers_ s !! peer_id.

Definition has_peer (s : PeerKeyStore) (peer_id : Z) : bool := bool_decide (is_Some (peers_ s !! peer_id)).

(** The loop of [serialize]. *)
Definition write_peers (peers : list (Z * bytes)) (out : bytes) : bytes :=
  foldl (λ out p, protocol.write_u32_be out p.1 ++ p.2) out peers.

Definition serialize (s : PeerKeyStore) : outcome bytes :=
  if negb (has_identity s)
  then Throw (runtime_error (str "cannot serialize keystore without identity")) else
  let out := [kKeyStoreVersion] in
  let out := out ++ identity_secret_ s in
  let out := out ++ identity_public_ s in
  let out := out ++ [match room_key_ s with Some _ => Byte.x01 | None => Byte.x00 end] in
  let out := match room_key_ s with Some key => out ++ key | None => out end in
  if decide (protocol.kMaxU16Count < Z.of_nat (size (peers_ s)))
  then Throw (runtime_error (str "too many peer keys")) else
  let out := protocol.write_u16_be out (to_u16 (Z.of_nat (size (peers_ s)))) in
  mret (write_peers (map_to_list (peers_ s)) out).

(** The loop of [deserialize], entry [count] before the end. *)
Fixpoint read_peers (count : nat) (blob : bytes) (offset : nat) : SM PeerKeyStore unit :=
  match count with
  | O => skip
  | S count =>
      if decide (length blob < offset + protocol.kUint32Size + kPublicKeySize)%nat
      then throw (runtime_error (str "truncated peer entry in keystore")) else
      p ← lift (span_from blob offset);
      id ← lift (protocol.read_u32_be p);
      let offset := (offset + protocol.kUint32Size)%nat in
      pk ← lift (range blob offset (offset + kPublicKeySize));
      let offset := (offset + kPublicKeySize)%nat in
      _ ← modify_ (λ s, with_peers s (<[id := pk]> (peers_ s)));
      read_peers count blob offset
  end.

(** The optional room key: the new value of [offset]. *)
Definition read_room_key (has_room : bool) (blob : bytes) (offset : nat) : SM PeerKeyStore nat :=
  if has_room then
    if decide (length blob < offset + kRoomKeySize)%nat
    then throw (runtime_error (str "truncated room key in keystore")) else
    key ← lift (range blob offset (offset + kRoomKeySize));
    _ ← modify_ (λ s, with_room_key s (Some key));
    mret (offset + kRoomKeySize)%nat
  else mret offset.

Definition deserialize (blob : bytes) : SM PeerKeyStore unit :=
  if decide (length blob < 1 + kSecretKeySize + kPublicKeySize + 1 + protocol.kUint16Size)%nat
  then throw (runtime_error (str "keystore blob too short")) else
  version ← lift (at_ blob 0);
  let offset := 1%nat in
  if decide (version ≠ kKeyStoreVersion)
  then throw (runtime_error (str "unsupported keystore version")) else
  secret ← lift (range blob offset (offset + kSecretKeySize));
  _ ← modify_ (λ s, with_identity s secret (identity_public_ s));
  let offset := (offset + kSecretKeySize)%nat in
  public ← lift (range blob offset (offset + kPublicKeySize));
  _ ← modify_ (λ s, with_identity s (identity_secret_ s) public);
  let offset := (offset + kPublicKeySize)%nat in
  flag ← lift (at_ blob offset);
  let offset := S offset in
  let has_room := negb (bool_decide (flag = Byte.x00)) in
  _ ← modify_ (λ s, with_room_key s None);
  offset ← read_room_key has_room blob offset;
  if decide (length blob < offset + protocol.kUint16Size)%nat
  then throw (runtime_error (str "truncated peer count in keystore")) else
  p ← lift (span_from blob offset);
  count ← lift (protocol.read_u16_be p);
  let offset := (offset + protocol.kUint16Size)%nat in
  _ ← modify_ (λ s, with_peers s ∅);
  read_peers (Z.to_nat count) blob offset.

(** ** Facts *)

(** Keys of the right sizes under 32-bit ids. *)
Definition store_ok (s : PeerKeyStore) : Prop :=
  length (identity_secret_ s) = kSecretKeySize ∧ length (identity_public_ s) = kPublicKeySize ∧
  (∀ key, room_key_ s = Some key → length key = kRoomKeySize) ∧
  map_Forall (λ id pk, is_u32 id ∧ length pk = kPublicKeySize) (peers_ s).

Lemma store_ok_insert s id pk : store_ok s → is_u32 id → length pk = kPublicKeySize →
  store_ok (with_peers s (<[id := pk]> (peers_ s))).
Proof.
  intros (? & ? & ? & Hp) Hid Hpk. split_and!; [done..|]. by apply map_Forall_insert_2.
Qed.

Definition peer_bytes (p : Z * bytes) : bytes := protocol.be32 p.1 ++ p.2.

Lemma write_peers_spec l out : write_peers l out = out ++ concat (peer_bytes <$> l).
Proof.
  revert out. induction l as [|p l IH]; intros out; cbn; [by rewrite app_nil_r|].
  unfold write_peers in IH. rewrite IH, protocol.write_u32_be_spec. unfold peer_bytes.
  by rewrite <-!app_assoc.
Qed.

(** The bytes of a store: everything before the peers, and the peers. *)
Definition head_bytes (s : PeerKeyStore) : bytes :=
  [kKeyStoreVersion] ++ identity_secret_ s ++ identity_public_ s ++
  match room_key_ s with Some key => Byte.x01 :: key | None => [Byte.x00] end.

Lemma serialize_spec s : store_ok s → Z.of_nat (size (peers_ s)) <= 65535 →
  serialize s = Ok (head_bytes s ++ protocol.be16 (Z.of_nat (size (peers_ s))) ++
                    concat (peer_bytes <$> map_to_list (peers_ s))).
Proof.
  intros (Hs & _ & _) Hn. unfold serialize, has_identity.
  rewrite bool_decide_eq_false_2 by (intros E; by rewrite E in Hs). cbn [negb].
  unfold protocol.kMaxU16Count. rewrite decide_False by lia.
  rewrite to_u16_small by (unfold is_u16; lia).
  rewrite write_peers_spec, protocol.write_u16_be_spec. unfold head_bytes.
  destruct (room_key_ s); cbn [mret outcome_ret]; by rewrite <-!app_assoc.
Qed.

Lemma foldl_insert_map (l : list (Z * bytes)) (m : gmap Z bytes) :
  NoDup l.*1 → foldl (λ m p, <[p.1 := p.2]> m) m l = list_to_map l ∪ m.
Proof.
  revert m. induction l as [|[i x] l IH]; intros m Hl; cbn [foldl fst snd].
  { by rewrite list_to_map_nil, map_empty_union. }
  apply NoDup_cons in Hl as [Hi Hl]. rewrite IH, list_to_map_cons by done.
  rewrite <-insert_union_l, insert_union_r; [done|]. by apply not_elem_of_list_to_map_1.
Qed.

Lemma read_peers_run l pre trailing blob s :
  Forall (λ p, is_u32 p.1 ∧ length p.2 = kPublicKeySize) l →
  blob = pre ++ concat (peer_bytes <$> l) ++ trailing →
  read_peers (length l) blob (length pre) s =
  (with_peers s (foldl (λ m p, <[p.1 := p.2]> m) (peers_ s) l), Ok tt).
Proof.
  intros Hl. revert pre s. induction Hl as [|[i pk] l [Hi Hpk] Hl IH]; intros pre s Eblob; cbn [read_peers length].
  { by destruct s. }
  cbn [fst snd] in Hi, Hpk. set (rest := concat (peer_bytes <$> l)) in *.
  assert (blob = pre ++ protocol.be32 i ++ (pk ++ rest ++ trailing)) as Eb
    by (rewrite Eblob; cbn; unfold peer_bytes; by rewrite <-!app_assoc).
  assert (length (protocol.be32 i) = 4%nat) as H4 by done.
  rewrite decide_False; cycle 1.
  { rewrite Eb, !length_app, H4, Hpk. unfold protocol.kUint32Size. lia. }
  erewrite SM_bind_ok; [|unfold lift; by rewrite (span_mid blob pre _ _ Eb eq_refl)].
  erewrite SM_bind_ok; [|unfold lift; rewrite (proj2 (protocol.read_u32_be_iff _ i)) by eauto; done].
  erewrite SM_bind_ok; cycle 1.
  { unfold lift. rewrite (range_mid blob (pre ++ protocol.be32 i) pk (rest ++ trailing)); [done|..].
    - by rewrite Eb, <-app_assoc.
    - by rewrite length_app, H4.
    - by rewrite Hpk. }
  erewrite SM_bind_ok; [|done].
  replace (length pre + protocol.kUint32Size + kPublicKeySize)%nat
    with (length (pre ++ protocol.be32 i ++ pk)) by (rewrite !length_app, H4, Hpk; unfold protocol.kUint32Size; lia).
  rewrite (IH (pre ++ protocol.be32 i ++ pk)); [done|]. by rewrite Eb, <-!app_assoc.
Qed.

(** The room key's part of a blob. *)
Definition room_bytes (room : option bytes) : bytes := match room with Some key => key | None => [] end.

Lemma read_room_key_run room pre post blob s : blob = pre ++ room_bytes room ++ post →
  (∀ key, room = Some key → length key = kRoomKeySize) → room_key_ s = None →
  read_room_key (bool_decide (is_Some room)) blob (length pre) s =
  (with_room_key s room, Ok (length (pre ++ room_bytes room))).
Proof.
  intros Eb Hroom Hs. unfold read_room_key. destruct room as [key|]; cbn [room_bytes bool_decide].
  - specialize (Hroom key eq_refl). rewrite bool_decide_eq_true_2 by eauto.
    rewrite decide_False by (rewrite Eb, !length_app; cbn; lia).
    rewrite (SM_lift_ok _ key) by (eapply range_mid; [exact Eb|done|by rewrite Hroom]).
    by rewrite SM_modify, length_app, Hroom.
  - rewrite bool_decide_eq_false_2 by (by intros []). rewrite app_nil_r. destruct s. cbn in Hs. by subst.
Qed.

(** The part of [deserialize] that follows the identity. *)
Lemma deserialize_tail room peers pre trailing blob s :
  (∀ key, room = Some key → length key = kRoomKeySize) →
  map_Forall (λ id pk, is_u32 id ∧ length pk = kPublicKeySize) peers →
  Z.of_nat (size peers) <= 65535 → room_key_ s = None →
  blob = pre ++ room_bytes room ++ protocol.be16 (Z.of_nat (size peers)) ++
         concat (peer_bytes <$> map_to_list peers) ++ trailing →
  (offset ← read_room_key (bool_decide (is_Some room)) blob (length pre);
   if decide (length blob < offset + protocol.kUint16Size)%nat
   then throw (runtime_error (str "truncated peer count in keystore")) else
   p ← lift (span_from blob offset);
   count ← lift (protocol.read_u16_be p);
   let offset := (offset + protocol.kUint16Size)%nat in
   _ ← modify_ (λ s, with_peers s ∅);
   read_peers (Z.to_nat count) blob offset) s = (with_peers (with_room_key s room) peers, Ok tt).
Proof.
  intros Hroom Hpeers Hn Hs Eb. rewrite (SM_bind_ok _ _ _ _ _ (read_room_key_run room pre _ blob s Eb Hroom Hs)).
  set (n := Z.of_nat (size peers)) in *. set (ps := concat _) in *.
  assert (length (protocol.be16 n) = 2%nat) as H2 by done.
  rewrite app_assoc in Eb. unfold protocol.kUint16Size.
  rewrite decide_False by (rewrite Eb, !length_app, H2; lia).
  rewrite (SM_lift_ok _ (protocol.be16 n ++ ps ++ trailing)) by (eapply span_mid; [exact Eb|done]).
  rewrite (SM_lift_ok _ n) by (apply protocol.read_u16_be_iff; split; [unfold is_u16; lia|eauto]).
  rewrite SM_modify. cbn zeta. rewrite <-H2, <-length_app.
  replace (Z.to_nat n) with (length (map_to_list peers)) by (rewrite length_map_to_list; unfold n; lia).
  rewrite (read_peers_run (map_to_list peers) _ trailing).
  - cbn [with_peers with_room_key peers_]. rewrite foldl_insert_map by apply NoDup_fst_map_to_list.
    by rewrite list_to_map_to_list, map_union_empty.
  - apply map_Forall_to_list in Hpeers. eapply Forall_impl; [done|]. by intros [].
  - by rewrite Eb, <-!app_assoc.
Qed.

Lemma deserialize_run s s0 trailing : store_ok s → Z.of_nat (size (peers_ s)) <= 65535 →
  deserialize (head_bytes s ++ protocol.be16 (Z.of_nat (size (peers_ s))) ++
               concat (peer_bytes <$> map_to_list (peers_ s)) ++ trailing) s0 = (s, Ok tt).
Proof.
  intros (Hsec & Hpub & Hroom & Hpeers) Hn. destruct s as [sec pub room peers].
  cbn [identity_secret_ identity_public_ room_key_ peers_] in *.
  set (rest := protocol.be16 (Z.of_nat (size peers)) ++ _).
  assert (1 < length rest)%nat as Hrest by (unfold rest; cbn [length app]; rewrite length_app; cbn; lia).
  set (flag := match room with Some _ => Byte.x01 | None => Byte.x00 end).
  assert (head_bytes (mkStore sec pub room peers) ++ rest =
    [kKeyStoreVersion] ++ sec ++ pub ++ [flag] ++ room_bytes room ++ rest) as ->.
  { unfold head_bytes, flag. cbn [identity_secret_ identity_public_ room_key_]. destruct room; by rewrite <-!app_assoc. }
  set (blob := [kKeyStoreVersion] ++ _). unfold deserialize, kSecretKeySize, kPublicKeySize in *.
  rewrite decide_False by (unfold blob, protocol.kUint16Size; rewrite !length_app, Hsec, Hpub; cbn [length]; lia).
  rewrite (SM_lift_ok _ kKeyStoreVersion) by done. rewrite decide_False by naive_solver.
  rewrite (SM_lift_ok _ sec) by (apply (range_mid _ [kKeyStoreVersion] _ (pub ++ [flag] ++ room_bytes room ++ rest));
    [done..|by rewrite Hsec]).
  rewrite SM_modify, (SM_lift_ok _ pub); cycle 1.
  { apply (range_mid _ ([kKeyStoreVersion] ++ sec) _ ([flag] ++ room_bytes room ++ rest));
      [by rewrite <-!app_assoc|by rewrite length_app, Hsec|by rewrite Hpub]. }
  rewrite SM_modify, (SM_lift_ok _ flag); cycle 1.
  { apply (at_mid _ ([kKeyStoreVersion] ++ sec ++ pub) _ (room_bytes room ++ rest));
      [by rewrite <-!app_assoc|by rewrite !length_app, Hsec, Hpub]. }
  rewrite SM_modify.
  replace (negb (bool_decide (flag = Byte.x00))) with (bool_decide (is_Some room)) by (unfold flag; by destruct room).
  replace (S (1 + 32 + 32)) with (length ([kKeyStoreVersion] ++ sec ++ pub ++ [flag]))
    by (rewrite !length_app, Hsec, Hpub; done).
  rewrite (deserialize_tail room peers _ trailing); [done..|]. unfold blob, rest. by rewrite <-!app_assoc.
Qed.

(** A key store survives being written and read back: what [serialize] gives
    for a store with an identity and keys of the right sizes, [deserialize] turns
    into exactly this store, whatever was in the object before. *)
Theorem keystore_roundtrip s s0 : store_ok s → Z.of_nat (size (peers_ s)) <= 65535 →
  ∃ blob, serialize s = Ok blob ∧ deserialize blob s0 = (s, Ok tt).
Proof.
  intros Hs Hn. eexists. split; [by apply serialize_spec|].
  rewrite <-(deserialize_run s s0 [] Hs Hn). by rewrite app_nil_r.
Qed.

Definition some_store : PeerKeyStore :=
  mkStore (replicate 32 Byte.x07) (replicate 32 Byte.x09) (Some (replicate 32 Byte.x0a))
    {[2 := replicate 32 Byte.x0b]}.

Lemma keystore_roundtrip_witness :
  ∃ blob, serialize some_store = Ok blob ∧ deserialize blob empty_store = (some_store, Ok tt).
Proof.
  apply (keystore_roundtrip some_store empty_store).
  - split_and!; [reflexivity|reflexivity| |].
    + intros key [= <-]. reflexivity.
    + apply map_Forall_singleton. split; [unfold is_u32; lia|reflexivity].
  - vm_compute. discriminate.
Defined.

(** ** Any blob *)

(** What [deserialize] may throw: only [std::runtime_error]. *)
Definition is_runtime_error (e : exn) : Prop :=
  match e with runtime_error w => size_t w <= 65535 | _ => False end.

(** The room key and the peers' keys have the right sizes; the identity may be missing. *)
Definition parts_ok (s : PeerKeyStore) : Prop :=
  (∀ key, room_key_ s = Some key → length key = kRoomKeySize) ∧
  map_Forall (λ id pk, is_u32 id ∧ length pk = kPublicKeySize) (peers_ s).

Lemma store_parts_ok s : store_ok s ↔
  length (identity_secret_ s) = kSecretKeySize ∧ length (identity_public_ s) = kPublicKeySize ∧ parts_ok s.
Proof. done. Qed.

(** A [std::runtime_error], the rest of the store being sound still. *)
Abbreviation throws_runtime_error := (λ (e : exn) (s : PeerKeyStore), is_runtime_error e ∧ parts_ok s).

Lemma read_peers_checked n blob off s : store_ok s →
  wp (read_peers n blob off) (λ _, store_ok) throws_runtime_error s.
Proof.
  revert off s. induction n as [|n IH]; intros off s Hs; cbn [read_peers]; [done|].
  case_decide; [apply wp_throw; split; [cbn; lia|apply Hs]|]. unfold protocol.kUint32Size, kPublicKeySize in *.
  apply wp_bind. eapply wp_lift_ok; [apply span_from_ok; lia|].
  destruct (protocol.read_u32_be_ok (drop off blob)) as [id Hid]; [rewrite length_drop; lia|].
  apply wp_bind. eapply wp_lift_ok; [exact Hid|].
  apply wp_bind. eapply wp_lift_ok; [apply range_ok; lia|].
  apply wp_bind, wp_modify, IH, store_ok_insert; [done| |].
  - by apply protocol.read_u32_be_iff in Hid as [? _].
  - rewrite length_take, length_drop. unfold kPublicKeySize. lia.
Qed.

Lemma read_room_key_checked has_room blob off s : store_ok s → room_key_ s = None →
  wp (read_room_key has_room blob off) (λ _, store_ok) throws_runtime_error s.
Proof.
  intros (? & ? & ? & ?) Hr. unfold read_room_key. destruct has_room; [|done].
  case_decide; [apply wp_throw; split; [cbn; lia|done]|].
  apply wp_bind. eapply wp_lift_ok; [apply range_ok; lia|]. apply wp_bind, wp_modify.
  split_and!; [done..| |done]. cbn. intros key [= <-].
  rewrite length_take, length_drop. unfold kRoomKeySize in *. lia.
Qed.

Lemma deserialize_checked_aux blob s : parts_ok s →
  wp (deserialize blob) (λ _, store_ok) throws_runtime_error s.
Proof.
  intros Hs. unfold deserialize, protocol.kUint16Size.
  case_decide as Hl; [apply wp_throw; split; [cbn; lia|done]|].
  unfold kSecretKeySize, kPublicKeySize in *.
  destruct (at_ok blob 0) as (v & Hv & _); [lia|]. apply wp_bind. eapply wp_lift_ok; [exact Hv|].
  case_decide; [apply wp_throw; split; [cbn; lia|done]|].
  apply wp_bind. eapply wp_lift_ok; [apply range_ok; lia|]. apply wp_bind, wp_modify.
  apply wp_bind. eapply wp_lift_ok; [apply range_ok; lia|]. apply wp_bind, wp_modify.
  destruct (at_ok blob (1 + 32 + 32)) as (f & Hf & _); [lia|]. apply wp_bind. eapply wp_lift_ok; [exact Hf|].
  apply wp_bind, wp_modify, wp_bind. eapply wp_mono; [apply read_room_key_checked|..|done].
  - split_and!; cbn -[Nat.sub]; [..|done|apply Hs]; rewrite length_take, length_drop;
      unfold kSecretKeySize, kPublicKeySize; lia.
  - done.
  - intros off s' Hs'. case_decide; [apply wp_throw; split; [cbn; lia|apply Hs']|].
    apply wp_bind. eapply wp_lift_ok; [apply span_from_ok; lia|].
    destruct (protocol.read_u16_be_ok (drop off blob)) as [n Hn]; [rewrite length_drop; lia|].
    apply wp_bind. eapply wp_lift_ok; [exact Hn|]. apply wp_bind, wp_modify, read_peers_checked.
    destruct Hs' as (? & ? & ? & _). split_and!; [done..|]. apply map_Forall_empty.
Qed.

(** Whatever bytes are in the file, reading a key store has no undefined
    behaviour; it throws a [std::runtime_error] and leaves room and peer keys of
    the right sizes, or it gives a store whose keys all have the right sizes. *)
Theorem deserialize_checked blob s : parts_ok s →
  wp (deserialize blob) (λ _, store_ok) throws_runtime_error s.
Proof. apply deserialize_checked_aux. Qed.

Lemma deserialize_checked_witness :
  wp (deserialize (Byte.x01 :: replicate 70 Byte.xff)) (λ _, store_ok) throws_runtime_error empty_store.
Proof. apply deserialize_checked. split; [discriminate|apply map_Forall_empty]. Defined.

(** ** The other operations *)

Lemma erase_peers_run ids s :
  erase_peers ids s = (with_peers s (filter (λ p, p.1 ∉ ids) (peers_ s)), Ok tt).
Proof.
  unfold erase_peers. rewrite (for_each_fold _ _ (λ id s, with_peers s (delete id (peers_ s)))) by done.
  f_equal. revert s. induction ids as [|id ids IH]; intros s; cbn [foldl].
  - rewrite map_filter_id; [by destruct s|]. intros. set_solver.
  - rewrite IH. destruct s. unfold with_peers. cbn. f_equal. apply map_eq. intros i.
    rewrite map_filter_delete. destruct (decide (i = id)) as [->|Hne].
    + rewrite lookup_delete_eq. symmetry. apply map_lookup_filter_None. right. intros x _. set_solver.
    + rewrite lookup_delete_ne by done. rewrite !map_lookup_filter.
      destruct (peers_0 !! i); [|done]. cbn. apply option_guard_iff. set_solver.
Qed.

Lemma erase_peers_ok ids s : store_ok s → store_ok (erase_peers ids s).1.
Proof.
  rewrite erase_peers_run. intros (? & ? & ? & Hp). split_and!; [done..|]. cbn.
  intros i pk [Hi _]%map_lookup_filter_Some. by apply Hp.
Qed.

End crypto.
