(* ===== verification/Cipher.v ===== *)
(** * Message encryption: common/crypto/IMessageCipher.hpp,
    MonocypherMessageCipher.cpp, EncryptedKeyStoreFile.cpp

    [Monocypher] are the primitives of the vendored library that the code calls;
    [MonocypherLaws] is what the library's header documents of them and the code
    relies on.  [IMessageCipher] is the interface the client uses, [CipherLaws] what
    the client relies on, and [MonocypherMessageCipher] the implementation, which
    keeps this contract if the library keeps its own.  Random bytes are an argument
    of the operations that draw them. *)
From S2P Require Import Prelude.
From S2P Require Import Protocol.
From S2P Require Import PeerKeyStore.

Module cipher.
Import crypto.

(** ** Random bytes *)

(** What one call of [fill_random] finds: the bytes that can be read from
    /dev/urandom (or that it cannot be opened) and the numbers of the
    [std::random_device]. *)
Record entropy := mkEntropy {
  urandom : option bytes;
  random_device : nat → Z
}.

Definition fill_random (e : entropy) (len : nat) : bytes :=
  let fallback := (λ i, to_u8 (random_device e i)) <$> seq 0 len in
  match urandom e with
  | Some b => if decide (length (take len b) = len) then take len b else fallback
  | None => fallback
  end.

(** ** The library *)

Class Monocypher := {
  (* your_secret_key, their_public_key *)
  crypto_x25519 : bytes → bytes → bytes;
  crypto_x25519_public_key : bytes → bytes;
  (* key, nonce, ad, plain text; the cipher text and the mac *)
  crypto_aead_lock : bytes → bytes → bytes → bytes → bytes * bytes;
  (* mac, key, nonce, ad, cipher text; None when it returns -1 *)
  crypto_aead_unlock : bytes → bytes → bytes → bytes → bytes → option bytes;
  (* hash_size, message *)
  crypto_blake2b : nat → bytes → bytes
}.

Class MonocypherLaws `{Monocypher} := {
  x25519_length sk pk : length (crypto_x25519 sk pk) = 32%nat;
  x25519_public_length sk : length (crypto_x25519_public_key sk) = 32%nat;
  x25519_shared a b : length a = 32%nat → length b = 32%nat →
    crypto_x25519 a (crypto_x25519_public_key b) = crypto_x25519 b (crypto_x25519_public_key a);
  aead_lengths key nonce ad plain :
    length (crypto_aead_lock key nonce ad plain).1 = length plain ∧
    length (crypto_aead_lock key nonce ad plain).2 = 16%nat;
  aead_unlock_lock key nonce ad plain :
    crypto_aead_unlock (crypto_aead_lock key nonce ad plain).2 key nonce ad
      (crypto_aead_lock key nonce ad plain).1 = Some plain
}.

(** ** The interface *)

Record KeyPair := mkPair { public_key : bytes; secret_key : bytes }.

Class IMessageCipher := {
  generate_keypair : entropy → KeyPair;
  generate_room_key : entropy → bytes;
  (* my_secret, peer_public, plaintext or ciphertext *)
  encrypt_for_peer : entropy → bytes → bytes → bytes → outcome bytes;
  decrypt_from_peer : bytes → bytes → bytes → outcome bytes;
  seal_room_key : entropy → bytes → bytes → bytes → outcome bytes;
  open_room_key : bytes → bytes → bytes → outcome bytes;
  encrypt_with_room_key : entropy → bytes → bytes → outcome bytes;
  decrypt_with_room_key : bytes → bytes → outcome bytes;
  (* salt and nonce; password, plaintext or ciphertext *)
  encrypt_keystore : entropy → entropy → bytes → bytes → bytes;
  decrypt_keystore : bytes → bytes → outcome bytes
}.

(** Returns or throws a [CipherError] with a short text. *)
Definition cipher_result {A} (m : outcome A) : Prop :=
  match m with
  | Ok _ => True
  | Throw (CipherError w) => size_t w <= 65535
  | _ => False
  end.

Class CipherLaws `{IMessageCipher} := {
  (** A key pair as [generate_keypair] makes them. *)
  is_pair : bytes → bytes → Prop;
  law_keypair e : is_pair (secret_key (generate_keypair e)) (public_key (generate_keypair e));
  law_pair_length sk pk : is_pair sk pk → length sk = kSecretKeySize ∧ length pk = kPublicKeySize;
  law_room_key_length e : length (generate_room_key e) = kRoomKeySize;
  law_encrypt e sk pk m : length sk = kSecretKeySize → length pk = kPublicKeySize →
    ∃ c, encrypt_for_peer e sk pk m = Ok c ∧ length c = (40 + length m)%nat;
  law_decrypt e ska pka skb pkb m c : is_pair ska pka → is_pair skb pkb →
    encrypt_for_peer e ska pkb m = Ok c → decrypt_from_peer skb pka c = Ok m;
  law_seal e sk pk k : length sk = kSecretKeySize → length pk = kPublicKeySize →
    length k = kRoomKeySize → ∃ c, seal_room_key e sk pk k = Ok c ∧ length c = 72%nat;
  law_open e ska pka skb pkb k c : is_pair ska pka → is_pair skb pkb →
    seal_room_key e ska pkb k = Ok c → open_room_key skb pka c = Ok k;
  law_open_length sk pk c k : open_room_key sk pk c = Ok k → length k = kRoomKeySize;
  law_room e k m : length k = kRoomKeySize →
    ∃ c, encrypt_with_room_key e k m = Ok c ∧ length c = (40 + length m)%nat ∧
         decrypt_with_room_key k c = Ok m;
  law_keystore e1 e2 pw m : decrypt_keystore pw (encrypt_keystore e1 e2 pw m) = Ok m;
  law_keystore_nonempty e1 e2 pw m : encrypt_keystore e1 e2 pw m ≠ [];
  law_decrypt_safe sk pk c : cipher_result (decrypt_from_peer sk pk c);
  law_seal_safe e sk pk k : cipher_result (seal_room_key e sk pk k);
  law_encrypt_safe e sk pk m : cipher_result (encrypt_for_peer e sk pk m);
  law_open_safe sk pk c : cipher_result (open_room_key sk pk c);
  law_room_encrypt_safe e k m : cipher_result (encrypt_with_room_key e k m);
  law_room_decrypt_safe k c : cipher_result (decrypt_with_room_key k c);
  law_keystore_safe pw c : cipher_result (decrypt_keystore pw c)
}.

(** ** MonocypherMessageCipher *)

Section implementation.
Context `{Monocypher}.

Definition require_size (data : bytes) (expected : nat) (label : bytes) : outcome unit :=
  if decide (length data ≠ expected) then Throw (CipherError (label ++ str " has invalid size"))
  else mret tt.

Definition shared_secret (my_secret peer_public : bytes) : outcome bytes :=
  _ ← require_size my_secret kSecretKeySize (str "secret key");
  _ ← require_size peer_public kPublicKeySize (str "peer public key");
  mret (crypto_x25519 my_secret peer_public).

Definition aead_encrypt (e : entropy) (key plain : bytes) : bytes :=
  let nonce := fill_random e kNonceSize in
  let '(ct, mac) := crypto_aead_lock key nonce [] plain in
  nonce ++ mac ++ ct.

Definition aead_decrypt (key blob : bytes) : outcome bytes :=
  if decide (length blob < kNonceSize + kMacSize)%nat
  then Throw (CipherError (str "ciphertext too short")) else
  nonce ← range blob 0 kNonceSize;
  mac ← range blob kNonceSize (kNonceSize + kMacSize);
  ct ← range blob (kNonceSize + kMacSize) (length blob);
  match crypto_aead_unlock mac key nonce [] ct with
  | None => Throw (CipherError (str "decryption failed"))
  | Some plain => mret plain
  end.

Definition derive_password_key (password salt : bytes) : bytes :=
  crypto_blake2b 32 (password ++ salt).

Definition mono_generate_keypair (e : entropy) : KeyPair :=
  let secret := fill_random e kSecretKeySize in
  mkPair (crypto_x25519_public_key secret) secret.

Definition mono_generate_room_key (e : entropy) : bytes := fill_random e kRoomKeySize.

Definition mono_encrypt_for_peer (e : entropy) (my_secret peer_public plaintext : bytes) : outcome bytes :=
  shared ← shared_secret my_secret peer_public;
  mret (aead_encrypt e shared plaintext).

Definition mono_decrypt_from_peer (my_secret peer_public ciphertext : bytes) : outcome bytes :=
  shared ← shared_secret my_secret peer_public;
  aead_decrypt shared ciphertext.

Definition mono_seal_room_key (e : entropy) (my_secret peer_public room_key : bytes) : outcome bytes :=
  _ ← require_size room_key kRoomKeySize (str "room key");
  shared ← shared_secret my_secret peer_public;
  mret (aead_encrypt e shared room_key).

Definition mono_open_room_key (my_secret peer_public sealed : bytes) : outcome bytes :=
  shared ← shared_secret my_secret peer_public;
  room ← aead_decrypt shared sealed;
  if decide (length room ≠ kRoomKeySize) then Throw (CipherError (str "invalid room key payload"))
  else mret room.

Definition mono_encrypt_with_room_key (e : entropy) (room_key plaintext : bytes) : outcome bytes :=
  _ ← require_size room_key kRoomKeySize (str "room key");
  mret (aead_encrypt e room_key plaintext).

Definition mono_decrypt_with_room_key (room_key ciphertext : bytes) : outcome bytes :=
  _ ← require_size room_key kRoomKeySize (str "room key");
  aead_decrypt room_key ciphertext.

Definition mono_encrypt_keystore (e1 e2 : entropy) (password plaintext : bytes) : bytes :=
  let salt := fill_random e1 16 in
  let key := derive_password_key password salt in
  let sealed := aead_encrypt e2 key plaintext in
  salt ++ sealed.

Definition mono_decrypt_keystore (password ciphertext : bytes) : outcome bytes :=
  if decide (length ciphertext < 16 + kNonceSize + kMacSize)%nat
  then Throw (CipherError (str "keystore blob too short")) else
  salt ← range ciphertext 0 16;
  let key := derive_password_key password salt in
  sealed ← range ciphertext 16 (length ciphertext);
  aead_decrypt key sealed.

#[global] Instance MonocypherMessageCipher : IMessageCipher := {
  generate_keypair := mono_generate_keypair;
  generate_room_key := mono_generate_room_key;
  encrypt_for_peer := mono_encrypt_for_peer;
  decrypt_from_peer := mono_decrypt_from_peer;
  seal_room_key := mono_seal_room_key;
  open_room_key := mono_open_room_key;
  encrypt_with_room_key := mono_encrypt_with_room_key;
  decrypt_with_room_key := mono_decrypt_with_room_key;
  encrypt_keystore := mono_encrypt_keystore;
  decrypt_keystore := mono_decrypt_keystore
}.

End implementation.

(** ** EncryptedKeyStoreFile *)

Section file.
Context `{IMessageCipher}.

(** The files by their paths. *)
Abbreviation files := (gmap bytes bytes).

(** What happens to one [std::ofstream]: whether it opens (the file is truncated
    then), whether the write reports success, and how many bytes get to the file
    in the end (the stream is buffered and its closing is not checked). *)
Record write_result := mkWrite { open_ok : bool; write_ok : bool; kept : nat }.

Definition save (w : write_result) (e1 e2 : entropy) (path password : bytes) (store : PeerKeyStore)
    : SM files unit :=
  plain ← lift (serialize store);
  let sealed := encrypt_keystore e1 e2 password plain in
  if negb (open_ok w)
  then throw (CipherError (str "failed to open keystore for writing: " ++ path)) else
  _ ← modify_ (λ fs, <[path := take (kept w) sealed]> fs);
  if negb (write_ok w) then throw (CipherError (str "failed to write keystore: " ++ path)) else
  skip.

(** [fs !! path] is [None] when the file cannot be opened for reading. *)
Definition load (fs : files) (path password : bytes) : SM PeerKeyStore bool :=
  match fs !! path with
  | None => mret false
  | Some sealed =>
      if decide (sealed = []) then mret false else
      plain ← lift (decrypt_keystore password sealed);
      _ ← deserialize plain;
      mret true
  end.

End file.

(** ** The implementation keeps the contract *)

Section implementation_facts.
Context `{MonocypherLaws}.

Lemma length_fill_random e len : length (fill_random e len) = len.
Proof.
  unfold fill_random. destruct (urandom e); [case_decide|]; rewrite ?length_fmap, ?length_seq; done.
Qed.

Lemma shared_secret_ok sk pk : length sk = 32%nat → length pk = 32%nat →
  shared_secret sk pk = Ok (crypto_x25519 sk pk).
Proof.
  intros Hs Hp. unfold shared_secret, require_size, kSecretKeySize, kPublicKeySize.
  rewrite !decide_False by auto. done.
Qed.

Lemma require_size_safe d n label : size_t label <= 1000 → cipher_result (require_size d n label).
Proof.
  intros Hl. unfold require_size. case_decide; [|done]. cbn. rewrite length_app. cbn. lia.
Qed.

Lemma cipher_result_bind {A B} (m : outcome A) (k : A → outcome B) :
  cipher_result m → (∀ a, m = Ok a → cipher_result (k a)) → cipher_result (mbind k m).
Proof. destruct m; cbn; auto. Qed.

Lemma shared_secret_safe sk pk : cipher_result (shared_secret sk pk).
Proof.
  apply cipher_result_bind; [apply require_size_safe; cbn; lia|]. intros _ _.
  apply cipher_result_bind; [apply require_size_safe; cbn; lia|done].
Qed.

Lemma aead_decrypt_safe key blob : cipher_result (aead_decrypt key blob).
Proof.
  unfold aead_decrypt, kNonceSize, kMacSize. case_decide; [cbn; lia|].
  rewrite !range_ok by lia. cbn [mbind outcome_bind].
  destruct (crypto_aead_unlock _ _ _ _ _); cbn; [done|lia].
Qed.

Lemma length_aead_encrypt e key plain : length (aead_encrypt e key plain) = (40 + length plain)%nat.
Proof.
  unfold aead_encrypt. pose proof (aead_lengths key (fill_random e kNonceSize) [] plain) as [Hc Hm].
  destruct (crypto_aead_lock _ _ _ _) as [ct mac]. cbn [fst snd] in *.
  rewrite !length_app, length_fill_random, Hc, Hm. unfold kNonceSize. lia.
Qed.

Lemma length_mono_encrypt_keystore e1 e2 password plain :
  length (mono_encrypt_keystore e1 e2 password plain) = (56 + length plain)%nat.
Proof. unfold mono_encrypt_keystore. rewrite length_app, length_fill_random, length_aead_encrypt. lia. Qed.

Lemma aead_decrypt_encrypt e key plain : aead_decrypt key (aead_encrypt e key plain) = Ok plain.
Proof.
  pose proof (length_aead_encrypt e key plain) as Hlen.
  unfold aead_decrypt, kNonceSize, kMacSize. rewrite decide_False by (rewrite Hlen; lia).
  unfold aead_encrypt in *. pose proof (aead_lengths key (fill_random e kNonceSize) [] plain) as [Hc Hm].
  pose proof (aead_unlock_lock key (fill_random e kNonceSize) [] plain) as Hu.
  pose proof (length_fill_random e kNonceSize) as Hn. unfold kNonceSize in *.
  set (nonce := fill_random e 24) in *.
  destruct (crypto_aead_lock _ _ _ _) as [ct mac]. cbn [fst snd] in *.
  rewrite (range_mid _ [] nonce (mac ++ ct) 0 24); [|done|done|by rewrite Hn]. cbn [mbind outcome_bind].
  rewrite (range_mid _ nonce mac ct 24 (24 + 16)); [|done|by rewrite Hn|by rewrite Hm]. cbn [mbind outcome_bind].
  rewrite (range_mid _ (nonce ++ mac) ct []); cycle 1.
  - by rewrite app_nil_r, <-app_assoc.
  - by rewrite length_app, Hn, Hm.
  - rewrite Hlen, Hc. done.
  - cbn [mbind outcome_bind]. by rewrite Hu.
Qed.

(** The secret a pair shares with another pair. *)
Lemma shared_pair ska skb : length ska = 32%nat → length skb = 32%nat →
  shared_secret ska (crypto_x25519_public_key skb) = Ok (crypto_x25519 ska (crypto_x25519_public_key skb)) ∧
  shared_secret skb (crypto_x25519_public_key ska) = Ok (crypto_x25519 ska (crypto_x25519_public_key skb)).
Proof.
  intros Ha Hb. rewrite !shared_secret_ok by (done || apply x25519_public_length).
  by rewrite (x25519_shared skb ska).
Qed.

#[global, refine] Instance MonocypherMessageCipher_laws : CipherLaws :=
  { is_pair sk pk := length sk = 32%nat ∧ pk = crypto_x25519_public_key sk }.
Proof.
  - intros e. cbn. split; [apply length_fill_random|done].
  - intros sk pk [Hs ->]. split; [done|apply x25519_public_length].
  - intros e. apply length_fill_random.
  - intros e sk pk m Hs Hp. cbn. unfold mono_encrypt_for_peer. rewrite shared_secret_ok by done.
    eexists. split; [done|apply length_aead_encrypt].
  - intros e ska pka skb pkb m c [Ha ->] [Hb ->]. cbn. unfold mono_encrypt_for_peer, mono_decrypt_from_peer.
    destruct (shared_pair ska skb Ha Hb) as [-> ->]. cbn [mbind outcome_bind]. intros [= <-].
    apply aead_decrypt_encrypt.
  - intros e sk pk k Hs Hp Hk. cbn. unfold mono_seal_room_key, require_size.
    rewrite decide_False by auto. cbn [mbind outcome_bind]. rewrite shared_secret_ok by done.
    eexists. split; [done|]. by rewrite length_aead_encrypt, Hk.
  - intros e ska pka skb pkb k c [Ha ->] [Hb ->]. cbn. unfold mono_seal_room_key, mono_open_room_key, require_size.
    case_decide as Hk; [done|]. cbn [mbind outcome_bind].
    destruct (shared_pair ska skb Ha Hb) as [-> ->]. cbn [mbind outcome_bind]. intros [= <-].
    rewrite aead_decrypt_encrypt. cbn [mbind outcome_bind]. by case_decide.
  - intros sk pk c k. cbn. unfold mono_open_room_key. intros (sh & _ & Hk)%bind_ok.
    apply bind_ok in Hk as (room & _ & Hk). case_decide as Hl; [done|]. injection Hk as <-. lia.
  - intros e k m Hk. cbn. unfold mono_encrypt_with_room_key, mono_decrypt_with_room_key, require_size.
    rewrite !decide_False by auto. cbn [mbind outcome_bind]. eexists.
    split_and!; [done|apply length_aead_encrypt|apply aead_decrypt_encrypt].
  - intros e1 e2 pw m. cbn. unfold mono_encrypt_keystore, mono_decrypt_keystore.
    set (salt := fill_random e1 16). assert (length salt = 16%nat) as Hs by apply length_fill_random.
    set (sealed := aead_encrypt e2 _ m).
    assert (length sealed = 40 + length m)%nat as Hl by apply length_aead_encrypt.
    rewrite decide_False by (rewrite length_app, Hs, Hl; unfold kNonceSize, kMacSize; lia).
    rewrite (range_mid _ [] salt sealed 0 16); [|done|done|by rewrite Hs]. cbn [mbind outcome_bind].
    rewrite (range_mid _ salt sealed [] 16 (length (salt ++ sealed)));
      [|by rewrite app_nil_r|done|by rewrite length_app, Hs].
    cbn [mbind outcome_bind]. apply aead_decrypt_encrypt.
  - intros e1 e2 pw m E. cbn in E. apply (f_equal length) in E. unfold mono_encrypt_keystore in E.
    rewrite length_app, length_fill_random in E. cbn in E. lia.
  - intros sk pk c. cbn. apply cipher_result_bind; [apply shared_secret_safe|intros; apply aead_decrypt_safe].
  - intros e sk pk k. cbn. apply cipher_result_bind; [apply require_size_safe; cbn; lia|].
    intros. apply cipher_result_bind; [apply shared_secret_safe|done].
  - intros e sk pk m. cbn. apply cipher_result_bind; [apply shared_secret_safe|done].
  - intros sk pk c. cbn. apply cipher_result_bind; [apply shared_secret_safe|]. intros.
    apply cipher_result_bind; [apply aead_decrypt_safe|]. intros. case_decide; [cbn; lia|done].
  - intros e k m. cbn. apply cipher_result_bind; [apply require_size_safe; cbn; lia|done].
  - intros k c. cbn. apply cipher_result_bind; [apply require_size_safe; cbn; lia|intros; apply aead_decrypt_safe].
  - intros pw c. cbn. unfold mono_decrypt_keystore. case_decide; [cbn; lia|].
    unfold kNonceSize, kMacSize in *. rewrite !range_ok by lia. cbn [mbind outcome_bind]. apply aead_decrypt_safe.
Defined.

(** Two clients with generated key pairs understand each other: what one
    encrypts for the other's public key, the other decrypts to the same text with
    the sender's public key, and a sealed room key opens to the same key. *)
Theorem peer_roundtrip ea eb e text k : length k = kRoomKeySize →
  let a := mono_generate_keypair ea in
  let b := mono_generate_keypair eb in
  (∃ c, mono_encrypt_for_peer e (secret_key a) (public_key b) text = Ok c ∧
        mono_decrypt_from_peer (secret_key b) (public_key a) c = Ok text) ∧
  (∃ c, mono_seal_room_key e (secret_key a) (public_key b) k = Ok c ∧
        mono_open_room_key (secret_key b) (public_key a) c = Ok k).
Proof.
  intros Hk a b. pose proof (law_keypair ea) as Ha. pose proof (law_keypair eb) as Hb.
  destruct (law_pair_length _ _ Ha) as [Hsa _]. destruct (law_pair_length _ _ Hb) as [_ Hpb]. split.
  - destruct (law_encrypt e _ _ text Hsa Hpb) as (c & Hc & _). exists c. split; [done|].
    exact (law_decrypt e _ _ _ _ text c Ha Hb Hc).
  - destruct (law_seal e _ _ k Hsa Hpb Hk) as (c & Hc & _). exists c. split; [done|].
    exact (law_open e _ _ _ _ k c Ha Hb Hc).
Qed.

End implementation_facts.

Section file_facts.
Context `{CipherLaws}.

Lemma load_safe fs path password s : parts_ok s →
  wp (load fs path password) (λ loaded s', if loaded then store_ok s' else parts_ok s')
     (λ e s', size_t (what e) <= 65535 ∧ parts_ok s') s.
Proof.
  intros Hs. unfold load. destruct (fs !! path) as [sealed|]; [|done]. case_decide; [done|].
  pose proof (law_keystore_safe password sealed) as Hsafe. apply wp_bind, wp_lift.
  - by destruct (decrypt_keystore _ _).
  - intros plain _. apply wp_bind. eapply wp_mono; [by apply deserialize_checked_aux|done|].
    intros [w| | | |] s' [He Hs']; [by split|done..].
  - intros e He. rewrite He in Hsafe. by destruct e.
Qed.

(** The key store file: if saving reports success and all bytes get to the
    file, loading it with the same password restores the store, into any object;
    a missing or empty file is reported as such and changes nothing. *)
Theorem keystore_file_roundtrip w e1 e2 path password store fs fs' s0 :
  store_ok store → save w e1 e2 path password store fs = (fs', Ok tt) →
  (∀ plain, serialize store = Ok plain → (length (encrypt_keystore e1 e2 password plain) ≤ kept w)%nat) →
  load fs' path password s0 = (store, Ok true) ∧
  (∀ other, other ≠ path → load fs' other password s0 = load fs other password s0).
Proof.
  intros Hok Hsave Hkept. unfold save in Hsave.
  destruct (decide (Z.of_nat (size (peers_ store)) <= 65535)) as [Hn|Hn]; cycle 1.
  { exfalso. revert Hsave. unfold serialize, has_identity. destruct Hok as (Hs & _).
    rewrite bool_decide_eq_false_2 by (intros E; by rewrite E in Hs). cbn [negb].
    unfold protocol.kMaxU16Count. by rewrite decide_True by lia. }
  pose proof (serialize_spec store Hok Hn) as Hser.
  pose proof (deserialize_run store s0 [] Hok Hn) as Hdes. rewrite app_nil_r in Hdes.
  set (plain := head_bytes store ++ _) in *. specialize (Hkept plain Hser).
  rewrite (SM_lift_ok _ plain) in Hsave by done.
  destruct (open_ok w); [|done]. cbn [negb] in Hsave. rewrite SM_modify in Hsave.
  destruct (write_ok w); [|done]. injection Hsave as <-. rewrite take_ge by done. split.
  - unfold load. rewrite lookup_insert_eq, decide_False by apply law_keystore_nonempty.
    rewrite (SM_lift_ok _ plain) by apply law_keystore. by rewrite (SM_bind_ok _ _ _ _ _ Hdes).
  - intros other Hne. unfold load. by rewrite lookup_insert_ne.
Qed.

End file_facts.

(** ** A library that keeps the laws

    Without any secrecy: the laws, and so the theorems above, can be satisfied. *)
Module toy.

Definition bxor (a b : byte) : byte := to_u8 (Z.lxor (u8 a) (u8 b)).

#[global] Instance library : Monocypher := {
  crypto_x25519 sk pk := resize 32 Byte.x00 (zip_with bxor sk pk);
  crypto_x25519_public_key sk := resize 32 Byte.x00 sk;
  crypto_aead_lock key nonce ad plain := (bxor Byte.x55 <$> plain, resize 16 Byte.x00 key);
  crypto_aead_unlock mac key nonce ad ct :=
    if decide (mac = resize 16 Byte.x00 key) then Some (bxor Byte.x55 <$> ct) else None;
  crypto_blake2b n m := resize n Byte.x00 m
}.

Lemma bxor_comm a b : bxor a b = bxor b a.
Proof. unfold bxor. by rewrite Z.lxor_comm. Qed.

Lemma bxor_55 b : bxor Byte.x55 (bxor Byte.x55 b) = b.
Proof. by destruct b. Qed.

#[global, refine] Instance library_laws : MonocypherLaws := {}.
Proof.
  - intros. apply length_resize.
  - intros. apply length_resize.
  - intros a b Ha Hb. cbn. rewrite (resize_all_alt a), (resize_all_alt b) by done. f_equal.
    rewrite <-zip_with_flip. apply zip_with_ext; [|done..]. intros. apply bxor_comm.
  - intros. cbn. by rewrite length_fmap, length_resize.
  - intros. cbn. rewrite decide_True by done. f_equal. rewrite <-list_fmap_compose.
    rewrite <-(list_fmap_id plain) at 2. apply list_fmap_ext. intros. apply bxor_55.
Qed.

Definition no_entropy : entropy := mkEntropy None (λ _, 0).

End toy.

Lemma peer_roundtrip_witness :
  ∃ c, encrypt_for_peer toy.no_entropy (replicate 32 Byte.x00) (replicate 32 Byte.x07) (str "hi") = Ok c ∧
       decrypt_from_peer (replicate 32 Byte.x07) (replicate 32 Byte.x00) c = Ok (str "hi").
Proof.
  exact (proj1 (peer_roundtrip toy.no_entropy (mkEntropy (Some (replicate 32 Byte.x07)) (λ _, 0))
    toy.no_entropy (str "hi") (replicate 32 Byte.x00) eq_refl)).
Defined.

Lemma keystore_file_roundtrip_witness :
  let store := mkStore (replicate 32 Byte.x07) (replicate 32 Byte.x09) None ∅ in
  load (<[str "bob.keys" := mono_encrypt_keystore toy.no_entropy toy.no_entropy (str "pw")
            (match serialize store with Ok b => b | _ => [] end)]> ∅)
    (str "bob.keys") (str "pw") empty_store = (store, Ok true).
Proof.
  intros store.
  apply (keystore_file_roundtrip (mkWrite true true 1000) toy.no_entropy toy.no_entropy
    (str "bob.keys") (str "pw") store ∅ _ empty_store).
  - split_and!; [reflexivity|reflexivity|discriminate|apply map_Forall_empty].
  - vm_compute. reflexivity.
  - intros plain [= <-]. vm_compute. repeat constructor.
Defined.

End cipher.
