(* ===== verification/ClientViewModel.v ===== *)
(** * The client: client/viewmodel/ClientViewModel.cpp, IncomingMessagePresenter.cpp,
    client/model/ClientSession.cpp

    What the outside answers is part of the state: the results of the next
    [send]s, the random bytes drawn next, the fate of the next file written; when a
    list is used up a [send] fails, random bytes come from a [std::random_device]
    that returns 0 and a file cannot be opened.  [crypto_mutex_] is part of the
    state too: locking it while it is held by the same thread is undefined
    behaviour.  What the client does to the outside is recorded in [out_].

    The client runs two threads, the input loop and the receive loop; a turn
    of either is one action here, and ClientThreads has the accesses inside a turn. *)
From S2P Require Import Prelude.
From S2P Require Import ModbusTcp.
From S2P Require Import Protocol.
From S2P Require Import CppString.
From S2P Require Import AdminCommandParser.
From S2P Require Import Config.
From S2P Require Import PeerKeyStore.
From S2P Require Import Cipher.
From S2P Require Import ClientCommands.

Module client.
Import protocol crypto cipher client_viewmodel.

(** The calls of [IClientOutputView]. *)
Inductive output :=
| show_status (step : bytes) (percent : Z)
| show_input_ready
| show_input_prompt
| show_connected (server_ip : bytes) (port : Z)
| show_my_id (id : Z)
| show_usage
| show_delivered (from_id : Z) (text : bytes)
| show_user_joined (id : Z) (nickname : bytes)
| show_user_left (id : Z) (nickname : bytes)
| show_users_list (users : list UserInfo)
| show_error (text : bytes)
| show_notice (text : bytes)
| show_send_failed
| show_invalid_format
| show_decode_error (text : bytes)
| show_exiting
| show_server_disconnected.

Inductive effect :=
| Show (call : output)
| LogInfo (text : bytes)
| LogError (text : bytes)
| Sent (fd : Z) (type : MsgType) (payload : bytes) (ok : bool)
| ShutdownFd (fd : Z)
| CloseFd (fd : Z)
| CloseStdin.

Record client := mkClient {
  (* ClientSession *)
  config_ : config.ClientConfig;
  session_fd_ : Z;
  my_id_ : Z;
  (* ClientViewModel *)
  key_store_ : PeerKeyStore;
  crypto_mutex_ : bool;
  id_by_nickname_ : gmap bytes Z;
  nickname_by_id_ : gmap Z bytes;
  key_offered_to_ : gset Z;
  running_ : bool;
  exit_announced_ : bool;
  socket_fd_ : Z;
  (* the outside *)
  files_ : gmap bytes bytes;
  sends_ : list bool;
  entropy_ : list entropy;
  writes_ : list write_result;
  out_ : list effect
}.

(** ** Field updates *)

Definition with_session (s : client) (fd id : Z) : client :=
  mkClient (config_ s) fd id (key_store_ s) (crypto_mutex_ s) (id_by_nickname_ s) (nickname_by_id_ s)
    (key_offered_to_ s) (running_ s) (exit_announced_ s) (socket_fd_ s) (files_ s) (sends_ s)
    (entropy_ s) (writes_ s) (out_ s).
Definition with_store (s : client) (store : PeerKeyStore) : client :=
  mkClient (config_ s) (session_fd_ s) (my_id_ s) store (crypto_mutex_ s) (id_by_nickname_ s)
    (nickname_by_id_ s) (key_offered_to_ s) (running_ s) (exit_announced_ s) (socket_fd_ s) (files_ s)
    (sends_ s) (entropy_ s) (writes_ s) (out_ s).
Definition with_mutex (s : client) (held : bool) : client :=
  mkClient (config_ s) (session_fd_ s) (my_id_ s) (key_store_ s) held (id_by_nickname_ s)
    (nickname_by_id_ s) (key_offered_to_ s) (running_ s) (exit_announced_ s) (socket_fd_ s) (files_ s)
    (sends_ s) (entropy_ s) (writes_ s) (out_ s).
Definition with_names (s : client) (ids : gmap bytes Z) (names : gmap Z bytes) : client :=
  mkClient (config_ s) (session_fd_ s) (my_id_ s) (key_store_ s) (crypto_mutex_ s) ids
    names (key_offered_to_ s) (running_ s) (exit_announced_ s) (socket_fd_ s) (files_ s)
    (sends_ s) (entropy_ s) (writes_ s) (out_ s).
Definition with_offered (s : client) (offered : gset Z) : client :=
  mkClient (config_ s) (session_fd_ s) (my_id_ s) (key_store_ s) (crypto_mutex_ s) (id_by_nickname_ s)
    (nickname_by_id_ s) offered (running_ s) (exit_announced_ s) (socket_fd_ s) (files_ s)
    (sends_ s) (entropy_ s) (writes_ s) (out_ s).
Definition with_flags (s : client) (running announced : bool) : client :=
  mkClient (config_ s) (session_fd_ s) (my_id_ s) (key_store_ s) (crypto_mutex_ s) (id_by_nickname_ s)
    (nickname_by_id_ s) (key_offered_to_ s) running announced (socket_fd_ s) (files_ s)
    (sends_ s) (entropy_ s) (writes_ s) (out_ s).
Definition with_socket (s : client) (fd : Z) : client :=
  mkClient (config_ s) (session_fd_ s) (my_id_ s) (key_store_ s) (crypto_mutex_ s) (id_by_nickname_ s)
    (nickname_by_id_ s) (key_offered_to_ s) (running_ s) (exit_announced_ s) fd (files_ s)
    (sends_ s) (entropy_ s) (writes_ s) (out_ s).
Definition with_world (s : client) (files : gmap bytes bytes) (sends : list bool)
    (es : list entropy) (ws : list write_result) : client :=
  mkClient (config_ s) (session_fd_ s) (my_id_ s) (key_store_ s) (crypto_mutex_ s) (id_by_nickname_ s)
    (nickname_by_id_ s) (key_offered_to_ s) (running_ s) (exit_announced_ s) (socket_fd_ s) files
    sends es ws (out_ s).
Definition with_out (s : client) (es : list effect) : client :=
  mkClient (config_ s) (session_fd_ s) (my_id_ s) (key_store_ s) (crypto_mutex_ s) (id_by_nickname_ s)
    (nickname_by_id_ s) (key_offered_to_ s) (running_ s) (exit_announced_ s) (socket_fd_ s) (files_ s)
    (sends_ s) (entropy_ s) (writes_ s) (out_ s ++ es).

(** A client that has just been constructed, in a given outside. *)
Definition initial (c : config.ClientConfig) (files : gmap bytes bytes) (sends : list bool)
    (es : list entropy) (ws : list write_result) : client :=
  mkClient c (-1) 0 empty_store false ∅ ∅ ∅ true false (-1) files sends es ws [].

Section viewmodel.
Context `{IMessageCipher}.
Abbreviation M := (SM client).

(** ** The outside *)

Definition emit (e : effect) : M unit := modify_ (λ s, with_out s [e]).
Definition show (call : output) : M unit := emit (Show call).

(** [transport_->send(session_.socket_fd(), type, payload)] *)
Definition send (type : MsgType) (payload : bytes) : M bool := λ s,
  let ok := default false (head (sends_ s)) in
  (with_out (with_world s (files_ s) (tail (sends_ s)) (entropy_ s) (writes_ s))
     [Sent (session_fd_ s) type payload ok], Ok ok).

Definition draw : M entropy := λ s,
  (with_world s (files_ s) (sends_ s) (tail (entropy_ s)) (writes_ s),
   Ok (default (mkEntropy None (λ _, 0)) (head (entropy_ s)))).

Definition next_write : M write_result := λ s,
  (with_world s (files_ s) (sends_ s) (entropy_ s) (tail (writes_ s)),
   Ok (default (mkWrite false false 0) (head (writes_ s)))).

(** [{ std::lock_guard<std::mutex> lock(crypto_mutex_); m }]: the mutex is released
    on every way out of the block. *)
Definition locked {A} (m : M A) : M A := λ s,
  if crypto_mutex_ s then (s, UB) else
  let '(s', r) := m (with_mutex s true) in (with_mutex s' false, r).

(** An operation of [key_store_]. *)
Definition on_store {A} (m : SM PeerKeyStore A) : M A := λ s,
  let '(store, r) := m (key_store_ s) in (with_store s store, r).

(** An operation on files. *)
Definition on_files {A} (m : SM (gmap bytes bytes) A) : M A := λ s,
  let '(files, r) := m (files_ s) in
  (with_world s files (sends_ s) (entropy_ s) (writes_ s), r).

(** ** Reporting *)

Definition with_detail (brief detail : bytes) : bytes :=
  if decide (detail = []) then brief else brief ++ str " | " ++ detail.

Definition report_error (brief detail : bytes) : M unit :=
  _ ← emit (LogError (with_detail brief detail));
  show (show_error brief).

Definition report_info (brief detail : bytes) : M unit :=
  _ ← emit (LogInfo (with_detail brief detail));
  show (show_notice brief).

Definition default_keystore_name (nickname : bytes) : bytes :=
  if decide (nickname = []) then str "client.keys" else nickname ++ str ".keys".

Definition default_log_name (nickname : bytes) : bytes :=
  if decide (nickname = []) then config.kDefaultClientLogName else nickname ++ str ".log".

Definition keystore_path (s : client) : bytes :=
  if decide (config.keystore_path (config_ s) = [])
  then default_keystore_name (config.nickname (config_ s))
  else config.keystore_path (config_ s).

Definition log_path (s : client) : bytes :=
  if decide (config.log_path (config_ s) = [])
  then default_log_name (config.nickname (config_ s))
  else config.log_path (config_ s).

(** [opened]: what [logger_.is_open()] returns. *)
Definition init_logger (opened : bool) : M unit :=
  path ← get_ log_path;
  if negb opened then show (show_error (str "Cannot open log file: " ++ path)) else
  _ ← emit (LogInfo (str "client log started path=" ++ path));
  show (show_notice (str "Log: " ++ path)).

(** ** Shutting down *)

Definition request_shutdown (unblock_stdin : bool) : M unit :=
  _ ← modify_ (λ s, with_flags s false (exit_announced_ s));
  fd ← get_ socket_fd_;
  _ ← when (0 <=? fd) (emit (ShutdownFd fd));
  when unblock_stdin (emit CloseStdin).

Definition announce_exit (server_lost : bool) : M unit :=
  announced ← get_ exit_announced_;
  if announced : bool then skip else
  _ ← modify_ (λ s, with_flags s (running_ s) true);
  if server_lost then show show_server_disconnected else show show_exiting.

(** ** The key store *)

Definition load_or_create_identity : M unit :=
  locked (
    path ← get_ keystore_path;
    password ← get_ (λ s, config.keystore_password (config_ s));
    loaded ← try_catch
      (files ← get_ files_;
       loaded ← on_store (load files path password);
       if loaded : bool then
         _ ← report_info (str "Keystore loaded") (str "path=" ++ path);
         mret true
       else mret false)
      (λ ex, _ ← report_error (str "Keystore load failed, creating new keys") (what ex); mret false);
    if loaded : bool then skip else
    e ← draw;
    let pair := generate_keypair e in
    _ ← on_store (set_identity (secret_key pair) (public_key pair));
    report_info (str "Generated new identity keypair") (str "keystore=" ++ path)).

(** The random bytes are drawn here, before [save], so also when [save] throws
    before it needs them; nothing depends on which ones are drawn. *)
Definition save_keystore : M unit :=
  locked (
    store ← get_ key_store_;
    if negb (has_identity store) then skip else
    try_catch
      (path ← get_ keystore_path;
       password ← get_ (λ s, config.keystore_password (config_ s));
       e1 ← draw;
       e2 ← draw;
       w ← next_write;
       _ ← on_files (save w e1 e2 path password store);
       emit (LogInfo (str "Keystore saved path=" ++ path)))
      (λ ex, report_error (str "Failed to save keystore") (what ex))).

Definition shutdown : M unit :=
  _ ← request_shutdown false;
  _ ← save_keystore;
  fd ← get_ session_fd_;
  if 0 <=? fd then
    _ ← emit (CloseFd fd);
    _ ← modify_ (λ s, with_session s (-1) (my_id_ s));
    modify_ (λ s, with_socket s (-1))
  else skip.

(** ** Starting *)

(** [conn]: the descriptor that [connector_->connect(config)] returns or what it
    throws. *)
Definition connect_to_server (conn : outcome Z) : M unit :=
  ip ← get_ (λ s, config.server_ip (config_ s));
  port ← get_ (λ s, config.client_port (config_ s));
  _ ← show (show_status (str "Connecting to " ++ ip ++ str ":" ++ std.to_string port)
                        config.kConnectingPercent);
  socket_fd ← lift conn;
  _ ← modify_ (λ s, with_session s socket_fd (my_id_ s));
  _ ← modify_ (λ s, with_socket s socket_fd);
  _ ← show (show_status (str "TCP connected") config.kTcpConnectedPercent);
  _ ← show (show_connected ip port);
  emit (LogInfo (str "connected to " ++ ip ++ str ":" ++ std.to_string port)).

Definition as_assign_id (p : AppPayload) : option AssignIdPayload :=
  match p with PAssignId a => Some a | _ => None end.

(** [rx]: what [transport_->receive] returns or throws. *)
Definition receive_assigned_id (rx : outcome (option AppMessage)) : M unit :=
  _ ← show (show_status (str "Waiting for assigned id") config.kWaitAssignIdPercent);
  message ← lift rx;
  match message with
  | Some (mkMessage AssignId payload) =>
      assign ← lift (get_alternative (as_assign_id payload));
      _ ← modify_ (λ s, with_session s (session_fd_ s) (assign_id assign));
      _ ← show (show_status (str "Got id=" ++ std.to_string (assign_id assign)) config.kGotIdPercent);
      _ ← show (show_my_id (assign_id assign));
      _ ← emit (LogInfo (str "assigned id=" ++ std.to_string (assign_id assign) ++
                         str " create_room=" ++ (if create_room assign then str "1" else str "0")));
      when (create_room assign) (locked (
        store ← get_ key_store_;
        match room_key_ store with
        | Some _ => skip
        | None =>
            e ← draw;
            _ ← on_store (set_room_key (generate_room_key e));
            report_info (str "Created room key") []
        end))
  | _ => throw (runtime_error (str "Failed to receive assigned id"))
  end.

Definition register_nickname : M unit :=
  nickname ← get_ (λ s, config.nickname (config_ s));
  if decide (nickname = []) then skip else
  _ ← show (show_status (str "Registering nickname=" ++ nickname) config.kRegisteringPercent);
  payload ← lift (encode_register nickname);
  ok ← send Register payload;
  if negb ok then report_error (str "Failed to register nickname") (str "nickname=" ++ nickname)
  else skip.

(** [run] up to the start of the receiver thread. *)
Definition startup (log_opened : bool) (conn : outcome Z) (rx : outcome (option AppMessage)) : M unit :=
  _ ← init_logger log_opened;
  _ ← load_or_create_identity;
  _ ← connect_to_server conn;
  _ ← receive_assigned_id rx;
  _ ← register_nickname;
  _ ← show (show_status (str "Startup complete") config.kCompletePercent);
  _ ← show show_input_ready;
  show show_usage.

(** ** Keys *)

(** [bytes_as_string] and [string_as_bytes]: both are bytes here. *)
Definition bytes_as_string (b : bytes) : bytes := b.
Definition string_as_bytes (s : bytes) : bytes := s.

Definition send_key_offer (peer_id : Z) : M unit :=
  my_id ← get_ my_id_;
  if (peer_id =? 0) || (peer_id =? my_id) then skip else
  body ← locked (
    offered ← get_ key_offered_to_;
    if decide (peer_id ∈ offered) then mret None else
    _ ← modify_ (λ s, with_offered s ({[peer_id]} ∪ key_offered_to_ s));
    store ← get_ key_store_;
    mret (Some (bytes_as_string (identity_public_ store))));
  match body with
  | None => skip
  | Some body =>
      payload ← lift (build_key_offer my_id peer_id body);
      ok ← send KeyOffer payload;
      if negb ok then
        locked (
          _ ← modify_ (λ s, with_offered s (key_offered_to_ s ∖ {[peer_id]}));
          report_error (str "Send failed") (str "KeyOffer to id=" ++ std.to_string peer_id))
      else report_info (str "Sent KeyOffer") (str "peer_id=" ++ std.to_string peer_id)
  end.

(** [Some] of what a block computes, [None] when it returns from the function. *)
Definition maybe_send_room_key (peer_id : Z) : M unit :=
  body ← locked (
    store ← get_ key_store_;
    match room_key_ store, peer_public store peer_id with
    | None, _ => mret None
    | Some _, None => mret None
    | Some room_key, Some peer_pk =>
        try_catch
          (e ← draw;
           sealed ← lift (seal_room_key e (identity_secret_ store) peer_pk room_key);
           mret (Some (bytes_as_string sealed)))
          (λ ex, _ ← report_error (str "Failed to seal room key")
                       (str "peer_id=" ++ std.to_string peer_id ++ str " err=" ++ what ex);
                 mret None)
    end);
  match body with
  | None => skip
  | Some body =>
      my_id ← get_ my_id_;
      payload ← lift (build_room_key_offer my_id peer_id body);
      ok ← send RoomKeyOffer payload;
      if negb ok
      then report_error (str "Send failed") (str "RoomKeyOffer to id=" ++ std.to_string peer_id)
      else report_info (str "Sent RoomKeyOffer") (str "peer_id=" ++ std.to_string peer_id)
  end.

(** ** Chat *)

Definition send_encrypted_chat_by_id (recipient_id : Z) (plaintext : bytes) : M unit :=
  body ← locked (
    store ← get_ key_store_;
    match peer_public store recipient_id with
    | None =>
        _ ← report_error (str "No key for peer")
              (str "id=" ++ std.to_string recipient_id ++ str " hint=/key " ++
               std.to_string recipient_id);
        mret None
    | Some peer_pk =>
        try_catch
          (e ← draw;
           sealed ← lift (encrypt_for_peer e (identity_secret_ store) peer_pk plaintext);
           mret (Some (bytes_as_string sealed)))
          (λ ex, _ ← report_error (str "Encrypt failed")
                       (str "id=" ++ std.to_string recipient_id ++ str " err=" ++ what ex);
                 mret None)
    end);
  match body with
  | None => skip
  | Some cipher_body =>
      my_id ← get_ my_id_;
      payload ← lift (build_chat_by_id my_id recipient_id cipher_body);
      ok ← send Chat payload;
      if negb ok
      then report_error (str "Send failed") (str "Chat to id=" ++ std.to_string recipient_id)
      else skip
  end.

Definition send_encrypted_chat_by_nickname (nickname plaintext : bytes) : M unit :=
  recipient ← locked (
    ids ← get_ id_by_nickname_;
    match ids !! nickname with
    | None =>
        _ ← report_error (str "Unknown nickname") (str "nickname=" ++ nickname ++ str " hint=/users");
        mret None
    | Some id => mret (Some id)
    end);
  match recipient with
  | None => skip
  | Some recipient_id => send_encrypted_chat_by_id recipient_id plaintext
  end.

Definition send_encrypted_broadcast (plaintext : bytes) : M unit :=
  body ← locked (
    store ← get_ key_store_;
    match room_key_ store with
    | None =>
        _ ← report_error (str "No room key yet") (str "wait for RoomKeyOffer or be first client");
        mret None
    | Some room_key =>
        try_catch
          (e ← draw;
           sealed ← lift (encrypt_with_room_key e room_key plaintext);
           mret (Some (bytes_as_string sealed)))
          (λ ex, _ ← report_error (str "Encrypt broadcast failed") (what ex); mret None)
    end);
  match body with
  | None => skip
  | Some cipher_body =>
      my_id ← get_ my_id_;
      payload ← lift (build_chat_broadcast my_id cipher_body);
      ok ← send Chat payload;
      if negb ok then report_error (str "Send failed") (str "Chat broadcast") else skip
  end.

(** The text, or what the exception says. *)
Definition attempt (m : outcome bytes) : M (bytes + bytes) :=
  try_catch (text ← lift m; mret (inl text)) (λ ex, mret (inr (what ex))).

Definition decrypt_deliver (from_id : Z) (body : bytes) : M (option bytes) :=
  locked (
    let cipher_bytes := string_as_bytes body in
    store ← get_ key_store_;
    by_peer ← match peer_public store from_id with
              | Some peer_pk => attempt (decrypt_from_peer (identity_secret_ store) peer_pk cipher_bytes)
              | None => mret (inr (str "no peer key"))
              end;
    match by_peer with
    | inl text => mret (Some text)
    | inr peer_err =>
        by_room ← match room_key_ store with
                  | Some room_key => attempt (decrypt_with_room_key room_key cipher_bytes)
                  | None => mret (inr (str "no room key"))
                  end;
        match by_room with
        | inl text => mret (Some text)
        | inr room_err =>
            _ ← emit (LogError (str "decrypt failed from_id=" ++ std.to_string from_id ++
                                str " peer=[" ++ peer_err ++ str "] room=[" ++ room_err ++ str "]"));
            mret None
        end
    end).

(** ** What the user types *)

Definition handle_input_command (command : InputCommand) : M unit :=
  match cmd_type command with
  | ListUsersCmd =>
      ok ← send ListUsers build_list_users;
      if negb ok then report_error (str "Send failed") (str "ListUsers") else skip
  | ExitCmd => modify_ (λ s, with_flags s false (exit_announced_ s))
  | KeyOfferCmd => send_key_offer (recipient_id command)
  | ChatById => send_encrypted_chat_by_id (recipient_id command) (cmd_text command)
  | ChatByNickname => send_encrypted_chat_by_nickname (recipient_nickname command) (cmd_text command)
  | ChatBroadcast => send_encrypted_broadcast (cmd_text command)
  | Invalid => report_error (str "Invalid format") (str "use recipient:text or /users /key /exit")
  end.

(** One turn of [input_loop] from where [read_line] has returned [line]; the result
    says whether the loop goes on. *)
Definition input_line (line : option bytes) : M bool :=
  match line with
  | None => mret false
  | Some [] => get_ running_
  | Some line =>
      my_id ← get_ my_id_;
      command ← lift (parse_input_line line my_id);
      _ ← handle_input_command command;
      get_ running_
  end.

(** A turn from its beginning. *)
Definition input_turn (line : option bytes) : M bool :=
  _ ← show show_input_prompt;
  input_line line.

(** ** What the server sends *)

Definition as_deliver (p : AppPayload) : option DeliverPayload :=
  match p with PDeliver d => Some d | _ => None end.
Definition as_banned_ids (p : AppPayload) : option BannedIdsPayload :=
  match p with PBannedIds b => Some b | _ => None end.
Definition as_user_joined (p : AppPayload) : option UserJoinedPayload :=
  match p with PUserJoined j => Some j | _ => None end.
Definition as_user_left (p : AppPayload) : option UserLeftPayload :=
  match p with PUserLeft l => Some l | _ => None end.
Definition as_users_list (p : AppPayload) : option UsersListPayload :=
  match p with PUsersList l => Some l | _ => None end.
Definition as_error (p : AppPayload) : option ErrorPayload :=
  match p with PError e => Some e | _ => None end.

(** IncomingMessagePresenter::present *)
Definition present (message : AppMessage) : M unit :=
  let payload := msg_payload message in
  match msg_type message with
  | Deliver =>
      deliver ← lift (get_alternative (as_deliver payload));
      show (show_delivered (deliver_from_id deliver) (deliver_text deliver))
  | UserJoined =>
      joined ← lift (get_alternative (as_user_joined payload));
      show (show_user_joined (joined_id joined) (joined_nickname joined))
  | UserLeft =>
      left ← lift (get_alternative (as_user_left payload));
      show (show_user_left (left_id left) (left_nickname left))
  | UsersList =>
      list ← lift (get_alternative (as_users_list payload));
      show (show_users_list (list_users list))
  | Error =>
      error ← lift (get_alternative (as_error payload));
      show (show_error (error_text error))
  | _ => skip
  end.

(** The two maps after a user of this id and nickname has been announced. *)
Definition remember (id : Z) (nickname : bytes) (s : client) : client :=
  with_names s
    (if decide (nickname = []) then id_by_nickname_ s else <[nickname := id]> (id_by_nickname_ s))
    (<[id := nickname]> (nickname_by_id_ s)).

Definition handle_incoming (message : AppMessage) : M unit :=
  let payload := msg_payload message in
  match msg_type message with
  | Deliver =>
      deliver ← lift (get_alternative (as_deliver payload));
      plain ← decrypt_deliver (deliver_from_id deliver) (deliver_text deliver);
      match plain with
      | None => report_error (str "Decrypt failed")
                  (str "from_id=" ++ std.to_string (deliver_from_id deliver))
      | Some plain => show (show_delivered (deliver_from_id deliver) plain)
      end
  | PeerKey =>
      deliver ← lift (get_alternative (as_deliver payload));
      let from := deliver_from_id deliver in
      try_catch
        (let pk := string_as_bytes (deliver_text deliver) in
         _ ← locked (on_store (set_peer_public from pk));
         _ ← report_info (str "Received pubkey") (str "from_id=" ++ std.to_string from);
         _ ← send_key_offer from;
         maybe_send_room_key from)
        (λ ex, report_error (str "Invalid PeerKey")
                 (str "from_id=" ++ std.to_string from ++ str " err=" ++ what ex))
  | RoomKey =>
      deliver ← lift (get_alternative (as_deliver payload));
      let from := deliver_from_id deliver in
      try_catch
        (locked (
          store ← get_ key_store_;
          match peer_public store from with
          | None => report_error (str "RoomKey from unknown peer") (str "from_id=" ++ std.to_string from)
          | Some peer_pk =>
              room ← lift (open_room_key (identity_secret_ store) peer_pk
                             (string_as_bytes (deliver_text deliver)));
              _ ← on_store (set_room_key room);
              report_info (str "Received room key") (str "from_id=" ++ std.to_string from)
          end))
        (λ ex, report_error (str "Failed to open room key") (what ex))
  | BannedIds =>
      banned ← lift (get_alternative (as_banned_ids payload));
      _ ← locked (on_store (erase_peers (banned_ids banned)));
      report_info (str "Admin banned ids") (server_admin.join_ids (banned_ids banned))
  | UserJoined =>
      joined ← lift (get_alternative (as_user_joined payload));
      _ ← locked (modify_ (remember (joined_id joined) (joined_nickname joined)));
      _ ← present message;
      my_id ← get_ my_id_;
      if negb (joined_id joined =? my_id) then send_key_offer (joined_id joined) else skip
  | UserLeft =>
      left ← lift (get_alternative (as_user_left payload));
      _ ← locked (modify_ (λ s, with_names s
            (if decide (left_nickname left = []) then id_by_nickname_ s
             else delete (left_nickname left) (id_by_nickname_ s))
            (delete (left_id left) (nickname_by_id_ s))));
      present message
  | UsersList =>
      list ← lift (get_alternative (as_users_list payload));
      _ ← locked (for_each (list_users list) (λ user,
            modify_ (remember (user_id user) (user_nickname user))));
      present message
  | _ => present message
  end.

(** One turn of [receive_loop]: whether the loop goes on. *)
Definition receive_turn (rx : outcome (option AppMessage)) : M bool :=
  stop ← try_catch
    (message ← lift rx;
     match message with
     | None =>
         _ ← announce_exit true;
         _ ← request_shutdown true;
         mret true
     | Some message =>
         _ ← handle_incoming message;
         mret false
     end)
    (λ ex, _ ← report_error (str "Decode failed") (what ex); mret false);
  if stop : bool then mret false else get_ running_.

(** The end of [run]. *)
Definition finish : M unit :=
  _ ← announce_exit false;
  request_shutdown false.

End viewmodel.

End client.
