(* ===== verification/ClientFacts.v ===== *)
(** * What the client does: facts about ClientViewModel

    [ready] is the state of a client between two actions: the mutex is free and
    all keys have the right sizes.  It is established by the start-up and kept by
    every message and every typed line; in particular no action locks the mutex
    twice.  The later sections say what is sent, to whom, and in which form. *)
From S2P Require Import Prelude.
From S2P Require Import ModbusTcp.
From S2P Require Import Protocol.
From S2P Require Import Transport.
From S2P Require Import CppString.
From S2P Require Import Config.
From S2P Require Import PeerKeyStore.
From S2P Require Import Cipher.
From S2P Require Import ClientCommands.
From S2P Require Import ClientViewModel.

Module client_facts.
Import protocol crypto cipher client_viewmodel client.

(** Computes the fields of an updated client, and nothing else. *)
Ltac client_cbn :=
  cbn [config_ session_fd_ my_id_ key_store_ crypto_mutex_ id_by_nickname_ nickname_by_id_
       key_offered_to_ running_ exit_announced_ socket_fd_ files_ sends_ entropy_ writes_ out_
       with_session with_store with_mutex with_names with_offered with_flags with_socket with_world
       with_out] in *.

Section facts.
Context {C : IMessageCipher} {CL : CipherLaws}.
Implicit Types s : client.

(** ** Rules for the client's primitives *)

Lemma wp_emit e (Q : unit → client → Prop) E s : Q tt (with_out s [e]) → wp (emit e) Q E s.
Proof. done. Qed.

Lemma wp_locked {A} (m : SM client A) (Q : A → client → Prop) (E : exn → client → Prop) s :
  crypto_mutex_ s = false →
  wp m (λ a s', Q a (with_mutex s' false)) (λ e s', E e (with_mutex s' false)) (with_mutex s true) →
  wp (locked m) Q E s.
Proof. unfold wp, locked. intros ->. by destruct (m (with_mutex s true)) as [s' []]. Qed.

Lemma wp_on_store {A} (m : SM PeerKeyStore A) (Q : A → client → Prop) (E : exn → client → Prop) s :
  wp m (λ a store, Q a (with_store s store)) (λ e store, E e (with_store s store)) (key_store_ s) →
  wp (on_store m) Q E s.
Proof. unfold wp, on_store. by destruct (m (key_store_ s)) as [store []]. Qed.

Lemma wp_report_error brief detail (Q : unit → client → Prop) E s :
  Q tt (with_out s [LogError (with_detail brief detail); Show (show_error brief)]) →
  wp (report_error brief detail) Q E s.
Proof. unfold wp, report_error, show, emit, modify_, mbind, SM_bind, with_out. cbn. by rewrite <-app_assoc. Qed.

Lemma wp_report_info brief detail (Q : unit → client → Prop) E s :
  Q tt (with_out s [LogInfo (with_detail brief detail); Show (show_notice brief)]) →
  wp (report_info brief detail) Q E s.
Proof. unfold wp, report_info, show, emit, modify_, mbind, SM_bind, with_out. cbn. by rewrite <-app_assoc. Qed.

Lemma wp_send type payload (Q : bool → client → Prop) E s :
  (let ok := default false (head (sends_ s)) in
   Q ok (with_out (with_world s (files_ s) (tail (sends_ s)) (entropy_ s) (writes_ s))
           [Sent (session_fd_ s) type payload ok])) →
  wp (send type payload) Q E s.
Proof. done. Qed.

Lemma wp_draw (Q : entropy → client → Prop) E s :
  (∀ e, Q e (with_world s (files_ s) (sends_ s) (tail (entropy_ s)) (writes_ s))) → wp draw Q E s.
Proof. intros HQ. apply HQ. Qed.

(** ** No exception, no deadlock *)

(** The state between two actions; inside a locked block. *)
Definition sound (held : bool) s : Prop := crypto_mutex_ s = held ∧ store_ok (key_store_ s).
Abbreviation ready := (sound false).

Lemma locked_total {A} (m : SM client A) : total (sound true) m → total ready (locked m).
Proof.
  intros Hm s [Hf Hs]. destruct (Hm (with_mutex s true)) as [[_ Hs'] [a Ha]]; [done|].
  unfold locked. rewrite Hf. destruct (m (with_mutex s true)) as [s' r]. cbn in *. subst r.
  split; [done|by eexists].
Qed.

Lemma locked_safe {A} (m : SM client A) : safe (sound true) m → safe ready (locked m).
Proof.
  intros Hm s [Hf Hs]. destruct (Hm (with_mutex s true)) as [[_ Hs'] Ha]; [done|].
  unfold locked. rewrite Hf. by destruct (m (with_mutex s true)) as [s' r].
Qed.

Lemma client_emit_total held e : total (sound held) (emit e).
Proof. intros s Hs. split; [done|by eexists]. Qed.
Lemma show_total held c : total (sound held) (show c).
Proof. apply client_emit_total. Qed.
Lemma ret_total {A} held (a : A) : total (sound held) (mret a : SM client A).
Proof. intros s Hs. split; [done|by eexists]. Qed.
Lemma get_total {A} held (f : client → A) : total (sound held) (get_ f).
Proof. intros s Hs. split; [done|by eexists]. Qed.
Lemma modify_total held f : (∀ s, sound held s → sound held (f s)) → total (sound held) (modify_ f).
Proof. intros Hf s Hs. split; [by apply Hf|by eexists]. Qed.
Lemma draw_total held : total (sound held) draw.
Proof. intros s Hs. split; [done|by eexists]. Qed.
Lemma client_send_total held type payload : total (sound held) (send type payload).
Proof. intros s Hs. split; [done|by eexists]. Qed.
Lemma lift_total {A} held (m : outcome A) : (∃ a, m = Ok a) → total (sound held) (lift m).
Proof. intros Hm s Hs. by split. Qed.

Lemma report_error_total held b d : total (sound held) (report_error b d).
Proof. apply total_bind; [apply client_emit_total|intros _; apply show_total]. Qed.
Lemma report_info_total held b d : total (sound held) (report_info b d).
Proof. apply total_bind; [apply client_emit_total|intros _; apply show_total]. Qed.

Lemma if_total {A} held (b : bool) (m1 m2 : SM client A) :
  total (sound held) m1 → total (sound held) m2 → total (sound held) (if b then m1 else m2).
Proof. by destruct b. Qed.

Lemma cipher_safe {A} held (m : outcome A) : cipher_result m → safe (sound held) (lift m).
Proof. intros Hm. apply safe_lift. destruct m as [|[]|]; done. Qed.

#[local] Hint Resolve client_emit_total show_total ret_total get_total draw_total client_send_total report_error_total
  report_info_total if_total : chat.

Lemma safe_short_total {A} held (m : SM client A) h : safe (sound held) m →
  (∀ e, total (sound held) (h e)) → total (sound held) (try_catch m h).
Proof. intros Hm Hh. apply total_try_catch; auto. Qed.

(** ** Offering keys *)

(** The payload of a message to one client, and of one to everyone. *)
Definition to_id (from id : Z) (body : bytes) : bytes :=
  chat_bytes (mkChat from kRecipientById (be32 id) body).
Definition to_all (from : Z) (body : bytes) : bytes :=
  chat_bytes (mkChat from kRecipientBroadcast [] body).

Lemma build_to_id from id body : wf_string body →
  build_chat_like from kRecipientById (encode_u32_be id) body = Ok (to_id from id body).
Proof.
  intros Hb. unfold build_chat_like, encode_u32_be. rewrite write_u32_be_spec. by apply encode_chat_iff.
Qed.

Lemma build_to_all from body : wf_string body → build_chat_broadcast from body = Ok (to_all from body).
Proof. intros Hb. by apply encode_chat_iff. Qed.

(** A client whose result of the next [send] has been used. *)
Definition sent s (type : MsgType) (payload : bytes) : client :=
  with_out (with_world s (files_ s) (tail (sends_ s)) (entropy_ s) (writes_ s))
    [Sent (session_fd_ s) type payload (default false (head (sends_ s)))].

Lemma identity_wf store : store_ok store → wf_string (identity_public_ store).
Proof. intros (_ & Hp & _). unfold wf_string. rewrite Hp. unfold kPublicKeySize. lia. Qed.

(** What [send_key_offer] does: nothing for the client itself or for a peer that
    has been offered the key; otherwise one KeyOffer with the own public key, and
    the peer counts as served if the send succeeded. *)
Lemma send_key_offer_wp peer s (Q : unit → client → Prop) E : ready s →
  (if decide (peer = 0 ∨ peer = my_id_ s ∨ peer ∈ key_offered_to_ s) then Q tt s else
   let s1 := sent (with_offered s ({[peer]} ∪ key_offered_to_ s)) KeyOffer
               (to_id (my_id_ s) peer (identity_public_ (key_store_ s))) in
   if default false (head (sends_ s))
   then Q tt (with_out s1 [LogInfo (with_detail (str "Sent KeyOffer") (str "peer_id=" ++ std.to_string peer));
                           Show (show_notice (str "Sent KeyOffer"))])
   else Q tt (with_out (with_offered s1 (key_offered_to_ s ∖ {[peer]}))
                [LogError (with_detail (str "Send failed") (str "KeyOffer to id=" ++ std.to_string peer));
                 Show (show_error (str "Send failed"))])) →
  wp (send_key_offer peer) Q E s.
Proof.
  intros [Hf Hst] HQ. pose proof (identity_wf _ Hst) as Hwf. unfold send_key_offer. apply wp_bind, wp_get.
  destruct (Z.eqb_spec peer 0) as [->|H0]; [by rewrite decide_True in HQ by auto|].
  destruct (Z.eqb_spec peer (my_id_ s)) as [->|Hme]; [by rewrite decide_True in HQ by auto|]. cbn [orb].
  apply wp_bind, wp_locked; [done|]. apply wp_bind, wp_get. cbn [with_mutex key_offered_to_].
  destruct (decide (peer ∈ key_offered_to_ s)) as [Hin|Hin].
  { rewrite decide_True in HQ by auto. apply wp_ret. destruct s. client_cbn. by subst. }
  rewrite decide_False in HQ by naive_solver. apply wp_bind, wp_modify, wp_bind, wp_get, wp_ret.
  apply wp_bind. eapply wp_lift_ok; [by apply (build_to_id (my_id_ s) peer _ Hwf)|].
  apply wp_bind, wp_send. cbn zeta. destruct s as [? ? ? ? m]. unfold sent in HQ. client_cbn. subst m.
  destruct (default false (head sends_0)); cbn [negb].
  - by apply wp_report_info.
  - apply wp_locked; [done|]. apply wp_bind, wp_modify, wp_report_error. client_cbn.
    replace (({[peer]} ∪ key_offered_to_0) ∖ {[peer]}) with (key_offered_to_0 ∖ {[peer]}) by set_solver.
    done.
Qed.

Lemma send_key_offer_total peer : total ready (send_key_offer peer).
Proof.
  apply wp_total. intros s Hs. apply send_key_offer_wp; [done|]. case_decide; [done|]. cbn zeta.
  by destruct (default _ _).
Qed.

(** ** Encrypting *)

(** A client that has drawn random bytes once. *)
Definition drawn s : client := with_world s (files_ s) (sends_ s) (tail (entropy_ s)) (writes_ s).

(** Drawing random bytes and encrypting with them, in the cases where that works. *)
Lemma wp_encrypt (f : entropy → outcome bytes) h (Q : option bytes → client → Prop) E s :
  (∀ e, ∃ c, f e = Ok c) → (∀ e c, f e = Ok c → Q (Some c) (drawn s)) →
  wp (try_catch (e ← draw; sealed ← lift (f e); mret (Some (bytes_as_string sealed))) h) Q E s.
Proof.
  intros Hok HQ. apply wp_try_catch, wp_bind, wp_draw. intros e. apply wp_bind.
  destruct (Hok e) as [c Hc]. eapply wp_lift_ok; [exact Hc|]. apply wp_ret. by eapply HQ.
Qed.

(** Releasing the mutex gives the state back that it was taken in. *)
Lemma unlock_lock s : crypto_mutex_ s = false → with_mutex (with_mutex s true) false = s.
Proof. destruct s. client_cbn. by intros ->. Qed.

Lemma unlock_drawn s : crypto_mutex_ s = false → with_mutex (drawn (with_mutex s true)) false = drawn s.
Proof. destruct s. unfold drawn. client_cbn. by intros ->. Qed.

Lemma peer_length store id pk : store_ok store → peer_public store id = Some pk → length pk = kPublicKeySize.
Proof. intros (_ & _ & _ & Hp) Hpk. by apply Hp in Hpk as [_ ?]. Qed.

Definition send_report s (brief : bytes) (detail : bytes) : client :=
  with_out s [LogError (with_detail brief detail); Show (show_error brief)].

(** What [maybe_send_room_key] does: with a room key and a key of the peer, one
    RoomKeyOffer whose body is the room key sealed for the peer. *)
Lemma maybe_send_room_key_wp peer s (Q : unit → client → Prop) E : ready s →
  (match room_key_ (key_store_ s), peer_public (key_store_ s) peer with
   | Some room_key, Some peer_pk =>
       ∀ e c, seal_room_key e (identity_secret_ (key_store_ s)) peer_pk room_key = Ok c →
       let s1 := sent (drawn s) RoomKeyOffer (to_id (my_id_ s) peer c) in
       if default false (head (sends_ s))
       then Q tt (with_out s1 [LogInfo (with_detail (str "Sent RoomKeyOffer") (str "peer_id=" ++ std.to_string peer));
                               Show (show_notice (str "Sent RoomKeyOffer"))])
       else Q tt (send_report s1 (str "Send failed") (str "RoomKeyOffer to id=" ++ std.to_string peer))
   | _, _ => Q tt s
   end) →
  wp (maybe_send_room_key peer) Q E s.
Proof.
  intros [Hf Hst] HQ. pose proof Hst as (Hsec & _ & Hroom & _). unfold maybe_send_room_key.
  apply wp_bind, wp_locked; [done|]. apply wp_bind, wp_get.
  change (key_store_ (with_mutex s true)) with (key_store_ s).
  destruct (room_key_ (key_store_ s)) as [k|] eqn:Ek; [|apply wp_ret; by rewrite unlock_lock].
  destruct (peer_public (key_store_ s) peer) as [pk|] eqn:Epk; [|apply wp_ret; by rewrite unlock_lock].
  apply wp_encrypt.
  - intros e. destruct (law_seal e (identity_secret_ (key_store_ s)) pk k) as (c & Hc & _);
      [done|by eapply peer_length|by apply Hroom|by exists c].
  - intros e c Hc. rewrite unlock_drawn by done. specialize (HQ e c Hc). apply wp_bind, wp_get, wp_bind.
    destruct (law_seal e (identity_secret_ (key_store_ s)) pk k) as (c' & Hc' & Hlen);
      [done|by eapply peer_length|by apply Hroom|]. rewrite Hc in Hc'. injection Hc' as <-.
    assert (wf_string c) as Hwf by (unfold wf_string; rewrite Hlen; lia).
    eapply wp_lift_ok; [exact (build_to_id (my_id_ s) peer c Hwf)|].
    apply wp_bind, wp_send. cbn zeta in HQ |- *.
    change (sends_ (drawn s)) with (sends_ s). destruct (default false (head (sends_ s))) eqn:Eok; cbn [negb].
    + apply wp_report_info. unfold sent in HQ. change (sends_ (drawn s)) with (sends_ s) in HQ.
      by rewrite Eok in HQ.
    + apply wp_report_error. unfold sent in HQ. change (sends_ (drawn s)) with (sends_ s) in HQ.
      by rewrite Eok in HQ.
Qed.

(** What [send_encrypted_chat_by_id] does with a text that fits: with a key of the
    recipient one Chat whose body is the text encrypted for that key, without one
    nothing is sent. *)
Lemma send_chat_by_id_wp id text s (Q : unit → client → Prop) E : ready s → size_t text <= 65495 →
  (match peer_public (key_store_ s) id with
   | Some peer_pk =>
       ∀ e c, encrypt_for_peer e (identity_secret_ (key_store_ s)) peer_pk text = Ok c →
       let s1 := sent (drawn s) Chat (to_id (my_id_ s) id c) in
       if default false (head (sends_ s)) then Q tt s1
       else Q tt (send_report s1 (str "Send failed") (str "Chat to id=" ++ std.to_string id))
   | None =>
       Q tt (send_report s (str "No key for peer")
               (str "id=" ++ std.to_string id ++ str " hint=/key " ++ std.to_string id))
   end) →
  wp (send_encrypted_chat_by_id id text) Q E s.
Proof.
  intros [Hf Hst] Htext HQ. pose proof Hst as (Hsec & _). unfold send_encrypted_chat_by_id.
  apply wp_bind, wp_locked; [done|]. apply wp_bind, wp_get.
  change (key_store_ (with_mutex s true)) with (key_store_ s).
  destruct (peer_public (key_store_ s) id) as [pk|] eqn:Epk; cycle 1.
  { apply wp_bind, wp_report_error, wp_ret. destruct s. unfold send_report in HQ. client_cbn. by subst. }
  apply wp_encrypt.
  - intros e. destruct (law_encrypt e (identity_secret_ (key_store_ s)) pk text) as (c & Hc & _);
      [done|by eapply peer_length|by exists c].
  - intros e c Hc. rewrite unlock_drawn by done. specialize (HQ e c Hc). apply wp_bind, wp_get, wp_bind.
    destruct (law_encrypt e (identity_secret_ (key_store_ s)) pk text) as (c' & Hc' & Hlen);
      [done|by eapply peer_length|]. rewrite Hc in Hc'. injection Hc' as <-.
    assert (wf_string c) as Hwf by (unfold wf_string; rewrite Hlen; lia).
    eapply wp_lift_ok; [exact (build_to_id (my_id_ s) id c Hwf)|].
    apply wp_bind, wp_send. cbn zeta in HQ |- *.
    change (sends_ (drawn s)) with (sends_ s). unfold sent in HQ. change (sends_ (drawn s)) with (sends_ s) in HQ.
    destruct (default false (head (sends_ s))); cbn [negb]; [done|by apply wp_report_error].
Qed.

Lemma send_broadcast_wp text s (Q : unit → client → Prop) E : ready s → size_t text <= 65495 →
  (match room_key_ (key_store_ s) with
   | Some room_key =>
       ∀ e c, encrypt_with_room_key e room_key text = Ok c →
       let s1 := sent (drawn s) Chat (to_all (my_id_ s) c) in
       if default false (head (sends_ s)) then Q tt s1
       else Q tt (send_report s1 (str "Send failed") (str "Chat broadcast"))
   | None => Q tt (send_report s (str "No room key yet") (str "wait for RoomKeyOffer or be first client"))
   end) →
  wp (send_encrypted_broadcast text) Q E s.
Proof.
  intros [Hf Hst] Htext HQ. pose proof Hst as (_ & _ & Hroom & _). unfold send_encrypted_broadcast.
  apply wp_bind, wp_locked; [done|]. apply wp_bind, wp_get.
  change (key_store_ (with_mutex s true)) with (key_store_ s).
  destruct (room_key_ (key_store_ s)) as [k|] eqn:Ek; cycle 1.
  { apply wp_bind, wp_report_error, wp_ret. destruct s. unfold send_report in HQ. client_cbn. by subst. }
  specialize (Hroom k eq_refl). apply wp_encrypt.
  - intros e. destruct (law_room e k text Hroom) as (c & Hc & _). by exists c.
  - intros e c Hc. rewrite unlock_drawn by done. specialize (HQ e c Hc). apply wp_bind, wp_get, wp_bind.
    destruct (law_room e k text Hroom) as (c' & Hc' & Hlen & _). rewrite Hc in Hc'. injection Hc' as <-.
    assert (wf_string c) as Hwf by (unfold wf_string; rewrite Hlen; lia).
    eapply wp_lift_ok; [exact (build_to_all (my_id_ s) c Hwf)|].
    apply wp_bind, wp_send. cbn zeta in HQ |- *.
    change (sends_ (drawn s)) with (sends_ s). unfold sent in HQ. change (sends_ (drawn s)) with (sends_ s) in HQ.
    destruct (default false (head (sends_ s))); cbn [negb]; [done|by apply wp_report_error].
Qed.

(** ** Every message is handled *)

Lemma maybe_send_room_key_total peer : total ready (maybe_send_room_key peer).
Proof.
  apply wp_total. intros s Hs. apply maybe_send_room_key_wp; [done|].
  destruct (room_key_ _); [|done]. destruct (peer_public _ _); [|done]. intros e c _. cbn zeta.
  by destruct (default _ _).
Qed.

Lemma attempt_total held (m : outcome bytes) : cipher_result m → total (sound held) (attempt m).
Proof.
  intros Hm. apply total_try_catch; [|intros; apply ret_total].
  apply safe_bind; [by apply cipher_safe|]. intros. apply safe_ret.
Qed.

Lemma decrypt_deliver_total from body : total ready (decrypt_deliver from body).
Proof.
  apply locked_total. cbn zeta. apply total_bind; [apply get_total|]. intros store. apply total_bind.
  { destruct (peer_public store from); [apply attempt_total, law_decrypt_safe|apply ret_total]. }
  intros [text|peer_err]; [apply ret_total|]. apply total_bind.
  { destruct (room_key_ store); [apply attempt_total, law_room_decrypt_safe|apply ret_total]. }
  intros [text|room_err]; [apply ret_total|]. apply total_bind; [apply client_emit_total|].
  intros _. apply ret_total.
Qed.

Lemma on_store_safe held (m : SM PeerKeyStore unit) : safe store_ok m → safe (sound held) (on_store m).
Proof.
  intros Hm s [Hf Hs]. destruct (Hm _ Hs) as [Hs' Hr]. unfold on_store.
  by destruct (m (key_store_ s)) as [store r].
Qed.

Lemma on_store_total held (m : SM PeerKeyStore unit) : total store_ok m → total (sound held) (on_store m).
Proof.
  intros Hm s [Hf Hs]. destruct (Hm _ Hs) as [Hs' [a Ha]]. unfold on_store.
  destruct (m (key_store_ s)) as [store r]. cbn in *. subst r. split; [done|by eexists].
Qed.

Lemma set_peer_public_safe id pk : is_u32 id → safe store_ok (set_peer_public id pk).
Proof.
  intros Hid. unfold set_peer_public. case_decide as Hl; [apply safe_lift; cbn; lia|].
  apply safe_modify. intros s Hs. apply store_ok_insert; [done..|lia].
Qed.

Lemma set_room_key_safe k : safe store_ok (set_room_key k).
Proof.
  unfold set_room_key. case_decide as Hl; [apply safe_lift; cbn; lia|].
  apply safe_modify. intros s (? & ? & _ & ?). split_and!; [done..| |done]. cbn. intros key [= <-]. lia.
Qed.

Lemma erase_peers_total ids : total store_ok (erase_peers ids).
Proof.
  intros s Hs. pose proof (erase_peers_ok ids s Hs) as Hs'. rewrite erase_peers_run in Hs' |- *.
  split; [done|by eexists].
Qed.

Lemma present_total m : wf_message m → total ready (present m).
Proof.
  destruct m as [t p]. unfold wf_message. cbn [msg_type msg_payload]. intros Hwf. unfold present.
  cbn [msg_type msg_payload].
  destruct t; try apply ret_total; destruct p; try done; (apply total_bind; [apply lift_total; by eexists|]);
    intros; apply show_total.
Qed.

Lemma total_lift_bind {A B} held (m : outcome A) a (k : A → SM client B) :
  m = Ok a → total (sound held) (k a) → total (sound held) (x ← lift m; k x).
Proof. by intros ->. Qed.

Lemma peer_key_total d : wf_deliver d → total ready (handle_incoming (mkMessage PeerKey (PDeliver d))).
Proof.
  intros [Hid _]. unfold handle_incoming. cbn [msg_type msg_payload]. eapply total_lift_bind; [done|].
  apply safe_short_total; [|intros; apply report_error_total]. cbn zeta.
  apply safe_bind; [by apply locked_safe, on_store_safe, set_peer_public_safe|]. intros _.
  apply total_safe, total_bind; [apply report_info_total|]. intros _.
  apply total_bind; [apply send_key_offer_total|]. intros _. apply maybe_send_room_key_total.
Qed.

Lemma room_key_total d : total ready (handle_incoming (mkMessage RoomKey (PDeliver d))).
Proof.
  unfold handle_incoming. cbn [msg_type msg_payload]. eapply total_lift_bind; [done|].
  apply safe_short_total; [|intros; apply report_error_total].
  apply locked_safe, safe_bind; [apply safe_get|]. intros store.
  destruct (peer_public store _); [|apply total_safe, report_error_total].
  apply safe_bind; [apply cipher_safe, law_open_safe|]. intros room.
  apply safe_bind; [apply on_store_safe, set_room_key_safe|]. intros _. apply total_safe, report_info_total.
Qed.

Lemma names_total held ids names : total (sound held) (modify_ (λ s, with_names s (ids s) (names s))).
Proof. apply modify_total. by intros s []. Qed.

Lemma handle_incoming_total m : wf_message m → total ready (handle_incoming m).
Proof.
  intros Hwf. destruct m as [t p]. pose proof Hwf as Hp. unfold wf_message in Hp. cbn [msg_type msg_payload] in Hp.
  destruct t; try (by apply present_total); destruct p as [| |c|d|e|j|l| |us|b]; try done.
  - unfold handle_incoming. cbn [msg_type msg_payload]. eapply total_lift_bind; [done|].
    apply total_bind; [apply decrypt_deliver_total|]. intros [plain|]; [apply show_total|apply report_error_total].
  - unfold handle_incoming. cbn [msg_type msg_payload]. eapply total_lift_bind; [done|].
    apply total_bind; [apply locked_total, names_total|]. intros _.
    apply total_bind; [by apply present_total|]. intros _. apply total_bind; [apply get_total|].
    intros id. apply if_total; [apply send_key_offer_total|apply ret_total].
  - unfold handle_incoming. cbn [msg_type msg_payload]. eapply total_lift_bind; [done|].
    apply total_bind; [apply locked_total, names_total|]. intros _. by apply present_total.
  - unfold handle_incoming. cbn [msg_type msg_payload]. eapply total_lift_bind; [done|].
    apply total_bind; [|intros _; by apply present_total]. apply locked_total, wp_total. intros s Hs.
    apply wp_for_each; [done|]. intros u s' _ Hs'. apply wp_modify. by destruct Hs'.
  - unfold handle_incoming. cbn [msg_type msg_payload]. eapply total_lift_bind; [done|].
    apply total_bind; [apply locked_total, on_store_total, erase_peers_total|]. intros _. apply report_info_total.
  - by apply peer_key_total.
  - apply room_key_total.
Qed.

Lemma request_shutdown_total b : total ready (request_shutdown b).
Proof.
  apply total_bind; [apply modify_total; by intros s []|]. intros _.
  apply total_bind; [apply get_total|]. intros fd.
  apply total_bind; [apply if_total; [apply client_emit_total|apply ret_total]|].
  intros _. apply if_total; [apply client_emit_total|apply ret_total].
Qed.

Lemma announce_exit_total b : total ready (announce_exit b).
Proof.
  apply total_bind; [apply get_total|]. intros a. apply if_total; [apply ret_total|].
  apply total_bind; [apply modify_total; by intros s []|]. intros _. apply if_total; apply show_total.
Qed.

Lemma receive_turn_total rx : ModbusMessageTransport.rx_ok rx → total ready (receive_turn rx).
Proof.
  intros [Hrx Hwf]. apply total_bind.
  - apply safe_short_total.
    + intros s Hs. destruct rx as [[m|]|e|]; [..|done|done]; rewrite (SM_lift_ok _ _ _ _ eq_refl); revert s Hs.
      * apply total_safe, total_bind; [by apply handle_incoming_total, Hwf|]. intros. apply ret_total.
      * apply total_safe, total_bind; [apply announce_exit_total|]. intros _.
        apply total_bind; [apply request_shutdown_total|]. intros. apply ret_total.
    + intros e. apply total_bind; [apply report_error_total|]. intros. apply ret_total.
  - intros stop. apply if_total; [apply ret_total|apply get_total].
Qed.

(** ** Starting *)

(** Before there is an identity. *)
Definition fresh (held : bool) s : Prop := crypto_mutex_ s = held ∧ parts_ok (key_store_ s).

Lemma pair_sizes e : length (secret_key (generate_keypair e)) = kSecretKeySize ∧
  length (public_key (generate_keypair e)) = kPublicKeySize.
Proof. apply law_pair_length, law_keypair. Qed.

(** The session of a client: what start-up sets one after the other. *)
Definition session s : Z * Z * Z * bool := (session_fd_ s, socket_fd_ s, my_id_ s, running_ s).

Lemma load_or_create_identity_wp s E : fresh false s →
  wp load_or_create_identity (λ _ s', ready s' ∧ session s' = session s) E s.
Proof.
  intros [Hf Hp]. apply wp_locked; [done|]. apply wp_bind, wp_get, wp_bind, wp_get, wp_bind.
  apply wp_try_catch, wp_bind, wp_get, wp_bind, wp_on_store.
  eapply wp_mono; [by apply load_safe| |].
  - intros [] store Hst.
    + apply wp_bind, wp_report_info, wp_ret, wp_ret. by destruct s.
    + apply wp_ret, wp_bind, wp_draw. intros e. apply wp_bind, wp_on_store.
      destruct (pair_sizes e) as [H1 H2]. unfold set_identity. rewrite decide_False by naive_solver.
      apply wp_modify, wp_report_info. destruct s. split; [split; [done|]|done].
      apply store_parts_ok. by split_and!.
  - intros ex store [_ Hst]. apply wp_bind, wp_report_error, wp_ret, wp_bind, wp_draw. intros e.
    apply wp_bind, wp_on_store. destruct (pair_sizes e) as [H1 H2]. unfold set_identity.
    rewrite decide_False by naive_solver. apply wp_modify, wp_report_info.
    destruct s. split; [split; [done|]|done]. apply store_parts_ok. by split_and!.
Qed.

Lemma receive_assigned_id_wp rx s : ready s → ModbusMessageTransport.rx_ok rx →
  wp (receive_assigned_id rx)
    (λ _ s', ready s' ∧ ∃ a, rx = Ok (Some (mkMessage AssignId (PAssignId a))) ∧
       session s' = (session_fd_ s, socket_fd_ s, assign_id a, running_ s) ∧
       (create_room a = true → is_Some (room_key_ (key_store_ s'))))
    (λ _, ready) s.
Proof.
  intros Hs [Hsafe Hwf]. unfold receive_assigned_id. apply wp_bind, wp_emit, wp_bind.
  destruct rx as [[m|]|e|]; [|by apply (wp_lift_ok _ None)|done|done].
  apply (wp_lift_ok _ (Some m)); [done|]. specialize (Hwf m eq_refl). destruct m as [t p].
  destruct t; try (by apply wp_throw). destruct p as [|a| | | | | | | |]; try done.
  apply wp_bind, (wp_lift_ok _ a); [done|].
  apply wp_bind, wp_modify, wp_bind, wp_emit, wp_bind, wp_emit, wp_bind, wp_emit.
  destruct (create_room a) eqn:Ea; cbn [when]; cycle 1.
  { apply wp_ret. split; [done|]. exists a. split; [done|]. split; [done|congruence]. }
  destruct Hs as [Hf Hst]. apply wp_locked; [done|]. apply wp_bind, wp_get.
  destruct s. client_cbn. destruct (room_key_ key_store_0) as [k|] eqn:Ek.
  - apply wp_ret. split; [done|]. exists a. split; [done|]. split; [done|]. intros _. client_cbn. by rewrite Ek.
  - apply wp_bind, wp_draw. intros e. apply wp_bind, wp_on_store. unfold set_room_key.
    rewrite decide_False by (rewrite law_room_key_length; naive_solver).
    apply wp_modify, wp_report_info. destruct Hst as (? & ? & _ & ?). split.
    + split; [done|]. split_and!; [done..| |done]. client_cbn. intros key [= <-]. apply law_room_key_length.
    + exists a. split; [done|]. split; [done|]. by eexists.
Qed.

Lemma register_nickname_wp s : ready s →
  wp register_nickname (λ _ s', ready s' ∧ session s' = session s ∧ key_store_ s' = key_store_ s) (λ _, ready) s.
Proof.
  intros Hs. unfold register_nickname. apply wp_bind, wp_get. case_decide; [by apply wp_ret|].
  apply wp_bind, wp_emit, wp_bind, wp_lift.
  - pose proof (encode_string_safe (config.nickname (config_ s))) as Hsafe. by apply safe_result_iff in Hsafe as [? _].
  - intros payload _. apply wp_bind, wp_send. cbn zeta. destruct (default _ _); cbn [negb];
      [by apply wp_ret|by apply wp_report_error].
  - done.
Qed.

(** Starting up.  A client that has just been created ends its start-up, if
    nothing throws, connected, with an identity, with the id the server assigned
    and, if it was told to create the room, with a room key; if an exception
    leaves the start-up the client has its identity and the mutex is free again, so
    that it can be shut down and its keys saved. *)
Theorem startup_ready c files sends es ws log_opened conn rx :
  no_ub conn → ModbusMessageTransport.rx_ok rx →
  wp (startup log_opened conn rx)
    (λ _ s', ready s' ∧ running_ s' = true ∧
       ∃ fd a, conn = Ok fd ∧ rx = Ok (Some (mkMessage AssignId (PAssignId a))) ∧
         session_fd_ s' = fd ∧ socket_fd_ s' = fd ∧ my_id_ s' = assign_id a ∧
         (create_room a = true → is_Some (room_key_ (key_store_ s'))))
    (λ _ s', ready s') (initial c files sends es ws).
Proof.
  intros Hconn Hrx. unfold startup. apply wp_bind.
  apply (wp_mono _ (λ _ s, fresh false s ∧ session s = (-1, -1, 0, true)) _ (λ _ _, False)); [| |done].
  { unfold init_logger. apply wp_bind, wp_get. destruct log_opened; cbn [negb];
      [apply wp_bind, wp_emit, wp_emit|apply wp_emit]; (split; [split; [done|]|done]);
      (split; [done|apply map_Forall_empty]). }
  intros _ s1 [Hs1 E1]. apply wp_bind. eapply wp_mono; [by apply (load_or_create_identity_wp _ (λ _ _, False))| |done].
  intros _ s2 [Hs2 E2]. rewrite E1 in E2. apply wp_bind.
  apply (wp_mono _ (λ _ s, ready s ∧ ∃ fd, conn = Ok fd ∧ session s = (fd, fd, 0, true)) _ (λ _, ready)).
  { unfold connect_to_server. apply wp_bind, wp_get, wp_bind, wp_get, wp_bind, wp_emit, wp_bind.
    apply wp_lift; [done| |by intros].
    intros fd ->. apply wp_bind, wp_modify, wp_bind, wp_modify, wp_bind, wp_emit, wp_bind, wp_emit, wp_emit.
    split; [done|]. exists fd. split; [done|]. unfold session in *. destruct s2. client_cbn. by simplify_eq. }
  2: { done. }
  intros _ s3 [Hs3 (fd & Ec & E3)]. apply wp_bind.
  eapply wp_mono; [by apply receive_assigned_id_wp| |done].
  intros _ s4 (Hs4 & a & Ea & E4 & Hroom). apply wp_bind.
  eapply wp_mono; [by apply register_nickname_wp| |done].
  intros _ s5 (Hs5 & E5 & Ek). apply wp_bind, wp_emit, wp_bind, wp_emit, wp_emit.
  split; [done|]. rewrite E4 in E5. unfold session in E3, E5. destruct s3, s5. client_cbn. simplify_eq. split; [done|].
  by exists fd, a.
Qed.

(** Whatever the server sends, and when the connection ends, a turn of the
    receive loop returns normally: no exception, no undefined behaviour, no
    attempt to lock the mutex twice, and afterwards the mutex is free and all
    keys still have the right sizes. *)
Theorem receive_turn_returns rx s : ready s → ModbusMessageTransport.rx_ok rx →
  ∃ s' go_on, receive_turn rx s = (s', Ok go_on) ∧ ready s'.
Proof.
  intros Hs Hrx. destruct (receive_turn_total rx Hrx s Hs) as [Hs' [b Hb]].
  destruct (receive_turn rx s) as [s' r]. cbn in *. subst r. by exists s', b.
Qed.

(** ** What a typed line sends *)

(** The messages that a command with this text may send: a request for the list of
    users, the own public key, or the text encrypted for a peer's key or with the
    room key. *)
Definition may_leave s (text : bytes) (t : MsgType) (p : bytes) : Prop :=
  match t with
  | ListUsers => p = []
  | KeyOffer => ∃ id, p = to_id (my_id_ s) id (identity_public_ (key_store_ s))
  | Chat =>
      (∃ id pk e c, peer_public (key_store_ s) id = Some pk ∧
         encrypt_for_peer e (identity_secret_ (key_store_ s)) pk text = Ok c ∧
         p = to_id (my_id_ s) id c) ∨
      (∃ k e c, room_key_ (key_store_ s) = Some k ∧ encrypt_with_room_key e k text = Ok c ∧
         p = to_all (my_id_ s) c)
  | _ => False
  end.

(** From [s] to [s'] only such messages were sent. *)
Definition only_sends s (text : bytes) s' : Prop :=
  ∃ es, out_ s' = out_ s ++ es ∧ ∀ fd t p ok, Sent fd t p ok ∈ es → may_leave s text t p.

Lemma only_sends_refl s text : only_sends s text s.
Proof. exists []. rewrite app_nil_r. split; [done|]. set_solver. Qed.

Lemma only_sends_report s text s' es : only_sends s text s' →
  (∀ fd t p ok, Sent fd t p ok ∉ es) → only_sends s text (with_out s' es).
Proof.
  intros (es' & E & Hes) Hn. exists (es' ++ es). destruct s'. client_cbn. rewrite E, app_assoc.
  split; [done|]. intros fd t p ok [?|?]%elem_of_app; [eauto|]. by edestruct Hn.
Qed.

Lemma only_sends_one s text s' fd t p ok : out_ s' = out_ s ++ [Sent fd t p ok] → may_leave s text t p →
  only_sends s text s'.
Proof.
  intros E Hm. exists [Sent fd t p ok]. split; [done|]. intros fd' t' p' ok' Hin.
  apply list_elem_of_singleton in Hin. by simplify_eq.
Qed.

Lemma not_sent_report fd t p ok a b : Sent fd t p ok ∉ [LogError a; Show b] ∧ Sent fd t p ok ∉ [LogInfo a; Show b].
Proof. split; intros H; repeat (apply elem_of_cons in H as [H|H]; [done|]); by apply elem_of_nil in H. Qed.

Abbreviation typed_post s text := (λ (_ : unit) s', ready s' ∧ only_sends s text s').

Lemma key_offer_sends peer text s E : ready s → wp (send_key_offer peer) (typed_post s text) E s.
Proof.
  intros Hs. apply send_key_offer_wp; [done|]. case_decide; [split; [done|apply only_sends_refl]|].
  cbn zeta. assert (may_leave s text KeyOffer (to_id (my_id_ s) peer (identity_public_ (key_store_ s))))
    as Hm by by eexists.
  destruct (default _ _); (split; [done|]); (apply only_sends_report; [|intros; apply not_sent_report]);
    by eapply only_sends_one.
Qed.

Lemma chat_by_id_sends id text s E : ready s → size_t text <= 65495 →
  wp (send_encrypted_chat_by_id id text) (typed_post s text) E s.
Proof.
  intros Hs Ht. apply send_chat_by_id_wp; [done..|].
  destruct (peer_public (key_store_ s) id) as [pk|] eqn:Epk; cycle 1.
  { split; [done|]. apply only_sends_report; [apply only_sends_refl|intros; apply not_sent_report]. }
  intros e c Hc. cbn zeta. assert (may_leave s text Chat (to_id (my_id_ s) id c)) as Hm by (left; naive_solver).
  destruct (default _ _); (split; [done|]).
  - by eapply only_sends_one.
  - apply only_sends_report; [|intros; apply not_sent_report]. by eapply only_sends_one.
Qed.

Lemma broadcast_sends text s E : ready s → size_t text <= 65495 →
  wp (send_encrypted_broadcast text) (typed_post s text) E s.
Proof.
  intros Hs Ht. apply send_broadcast_wp; [done..|].
  destruct (room_key_ (key_store_ s)) as [k|] eqn:Ek; cycle 1.
  { split; [done|]. apply only_sends_report; [apply only_sends_refl|intros; apply not_sent_report]. }
  intros e c Hc. cbn zeta. assert (may_leave s text Chat (to_all (my_id_ s) c)) as Hm by (right; naive_solver).
  destruct (default _ _); (split; [done|]).
  - by eapply only_sends_one.
  - apply only_sends_report; [|intros; apply not_sent_report]. by eapply only_sends_one.
Qed.

Lemma chat_by_nickname_sends n text s E : ready s → size_t text <= 65495 →
  wp (send_encrypted_chat_by_nickname n text) (typed_post s text) E s.
Proof.
  intros Hs Ht. unfold send_encrypted_chat_by_nickname. apply wp_bind, wp_locked; [apply Hs|].
  apply wp_bind, wp_get. destruct (_ !! n) as [id|].
  - apply wp_ret. rewrite unlock_lock by apply Hs. by apply chat_by_id_sends.
  - apply wp_bind, wp_report_error, wp_ret, wp_ret. split; [by destruct Hs|].
    eexists. split; [by destruct s|]. intros fd t p ok Hin. exfalso. revert Hin. apply not_sent_report.
Qed.

Lemma handle_input_command_sends cmd s E : ready s → size_t (cmd_text cmd) <= 65495 →
  wp (handle_input_command cmd) (typed_post s (cmd_text cmd)) E s.
Proof.
  intros Hs Ht. unfold handle_input_command. destruct (cmd_type cmd).
  - apply wp_bind, wp_send. cbn zeta. assert (only_sends s (cmd_text cmd) (sent s ListUsers [])) as Ho
      by (by eapply only_sends_one).
    destruct (default _ _) eqn:Eok; cbn [negb]; unfold sent in Ho; rewrite Eok in Ho.
    + apply wp_ret. by split.
    + apply wp_report_error. split; [done|]. apply only_sends_report; [done|intros; apply not_sent_report].
  - apply wp_modify. split; [done|]. exists []. rewrite app_nil_r. split; [by destruct s|set_solver].
  - by apply chat_by_id_sends.
  - by apply chat_by_nickname_sends.
  - by apply broadcast_sends.
  - by apply key_offer_sends.
  - apply wp_report_error. split; [done|].
    apply only_sends_report; [apply only_sends_refl|intros; apply not_sent_report].
Qed.

Lemma input_line_wp line s : ready s → size_t line <= 65495 →
  wp (input_line (Some line))
    (λ _ s', ready s' ∧ ∃ text, only_sends s text s' ∧
       ∀ cmd, parse_input_line line (my_id_ s) = Ok cmd → text = cmd_text cmd)
    (λ e s', e = out_of_range (str "stoul") ∧ s' = s) s.
Proof.
  intros Hs Hl. unfold input_line.
  destruct line as [|b line].
  { apply wp_get. split; [done|]. exists []. split; [apply only_sends_refl|]. by intros cmd [= <-]. }
  apply wp_bind, wp_get, wp_bind. apply wp_lift.
  - destruct (parse_input_line_total (b :: line) (my_id_ s)) as [[cmd ->]|(? & ? & _ & _ & _ & ->)]; done.
  - intros cmd Hp. pose proof (parse_input_line_text _ _ _ Hp) as Hlen. apply wp_bind.
    eapply wp_mono; [apply (handle_input_command_sends cmd s (λ _ _, False) Hs); lia| |by intros e s' []].
    intros [] s2 [Hs2 Hes]. apply wp_get. split; [done|]. exists (cmd_text cmd). split; [done|].
    intros cmd' Hc. congruence.
  - intros e He. destruct (parse_input_line_total (b :: line) (my_id_ s)) as [[cmd Hc]|(? & ? & _ & _ & _ & Hc)];
      rewrite He in Hc; [done|]. by injection Hc as ->.
Qed.

(** C11. Nothing typed leaves the client in the clear.  A line of at most 65495
    bytes is handled without undefined behaviour, and what is sent for it is a
    request for the list of users, the client's public key, or a Chat whose body
    is the typed text encrypted for the recipient's key or with the room key.  The
    only exception that gets out is that of the parser, and then nothing is sent. *)
Theorem typed_line_encrypted line s : ready s → size_t line <= 65495 →
  wp (input_turn (Some line))
    (λ _ s', ready s' ∧ ∃ text, only_sends s text s' ∧
       ∀ cmd, parse_input_line line (my_id_ s) = Ok cmd → text = cmd_text cmd)
    (λ e s', e = out_of_range (str "stoul") ∧ ready s' ∧
       out_ s' = out_ s ++ [Show show_input_prompt]) s.
Proof.
  intros Hs Hl. unfold input_turn. apply wp_bind, wp_emit. set (s1 := with_out s [_]).
  eapply wp_mono; [by apply (input_line_wp line s1)| |].
  - intros go_on s' [Hs' (text & (es & E & Hes) & Ht)]. split; [done|]. exists text. split; [|done].
    exists (Show show_input_prompt :: es). split; [by rewrite E; unfold s1; cbn; rewrite <-app_assoc|].
    intros fd t p ok [?|Hin]%elem_of_cons; [done|]. exact (Hes fd t p ok Hin).
  - by intros e s' [-> ->].
Qed.

(** Public keys are offered once.  After a key offer to a peer has been sent,
    offering it again, from the console or on another message, changes nothing
    and sends nothing; so two clients that answer each other's offers stop. *)
Theorem key_offered_once peer s : ready s → default false (head (sends_ s)) = true →
  wp (send_key_offer peer) (λ _ s', send_key_offer peer s' = (s', Ok tt)) (λ _ _, False) s.
Proof.
  intros Hs Hok.
  assert (∀ s', ready s' → peer = 0 ∨ peer = my_id_ s' ∨ peer ∈ key_offered_to_ s' →
    send_key_offer peer s' = (s', Ok tt)) as Hagain.
  { intros s' Hs' Hc. assert (wp (send_key_offer peer) (λ r s'', r = tt ∧ s'' = s') (λ _ _, False) s') as Hwp.
    { apply send_key_offer_wp; [done|]. by rewrite decide_True. }
    unfold wp in Hwp. destruct (send_key_offer peer s') as [s'' []]; [|done..]. by destruct Hwp as [-> ->]. }
  apply send_key_offer_wp; [done|]. case_decide; [by apply Hagain|]. cbn zeta. rewrite Hok.
  apply Hagain; [done|]. right; right. destruct s. unfold sent. client_cbn. set_solver.
Qed.

(** ** Incoming messages, one by one *)

Lemma user_left_wp id n s (Q : unit → client → Prop) E : crypto_mutex_ s = false →
  Q tt (with_out (with_names s
          (if decide (n = []) then id_by_nickname_ s else delete n (id_by_nickname_ s))
          (delete id (nickname_by_id_ s))) [Show (show_user_left id n)]) →
  wp (handle_incoming (mkMessage UserLeft (PUserLeft (mkUserLeft id n)))) Q E s.
Proof.
  intros Hf HQ. apply wp_bind, (wp_lift_ok _ (mkUserLeft id n)); [done|].
  apply wp_bind, wp_locked; [done|]. apply wp_modify, wp_bind, (wp_lift_ok _ (mkUserLeft id n)); [done|].
  apply wp_emit. destruct s. client_cbn. by subst.
Qed.

Lemma user_joined_wp id n s (Q : unit → client → Prop) E : ready s → id ≠ my_id_ s →
  wp (send_key_offer id) Q E (with_out (remember id n s) [Show (show_user_joined id n)]) →
  wp (handle_incoming (mkMessage UserJoined (PUserJoined (mkUserJoined id n)))) Q E s.
Proof.
  intros [Hf Hst] Hid HQ. apply wp_bind, (wp_lift_ok _ (mkUserJoined id n)); [done|].
  apply wp_bind, wp_locked; [done|]. apply wp_modify, wp_bind, wp_bind, (wp_lift_ok _ (mkUserJoined id n)); [done|].
  apply wp_emit, wp_bind, wp_get. cbn [joined_id joined_nickname]. destruct s. unfold remember in *. client_cbn. subst.
  destruct (Z.eqb_spec id my_id_0); [done|]. done.
Qed.

Lemma peer_key_wp from pk s (Q : unit → client → Prop) : ready s → is_u32 from → length pk = kPublicKeySize →
  wp (_ ← send_key_offer from; maybe_send_room_key from) Q (λ _ _, False)
    (with_out (with_store s (with_peers (key_store_ s) (<[from := pk]> (peers_ (key_store_ s)))))
       [LogInfo (with_detail (str "Received pubkey") (str "from_id=" ++ std.to_string from));
        Show (show_notice (str "Received pubkey"))]) →
  wp (handle_incoming (mkMessage PeerKey (PDeliver (mkDeliver from pk)))) Q (λ _ _, False) s.
Proof.
  intros [Hf Hst] Hid Hpk HQ. apply wp_bind, (wp_lift_ok _ (mkDeliver from pk)); [done|].
  cbn [deliver_from_id deliver_text]. apply wp_try_catch, wp_bind, wp_locked; [done|].
  apply wp_on_store. unfold set_peer_public, string_as_bytes. rewrite decide_False by naive_solver.
  apply wp_modify, wp_bind, wp_report_info.
  apply (wp_mono _ Q _ (λ _ _, False)); [|done|by intros e s' []]. destruct s. client_cbn. by subst.
Qed.

(** C38. A client id that is used again.  The server gives the id of a client that
    left to the next one that joins; the client that sees this does not offer its
    key to the newcomer if it had offered it to the one that left, and it keeps
    the old client's public key under this id. *)
Theorem reused_id_keeps_old_key id n n' s : sound false s → id ∈ key_offered_to_ s → id ≠ my_id_ s →
  wp (_ ← handle_incoming (mkMessage UserLeft (PUserLeft (mkUserLeft id n)));
      handle_incoming (mkMessage UserJoined (PUserJoined (mkUserJoined id n'))))
    (λ _ s', out_ s' = out_ s ++ [Show (show_user_left id n); Show (show_user_joined id n')] ∧
       peer_public (key_store_ s') id = peer_public (key_store_ s) id)
    (λ _ _, False) s.
Proof.
  intros Hs Hin Hid. apply wp_bind, user_left_wp; [apply Hs|]. apply user_joined_wp; [done..|].
  apply send_key_offer_wp; [done|]. rewrite decide_True by (right; right; by destruct s).
  destruct s. unfold remember. client_cbn. by rewrite <-app_assoc.
Qed.

(** ** The properties on a small client *)

End facts.

Section examples.

#[local] Existing Instances toy.library toy.library_laws.

Definition demo_config : config.ClientConfig :=
  config.mkClientConfig (str "127.0.0.1") 5020 (str "alice") [] (str "pw") [].

(** Client 1, connected, with the key of client 2 and a room key. *)
Definition demo_client : client :=
  mkClient demo_config 3 1
    (mkStore (replicate 32 Byte.x00) (replicate 32 Byte.x00) (Some (replicate 32 Byte.x05))
       {[2 := replicate 32 Byte.x07]})
    false {[str "bob" := 2]} {[2 := str "bob"]} {[2]} true false 3 ∅ [true; true; true] [] [] [].

Lemma demo_ready : sound false demo_client.
Proof.
  split; [done|]. split_and!; [done|done| |].
  - by intros key [= <-].
  - apply map_Forall_singleton. split; [unfold is_u32; lia|done].
Qed.

Lemma startup_ready_witness :
  wp (startup true (Ok 3) (Ok (Some (mkMessage AssignId (PAssignId (mkAssignId 7 true))))))
    (λ _ s', sound false s' ∧ running_ s' = true ∧
       ∃ fd a, Ok 3 = Ok fd ∧
         Ok (Some (mkMessage AssignId (PAssignId (mkAssignId 7 true)))) =
         Ok (Some (mkMessage AssignId (PAssignId a))) ∧
         session_fd_ s' = fd ∧ socket_fd_ s' = fd ∧ my_id_ s' = assign_id a ∧
         (create_room a = true → is_Some (room_key_ (key_store_ s'))))
    (λ _ s', sound false s') (initial demo_config ∅ [true] [] []).
Proof.
  apply startup_ready.
  - discriminate.
  - split; [exact I|]. intros m [= <-]. cbn. unfold is_u32. lia.
Defined.

Lemma receive_turn_returns_witness : ∃ s' go_on,
  receive_turn (Ok (Some (mkMessage Deliver (PDeliver (mkDeliver 2 (str "x")))))) demo_client =
  (s', Ok go_on) ∧ sound false s'.
Proof.
  apply receive_turn_returns; [exact demo_ready|]. split; [exact I|]. intros m [= <-].
  split; [cbn; unfold is_u32; lia|unfold wf_string; cbn; lia].
Defined.

Lemma typed_line_encrypted_witness :
  wp (input_turn (Some (str "bob:hi")))
    (λ _ s', sound false s' ∧ ∃ text, only_sends demo_client text s' ∧
       ∀ cmd, parse_input_line (str "bob:hi") 1 = Ok cmd → text = cmd_text cmd)
    (λ e s', e = out_of_range (str "stoul") ∧ sound false s' ∧
       out_ s' = out_ demo_client ++ [Show show_input_prompt]) demo_client.
Proof. apply (typed_line_encrypted (str "bob:hi") demo_client demo_ready). cbn. lia. Defined.

Lemma key_offered_once_witness :
  wp (send_key_offer 5) (λ _ s', send_key_offer 5 s' = (s', Ok tt)) (λ _ _, False) demo_client.
Proof. apply (key_offered_once 5 demo_client demo_ready). reflexivity. Defined.

Lemma reused_id_keeps_old_key_witness :
  wp (_ ← handle_incoming (mkMessage UserLeft (PUserLeft (mkUserLeft 2 (str "bob"))));
      handle_incoming (mkMessage UserJoined (PUserJoined (mkUserJoined 2 (str "eve")))))
    (λ _ s', out_ s' = [Show (show_user_left 2 (str "bob")); Show (show_user_joined 2 (str "eve"))] ∧
       peer_public (key_store_ s') 2 = Some (replicate 32 Byte.x07))
    (λ _ _, False) demo_client.
Proof.
  apply (reused_id_keeps_old_key 2 (str "bob") (str "eve") demo_client demo_ready).
  - change (2 ∈ ({[2]} : gset Z)). apply elem_of_singleton. reflexivity.
  - discriminate.
Defined.

End examples.

End client_facts.
