(* ===== verification/ClientRun.v ===== *)
(** * A client from start to end: [ClientViewModel::run] and its destructor

    The main thread reads lines, the receiver thread reads messages, and signals come;
    [converse] takes what happens as a list of events, one action each, in the order
    in which they happen, so a signal comes between two turns here (ClientThreads has
    the accesses inside a turn, ClientSignals the signals during start-up and at the
    end).  The destructor joins the receiver, saves the keys and closes the socket,
    also when an exception leaves [run]. *)
From S2P Require Import Prelude.
From S2P Require Import ModbusTcp.
From S2P Require Import Protocol.
From S2P Require Import Transport.
From S2P Require Import CppString.
From S2P Require Import Config.
From S2P Require Import PeerKeyStore.
From S2P Require Import Cipher.
From S2P Require Import ClientCommands.
From S2P Require Import ClientViewModel.
From S2P Require Import ClientFacts.

Module client_run.
Import protocol crypto cipher client_viewmodel client client_facts.

(** What may happen: [read_line] returns, [receive] returns or throws, or a signal
    is delivered. *)
Inductive event :=
| Typed (line : option bytes)
| Received (rx : outcome (option AppMessage))
| Signal.

Section run.
Context {C : IMessageCipher}.

(** [input_loop], from the prompt on, and [receive_loop], as long as it is
    [receiving], side by side: whether the input loop was left. *)
Fixpoint converse (events : list event) (receiving : bool) : SM client bool :=
  match events with
  | [] => mret false
  | Typed line :: events =>
      go_on ← input_line line;
      if go_on : bool then _ ← show show_input_prompt; converse events receiving else mret true
  | Received rx :: events =>
      receiving ← (if receiving then receive_turn rx else mret false);
      converse events receiving
  | Signal :: events =>
      _ ← request_shutdown true;
      converse events receiving
  end.

(** [run]: whether it has returned. *)
Definition run (log_opened : bool) (conn : outcome Z) (rx : outcome (option AppMessage))
    (events : list event) : SM client bool :=
  _ ← startup log_opened conn rx;
  _ ← show show_input_prompt;
  left_loop ← converse events true;
  _ ← when left_loop finish;
  mret left_loop.

(** What comes of a client: it goes on, [run] returned, or an exception left it. *)
Inductive ending := Talking | Left | Failed (ex : exn).

#[global] Instance ending_talking_dec (e : ending) : Decision (e = Talking).
Proof. destruct e; [by left|by right..]. Defined.

(** The destructor.  [late] is what the receiver is about to handle when it is
    joined, if it is still running. *)
Definition destroy (late : option (outcome (option AppMessage))) : SM client unit :=
  _ ← match late with
      | Some rx => _ ← receive_turn rx; skip
      | None => skip
      end;
  shutdown.

(** [run] and, when it is over, the destructor. *)
Definition client_process (log_opened : bool) (conn : outcome Z) (rx : outcome (option AppMessage))
    (events : list event) (late : option (outcome (option AppMessage))) : SM client ending :=
  e ← try_catch
    (over ← run log_opened conn rx events;
     mret (if over : bool then Left else Talking))
    (λ ex, mret (Failed ex));
  match e with
  | Talking => mret Talking
  | _ => _ ← destroy late; mret e
  end.

End run.

(** ** The socket *)

(** The descriptors that have been closed, and the one in use with them. *)
Definition closed (s : client) : list Z :=
  omap (λ e, match e with CloseFd fd => Some fd | _ => None end) (out_ s).
Definition sockets (s : client) : Z * list Z := (session_fd_ s, closed s).

(** Code that neither opens nor closes one. *)
Definition keeps {A} (m : SM client A) : Prop := ∀ s, sockets (m s).1 = sockets s.

Lemma sockets_out s es : (∀ fd, CloseFd fd ∉ es) → sockets (with_out s es) = sockets s.
Proof.
  intros Hes. unfold sockets, closed. cbn. rewrite omap_app. f_equal. rewrite <-(app_nil_r (omap _ (out_ s))) at 2. f_equal.
  induction es as [|e es IH]; [done|]. cbn. rewrite IH by set_solver. destruct e; try done. by destruct (Hes fd); left.
Qed.

Lemma keeps_ret {A} (a : A) : keeps (mret a). Proof. done. Qed.
Lemma keeps_skip : keeps skip. Proof. done. Qed.
Lemma keeps_get {A} (f : client → A) : keeps (get_ f). Proof. done. Qed.
Lemma keeps_lift {A} (m : outcome A) : keeps (lift m). Proof. done. Qed.
Lemma keeps_throw {A} (e : exn) : keeps (throw e : SM client A). Proof. done. Qed.
Lemma keeps_draw : keeps draw. Proof. done. Qed.
Lemma keeps_next_write : keeps next_write. Proof. done. Qed.
Lemma keeps_modify f : (∀ s, sockets (f s) = sockets s) → keeps (modify_ f). Proof. done. Qed.
Lemma keeps_emit e : (∀ fd, e ≠ CloseFd fd) → keeps (emit e).
Proof. intros He s. apply sockets_out. intros fd Hin%list_elem_of_singleton. by destruct (He fd). Qed.
Lemma keeps_send type payload : keeps (send type payload).
Proof. intros s. unfold send. cbn [fst]. rewrite sockets_out; [done|]. by intros fd Hin%list_elem_of_singleton. Qed.
Lemma keeps_bind {A B} (m : SM client A) (k : A → SM client B) : keeps m → (∀ a, keeps (k a)) → keeps (x ← m; k x).
Proof.
  intros Hm Hk s. unfold mbind, SM_bind. specialize (Hm s). destruct (m s) as [s' [a|e|]]; cbn in *; [|done..].
  by rewrite Hk.
Qed.
Lemma keeps_try {A} (m : SM client A) h : keeps m → (∀ e, keeps (h e)) → keeps (try_catch m h).
Proof.
  intros Hm Hh s. unfold try_catch. specialize (Hm s). destruct (m s) as [s' [a|e|]]; cbn in *; [done| |done]. by rewrite Hh.
Qed.
Lemma keeps_locked {A} (m : SM client A) : keeps m → keeps (locked m).
Proof.
  intros Hm s. unfold locked. destruct (crypto_mutex_ s); [done|]. specialize (Hm (with_mutex s true)).
  by destruct (m _) as [s' r].
Qed.
Lemma keeps_store {A} (m : SM PeerKeyStore A) : keeps (on_store m).
Proof. intros s. unfold on_store. by destruct (m _). Qed.
Lemma keeps_files {A} (m : SM (gmap bytes bytes) A) : keeps (on_files m).
Proof. intros s. unfold on_files. by destruct (m _). Qed.
Lemma keeps_for_each {A} (l : list A) (body : A → SM client unit) : (∀ x, keeps (body x)) → keeps (for_each l body).
Proof. intros Hb. induction l as [|x l IH]; [done|]. cbn [for_each]. apply keeps_bind; [done|]. by intros []. Qed.

Ltac keeping :=
  repeat (intros; cbv beta zeta; first
    [ apply keeps_ret | apply keeps_skip | apply keeps_get | apply keeps_lift | apply keeps_throw | apply keeps_draw
    | apply keeps_next_write | apply keeps_send | apply keeps_store | apply keeps_files
    | apply keeps_emit; by intros ? | apply keeps_modify; by intros [] | progress unfold show, when
    | apply keeps_bind | apply keeps_try | apply keeps_locked | apply keeps_for_each
    | solve [auto with keeps nocore] | case_match ]).

#[local] Create HintDb keeps.

Section sockets.
Context {C : IMessageCipher}.

Lemma report_error_keeps b d : keeps (report_error b d). Proof. unfold report_error. keeping. Qed.
Lemma report_info_keeps b d : keeps (report_info b d). Proof. unfold report_info. keeping. Qed.
Hint Resolve report_error_keeps report_info_keeps : keeps.

Lemma request_shutdown_keeps b : keeps (request_shutdown b). Proof. unfold request_shutdown. keeping. Qed.
Lemma announce_exit_keeps b : keeps (announce_exit b). Proof. unfold announce_exit. keeping. Qed.
Lemma init_logger_keeps b : keeps (init_logger b). Proof. unfold init_logger. keeping. Qed.
Lemma load_identity_keeps : keeps load_or_create_identity. Proof. unfold load_or_create_identity. keeping. Qed.
Lemma save_keystore_keeps : keeps save_keystore. Proof. unfold save_keystore. keeping. Qed.
Lemma assigned_id_keeps rx : keeps (receive_assigned_id rx). Proof. unfold receive_assigned_id. keeping. Qed.
Lemma register_keeps : keeps register_nickname. Proof. unfold register_nickname. keeping. Qed.
Lemma key_offer_keeps p : keeps (send_key_offer p). Proof. unfold send_key_offer. keeping. Qed.
Lemma room_key_keeps p : keeps (maybe_send_room_key p). Proof. unfold maybe_send_room_key. keeping. Qed.
Lemma chat_by_id_keeps id t : keeps (send_encrypted_chat_by_id id t). Proof. unfold send_encrypted_chat_by_id. keeping. Qed.
Hint Resolve request_shutdown_keeps announce_exit_keeps key_offer_keeps room_key_keeps chat_by_id_keeps : keeps.

Lemma chat_by_nickname_keeps n t : keeps (send_encrypted_chat_by_nickname n t).
Proof. unfold send_encrypted_chat_by_nickname. keeping. Qed.
Lemma broadcast_keeps t : keeps (send_encrypted_broadcast t). Proof. unfold send_encrypted_broadcast. keeping. Qed.
Lemma decrypt_keeps id b : keeps (decrypt_deliver id b). Proof. unfold decrypt_deliver, attempt. keeping. Qed.
Lemma present_keeps m : keeps (present m). Proof. unfold present. keeping. Qed.
Hint Resolve chat_by_nickname_keeps broadcast_keeps decrypt_keeps present_keeps : keeps.

Lemma input_command_keeps c : keeps (handle_input_command c). Proof. unfold handle_input_command. keeping. Qed.
Lemma incoming_keeps m : keeps (handle_incoming m). Proof. unfold handle_incoming. keeping. Qed.
Hint Resolve input_command_keeps incoming_keeps : keeps.

Lemma input_line_keeps line : keeps (input_line line). Proof. unfold input_line. keeping. Qed.
Lemma receive_turn_keeps rx : keeps (receive_turn rx). Proof. unfold receive_turn. keeping. Qed.
Lemma finish_keeps : keeps finish. Proof. unfold finish. keeping. Qed.
Hint Resolve input_line_keeps receive_turn_keeps finish_keeps : keeps.

Lemma converse_keeps events receiving : keeps (converse events receiving).
Proof.
  revert receiving. induction events as [|[line|rx|] events IH]; intros receiving; cbn [converse]; keeping; try apply IH.
Qed.

End sockets.

Section facts.
Context {C : IMessageCipher} {CL : CipherLaws}.
Implicit Types s : client.

Abbreviation ready := (sound false).

(** ** Shutting down *)

(** [save] of a good store has no undefined behaviour, and succeeds when the file
    can be opened and written and the number of peers can be encoded. *)
Lemma save_result w e1 e2 path password store fs : store_ok store →
  (save w e1 e2 path password store fs).2 ≠ UB ∧
  (open_ok w = true → write_ok w = true → Z.of_nat (size (peers_ store)) <= 65535 →
   (save w e1 e2 path password store fs).2 = Ok tt).
Proof.
  intros Hok. unfold save. destruct (decide (Z.of_nat (size (peers_ store)) <= 65535)) as [Hn|Hn].
  - rewrite (SM_lift_ok _ _ _ _ (serialize_spec store Hok Hn)).
    destruct (open_ok w); [|done]. cbn [negb]. rewrite SM_modify. by destruct (write_ok w).
  - unfold serialize, has_identity. destruct Hok as (Hs & _).
    rewrite bool_decide_eq_false_2 by (intros E'; by rewrite E' in Hs). cbn [negb].
    unfold protocol.kMaxU16Count. rewrite decide_True by lia. split; [done|]. by intros _ _ ?.
Qed.

Lemma wp_on_files {A} (m : SM (gmap bytes bytes) A) (Q : A → client → Prop) (E : exn → client → Prop) s :
  wp m (λ a fs, Q a (with_world s fs (sends_ s) (entropy_ s) (writes_ s)))
       (λ e fs, E e (with_world s fs (sends_ s) (entropy_ s) (writes_ s))) (files_ s) →
  wp (on_files m) Q E s.
Proof. unfold wp, on_files. by destruct (m (files_ s)) as [fs []]. Qed.

Definition next_fate s : write_result := default (mkWrite false false 0) (head (writes_ s)).

(** Saving keeps the client as it is but for the files; if the file can be opened
    and written there are random bytes with which the store was saved. *)
Record saved s s' : Prop := {
  sv_ready : ready s';
  sv_store : key_store_ s' = key_store_ s;
  sv_config : config_ s' = config_ s;
  sv_fd : session_fd_ s' = session_fd_ s;
  sv_running : running_ s' = running_ s;
  sv_files : open_ok (next_fate s) = true → write_ok (next_fate s) = true →
    Z.of_nat (size (peers_ (key_store_ s))) <= 65535 →
    ∃ e1 e2, save (next_fate s) e1 e2 (keystore_path s) (config.keystore_password (config_ s)) (key_store_ s)
      (files_ s) = (files_ s', Ok tt)
}.

Lemma save_keystore_wp s (Q : unit → client → Prop) E : ready s →
  (∀ s', saved s s' → Q tt s') → wp save_keystore Q E s.
Proof.
  intros [Hf Hok] HQ. unfold save_keystore. apply wp_locked; [done|]. apply wp_bind, wp_get.
  change (key_store_ (with_mutex s true)) with (key_store_ s).
  assert (has_identity (key_store_ s) = true) as ->.
  { unfold has_identity. destruct Hok as (Hs & _). by rewrite bool_decide_eq_false_2 by (intros E'; by rewrite E' in Hs). }
  cbn [negb]. apply wp_try_catch, wp_bind, wp_get, wp_bind, wp_get, wp_bind, wp_draw. intros e1.
  apply wp_bind, wp_draw. intros e2. apply wp_bind. unfold wp at 1, next_write. client_cbn.
  apply wp_bind, wp_on_files. client_cbn.
  destruct (save_result (next_fate s) e1 e2 (keystore_path s) (config.keystore_password (config_ s)) (key_store_ s)
    (files_ s) Hok) as [Hub Hs].
  unfold wp at 1. change (files_ (with_world _ ?f _ _ _)) with f. unfold next_fate in *.
  destruct (save _ e1 e2 _ _ _ _) as [fs' [[]|e|]] eqn:Es; cbn [snd] in *; [| |done].
  - apply wp_emit, HQ. destruct s. split; try done. client_cbn. intros _ _ _. by exists e1, e2.
  - apply wp_report_error, HQ. destruct s. split; try done. client_cbn. intros H1 H2 H3. by specialize (Hs H1 H2 H3).
Qed.

Lemma with_out_app s a b : with_out (with_out s a) b = with_out s (a ++ b).
Proof. unfold with_out. cbn. by rewrite <-app_assoc. Qed.

Lemma with_out_nil s : with_out s [] = s.
Proof. destruct s. unfold with_out. cbn. by rewrite app_nil_r. Qed.

Lemma request_shutdown_wp b s (Q : unit → client → Prop) E :
  (∀ es, Q tt (with_out (with_flags s false (exit_announced_ s)) es)) → wp (request_shutdown b) Q E s.
Proof.
  intros HQ. unfold request_shutdown. apply wp_bind, wp_modify, wp_bind, wp_get. client_cbn.
  destruct (0 <=? socket_fd_ s), b; cbn [when]; unfold wp, emit, modify_, mbind, SM_bind, skip, mret, SM_ret; cbn.
  - rewrite with_out_app. apply HQ.
  - apply HQ.
  - apply HQ.
  - rewrite <-(with_out_nil (with_flags _ _ _)). apply HQ.
Qed.

(** [shutdown] closes the socket and saves the keys, whatever came before. *)
Lemma shutdown_wp s (Q : unit → client → Prop) E : ready s →
  (∀ s', ready s' → running_ s' = false → session_fd_ s' < 0 → config_ s' = config_ s →
     (open_ok (next_fate s) = true → write_ok (next_fate s) = true →
      Z.of_nat (size (peers_ (key_store_ s))) <= 65535 →
      ∃ e1 e2, save (next_fate s) e1 e2 (keystore_path s) (config.keystore_password (config_ s)) (key_store_ s)
        (files_ s) = (files_ s', Ok tt)) → Q tt s') →
  wp shutdown Q E s.
Proof.
  intros Hs HQ. unfold shutdown. apply wp_bind, request_shutdown_wp. intros es.
  apply wp_bind, save_keystore_wp; [by destruct s|]. intros s1 [Hr Hst Hc Hfd Hrun Hf].
  apply wp_bind, wp_get. destruct s. client_cbn. destruct (Z.leb_spec 0 (session_fd_ s1)).
  - apply wp_bind, wp_emit, wp_bind, wp_modify, wp_modify. destruct s1. client_cbn. by apply HQ.
  - apply wp_ret. apply HQ; [done..|lia|done|done].
Qed.

(** C28. The keys survive.  When a client is shut down, and its key store file can be
    opened, written and holds all that is written to it, the next client with the
    same configuration starts with the same identity, the same room key and the
    same keys of its peers. *)
Theorem identity_persists s sends es ws (fate := next_fate s) :
  ready s → open_ok fate = true → write_ok fate = true →
  Z.of_nat (size (peers_ (key_store_ s))) <= 65535 →
  (∀ e1 e2 plain, serialize (key_store_ s) = Ok plain →
     (length (encrypt_keystore e1 e2 (config.keystore_password (config_ s)) plain) ≤ kept fate)%nat) →
  wp shutdown
    (λ _ s', wp load_or_create_identity (λ _ s2, key_store_ s2 = key_store_ s) (λ _ _, False)
       (initial (config_ s) (files_ s') sends es ws)) (λ _ _, False) s.
Proof.
  intros Hs Ho Hw Hn Hk. apply shutdown_wp; [done|]. intros s' _ _ _ Hc Hf.
  destruct (Hf Ho Hw Hn) as (e1 & e2 & Hsave).
  destruct (keystore_file_roundtrip _ _ _ _ _ _ _ _ empty_store (proj2 Hs) Hsave (Hk e1 e2)) as [Hload _].
  apply wp_locked; [done|]. apply wp_bind, wp_get, wp_bind, wp_get, wp_bind.
  apply wp_try_catch, wp_bind, wp_get, wp_bind, wp_on_store. unfold wp at 1.
  change (load _ _ _ _) with
    (load (files_ s') (keystore_path s) (config.keystore_password (config_ s)) empty_store).
  rewrite Hload. apply wp_bind, wp_report_info, wp_ret, wp_ret. done.
Qed.

(** ** The whole run *)

(** Lines are of a size that can be sent, and [receive] behaves as proved in
    Transport. *)
Definition event_ok (e : event) : Prop :=
  match e with
  | Typed line => size_t (default [] line) <= 65495
  | Received rx => ModbusMessageTransport.rx_ok rx
  | Signal => True
  end.

Abbreviation parser_threw := (λ (e : exn) s, e = out_of_range (str "stoul") ∧ ready s).

Lemma wp_of_total {A} (m : SM client A) E s : total ready m → ready s → wp m (λ _, ready) E s.
Proof. intros Hm Hs. destruct (Hm s Hs) as [Hs' [a Ha]]. unfold wp. destruct (m s) as [s' r]. cbn in *. by subst. Qed.

Lemma converse_wp events receiving s : Forall event_ok events → ready s →
  wp (converse events receiving) (λ _, ready) parser_threw s.
Proof.
  intros He. revert receiving s. induction He as [|e events He _ IH]; intros receiving s Hs; [done|].
  cbn [converse]. destruct e as [line|rx|]; cbn in He.
  - apply wp_bind. apply (wp_mono _ (λ _, ready) _ parser_threw); [| |done].
    + destruct line as [line|]; [|done]. eapply wp_mono; [by apply input_line_wp|by intros ? ? [? _]|].
      by intros e s' [-> ->].
    + intros [] s' Hs'; [|done]. apply wp_bind, wp_emit. by apply IH.
  - apply wp_bind. apply (wp_mono _ (λ _, ready) _ parser_threw); [| |done].
    + destruct receiving; [|done]. by apply wp_of_total; [apply receive_turn_total|].
    + intros r s' Hs'. by apply IH.
  - apply wp_bind, request_shutdown_wp. intros es. apply IH. by destruct s.
Qed.

Lemma finish_total : total ready finish.
Proof. apply total_bind; [apply announce_exit_total|]. intros _. apply request_shutdown_total. Qed.

Lemma run_wp c files sends es ws log_opened conn rx events :
  no_ub conn → ModbusMessageTransport.rx_ok rx → Forall event_ok events →
  wp (run log_opened conn rx events) (λ _, ready) (λ _, ready) (initial c files sends es ws).
Proof.
  intros Hconn Hrx He. unfold run. apply wp_bind. eapply wp_mono; [by apply startup_ready| |done].
  intros [] s1 [Hs1 _]. apply wp_bind, wp_emit, wp_bind.
  eapply wp_mono; [by apply converse_wp| |by intros e s [_ ?]].
  intros over s2 Hs2. apply wp_bind. apply (wp_mono _ (λ _, ready) _ (λ _, ready)); [|done..].
  destruct over; [|done]. by apply wp_of_total; [apply finish_total|].
Qed.

Lemma destroy_wp late s E : ready s → (∀ rx, late = Some rx → ModbusMessageTransport.rx_ok rx) →
  wp (destroy late) (λ _ s', ready s' ∧ running_ s' = false ∧ session_fd_ s' < 0) E s.
Proof.
  intros Hs Hlate. unfold destroy. apply wp_bind. apply (wp_mono _ (λ _, ready) _ (λ _ _, False)); [| |done].
  - destruct late as [rx|]; [|done]. apply wp_bind.
    eapply wp_mono; [apply (wp_of_total _ (λ _ _, False)); [by apply receive_turn_total, Hlate|done]|done|done].
  - intros _ s2 Hs2. by apply shutdown_wp.
Qed.

(** ** The socket from start to end *)

(** The descriptor in use once [connect] has returned, and what is to be closed. *)
Definition connection (conn : outcome Z) : Z := match conn with Ok fd => fd | _ => -1 end.
Definition opened (conn : outcome Z) : list Z := if 0 <=? connection conn then [connection conn] else [].

Lemma fresh_init_logger b s : fresh false s → wp (init_logger b) (λ _, fresh false) (λ _ _, False) s.
Proof.
  intros Hs. unfold init_logger. apply wp_bind, wp_get. destruct b; cbn [negb];
    [apply wp_bind, wp_emit, wp_emit|apply wp_emit]; by destruct s.
Qed.

Lemma keeps_after {A B} (m : SM client A) (k : A → SM client B) s : (∀ a, keeps (k a)) →
  sockets ((x ← m; k x) s).1 = sockets (m s).1.
Proof. intros Hk. unfold mbind, SM_bind. destruct (m s) as [s' [a|e|]]; cbn; [apply Hk|done..]. Qed.

Lemma connect_sockets conn s : session_fd_ s = -1 →
  sockets (connect_to_server conn s).1 = (connection conn, closed s).
Proof.
  intros Hfd. unfold connect_to_server, get_, show, emit, modify_, lift, mbind, SM_bind, sockets, closed.
  destruct conn as [fd|e|]; cbn; rewrite ?omap_app; cbn; by rewrite ?Hfd, ?app_nil_r.
Qed.

Lemma startup_sockets c files sends es ws log_opened conn rx :
  sockets (startup log_opened conn rx (initial c files sends es ws)).1 = (connection conn, []).
Proof.
  set (s0 := initial c files sends es ws). unfold startup.
  assert (fresh false s0) as H0 by (split; [done|]; split; [done|apply map_Forall_empty]).
  destruct (wp_value _ _ _ (fresh_init_logger log_opened s0 H0)) as ([] & s1 & E1 & H1).
  destruct (wp_value _ _ _ (load_or_create_identity_wp s1 (λ _ _, False) H1)) as ([] & s2 & E2 & _).
  rewrite (SM_bind_ok _ _ _ _ _ E1), (SM_bind_ok _ _ _ _ _ E2), keeps_after.
  - pose proof (init_logger_keeps log_opened s0) as K1. pose proof (load_identity_keeps s1) as K2.
    rewrite E1 in K1. rewrite E2 in K2. cbn [fst] in *. rewrite K1 in K2. injection K2 as Hfd Hcl. rewrite connect_sockets by done. by rewrite Hcl.
  - intros []. keeping.
Qed.

Lemma run_sockets c files sends es ws log_opened conn rx events :
  sockets (run log_opened conn rx events (initial c files sends es ws)).1 = (connection conn, []).
Proof.
  unfold run. rewrite keeps_after, startup_sockets; [done|]. intros []. keeping; apply converse_keeps.
Qed.

Lemma shutdown_closes s : ready s →
  closed (shutdown s).1 = closed s ++ (if 0 <=? session_fd_ s then [session_fd_ s] else []).
Proof.
  intros Hs. unfold shutdown. destruct (request_shutdown_total false s Hs) as [Hs1 [[] E1]].
  pose proof (request_shutdown_keeps false s) as K1. destruct (request_shutdown false s) as [s1 r] eqn:E0.
  cbn [fst snd] in *. subst r.
  destruct (wp_value _ (λ _ _, True) s1 (save_keystore_wp s1 _ _ Hs1 (λ _ _, I))) as ([] & s2 & E2 & _).
  pose proof (save_keystore_keeps s1) as K2. rewrite E2 in K2. cbn [fst] in K2. rewrite K1 in K2. injection K2 as Hfd Hcl.
  rewrite (SM_bind_ok _ _ _ _ _ E0), (SM_bind_ok _ _ _ _ _ E2), SM_get, Hfd.
  destruct (0 <=? session_fd_ s); [|by rewrite app_nil_r].
  unfold emit, modify_, mbind, SM_bind, closed in *. cbn. rewrite omap_app. by rewrite Hcl.
Qed.

Lemma destroy_closes late s : ready s → (∀ rx, late = Some rx → ModbusMessageTransport.rx_ok rx) →
  closed (destroy late s).1 = closed s ++ (if 0 <=? session_fd_ s then [session_fd_ s] else []).
Proof.
  intros Hs Hlate. unfold destroy. destruct late as [rx|]; [|by apply shutdown_closes].
  destruct (receive_turn_total rx (Hlate rx eq_refl) s Hs) as [Hs1 [b E1]]. pose proof (receive_turn_keeps rx s) as K1.
  unfold mbind at 1, SM_bind at 1. unfold mbind at 1, SM_bind at 1.
  destruct (receive_turn rx s) as [s1 r]. cbn [fst snd] in *. subst r. injection K1 as Hfd Hcl.
  unfold skip, mret, SM_ret. by rewrite shutdown_closes, Hfd, Hcl.
Qed.

(** When it is over, exactly the descriptor that [connect] gave has been closed, once. *)
Lemma client_process_closes c files sends es ws log_opened conn rx events late s' e :
  no_ub conn → ModbusMessageTransport.rx_ok rx → Forall event_ok events →
  (∀ rx, late = Some rx → ModbusMessageTransport.rx_ok rx) →
  client_process log_opened conn rx events late (initial c files sends es ws) = (s', Ok e) →
  closed s' = if decide (e = Talking) then [] else opened conn.
Proof.
  intros Hconn Hrx He Hlate. set (s0 := initial c files sends es ws).
  pose proof (run_wp c files sends es ws log_opened conn rx events Hconn Hrx He) as Hwp.
  pose proof (run_sockets c files sends es ws log_opened conn rx events) as Hsk. fold s0 in Hwp, Hsk.
  unfold client_process, try_catch. unfold mbind at 1, SM_bind at 1. unfold mbind at 1, SM_bind at 1.
  unfold wp in Hwp. destruct (run _ _ _ _ s0) as [s1 r]. cbn [fst] in Hsk. injection Hsk as Hfd Hcl.
  assert (∀ e1, ready s1 → (_ ← destroy late; mret e1) s1 = (s', Ok e) → e = e1 ∧ closed s' = opened conn) as Hd.
  { intros e1 Hs1. pose proof (destroy_closes late s1 Hs1 Hlate) as Hx. unfold mbind at 1, SM_bind at 1.
    destruct (destroy late s1) as [s2 [[]|ex|]]; [|done..]. intros [= <- <-]. cbn [fst] in Hx.
    by rewrite Hx, Hfd, Hcl. }
  destruct r as [[]|ex|]; [| | |done].
  - intros E. destruct (Hd _ Hwp E) as [-> ->]. by rewrite decide_False.
  - intros [= <- <-]. rewrite decide_True by done. exact Hcl.
  - intros E. destruct (Hd _ Hwp E) as [-> ->]. by rewrite decide_False.
Qed.

(** C6. A client from start to end, signals coming between the turns of its two loops
    and lines being of at most 65495 bytes.  Whatever the server sends and the user
    types, there is no undefined behaviour: it goes on, or it ends with [run]
    returning or with an exception, and in both cases it is no longer running, the
    mutex is free, and the descriptor that [connect] returned has been closed, once,
    and no other; as long as it goes on nothing has been closed. *)
Theorem client_process_ends c files sends es ws log_opened conn rx events late :
  no_ub conn → ModbusMessageTransport.rx_ok rx → Forall event_ok events →
  (∀ rx, late = Some rx → ModbusMessageTransport.rx_ok rx) →
  ∃ s' e, client_process log_opened conn rx events late (initial c files sends es ws) = (s', Ok e) ∧ ready s' ∧
    closed s' = (if decide (e = Talking) then [] else opened conn) ∧
    (e ≠ Talking → running_ s' = false ∧ session_fd_ s' < 0).
Proof.
  intros Hconn Hrx He Hlate.
  set (s0 := initial c files sends es ws).
  assert (wp (client_process log_opened conn rx events late)
    (λ e s', ready s' ∧ (e ≠ Talking → running_ s' = false ∧ session_fd_ s' < 0)) (λ _ _, False) s0) as Hwp.
  { unfold client_process. apply wp_bind. apply (wp_mono _ (λ _, ready) _ (λ _ _, False)); [| |done].
    { apply wp_try_catch, wp_bind. by eapply wp_mono; [by apply run_wp|..]. }
    intros e s1 Hs1.
    destruct e; [by split|..]; apply wp_bind;
      (eapply wp_mono; [by apply (destroy_wp late _ (λ _ _, False))|intros [] s' (? & ? & ?); by apply wp_ret|done]). }
  destruct (wp_value _ _ _ Hwp) as (e & s' & E & Hs' & Hend). exists s', e.
  split_and!; [done|done|by eapply client_process_closes|done].
Qed.

End facts.

(** ** The theorems applied *)

Definition enough : write_result := mkWrite true true 2000.

Definition demo_leaving : client :=
  with_world demo_client ∅ [] [] [enough].

Lemma identity_persists_witness :
  wp shutdown
    (λ _ s', wp load_or_create_identity (λ _ s2, key_store_ s2 = key_store_ demo_leaving) (λ _ _, False)
       (initial demo_config (files_ s') [] [] [])) (λ _ _, False) demo_leaving.
Proof.
  apply (identity_persists demo_leaving [] [] []).
  - exact demo_ready.
  - reflexivity.
  - reflexivity.
  - vm_compute. discriminate.
  - intros e1 e2 plain Hplain.
    change (encrypt_keystore e1 e2) with (mono_encrypt_keystore e1 e2). rewrite length_mono_encrypt_keystore.
    assert (length plain <= 200)%nat as Hl; [|cbn; lia].
    revert Hplain. vm_compute (serialize _). intros [= <-]. apply (bool_decide_unpack _). vm_compute. exact I.
Defined.

Lemma client_process_ends_witness : ∃ s' e,
  client_process true (Ok 3) (Ok (Some (mkMessage AssignId (PAssignId (mkAssignId 7 true)))))
    [Typed (Some (str "bob:hi")); Received (Throw (runtime_error (str "PDU too short"))); Received (Ok None);
     Typed None] None (initial demo_config ∅ [true] [] []) = (s', Ok e) ∧ sound false s' ∧
  e = Left ∧ closed s' = [3].
Proof.
  destruct (client_process_ends demo_config ∅ [true] [] [] true (Ok 3)
    (Ok (Some (mkMessage AssignId (PAssignId (mkAssignId 7 true)))))
    [Typed (Some (str "bob:hi")); Received (Throw (runtime_error (str "PDU too short"))); Received (Ok None);
     Typed None] None) as (s' & e & E & Hs' & Hc & _).
  - discriminate.
  - split; [exact I|]. intros m [= <-]. cbn. unfold is_u32. lia.
  - repeat constructor; cbn; try lia; try discriminate.
  - discriminate.
  - assert (e = Left) as Ee.
    { apply (f_equal (λ x, match x with (_, Ok e) => e | _ => Talking end)) in E. vm_compute in E. symmetry. exact E. }
    exists s', e. split; [exact E|]. split; [exact Hs'|]. split; [exact Ee|]. rewrite Hc, Ee. reflexivity.
Defined.

End client_run.
