(* ===== verification/ClientSignals.v ===== *)
(** * Signals and the client's process: client/main.cpp

    [main] publishes the view model in the global [g_client_vm], installs the
    handlers of signals and calls [run]; a handler looks at [g_client_vm] and calls
    [request_shutdown] through it.  When [run] has returned, [main] sets the pointer
    to null, stops the output queue and destroys the view model; when an exception
    leaves [run], the view model is destroyed first and the pointer set to null in
    the [catch].  A signal may come at any time, on any of the threads that exist:
    the main thread, which waits meanwhile, the dispatcher of the output queue, the
    writer of the log and the receiver, which whoever joins it waits for.

    A step is a statement of [main] or of the start-up in [run], a turn of one of
    the two loops, and for a handler the test of the pointer and the call; accesses
    are atomic.  What a signal does between the accesses of a turn is the subject of
    ClientThreads; here it is when the call through the pointer meets a client. *)
From S2P Require Import Prelude.
From S2P Require Import ModbusTcp.
From S2P Require Import Protocol.
From S2P Require Import Transport.
From S2P Require Import CppString.
From S2P Require Import Config.
From S2P Require Import PeerKeyStore.
From S2P Require Import Cipher.
From S2P Require Import ClientCommands.
From S2P Require Import ClientViewModel.
From S2P Require Import ClientFacts.
From S2P Require Import ClientRun.

Module client_signals.
Import protocol crypto cipher client_viewmodel client client_facts client_run.

(** Where [main] is: before the statement of this name, in the loop of [run] after
    its start-up, on the way out, or on the way out with an exception. *)
Inductive main_pc :=
| Publish | InstallHandlers
| InitLogger | LoadIdentity | Connect | ReceiveId | RegisterNickname | StartReceiver
| Conversing | Finish | ClearPointer | StopOutput | Destroy | Ended
| Thrown | Catch | Caught.

Inductive thread := MainThread | Dispatcher | Writer | Receiver.
(** [on_client_signal]: before the test, between the test and the call. *)
Inductive handler_pc := HandlerTest | HandlerCall.
#[global] Instance thread_eq_dec : EqDecision thread.
Proof. solve_decision. Defined.
#[global] Instance handler_pc_eq_dec : EqDecision handler_pc.
Proof. solve_decision. Defined.

Record process := mkProcess {
  g_client_vm : bool;                          (* not null *)
  alive : bool;                                (* the object [view_model] exists *)
  main_ : main_pc;
  receiving : bool;                            (* [receive_loop] runs *)
  handlers : list (thread * handler_pc);
  vm : client;
  undefined : bool
}.

Section process.
Context {C : IMessageCipher}.
Implicit Types p : process.

Definition at_main p g a pc s : process := mkProcess g a pc (receiving p) (handlers p) s (undefined p).
Definition at_handlers p hs s ub : process := mkProcess (g_client_vm p) (alive p) (main_ p) (receiving p) hs s ub.

(** The threads on which a handler can run now. *)
Definition thread_exists p (t : thread) : bool :=
  match t, main_ p with
  | MainThread, _ => true
  | Dispatcher, (Destroy | Ended | Caught) => false
  | Dispatcher, _ => true
  | Writer, (Publish | InstallHandlers | InitLogger | Ended | Catch | Caught) => false
  | Writer, _ => true
  | Receiver, _ => receiving p
  end.

Definition handlers_installed p : bool :=
  match main_ p with Publish | InstallHandlers => false | _ => true end.

(** No handler has interrupted the thread. *)
Definition undisturbed p (t : thread) : Prop := ∀ h, (t, h) ∉ handlers p.

(** A statement of [run]: the next one comes, or the exception leaves [run]. *)
Definition statement (m : SM client unit) (next : main_pc) p : process :=
  match m (vm p) with
  | (s, Ok _) => at_main p (g_client_vm p) (alive p) next s
  | (s, Throw _) => at_main p (g_client_vm p) (alive p) Thrown s
  | (s, UB) => mkProcess (g_client_vm p) (alive p) (main_ p) (receiving p) (handlers p) s true
  end.

(** The destructor of [view_model], which joins the receiver. *)
Definition destroy_step (late : option (outcome (option AppMessage))) (next : main_pc) p : process :=
  let '(s, r) := destroy late (vm p) in
  mkProcess (g_client_vm p) false next false (handlers p) s
    (undefined p || match r with Ok _ => false | _ => true end).

(** A statement of [main].  [log_opened], [conn] and [rx] are what the outside
    answers to the start-up, [late] is what the receiver handles while it is
    joined. *)
Definition main_step (log_opened : bool) (conn : outcome Z) (rx : outcome (option AppMessage))
    (late : option (outcome (option AppMessage))) p : option process :=
  match main_ p with
  | Publish => Some (at_main p true (alive p) InstallHandlers (vm p))
  | InstallHandlers => Some (at_main p (g_client_vm p) (alive p) InitLogger (vm p))
  | InitLogger => Some (statement (init_logger log_opened) LoadIdentity p)
  | LoadIdentity => Some (statement load_or_create_identity Connect p)
  | Connect => Some (statement (connect_to_server conn) ReceiveId p)
  | ReceiveId => Some (statement (receive_assigned_id rx) RegisterNickname p)
  | RegisterNickname => Some (statement register_nickname StartReceiver p)
  | StartReceiver =>
      let s := with_out (vm p) [Show (show_status (str "Startup complete") config.kCompletePercent);
                                Show show_input_ready; Show show_usage] in
      Some (mkProcess (g_client_vm p) (alive p) Conversing true (handlers p) s (undefined p))
  | Conversing =>
      if running_ (vm p) then None else Some (at_main p (g_client_vm p) (alive p) Finish (vm p))
  | Finish => Some (statement finish ClearPointer p)
  | ClearPointer => Some (at_main p false (alive p) StopOutput (vm p))
  | StopOutput => Some (at_main p (g_client_vm p) (alive p) Destroy (vm p))
  | Destroy => Some (destroy_step late Ended p)
  | Thrown => Some (destroy_step late Catch p)
  | Catch => Some (at_main p false (alive p) Caught (vm p))
  | Ended | Caught => None
  end.

(** The threads that the statement joins. *)
Definition joins (pc : main_pc) : list thread :=
  match pc with
  | StopOutput | Catch => [Dispatcher]
  | Destroy | Thrown => [Writer; Receiver]
  | _ => []
  end.

(** A turn of [input_loop]. *)
Definition input_step (line : option bytes) p : process :=
  match input_turn line (vm p) with
  | (s, Ok go_on) => at_main p (g_client_vm p) (alive p) (if go_on : bool then Conversing else Finish) s
  | (s, Throw _) => at_main p (g_client_vm p) (alive p) Thrown s
  | (s, UB) => mkProcess (g_client_vm p) (alive p) (main_ p) (receiving p) (handlers p) s true
  end.

(** A turn of [receive_loop]; an exception that left it would end the process. *)
Definition receive_step (rx : outcome (option AppMessage)) p : process :=
  match receive_turn rx (vm p) with
  | (s, Ok go_on) => mkProcess (g_client_vm p) (alive p) (main_ p) go_on (handlers p) s (undefined p)
  | (s, _) => mkProcess (g_client_vm p) (alive p) (main_ p) false (handlers p) s true
  end.

(** A step of the [i]-th handler that is active. *)
Definition handler_step (i : nat) p : option process :=
  match handlers p !! i with
  | None => None
  | Some (t, HandlerTest) =>
      Some (at_handlers p (if g_client_vm p then <[i:=(t, HandlerCall)]> (handlers p) else delete i (handlers p))
              (vm p) (undefined p))
  | Some (t, HandlerCall) =>
      if g_client_vm p && alive p
      then Some (at_handlers p (delete i (handlers p)) (request_shutdown true (vm p)).1 (undefined p))
      else Some (at_handlers p (delete i (handlers p)) (vm p) true)
  end.

Inductive step : process → process → Prop :=
| step_main log_opened conn rx late p p' :
    undisturbed p MainThread → Forall (undisturbed p) (joins (main_ p)) →
    no_ub conn → ModbusMessageTransport.rx_ok rx →
    (∀ rx, late = Some rx → receiving p = true ∧ ModbusMessageTransport.rx_ok rx) →
    main_step log_opened conn rx late p = Some p' → step p p'
| step_input line p : undisturbed p MainThread → main_ p = Conversing → running_ (vm p) = true →
    event_ok (Typed line) → step p (input_step line p)
| step_receive rx p : undisturbed p Receiver → receiving p = true → ModbusMessageTransport.rx_ok rx →
    step p (receive_step rx p)
| step_signal t p : handlers_installed p = true → thread_exists p t = true →
    step p (at_handlers p (handlers p ++ [(t, HandlerTest)]) (vm p) (undefined p))
| step_handler i p p' : handler_step i p = Some p' → step p p'.

(** [main] when the view model has just been constructed. *)
Definition begin (s : client) : process := mkProcess false true Publish false [] s false.

End process.

(** ** What holds at every stage *)

(** The pointer is set; the view model exists; the receiver may be running. *)
Definition published (pc : main_pc) : bool :=
  match pc with Publish | StopOutput | Destroy | Ended | Caught => false | _ => true end.
Definition lives (pc : main_pc) : bool :=
  match pc with Ended | Catch | Caught => false | _ => true end.
Definition may_receive (pc : main_pc) : bool :=
  match pc with Conversing | Finish | ClearPointer | StopOutput | Destroy | Thrown => true | _ => false end.
(** The pointer has not been cleared and points to no destroyed view model. *)
Definition early (pc : main_pc) : bool :=
  match pc with StopOutput | Destroy | Ended | Catch | Caught => false | _ => true end.
(** [main] has cleared the pointer. *)
Definition cleared (pc : main_pc) : bool :=
  match pc with StopOutput | Destroy | Ended | Caught => true | _ => false end.

Section facts.
Context {C : IMessageCipher} {CL : CipherLaws}.
Implicit Types p : process.

(** The identity comes with [load_or_create_identity], the end with the
    destructor. *)
Definition stage_ok (pc : main_pc) (s : client) : Prop :=
  match pc with
  | Publish | InstallHandlers | InitLogger | LoadIdentity => fresh false s
  | Ended | Catch | Caught => sound false s ∧ running_ s = false ∧ session_fd_ s < 0
  | _ => sound false s
  end.

Record process_inv p : Prop := {
  pi_stage : stage_ok (main_ p) (vm p);
  pi_pointer : g_client_vm p = published (main_ p);
  pi_alive : alive p = lives (main_ p);
  pi_receiving : receiving p = true → may_receive (main_ p) = true;
  pi_installed : handlers_installed p = false → handlers p = [];
  pi_threads t h : (t, h) ∈ handlers p → thread_exists p t = true;
  pi_main : cleared (main_ p) = true → (MainThread, HandlerCall) ∉ handlers p;
  pi_defined : early (main_ p) = true → undefined p = false
}.

Lemma elem_of_insert_inv {A} (l : list A) i x y : y ∈ <[i:=x]> l → y = x ∨ y ∈ l.
Proof.
  intros [k Hk]%list_elem_of_lookup. apply list_lookup_insert_Some in Hk as [(_ & -> & _)|[_ Hk]]; [by left|right].
  by eapply list_elem_of_lookup_2.
Qed.

(** A handler changes two flags and the output. *)
Lemma stage_signal pc s : stage_ok pc s → stage_ok pc (request_shutdown true s).1.
Proof.
  intros Hs. assert (wp (request_shutdown true) (λ _, stage_ok pc) (λ _ _, False) s) as Hwp.
  { apply request_shutdown_wp. intros es. destruct s, pc; try exact Hs; by destruct Hs as (? & _ & ?). }
  unfold wp in Hwp. by destruct (request_shutdown true s) as [s' [|e|]].
Qed.

(** [main] goes on to another place, no handler being on its thread. *)
Lemma at_main_inv p g a pc r s ub : process_inv p → undisturbed p MainThread →
  stage_ok pc s → g = published pc → a = lives pc → (r = true → may_receive pc = true) →
  (handlers_installed p = false ∨ pc ≠ Publish ∧ pc ≠ InstallHandlers) →
  (∀ t h, (t, h) ∈ handlers p → thread_exists p t = true →
     thread_exists (mkProcess g a pc r (handlers p) s ub) t = true) →
  (early pc = true → ub = false) →
  process_inv (mkProcess g a pc r (handlers p) s ub).
Proof.
  intros Hinv Hm Hs -> -> Hr Hi Ht Hu. split; try done; cbn in *.
  - intros Hpc. destruct Hi as [Hi|[??]]; [by apply Hinv|by destruct pc].
  - intros t h Hh. apply (Ht t h Hh). by eapply pi_threads.
Qed.

Lemma ready_connect conn s : no_ub conn → sound false s →
  wp (connect_to_server conn) (λ _, sound false) (λ _, sound false) s.
Proof.
  intros Hc Hs. unfold connect_to_server. apply wp_bind, wp_get, wp_bind, wp_get, wp_bind, wp_emit, wp_bind.
  apply wp_lift; [done| |by intros].
  intros fd _. apply wp_bind, wp_modify, wp_bind, wp_modify, wp_bind, wp_emit, wp_bind, wp_emit, wp_emit. by destruct s.
Qed.

(** A statement of the start-up, or [finish]. *)
Lemma statement_inv m next p : process_inv p → undisturbed p MainThread →
  wp m (λ _, stage_ok next) (λ _, sound false) (vm p) →
  published (main_ p) = true → lives (main_ p) = true → early (main_ p) = true → handlers_installed p = true →
  (receiving p = true → may_receive next = true) →
  published next = true → lives next = true → next ≠ Publish ∧ next ≠ InstallHandlers →
  (∀ t, thread_exists p t = true → thread_exists (at_main p true true next (vm p)) t = true) →
  process_inv (statement m next p).
Proof.
  intros Hinv Hm Hwp Hg Ha He Hi Hr Hg' Ha' Hne Ht. unfold statement, wp in *.
  pose proof (pi_pointer p Hinv) as Eg. pose proof (pi_alive p Hinv) as Ea. rewrite Hg in Eg. rewrite Ha in Ea.
  destruct (m (vm p)) as [s [u|e|]]; [| |done].
  - apply at_main_inv; try done; try congruence; [by right|intros t h _ Hx; by apply (Ht t)|intros _; by apply Hinv].
  - apply at_main_inv; try done; [by right|intros t h _ Hx; by destruct t|intros _; by apply Hinv].
Qed.

(** The destructor: the threads it joins are not interrupted. *)
Lemma destroy_inv late next p : process_inv p → undisturbed p MainThread →
  undisturbed p Writer → undisturbed p Receiver → sound false (vm p) → handlers_installed p = true →
  (∀ rx, late = Some rx → ModbusMessageTransport.rx_ok rx) →
  (main_ p = Destroy ∧ next = Ended ∨ main_ p = Thrown ∧ next = Catch) →
  process_inv (destroy_step late next p).
Proof.
  intros Hinv Hm Hw Hr Hs Hi Hl Hnext. unfold destroy_step.
  pose proof (destroy_wp late (vm p) (λ _ _, False) Hs Hl) as Hd. unfold wp in Hd.
  destruct (destroy late (vm p)) as [s [u|e|]]; [|done..]. pose proof (pi_pointer p Hinv) as Eg.
  apply at_main_inv; try done.
  - by destruct Hnext as [[_ ->]|[_ ->]].
  - rewrite Eg. by destruct Hnext as [[-> ->]|[-> ->]].
  - by destruct Hnext as [[_ ->]|[_ ->]].
  - right. by destruct Hnext as [[_ ->]|[_ ->]].
  - intros t h Hh Hx. destruct t; [done| |by destruct (Hw h)|by destruct (Hr h)].
    cbn in *. by destruct Hnext as [[E ->]|[E ->]]; rewrite E in Hx.
  - by destruct Hnext as [[_ ->]|[_ ->]].
Qed.

(** The conditions of [statement_inv] but the one on the statement. *)
Ltac stmt :=
  match goal with Em : main_ ?p = _, Hr : receiving ?p = true → _ |- _ =>
    apply statement_inv;
      [done|done| |by rewrite Em|by rewrite Em|by rewrite Em|unfold handlers_installed; by rewrite Em
      |first [done|by intros ?%Hr]|done|done|done
      |intros t; unfold thread_exists; cbn; rewrite Em; by destruct t]
  end.

Lemma client_main_step_inv log_opened conn rx late p p' : process_inv p →
  undisturbed p MainThread → Forall (undisturbed p) (joins (main_ p)) →
  no_ub conn → ModbusMessageTransport.rx_ok rx →
  (∀ rx, late = Some rx → receiving p = true ∧ ModbusMessageTransport.rx_ok rx) →
  main_step log_opened conn rx late p = Some p' → process_inv p'.
Proof.
  intros Hinv Hm Hj Hc Hrx Hl. pose proof Hinv as [Hs Hg Ha Hr Hi Ht _ Hu].
  assert (∀ rx, late = Some rx → ModbusMessageTransport.rx_ok rx) as Hl' by (intros r E; by apply (Hl r)).
  unfold main_step. destruct (main_ p) eqn:Em; cbn in Hs, Hg, Ha, Hr, Hu, Hj;
    try (apply Forall_cons in Hj as [Hj1 Hj]); try (apply Forall_cons in Hj as [Hj2 Hj]); intros E; simplify_eq.
  - assert (handlers p = []) as Eh by (apply Hi; unfold handlers_installed; by rewrite Em).
    apply at_main_inv; try done; try (by intros ?%Hr); [left; unfold handlers_installed; by rewrite Em|].
    intros t h Hh. rewrite Eh in Hh. by apply elem_of_nil in Hh.
  - assert (handlers p = []) as Eh by (apply Hi; unfold handlers_installed; by rewrite Em).
    apply at_main_inv; try done; try (by intros ?%Hr); [by right|].
    intros t h Hh. rewrite Eh in Hh. by apply elem_of_nil in Hh.
  - stmt. apply (wp_mono _ (λ _, fresh false) _ (λ _ _, False)); [by apply fresh_init_logger|done..].
  - stmt. eapply wp_mono; [by apply (load_or_create_identity_wp _ (λ _ _, False))|by intros ? ? [? _]|done].
  - stmt. by apply ready_connect.
  - stmt. eapply wp_mono; [by apply receive_assigned_id_wp|by intros ? ? [? _]|done].
  - stmt. eapply wp_mono; [by apply register_nickname_wp|by intros ? ? [? _]|done].
  - apply at_main_inv; try done; [by right|].
    intros t h _ Hx. unfold thread_exists in *. by destruct t.
  - destruct (running_ (vm p)); [done|]. simplify_eq. apply at_main_inv; try done; [by right|].
    intros t h _ Hx. unfold thread_exists in *. rewrite Em in Hx. by destruct t.
  - stmt. by apply wp_of_total; [apply finish_total|].
  - apply at_main_inv; try done; [by right|]. intros t h _ Hx. unfold thread_exists in *. rewrite Em in Hx. by destruct t.
  - apply at_main_inv; try done; [by right|]. intros t h Hh Hx. unfold thread_exists in *. rewrite Em in Hx.
    destruct t; try done. by destruct (Hj1 h).
  - apply destroy_inv; try done; [|by left]. unfold handlers_installed. by rewrite Em.
  - apply destroy_inv; try done; [|by right]. unfold handlers_installed. by rewrite Em.
  - apply at_main_inv; try done; [by right|]. intros t h Hh Hx. unfold thread_exists in *. rewrite Em in Hx.
    destruct t; try done. by destruct (Hj1 h).
Qed.

Lemma input_turn_wp line s : sound false s → event_ok (Typed line) →
  wp (input_turn line) (λ _, sound false) (λ _, sound false) s.
Proof.
  intros Hs He. unfold input_turn. apply wp_bind, wp_emit. destruct line as [line|]; [|done].
  eapply wp_mono; [by apply input_line_wp|by intros ? ? [? _]|by intros e s' [_ ->]].
Qed.

Lemma input_step_inv line p : process_inv p → undisturbed p MainThread → main_ p = Conversing →
  event_ok (Typed line) → process_inv (input_step line p).
Proof.
  intros Hinv Hm Em He. pose proof Hinv as [Hs Hg Ha Hr _ _ _ Hu]. rewrite Em in *.
  pose proof (input_turn_wp line (vm p) Hs He) as Hwp. unfold input_step, wp in *.
  assert (∀ pc t, thread_exists p t = true → pc = Conversing ∨ pc = Finish ∨ pc = Thrown →
    ∀ s, thread_exists (at_main p (g_client_vm p) (alive p) pc s) t = true) as Ht.
  { intros pc t Hx Hpc s. unfold thread_exists in *. rewrite Em in Hx. destruct Hpc as [->|[->| ->]]; by destruct t. }
  destruct (input_turn line (vm p)) as [s [[]|e|]]; [..|done];
    (apply at_main_inv; try done; [by right|intros t h _ Hx; apply Ht; auto]).
Qed.

Lemma receive_step_inv rx p : process_inv p → undisturbed p Receiver → receiving p = true →
  ModbusMessageTransport.rx_ok rx → process_inv (receive_step rx p).
Proof.
  intros [Hs Hg Ha Hr Hi Ht Hm Hu] Hd Hrec Hrx. specialize (Hr Hrec).
  assert (sound false (vm p)) as Hs' by (destruct (main_ p); done).
  destruct (receive_turn_total rx Hrx (vm p) Hs') as [Hs1 [b Hb]]. unfold receive_step.
  destruct (receive_turn rx (vm p)) as [s r]. cbn in Hs1, Hb. subst r. split; try done; cbn.
  - by destruct (main_ p).
  - intros t h Hh. pose proof (Ht t h Hh) as Hx. unfold thread_exists in *. cbn.
    destruct t; try done. by destruct (Hd h).
Qed.

Lemma client_handler_step_inv i p p' : process_inv p → handler_step i p = Some p' → process_inv p'.
Proof.
  intros [Hs Hg Ha Hr Hi Ht Hm Hu]. unfold handler_step.
  destruct (handlers p !! i) as [[t h]|] eqn:Eh; [|done].
  pose proof (list_elem_of_lookup_2 _ _ _ Eh) as Hin.
  assert (handlers_installed p = true) as Hins.
  { destruct (handlers_installed p); [done|]. rewrite Hi in Hin by done. by apply elem_of_nil in Hin. }
  assert (∀ x, x ∈ delete i (handlers p) → x ∈ handlers p) as Hdel by (intros x; apply list_elem_of_delete_inv).
  assert (∀ hs s ub, process_inv (at_handlers p hs s ub) ↔ stage_ok (main_ p) s ∧
    (∀ x, x ∈ hs → thread_exists p x.1 = true) ∧
    (cleared (main_ p) = true → (MainThread, HandlerCall) ∉ hs) ∧ (early (main_ p) = true → ub = false)) as Hinv.
  { intros hs s ub. split.
    - intros [? ? ? ? ? Ht' ? ?]. split_and!; try done. intros [t' h'] Hx. exact (Ht' t' h' Hx).
    - intros (? & Ht' & ? & ?). split; try done; [|by intros t' h' Hx; apply (Ht' _ Hx)].
      unfold handlers_installed in *. cbn. congruence. }
  destruct h.
  - intros [= <-]. apply Hinv. destruct (g_client_vm p) eqn:Eg; split_and!; try done.
    + intros x [->|Hx]%elem_of_insert_inv; [by apply (Ht t HandlerTest)|destruct x; by eapply Ht].
    + by destruct (main_ p).
    + intros [t' h'] Hx%Hdel. by eapply Ht.
    + intros Hc Hx%Hdel. by apply Hm.
  - destruct (g_client_vm p && alive p) eqn:Ev; intros [= <-]; apply Hinv; split_and!; try done.
    + by apply stage_signal.
    + intros [t' h'] Hx%Hdel. by eapply Ht.
    + intros Hc Hx%Hdel. by apply Hm.
    + intros [t' h'] Hx%Hdel. by eapply Ht.
    + intros Hc Hx%Hdel. by apply Hm.
    + intros He. rewrite Hg, Ha in Ev. unfold handlers_installed in Hins. by destruct (main_ p).
Qed.

Lemma signal_inv t p : process_inv p → handlers_installed p = true → thread_exists p t = true →
  process_inv (at_handlers p (handlers p ++ [(t, HandlerTest)]) (vm p) (undefined p)).
Proof.
  intros [Hs Hg Ha Hr Hi Ht Hm Hu] Hins Hx. split; try done; cbn.
  - intros E. unfold handlers_installed in *. cbn in E. congruence.
  - intros t' h' [Hh|Hh]%elem_of_app; [by eapply Ht|]. apply list_elem_of_singleton in Hh. by simplify_eq.
  - intros Hc [Hh|Hh]%elem_of_app; [by apply Hm|]. by apply list_elem_of_singleton in Hh.
Qed.

Lemma step_keeps p p' : step p p' → process_inv p → process_inv p'.
Proof.
  intros [l c rx late p0 p1 Hm Hj Hc Hrx Hl Hs|line p0 Hm Em _ He|rx p0 Hd Hr Hrx|t p0 Hi Ht|i p0 p1 Hs] Hinv.
  - by eapply client_main_step_inv.
  - by apply input_step_inv.
  - by apply receive_step_inv.
  - by apply signal_inv.
  - by eapply client_handler_step_inv.
Qed.

Lemma client_begin_inv c files sends es ws : process_inv (begin (initial c files sends es ws)).
Proof.
  split; try done. by intros t h ?%elem_of_nil.
Qed.

Lemma process_reachable c files sends es ws p : rtc step (begin (initial c files sends es ws)) p → process_inv p.
Proof.
  intros Hsteps. pose proof (client_begin_inv c files sends es ws) as Hi. induction Hsteps; eauto using step_keeps.
Qed.

(** C10. Signals while the client runs.  Whenever signals come, on whatever threads,
    during the start-up or later, until [main] has cleared [g_client_vm] or an
    exception has destroyed the view model every call through the pointer meets
    the view model and there is no undefined behaviour; once the identity is loaded
    the key store is well-formed and the mutex free after every step; and when the
    view model has been destroyed it is not running and its session holds no
    descriptor. *)
Theorem client_signals_safe c files sends es ws p : rtc step (begin (initial c files sends es ws)) p →
  (early (main_ p) = true → undefined p = false ∧ ∀ t, (t, HandlerCall) ∈ handlers p → g_client_vm p && alive p = true) ∧
  stage_ok (main_ p) (vm p) ∧
  (main_ p = Ended ∨ main_ p = Caught → ∀ t h, (t, h) ∈ handlers p → t = MainThread ∧ h = HandlerTest).
Proof.
  intros Hsteps. destruct (process_reachable _ _ _ _ _ _ Hsteps) as [Hs Hg Ha Hr Hi Ht Hm Hu]. split_and!; [|done|].
  - intros He. split; [by apply Hu|]. intros t Hh. rewrite Hg, Ha.
    destruct (handlers_installed p) eqn:Ei; [|rewrite Hi in Hh by done; by apply elem_of_nil in Hh].
    unfold handlers_installed in Ei. by destruct (main_ p).
  - intros Hend t h Hh. pose proof (Ht t h Hh) as Hx. unfold thread_exists in Hx.
    assert (receiving p = false) as Er by (destruct (receiving p); [by destruct Hend as [E|E]; rewrite E in Hr; discriminate Hr|done]).
    destruct t; [split; [done|]|by destruct Hend as [E|E]; rewrite E in Hx..|congruence].
    destruct h; [done|]. exfalso. destruct Hend as [E|E]; rewrite E in Hm; by apply Hm.
Qed.

(** Cleared, and no handler between its test and its call. *)
Definition quiescent p : Prop :=
  process_inv p ∧ cleared (main_ p) = true ∧ undefined p = false ∧ ∀ t, (t, HandlerCall) ∉ handlers p.

Lemma client_quiescent_step p p' : step p p' → quiescent p → quiescent p'.
Proof.
  intros Hstep (Hinv & Hc & Hu & Hn). pose proof (step_keeps _ _ Hstep Hinv) as Hinv'. split; [done|].
  pose proof Hinv as [Hs Hg _ Hr _ _ _ _].
  destruct Hstep as [l c rx late p0 p1 Hm Hj Hcn Hrx Hl E|line p0 Hm Em _ He|rx p0 Hd Hrec Hrx|t p0 Hi Ht|i p0 p1 E].
  - unfold main_step in E. destruct (main_ p0) eqn:Em; try done; simplify_eq; try done.
    unfold destroy_step.
    pose proof (destroy_wp late (vm p0) (λ _ _, False) Hs ltac:(intros r' E'; by apply (Hl r'))) as Hd. unfold wp in Hd.
    destruct (destroy late (vm p0)) as [s [u|e|]]; [|done..]. cbn. by rewrite Hu.
  - by rewrite Em in Hc.
  - assert (sound false (vm p0)) as Hs' by (specialize (Hr Hrec); by destruct (main_ p0)).
    destruct (receive_turn_total rx Hrx (vm p0) Hs') as [_ [b Hb]]. unfold receive_step.
    destruct (receive_turn rx (vm p0)) as [s r]. cbn in Hb. by subst r.
  - split_and!; [done..|]. intros t' [Hh|Hh]%elem_of_app; [by eapply Hn|]. by apply list_elem_of_singleton in Hh.
  - unfold handler_step in E. assert (g_client_vm p0 = false) as Eg by (rewrite Hg; by destruct (main_ p0)).
    rewrite Eg in E. destruct (handlers p0 !! i) as [[t []]|] eqn:Eh; [| |done].
    + simplify_eq. split_and!; [done..|]. intros t' Hh%list_elem_of_delete_inv. by eapply Hn.
    + by destruct (Hn t); eapply list_elem_of_lookup_2.
Qed.

(** C27. Signals at the end of the client.  When [run] has returned and [main] has
    cleared [g_client_vm], the process can still have undefined behaviour exactly if
    a handler is between its test and its call, and then it is on another thread;
    and when an exception has left [run] and the view model has been destroyed, any
    signal before the [catch] clears the pointer leads to undefined behaviour. *)
Theorem late_signal_undefined c files sends es ws p : rtc step (begin (initial c files sends es ws)) p →
  undefined p = false →
  (cleared (main_ p) = true →
     ((∃ p', rtc step p p' ∧ undefined p' = true) ↔ ∃ t, (t, HandlerCall) ∈ handlers p ∧ t ≠ MainThread)) ∧
  (main_ p = Catch → ∃ p', rtc step p p' ∧ undefined p' = true).
Proof.
  intros Hsteps Hu. pose proof (process_reachable _ _ _ _ _ _ Hsteps) as Hinv.
  pose proof Hinv as [_ Hg Ha _ _ _ Hm _]. split; [intros Hc; split|].
  - intros (p' & Hsteps' & Hu').
    destruct (decide (Exists (λ x, x.2 = HandlerCall) (handlers p))) as [[[t h] [Hin Hh]]%Exists_exists|Hno].
    { cbn in Hh. subst h. exists t. split; [done|]. intros ->. by apply Hm. }
    assert (quiescent p) as Hq.
    { split_and!; [done..|]. intros t Hin. apply Hno, Exists_exists. by eexists. }
    exfalso. clear -Hq Hsteps' Hu' CL. induction Hsteps' as [p|p1 p2 p3 Hs _ IH];
      [by destruct Hq as (_ & _ & ? & _); congruence|by apply IH; eauto using client_quiescent_step].
  - intros (t & Hin & _). apply list_elem_of_lookup in Hin as [i Hi].
    exists (at_handlers p (delete i (handlers p)) (vm p) true). split; [|done]. apply rtc_once, (step_handler i).
    unfold handler_step. rewrite Hi, Hg. by destruct (main_ p).
  - intros Em. rewrite Em in Hg, Ha. set (n := length (handlers p)).
    set (p1 := at_handlers p (handlers p ++ [(MainThread, HandlerTest)]) (vm p) (undefined p)).
    set (p2 := at_handlers p (handlers p ++ [(MainThread, HandlerCall)]) (vm p) (undefined p)).
    exists (at_handlers p2 (delete n (handlers p2)) (vm p) true). split; [|done].
    apply (rtc_l _ _ p1); [apply step_signal; [unfold handlers_installed; by rewrite Em|done]|].
    apply (rtc_l _ _ p2); [apply (step_handler n)|apply rtc_once, (step_handler n)].
    + unfold handler_step. cbn. rewrite lookup_app_r, Nat.sub_diag by done. cbn. rewrite Hg.
      unfold p1, p2, at_handlers. cbn. rewrite insert_app_r_alt, Nat.sub_diag by done. done.
    + unfold handler_step. cbn. rewrite lookup_app_r, Nat.sub_diag by done. cbn. by rewrite Hg, Ha.
Qed.

End facts.

(** ** The theorems applied *)

Section examples.
#[local] Existing Instances toy.library toy.library_laws.

(** The server cannot be reached. *)
Definition refused : outcome Z := Throw (runtime_error (str "connect() failed")).

Definition demo_begin : process := begin (initial demo_config ∅ [] [] []).

(** [n] statements of [main]. *)
Fixpoint drive (n : nat) (p : process) : process :=
  match n with
  | O => p
  | S n => default p (drive n <$> main_step true refused (Ok None) None p)
  end.

Lemma drive_steps n p : handlers p = [] → rtc step p (drive n p).
Proof.
  revert p. induction n as [|n IH]; intros p Hh; [done|]. cbn [drive].
  destruct (main_step true refused (Ok None) None p) as [p'|] eqn:E; [|done]. cbn.
  apply (rtc_l _ _ p').
  - apply (step_main true refused (Ok None) None); try done.
    + intros h. rewrite Hh. by apply not_elem_of_nil.
    + apply Forall_forall. intros t _ h. rewrite Hh. by apply not_elem_of_nil.
  - apply IH. unfold main_step, statement, destroy_step in E. rewrite <-Hh.
    destruct (main_ p); simplify_eq; try done; by repeat case_match; simplify_eq.
Qed.

(** A signal comes while the client connects, on the thread of the output queue. *)
Definition demo_signal : process :=
  at_handlers (drive 4 demo_begin) [(Dispatcher, HandlerTest)] (vm (drive 4 demo_begin)) false.
Definition demo_call : process := default demo_signal (handler_step 0 demo_signal).

Lemma demo_call_steps : rtc step demo_begin demo_call.
Proof.
  etransitivity; [by apply (drive_steps 4)|].
  apply (rtc_l _ _ demo_signal); [|apply rtc_once, (step_handler 0); by vm_compute].
  by apply (step_signal Dispatcher (drive 4 demo_begin)).
Qed.

Lemma client_signals_safe_witness : undefined demo_call = false ∧ sound false (vm demo_call) ∧
  (Dispatcher, HandlerCall) ∈ handlers demo_call ∧ g_client_vm demo_call && alive demo_call = true.
Proof.
  destruct (client_signals_safe demo_config ∅ [] [] [] demo_call) as (Hsafe & Hstage & _).
  - exact demo_call_steps.
  - destruct Hsafe as [Hu Hcall]; [vm_compute; reflexivity|].
    assert ((Dispatcher, HandlerCall) ∈ handlers demo_call) as Hin
      by (apply (bool_decide_unpack _); vm_compute; exact I).
    split_and!; [exact Hu|exact Hstage|exact Hin|exact (Hcall Dispatcher Hin)].
Defined.

(** The exception of the failed connection has destroyed the view model. *)
Definition demo_unwound : process := drive 6 demo_begin.

Lemma late_signal_undefined_witness : ∃ p', rtc step demo_unwound p' ∧ undefined p' = true.
Proof.
  destruct (late_signal_undefined demo_config ∅ [] [] [] demo_unwound) as [_ Hcatch].
  - apply drive_steps. reflexivity.
  - vm_compute. reflexivity.
  - apply Hcatch. vm_compute. reflexivity.
Defined.

End examples.

End client_signals.
