(* ===== verification/ClientThreads.v ===== *)
(** * The client's two threads: client/viewmodel/ClientViewModel.cpp

    The operations that the input loop and the receive loop call, once more, as
    programs of atomic actions: taking and releasing [crypto_mutex_], each access
    to a member, each [send], each call of the view or of the logger.  The two
    loops, and the handlers of signals that may come up at any time, are threads of
    one pool.  [exit_announced_] is set by [compare_exchange_strong], which is one
    action.  A [send] is one action here; SharedSocket looks inside.

    Run without interruption each operation is the one of ClientViewModel:
    [threads_agree]. *)
From S2P Require Import Prelude.
From S2P Require Import ModbusTcp.
From S2P Require Import Protocol.
From S2P Require Import CppString.
From S2P Require Import AdminCommandParser.
From S2P Require Import Config.
From S2P Require Import PeerKeyStore.
From S2P Require Import Cipher.
From S2P Require Import ClientCommands.
From S2P Require Import Interleaving.
From S2P Require Import ClientViewModel.

Module client_threads.
Import protocol crypto cipher client_viewmodel client threads.

#[global] Instance crypto_mutex : Mutex client := {
  mutex_held := crypto_mutex_;
  set_mutex b s := with_mutex s b
}.

Section threads.
Context `{IMessageCipher}.
Abbreviation P := (proc client).

(** ** Actions *)

Definition read_ {A} (f : client → A) : P A := act (get_ f).
Definition write_ (f : client → client) : P unit := act (modify_ f).
Definition emit_ (e : effect) : P unit := act (emit e).
Definition show_ (call : output) : P unit := emit_ (Show call).
Definition send_ (type : MsgType) (payload : bytes) : P bool := act (send type payload).
Definition draw_ : P entropy := act draw.
Definition store_ {A} (m : SM PeerKeyStore A) : P A := act (on_store m).

Definition error_ (brief detail : bytes) : P unit :=
  _ ← emit_ (LogError (with_detail brief detail));
  show_ (show_error brief).

Definition info_ (brief detail : bytes) : P unit :=
  _ ← emit_ (LogInfo (with_detail brief detail));
  show_ (show_notice brief).

(** ** Shutting down *)

Definition request_shutdown_ (unblock_stdin : bool) : P unit :=
  _ ← write_ (λ s, with_flags s false (exit_announced_ s));
  fd ← read_ socket_fd_;
  _ ← (if 0 <=? fd then emit_ (ShutdownFd fd) else nop);
  if unblock_stdin then emit_ CloseStdin else nop.

(** [exit_announced_.compare_exchange_strong(expected, true)] where [expected] is
    [false]: whether it has exchanged. *)
Definition claim_exit : SM client bool := λ s,
  if exit_announced_ s then (s, Ok false) else (with_flags s (running_ s) true, Ok true).

Definition announce_exit_ (server_lost : bool) : P unit :=
  claimed ← act claim_exit;
  if negb claimed then nop else
  if server_lost then show_ show_server_disconnected else show_ show_exiting.

(** ** Keys *)

(** The critical section of [send_key_offer]. *)
Definition take_offer (peer_id : Z) : P (option bytes) :=
  guarded (
    offered ← read_ key_offered_to_;
    if decide (peer_id ∈ offered) then mret None else
    _ ← write_ (λ s, with_offered s ({[peer_id]} ∪ key_offered_to_ s));
    store ← read_ key_store_;
    mret (Some (bytes_as_string (identity_public_ store)))).

Definition send_key_offer_ (peer_id : Z) : P unit :=
  my_id ← read_ my_id_;
  if (peer_id =? 0) || (peer_id =? my_id) then nop else
  body ← take_offer peer_id;
  match body with
  | None => nop
  | Some body =>
      payload ← pure (build_key_offer my_id peer_id body);
      ok ← send_ KeyOffer payload;
      if negb ok then
        guarded (
          _ ← write_ (λ s, with_offered s (key_offered_to_ s ∖ {[peer_id]}));
          error_ (str "Send failed") (str "KeyOffer to id=" ++ std.to_string peer_id))
      else info_ (str "Sent KeyOffer") (str "peer_id=" ++ std.to_string peer_id)
  end.

(** [try { draw, encrypt } catch { report }], the inner part of three operations. *)
Definition encrypt_ (f : entropy → outcome bytes) (report : exn → P unit) : P (option bytes) :=
  catch
    (e ← draw_;
     sealed ← pure (f e);
     mret (Some (bytes_as_string sealed)))
    (λ ex, _ ← report ex; mret None).

Definition maybe_send_room_key_ (peer_id : Z) : P unit :=
  body ← guarded (
    store ← read_ key_store_;
    match room_key_ store, peer_public store peer_id with
    | None, _ => mret None
    | Some _, None => mret None
    | Some room_key, Some peer_pk =>
        encrypt_ (λ e, seal_room_key e (identity_secret_ store) peer_pk room_key)
          (λ ex, error_ (str "Failed to seal room key")
                   (str "peer_id=" ++ std.to_string peer_id ++ str " err=" ++ what ex))
    end);
  match body with
  | None => nop
  | Some body =>
      my_id ← read_ my_id_;
      payload ← pure (build_room_key_offer my_id peer_id body);
      ok ← send_ RoomKeyOffer payload;
      if negb ok
      then error_ (str "Send failed") (str "RoomKeyOffer to id=" ++ std.to_string peer_id)
      else info_ (str "Sent RoomKeyOffer") (str "peer_id=" ++ std.to_string peer_id)
  end.

(** ** Chat *)

Definition send_encrypted_chat_by_id_ (recipient_id : Z) (plaintext : bytes) : P unit :=
  body ← guarded (
    store ← read_ key_store_;
    match peer_public store recipient_id with
    | None =>
        _ ← error_ (str "No key for peer")
              (str "id=" ++ std.to_string recipient_id ++ str " hint=/key " ++
               std.to_string recipient_id);
        mret None
    | Some peer_pk =>
        encrypt_ (λ e, encrypt_for_peer e (identity_secret_ store) peer_pk plaintext)
          (λ ex, error_ (str "Encrypt failed")
                   (str "id=" ++ std.to_string recipient_id ++ str " err=" ++ what ex))
    end);
  match body with
  | None => nop
  | Some cipher_body =>
      my_id ← read_ my_id_;
      payload ← pure (build_chat_by_id my_id recipient_id cipher_body);
      ok ← send_ Chat payload;
      if negb ok
      then error_ (str "Send failed") (str "Chat to id=" ++ std.to_string recipient_id)
      else nop
  end.

Definition send_encrypted_chat_by_nickname_ (nickname plaintext : bytes) : P unit :=
  recipient ← guarded (
    ids ← read_ id_by_nickname_;
    match ids !! nickname with
    | None =>
        _ ← error_ (str "Unknown nickname") (str "nickname=" ++ nickname ++ str " hint=/users");
        mret None
    | Some id => mret (Some id)
    end);
  match recipient with
  | None => nop
  | Some recipient_id => send_encrypted_chat_by_id_ recipient_id plaintext
  end.

Definition send_encrypted_broadcast_ (plaintext : bytes) : P unit :=
  body ← guarded (
    store ← read_ key_store_;
    match room_key_ store with
    | None =>
        _ ← error_ (str "No room key yet") (str "wait for RoomKeyOffer or be first client");
        mret None
    | Some room_key =>
        encrypt_ (λ e, encrypt_with_room_key e room_key plaintext)
          (λ ex, error_ (str "Encrypt broadcast failed") (what ex))
    end);
  match body with
  | None => nop
  | Some cipher_body =>
      my_id ← read_ my_id_;
      payload ← pure (build_chat_broadcast my_id cipher_body);
      ok ← send_ Chat payload;
      if negb ok then error_ (str "Send failed") (str "Chat broadcast") else nop
  end.

(** The text, or what the exception says. *)
Definition attempt_ (m : outcome bytes) : P (bytes + bytes) :=
  catch (text ← pure m; mret (inl text)) (λ ex, mret (inr (what ex))).

Definition decrypt_deliver_ (from_id : Z) (body : bytes) : P (option bytes) :=
  guarded (
    let cipher_bytes := string_as_bytes body in
    store ← read_ key_store_;
    by_peer ← match peer_public store from_id with
              | Some peer_pk => attempt_ (decrypt_from_peer (identity_secret_ store) peer_pk cipher_bytes)
              | None => mret (inr (str "no peer key"))
              end;
    match by_peer with
    | inl text => mret (Some text)
    | inr peer_err =>
        by_room ← match room_key_ store with
                  | Some room_key => attempt_ (decrypt_with_room_key room_key cipher_bytes)
                  | None => mret (inr (str "no room key"))
                  end;
        match by_room with
        | inl text => mret (Some text)
        | inr room_err =>
            _ ← emit_ (LogError (str "decrypt failed from_id=" ++ std.to_string from_id ++
                                 str " peer=[" ++ peer_err ++ str "] room=[" ++ room_err ++ str "]"));
            mret None
        end
    end).

(** ** What the user types *)

Definition handle_input_command_ (command : InputCommand) : P unit :=
  match cmd_type command with
  | ListUsersCmd =>
      ok ← send_ ListUsers build_list_users;
      if negb ok then error_ (str "Send failed") (str "ListUsers") else nop
  | ExitCmd => write_ (λ s, with_flags s false (exit_announced_ s))
  | KeyOfferCmd => send_key_offer_ (recipient_id command)
  | ChatById => send_encrypted_chat_by_id_ (recipient_id command) (cmd_text command)
  | ChatByNickname => send_encrypted_chat_by_nickname_ (recipient_nickname command) (cmd_text command)
  | ChatBroadcast => send_encrypted_broadcast_ (cmd_text command)
  | Invalid => error_ (str "Invalid format") (str "use recipient:text or /users /key /exit")
  end.

(** A turn of [input_loop] from where [read_line] has returned. *)
Definition input_line_ (line : option bytes) : P bool :=
  match line with
  | None => mret false
  | Some [] => read_ running_
  | Some line =>
      my_id ← read_ my_id_;
      command ← pure (parse_input_line line my_id);
      _ ← handle_input_command_ command;
      read_ running_
  end.

(** [input_loop] after [running_] was found true, for the lines that are typed:
    whether it is left; otherwise it waits in [read_line]. *)
Fixpoint input_loop (lines : list (option bytes)) : P bool :=
  _ ← show_ show_input_prompt;
  match lines with
  | [] => mret false
  | line :: lines =>
      go_on ← input_line_ line;
      if go_on : bool then input_loop lines else mret true
  end.

(** The main thread, from the start of the receiver to the end of [run]. *)
Definition main_thread (lines : list (option bytes)) : P unit :=
  running ← read_ running_;
  left_loop ← (if running : bool then input_loop lines else mret true);
  if negb left_loop then nop else
  _ ← announce_exit_ false;
  request_shutdown_ false.

(** ** What the server sends *)

(** IncomingMessagePresenter::present *)
Definition present_ (message : AppMessage) : P unit :=
  let payload := msg_payload message in
  match msg_type message with
  | Deliver =>
      deliver ← pure (get_alternative (as_deliver payload));
      show_ (show_delivered (deliver_from_id deliver) (deliver_text deliver))
  | UserJoined =>
      joined ← pure (get_alternative (as_user_joined payload));
      show_ (show_user_joined (joined_id joined) (joined_nickname joined))
  | UserLeft =>
      left ← pure (get_alternative (as_user_left payload));
      show_ (show_user_left (left_id left) (left_nickname left))
  | UsersList =>
      list ← pure (get_alternative (as_users_list payload));
      show_ (show_users_list (list_users list))
  | Error =>
      error ← pure (get_alternative (as_error payload));
      show_ (show_error (error_text error))
  | _ => nop
  end.

Definition handle_incoming_ (message : AppMessage) : P unit :=
  let payload := msg_payload message in
  match msg_type message with
  | Deliver =>
      deliver ← pure (get_alternative (as_deliver payload));
      plain ← decrypt_deliver_ (deliver_from_id deliver) (deliver_text deliver);
      match plain with
      | None => error_ (str "Decrypt failed")
                  (str "from_id=" ++ std.to_string (deliver_from_id deliver))
      | Some plain => show_ (show_delivered (deliver_from_id deliver) plain)
      end
  | PeerKey =>
      deliver ← pure (get_alternative (as_deliver payload));
      let from := deliver_from_id deliver in
      catch
        (let pk := string_as_bytes (deliver_text deliver) in
         _ ← guarded (store_ (set_peer_public from pk));
         _ ← info_ (str "Received pubkey") (str "from_id=" ++ std.to_string from);
         _ ← send_key_offer_ from;
         maybe_send_room_key_ from)
        (λ ex, error_ (str "Invalid PeerKey")
                 (str "from_id=" ++ std.to_string from ++ str " err=" ++ what ex))
  | RoomKey =>
      deliver ← pure (get_alternative (as_deliver payload));
      let from := deliver_from_id deliver in
      catch
        (guarded (
          store ← read_ key_store_;
          match peer_public store from with
          | None => error_ (str "RoomKey from unknown peer") (str "from_id=" ++ std.to_string from)
          | Some peer_pk =>
              room ← pure (open_room_key (identity_secret_ store) peer_pk
                             (string_as_bytes (deliver_text deliver)));
              _ ← store_ (set_room_key room);
              info_ (str "Received room key") (str "from_id=" ++ std.to_string from)
          end))
        (λ ex, error_ (str "Failed to open room key") (what ex))
  | BannedIds =>
      banned ← pure (get_alternative (as_banned_ids payload));
      _ ← guarded (store_ (erase_peers (banned_ids banned)));
      info_ (str "Admin banned ids") (server_admin.join_ids (banned_ids banned))
  | UserJoined =>
      joined ← pure (get_alternative (as_user_joined payload));
      _ ← guarded (write_ (remember (joined_id joined) (joined_nickname joined)));
      _ ← present_ message;
      my_id ← read_ my_id_;
      if negb (joined_id joined =? my_id) then send_key_offer_ (joined_id joined) else nop
  | UserLeft =>
      left ← pure (get_alternative (as_user_left payload));
      _ ← guarded (write_ (λ s, with_names s
            (if decide (left_nickname left = []) then id_by_nickname_ s
             else delete (left_nickname left) (id_by_nickname_ s))
            (delete (left_id left) (nickname_by_id_ s))));
      present_ message
  | UsersList =>
      list ← pure (get_alternative (as_users_list payload));
      _ ← guarded (each (list_users list) (λ user,
            write_ (remember (user_id user) (user_nickname user))));
      present_ message
  | _ => present_ message
  end.

(** A turn of [receive_loop]: whether the loop goes on. *)
Definition receive_turn_ (rx : outcome (option AppMessage)) : P bool :=
  stop ← catch
    (message ← pure rx;
     match message with
     | None =>
         _ ← announce_exit_ true;
         _ ← request_shutdown_ true;
         mret true
     | Some message =>
         _ ← handle_incoming_ message;
         mret false
     end)
    (λ ex, _ ← error_ (str "Decode failed") (what ex); mret false);
  if stop : bool then mret false else read_ running_.

(** [receive_loop] after [running_] was found true, for what [receive] gives. *)
Fixpoint receive_loop (rxs : list (outcome (option AppMessage))) : P unit :=
  match rxs with
  | [] => nop
  | rx :: rxs =>
      go_on ← receive_turn_ rx;
      if go_on : bool then receive_loop rxs else nop
  end.

(** The receiver thread. *)
Definition receiver_thread (rxs : list (outcome (option AppMessage))) : P unit :=
  running ← read_ running_;
  if running : bool then receive_loop rxs else nop.

(** [on_client_signal]: a signal may come at any time. *)
Definition signal_handler : P unit := request_shutdown_ true.

End threads.

(** ** Run alone, the operations are those of ClientViewModel *)

Section agree.
Context `{IMessageCipher}.

Lemma agree_bind {A B} (p : proc client A) (m : SM client A) (f : A → proc client B) g s :
  alone p s = m s → (∀ a s', alone (f a) s' = g a s') → alone (mbind f p) s = mbind g m s.
Proof. intros Hp Hf. rewrite (alone_bind _ _ g) by done. unfold mbind, SM_bind. by rewrite Hp. Qed.

Lemma agree_catch {A} (p : proc client A) (m : SM client A) h h' s :
  alone p s = m s → (∀ e s', alone (h e) s' = h' e s') → alone (catch p h) s = try_catch m h' s.
Proof. intros Hp Hh. rewrite (alone_catch _ _ h') by done. unfold try_catch. by rewrite Hp. Qed.

Lemma agree_guarded {A} (p : proc client A) (m : SM client A) s :
  lock_free p → (∀ s', alone p s' = m s') → alone (guarded p) s = locked m s.
Proof. intros Hl Hp. rewrite alone_guarded by done. unfold locked. cbn. by rewrite Hp. Qed.

Lemma agree_act {A} (m : SM client A) s : alone (act m) s = m s.
Proof. cbn. by destruct (m s). Qed.

(** Bodies of critical sections have no critical sections. *)
Ltac lock_free :=
  repeat first
    [ apply lock_free_act | exact I
    | apply lock_free_bind; [|intros ?]
    | apply lock_free_catch; [|intros ?]
    | apply lock_free_each; intros ?
    | match goal with |- lock_free (match ?x with _ => _ end) => destruct x end
    | match goal with |- lock_free (if ?x then _ else _) => destruct x end ].

(** Goes through the two programs side by side. *)
Ltac agree :=
  repeat first
    [ reflexivity
    | apply agree_act
    | match goal with Ha : ∀ _, _ |- _ => apply Ha end
    | apply agree_bind; [|intros ? ?]
    | apply agree_catch; [|intros ? ?]
    | apply agree_guarded; [lock_free|intros ?]
    | apply alone_each; intros ? ?
    | match goal with |- alone (match ?x with _ => _ end) _ = _ => destruct x end
    | match goal with |- alone (if ?x then _ else _) _ = _ => destruct x end ].

Lemma agree_error b d s : alone (error_ b d) s = report_error b d s.
Proof. unfold error_, report_error. agree. Qed.
Lemma agree_info b d s : alone (info_ b d) s = report_info b d s.
Proof. unfold info_, report_info. agree. Qed.

Lemma agree_shutdown b s : alone (request_shutdown_ b) s = request_shutdown b s.
Proof. unfold request_shutdown_, request_shutdown, when. agree. Qed.

Lemma agree_announce b s : alone (announce_exit_ b) s = announce_exit b s.
Proof.
  unfold announce_exit_, announce_exit. cbn. unfold claim_exit, mbind, SM_bind. cbn.
  by destruct (exit_announced_ s), b.
Qed.

Lemma agree_encrypt f report report' s : (∀ ex s', alone (report ex) s' = report' ex s') →
  alone (encrypt_ f report) s =
  try_catch (e ← draw; sealed ← lift (f e); mret (Some (bytes_as_string sealed)))
    (λ ex, _ ← report' ex; mret None) s.
Proof. intros Hr. unfold encrypt_. agree. Qed.

Lemma agree_key_offer id s : alone (send_key_offer_ id) s = send_key_offer id s.
Proof.
  pose proof agree_error. pose proof agree_info.
  unfold send_key_offer_, send_key_offer, take_offer, read_, write_. agree.
Qed.

Lemma agree_room_key id s : alone (maybe_send_room_key_ id) s = maybe_send_room_key id s.
Proof.
  pose proof agree_error. pose proof agree_info.
  unfold maybe_send_room_key_, maybe_send_room_key, encrypt_. agree.
Qed.

Lemma agree_chat_by_id id text s :
  alone (send_encrypted_chat_by_id_ id text) s = send_encrypted_chat_by_id id text s.
Proof.
  pose proof agree_error. unfold send_encrypted_chat_by_id_, send_encrypted_chat_by_id, encrypt_. agree.
Qed.

Lemma agree_chat_by_nickname n text s :
  alone (send_encrypted_chat_by_nickname_ n text) s = send_encrypted_chat_by_nickname n text s.
Proof.
  pose proof agree_error. pose proof agree_chat_by_id.
  unfold send_encrypted_chat_by_nickname_, send_encrypted_chat_by_nickname. agree.
Qed.

Lemma agree_broadcast text s : alone (send_encrypted_broadcast_ text) s = send_encrypted_broadcast text s.
Proof.
  pose proof agree_error. unfold send_encrypted_broadcast_, send_encrypted_broadcast, encrypt_. agree.
Qed.

Lemma agree_decrypt id body s : alone (decrypt_deliver_ id body) s = decrypt_deliver id body s.
Proof. unfold decrypt_deliver_, decrypt_deliver, attempt_, attempt. agree. Qed.

Lemma agree_input_command c s : alone (handle_input_command_ c) s = handle_input_command c s.
Proof.
  pose proof agree_error. pose proof agree_key_offer. pose proof agree_chat_by_id.
  pose proof agree_chat_by_nickname. pose proof agree_broadcast.
  unfold handle_input_command_, handle_input_command. agree.
Qed.

Lemma agree_present m s : alone (present_ m) s = present m s.
Proof. unfold present_, present. agree. Qed.

Lemma agree_incoming m s : alone (handle_incoming_ m) s = handle_incoming m s.
Proof.
  pose proof agree_error. pose proof agree_info. pose proof agree_key_offer. pose proof agree_room_key.
  pose proof agree_decrypt. pose proof agree_present.
  unfold handle_incoming_, handle_incoming, read_, write_, store_. agree.
Qed.


End agree.

End client_threads.
