(* ===== verification/ClientThreadFacts.v ===== *)
(** * The client's threads under every interleaving

    The invariants of ClientThreads, for the main thread, the receiver and any
    number of signal handlers, interleaved in any way: who holds [crypto_mutex_]
    and what it protects, which thread is about to offer the key to which peer,
    which one is about to announce the exit, and what has been sent.  [ghost] is
    what the proof keeps of a thread. *)
From S2P Require Import Prelude.
From S2P Require Import ModbusTcp.
From S2P Require Import Protocol.
From S2P Require Import Transport.
From S2P Require Import CppString.
From S2P Require Import Config.
From S2P Require Import PeerKeyStore.
From S2P Require Import Cipher.
From S2P Require Import ClientCommands.
From S2P Require Import Interleaving.
From S2P Require Import ClientViewModel.
From S2P Require Import ClientFacts.
From S2P Require Import ClientThreads.

Module client_thread_facts.
Import protocol crypto cipher client_viewmodel client client_facts threads client_threads.

(** What [crypto_mutex_] protects. *)
Definition protected (s : client) : PeerKeyStore * gmap bytes Z * gmap Z bytes * gset Z :=
  (key_store_ s, id_by_nickname_ s, nickname_by_id_ s, key_offered_to_ s).

(** A thread holds the mutex and knows the protected data; it has put a peer in
    [key_offered_to_] and has not offered the key yet; it has set
    [exit_announced_] and has not announced the exit yet. *)
Record ghost := mkGhost {
  gh_held : option (PeerKeyStore * gmap bytes Z * gmap Z bytes * gset Z);
  gh_offer : option Z;
  gh_announcing : bool
}.
Definition idle : ghost := mkGhost None None false.
Definition with_held (g : ghost) h : ghost := mkGhost h (gh_offer g) (gh_announcing g).
Definition with_offer (g : ghost) o : ghost := mkGhost (gh_held g) o (gh_announcing g).
Definition with_announcing (g : ghost) b : ghost := mkGhost (gh_held g) (gh_offer g) b.
Definition holding (g : ghost) : bool := bool_decide (is_Some (gh_held g)).

(** The payloads of the key offers that were sent, and the announcements of the
    exit, among the effects. *)
Definition offers (es : list effect) : list bytes :=
  omap (λ e, match e with Sent _ KeyOffer p true => Some p | _ => None end) es.
Definition is_exit (e : effect) : Prop := e = Show show_exiting ∨ e = Show show_server_disconnected.
#[global] Instance is_exit_dec e : Decision (is_exit e).
Proof.
  destruct e as [[]| | | | | |]; first [by left; left|by left; right|by right; intros [|]].
Defined.
Definition exits (es : list effect) : nat := length (filter is_exit es).

Section facts.
Context {C : IMessageCipher} {CL : CipherLaws}.
Implicit Types (s : client) (g : ghost).

(** The session, the identity and the lines that are typed; what had been done
    when the threads started. *)
Context (me fd : Z) (sk pk : bytes) (typed : list bytes) (out0 : list effect).

(** What may be sent: a request for the list of users, the own public key, a
    sealed room key, or the text of a typed line encrypted. *)
Definition may_send (type : MsgType) (p : bytes) : Prop :=
  match type with
  | ListUsers => p = []
  | KeyOffer => ∃ peer, p = to_id me peer pk
  | RoomKeyOffer => ∃ peer key room e c, seal_room_key e sk key room = Ok c ∧ p = to_id me peer c
  | Chat => ∃ line cmd, line ∈ typed ∧ parse_input_line line me = Ok cmd ∧
      ((∃ peer key e c, encrypt_for_peer e sk key (cmd_text cmd) = Ok c ∧ p = to_id me peer c) ∨
       (∃ room e c, encrypt_with_room_key e room (cmd_text cmd) = Ok c ∧ p = to_all me c))
  | _ => False
  end.

Definition allowed (e : effect) : Prop :=
  match e with Sent f type p _ => f = fd ∧ may_send type p | _ => True end.

(** Neither a key offer that succeeded nor the announcement of the exit. *)
Definition quiet (e : effect) : Prop := allowed e ∧ offers [e] = [] ∧ ¬ is_exit e.

(** ** States, and what an action may do *)

Record base s : Prop := {
  b_id : my_id_ s = me;
  b_fd : session_fd_ s = fd;
  b_store : store_ok (key_store_ s);
  b_secret : identity_secret_ (key_store_ s) = sk;
  b_public : identity_public_ (key_store_ s) = pk
}.

Definition view g s : Prop :=
  base s ∧ (∀ d, gh_held g = Some d → protected s = d) ∧
  (∀ p, gh_offer g = Some p → p ∈ key_offered_to_ s ∧ is_u32 p).

(** A change of [key_offered_to_] and the key offers sent with it. *)
Inductive offer_step (o : option Z) (offered : gset Z) : option Z → gset Z → list bytes → Prop :=
| offer_keep : offer_step o offered o offered []
| offer_take p : o = None → p ∉ offered → is_u32 p → offer_step o offered (Some p) ({[p]} ∪ offered) []
| offer_send p : o = Some p → offer_step o offered None offered [to_id me p pk]
| offer_drop p : o = Some p → offer_step o offered None (offered ∖ {[p]}) [].

Inductive exit_step (a announced : bool) : bool → bool → nat → Prop :=
| exit_keep : exit_step a announced a announced 0
| exit_claim : a = false → announced = false → exit_step a announced true true 0
| exit_say : a = true → exit_step a announced false announced 1.

Definition held_step g s g' s' : Prop :=
  match gh_held g, gh_held g' with
  | None, None => crypto_mutex_ s' = crypto_mutex_ s ∧ protected s' = protected s
  | None, Some d => crypto_mutex_ s = false ∧ crypto_mutex_ s' = true ∧ protected s' = d
  | Some _, Some d => crypto_mutex_ s' = crypto_mutex_ s ∧ protected s' = d
  | Some _, None => crypto_mutex_ s' = false
  end.

Record guar g s g' s' : Prop := {
  gu_base : base s';
  gu_held : held_step g s g' s';
  gu_out : ∃ es, out_ s' = out_ s ++ es ∧ Forall allowed es ∧
    offer_step (gh_offer g) (key_offered_to_ s) (gh_offer g') (key_offered_to_ s') (offers es) ∧
    exit_step (gh_announcing g) (exit_announced_ s) (gh_announcing g') (exit_announced_ s') (exits es)
}.

(** ** The invariant *)

Record held_inv s (gs : list ghost) : Prop := {
  hi_known i g d : gs !! i = Some g → gh_held g = Some d → crypto_mutex_ s = true ∧ protected s = d;
  hi_one i j g g' : gs !! i = Some g → gs !! j = Some g' → holding g = true → holding g' = true → i = j;
  hi_some : crypto_mutex_ s = true → ∃ i g, gs !! i = Some g ∧ holding g = true
}.

Record offer_inv (offered : gset Z) (ps : list bytes) (gs : list ghost) (served : list Z) : Prop := {
  oi_offers : ps = (λ p, to_id me p pk) <$> served;
  oi_once : NoDup served;
  oi_served p : p ∈ served → p ∈ offered ∧ is_u32 p;
  oi_token i g p : gs !! i = Some g → gh_offer g = Some p → p ∈ offered ∧ is_u32 p ∧ p ∉ served;
  oi_one i j g g' p : gs !! i = Some g → gs !! j = Some g' → gh_offer g = Some p → gh_offer g' = Some p → i = j
}.

Record exit_inv (announced : bool) (n : nat) (gs : list ghost) : Prop := {
  ei_most : (n ≤ 1)%nat;
  ei_said : n = 1%nat → announced = true ∧ ∀ i g, gs !! i = Some g → gh_announcing g = false;
  ei_claimed i g : gs !! i = Some g → gh_announcing g = true → announced = true;
  ei_one i j g g' : gs !! i = Some g → gs !! j = Some g' → gh_announcing g = true →
    gh_announcing g' = true → i = j
}.

Definition Inv s (gs : list ghost) : Prop :=
  base s ∧ held_inv s gs ∧
  ∃ es, out_ s = out0 ++ es ∧ Forall allowed es ∧ (∃ served, offer_inv (key_offered_to_ s) (offers es) gs served) ∧
    exit_inv (exit_announced_ s) (exits es) gs.

(** Looks up a pool in which one thread has changed. *)
Ltac lookups :=
  repeat match goal with
  | Hi : ?gs !! ?i = Some _, Hj : <[?i:=_]> ?gs !! ?j = Some _ |- _ =>
      destruct (decide (i = j)) as [<-|?];
      [rewrite list_lookup_insert_eq in Hj by (by eapply lookup_lt_Some)
      |rewrite list_lookup_insert_ne in Hj by done]
  end; simplify_eq.

Lemma holding_held g d : gh_held g = Some d → holding g = true.
Proof. intros E. unfold holding. rewrite E. by apply bool_decide_eq_true. Qed.
Lemma holding_iff g : holding g = true ↔ is_Some (gh_held g).
Proof. apply bool_decide_eq_true. Qed.

Lemma held_preserved s gs i g g' s' : held_inv s gs → gs !! i = Some g → held_step g s g' s' →
  held_inv s' (<[i:=g']> gs).
Proof.
  intros [Hk Ho Hs] Hi Hst. unfold held_step in Hst.
  assert (i < length gs)%nat as Hlt by by eapply lookup_lt_Some.
  destruct (gh_held g) as [d|] eqn:Eg.
  - destruct (Hk i g d Hi Eg) as [Hm Hd]. pose proof (holding_held _ _ Eg) as Hh.
    assert (∀ j gj, i ≠ j → gs !! j = Some gj → holding gj = false) as Hno.
    { intros j gj Hne Hj. destruct (holding gj) eqn:E; [|done]. destruct Hne. by eapply Ho. }
    destruct (gh_held g') as [d'|] eqn:Eg'; split.
    + intros j gj dj Hj Ej. lookups; [naive_solver congruence|]. specialize (Hno j gj ltac:(done) Hj).
      apply holding_held in Ej. congruence.
    + intros j j' gj gj' Hj Hj' Ej Ej'. lookups; try done; exfalso; naive_solver congruence.
    + intros _. exists i, g'. rewrite list_lookup_insert_eq by done. split; [done|by eapply holding_held].
    + intros j gj dj Hj Ej. lookups. specialize (Hno j gj ltac:(done) Hj). apply holding_held in Ej. congruence.
    + intros j j' gj gj' Hj Hj' Ej Ej'. lookups; try done; exfalso; naive_solver congruence.
    + congruence.
  - destruct (gh_held g') as [d'|] eqn:Eg'; split.
    + destruct Hst as (Hf & Ht & Hd). intros j gj dj Hj Ej. lookups; [done|].
      destruct (Hk j gj dj Hj Ej). congruence.
    + destruct Hst as (Hf & Ht & Hd). intros j j' gj gj' Hj Hj' Ej Ej'.
      assert (∀ k gk, gs !! k = Some gk → holding gk = false) as Hno.
      { intros k gk Hgk. destruct (holding gk) eqn:E; [|done]. apply holding_iff in E as [d E].
        destruct (Hk k gk d Hgk E). congruence. }
      lookups; try done; exfalso; naive_solver congruence.
    + intros _. exists i, g'. rewrite list_lookup_insert_eq by done. split; [done|by eapply holding_held].
    + destruct Hst as [-> ->]. intros j gj dj Hj Ej. lookups. by eapply Hk.
    + intros j j' gj gj' Hj Hj' Ej Ej'. apply holding_iff in Ej as Ej2, Ej' as Ej2'.
      lookups; [done|rewrite Eg' in *; by destruct Ej2|rewrite Eg' in *; by destruct Ej2'|by eapply Ho].
    + destruct Hst as [-> _]. intros Hm. destruct (Hs Hm) as (j & gj & Hj & Ej).
      assert (i ≠ j) by (intros <-; simplify_eq; apply holding_iff in Ej; rewrite Eg in Ej; by destruct Ej).
      exists j, gj. by rewrite list_lookup_insert_ne.
Qed.

Lemma offer_preserved offered ps gs served i g g' offered' new :
  offer_inv offered ps gs served → gs !! i = Some g →
  offer_step (gh_offer g) offered (gh_offer g') offered' new →
  ∃ served', offer_inv offered' (ps ++ new) (<[i:=g']> gs) served'.
Proof.
  intros [Hps Hnd Hserv Htok Hone] Hi Hst. remember (gh_offer g') as o' eqn:Eo'.
  destruct Hst as [|p Hnone Hp Hu|p Hp|p Hp].
  - exists served. rewrite app_nil_r. split; [done..| |].
    + intros j gj q Hj Hq. lookups; [|by eapply Htok]. eapply (Htok i); [done|congruence].
    + intros j j' gj gj' q Hj Hj' Hq Hq'. lookups; [done| | |by eapply Hone].
      * eapply (Hone j i gj g q); [done..|congruence].
      * eapply (Hone i j' g gj' q); [done..|congruence|done].
  - exists served. rewrite app_nil_r. split; [done|done| | |].
    + intros q Hq. destruct (Hserv q Hq). split; [by apply elem_of_union_r|done].
    + intros j gj q Hj Hq. lookups.
      * assert (q = p) as -> by congruence. split_and!; [by apply elem_of_union_l, elem_of_singleton|done|].
        intros Hin. by destruct (Hserv p Hin).
      * destruct (Htok j gj q Hj Hq) as (? & ? & ?). split_and!; [by apply elem_of_union_r|done..].
    + intros j j' gj gj' q Hj Hj' Hq Hq'. lookups; [done| | |by eapply Hone].
      * destruct (Htok j gj q Hj Hq). congruence.
      * destruct (Htok j' gj' q Hj' Hq'). congruence.
  - destruct (Htok i g p Hi Hp) as (Hin & Hu & Hns). exists (served ++ [p]). split.
    + by rewrite Hps, fmap_app.
    + apply NoDup_app. split_and!; [done| |apply NoDup_singleton].
      intros q Hq ->%list_elem_of_singleton. done.
    + intros q [Hq|Hq]%elem_of_app; [by apply Hserv|]. apply list_elem_of_singleton in Hq as ->. done.
    + intros j gj q Hj Hq. lookups; [congruence|]. destruct (Htok j gj q Hj Hq) as (? & ? & ?). split_and!; [done..|].
      intros [?|Hqp]%elem_of_app; [done|]. apply list_elem_of_singleton in Hqp as ->.
      by destruct (Hone i j g gj p Hi Hj Hp Hq).
    + intros j j' gj gj' q Hj Hj' Hq Hq'. lookups; try congruence. by eapply Hone.
  - destruct (Htok i g p Hi Hp) as (Hin & Hu & Hns). exists served. rewrite app_nil_r. split; [done|done| | |].
    + intros q Hq. destruct (Hserv q Hq). split; [|done]. apply elem_of_difference. split; [done|].
      intros ->%elem_of_singleton. done.
    + intros j gj q Hj Hq. lookups; [congruence|]. destruct (Htok j gj q Hj Hq) as (? & ? & ?). split_and!; [|done..].
      apply elem_of_difference. split; [done|]. intros ->%elem_of_singleton.
      by destruct (Hone i j g gj p Hi Hj Hp Hq).
    + intros j j' gj gj' q Hj Hj' Hq Hq'. lookups; try congruence. by eapply Hone.
Qed.

Lemma exit_preserved announced n gs i g g' announced' k :
  exit_inv announced n gs → gs !! i = Some g →
  exit_step (gh_announcing g) announced (gh_announcing g') announced' k →
  exit_inv announced' (n + k) (<[i:=g']> gs).
Proof.
  intros [Hm Hs Hc Ho] Hi Hst. remember (gh_announcing g') as a' eqn:Ea.
  destruct Hst as [|Ha Han|Ha].
  - rewrite Nat.add_0_r. split; [done|..].
    + intros Hn. destruct (Hs Hn) as [? Hno]. split; [done|]. intros j gj Hj. lookups; [|by eapply Hno].
      rewrite <-Ea. by eapply Hno.
    + intros j gj Hj Hg. lookups; [|by eapply Hc]. eapply Hc; [done|congruence].
    + intros j j' gj gj' Hj Hj' Hg Hg'. lookups; [done| | |by eapply Ho].
      * eapply (Ho j i); [done..|congruence].
      * eapply (Ho i j'); [done..|congruence|done].
  - rewrite Nat.add_0_r. assert (n = 0)%nat as ->.
    { destruct n as [|[|n]]; [done| |lia]. destruct (Hs eq_refl). congruence. }
    split; [lia|done|done|]. intros j j' gj gj' Hj Hj' Hg Hg'. lookups; [done| | |by eapply Ho].
    + specialize (Hc j gj Hj Hg). congruence.
    + specialize (Hc j' gj' Hj' Hg'). congruence.
  - assert (n = 0)%nat as ->.
    { destruct n as [|[|n]]; [done| |lia]. destruct (Hs eq_refl) as [_ Hno]. rewrite (Hno i g Hi) in Ha. done. }
    split; [lia|..].
    + intros _. split; [by eapply Hc|]. intros j gj Hj. lookups; [congruence|].
      destruct (gh_announcing gj) eqn:E; [|done]. by destruct (Ho i j g gj Hi Hj Ha E).
    + intros j gj Hj Hg. by eapply Hc.
    + intros j j' gj gj' Hj Hj' Hg Hg'. lookups; try congruence. by eapply Ho.
Qed.

Lemma offers_app es es' : offers (es ++ es') = offers es ++ offers es'.
Proof. apply omap_app. Qed.
Lemma exits_app es es' : exits (es ++ es') = (exits es + exits es')%nat.
Proof. unfold exits. by rewrite filter_app, length_app. Qed.

Lemma Inv_view s gs i g : Inv s gs → gs !! i = Some g → view g s.
Proof.
  intros (Hb & Hh & es & _ & _ & (served & Ho) & _) Hi. split; [done|]. split.
  - intros d Hd. by eapply hi_known.
  - intros p Hp. by destruct (oi_token _ _ _ _ Ho i g p Hi Hp) as (? & ? & _).
Qed.

Lemma Inv_guar s gs i g g' s' : Inv s gs → gs !! i = Some g → guar g s g' s' → Inv s' (<[i:=g']> gs).
Proof.
  intros (_ & Hh & es & Eo & Hall & (served & Hof) & Hex) Hi [Hb Hst (es' & Eo' & Hall' & Hos & Hes)].
  split; [done|]. split; [by eapply held_preserved|]. exists (es ++ es').
  split; [by rewrite Eo', Eo, app_assoc|]. split; [by apply Forall_app|]. split.
  - rewrite offers_app. by eapply offer_preserved.
  - rewrite exits_app. by eapply exit_preserved.
Qed.

(** A pool to which an idle thread is added. *)
Lemma lookup_snoc gs i g : (gs ++ [idle]) !! i = Some g → gs !! i = Some g ∨ g = idle.
Proof.
  intros Hi. destruct (decide (i < length gs)%nat); [rewrite lookup_app_l in Hi by done; by left|].
  rewrite lookup_app_r in Hi by lia. apply list_lookup_singleton_Some in Hi as [_ <-]. by right.
Qed.

Lemma Inv_spawn s gs : Inv s gs → Inv s (gs ++ [idle]).
Proof.
  intros (Hb & [Hk Ho Hs] & es & Eo & Hall & (served & [? ? ? Ht Hone]) & [? Hsaid Hc Hone']).
  split; [done|]. split; [split|].
  - intros i g d [Hi| ->]%lookup_snoc; [by eapply Hk|done].
  - intros i j g g' [Hi| ->]%lookup_snoc [Hj| ->]%lookup_snoc; try done. by eapply Ho.
  - intros Hm. destruct (Hs Hm) as (i & g & Hi & Hh). exists i, g. split; [by apply lookup_app_l_Some|done].
  - exists es. split; [done|]. split; [done|]. split; [exists served; split; [done..| |]|split; [done|..]].
    + intros i g p [Hi| ->]%lookup_snoc; [by eapply Ht|done].
    + intros i j g g' p [Hi| ->]%lookup_snoc [Hj| ->]%lookup_snoc; try done. by eapply Hone.
    + intros Hn. destruct (Hsaid Hn) as [? Hno]. split; [done|]. intros i g [Hi| ->]%lookup_snoc; [by eapply Hno|done].
    + intros i g [Hi| ->]%lookup_snoc; [by eapply Hc|done].
    + intros i j g g' [Hi| ->]%lookup_snoc [Hj| ->]%lookup_snoc; try done. by eapply Hone'.
Qed.

(** ** Rules for the actions *)

Abbreviation okp := (ok holding view guar).

(** Nothing of what the threads share has changed but for quiet effects. *)
Record same s s' (es : list effect) : Prop := {
  sm_id : my_id_ s' = my_id_ s;
  sm_fd : session_fd_ s' = session_fd_ s;
  sm_protected : protected s' = protected s;
  sm_mutex : crypto_mutex_ s' = crypto_mutex_ s;
  sm_announced : exit_announced_ s' = exit_announced_ s;
  sm_out : out_ s' = out_ s ++ es
}.

Lemma base_eq s s' : my_id_ s' = my_id_ s → session_fd_ s' = session_fd_ s →
  key_store_ s' = key_store_ s → base s → base s'.
Proof. intros E1 E2 E3 [? ? ? ? ?]. split; congruence. Qed.

Lemma quiet_counts es : Forall quiet es → Forall allowed es ∧ offers es = [] ∧ exits es = 0%nat.
Proof.
  induction 1 as [|e es (Ha & Ho & He) _ (IH1 & IH2 & IH3)]; [done|]. split; [by constructor|].
  change (e :: es) with ([e] ++ es). rewrite offers_app, exits_app, Ho, IH2, IH3. split; [done|].
  unfold exits. rewrite filter_cons_False by done. done.
Qed.

Lemma guar_same g s s' es : view g s → same s s' es → Forall quiet es → guar g s g s'.
Proof.
  intros (Hb & Hd & _) [E1 E2 E3 E4 E5 E6] Hq. destruct (quiet_counts es Hq) as (Ha & Ho & He).
  assert (key_store_ s' = key_store_ s ∧ key_offered_to_ s' = key_offered_to_ s) as [Ek Eo]
    by (unfold protected in E3; by simplify_eq).
  split; [by eapply base_eq| |].
  - unfold held_step. destruct (gh_held g) as [d|]; [|done]. split; [done|]. rewrite E3. by apply Hd.
  - exists es. rewrite Eo, E5, Ho, He. split_and!; [done|done|constructor|constructor].
Qed.

Lemma ok_same {A} (m : SM client A) (Q : ghost → outcome A → Prop) g :
  (∀ s, view g s → ∃ es, same s (m s).1 es ∧ Forall quiet es ∧ Q g (m s).2) → okp (act m) Q g.
Proof.
  intros Hm s Hs. destruct (Hm s Hs) as (es & Hsame & Hq & HQ). exists g. split; [by eapply guar_same|done].
Qed.

Lemma same_refl s : same s s [].
Proof. split; [done..|]. by rewrite app_nil_r. Qed.

Lemma ok_read {A} (f : client → A) (Q : ghost → outcome A → Prop) g :
  (∀ s, view g s → Q g (Ok (f s))) → okp (read_ f) Q g.
Proof. intros HQ. apply ok_same. intros s Hs. exists []. split; [apply same_refl|]. split; [done|by apply HQ]. Qed.

Lemma ok_emit e (Q : ghost → outcome unit → Prop) g : quiet e → Q g (Ok tt) → okp (emit_ e) Q g.
Proof. intros He HQ. apply ok_same. intros s Hs. exists [e]. split; [done|]. split; [by constructor|done]. Qed.

Lemma ok_draw (Q : ghost → outcome entropy → Prop) g : (∀ e, Q g (Ok e)) → okp draw_ Q g.
Proof.
  intros HQ. apply ok_same. intros s Hs. exists []. split; [|split; [done|apply HQ]].
  split; [done..|]. by rewrite app_nil_r.
Qed.

(** Sending anything but a key offer. *)
Lemma ok_send type p (Q : ghost → outcome bool → Prop) g :
  type ≠ KeyOffer → may_send type p → (∀ b, Q g (Ok b)) → okp (send_ type p) Q g.
Proof.
  intros Ht Hp HQ. apply ok_same. intros s Hs. eexists. split; [done|]. split; [|apply HQ].
  constructor; [|done]. split_and!; [|by destruct type|by intros [|]]. split; [apply Hs|done].
Qed.

Lemma ok_running (f : client → bool) (Q : ghost → outcome unit → Prop) g :
  Q g (Ok tt) → okp (write_ (λ s, with_flags s (f s) (exit_announced_ s))) Q g.
Proof.
  intros HQ. apply ok_same. intros s Hs. exists []. split; [|split; done].
  split; [done..|]. by rewrite app_nil_r.
Qed.

(** A critical section of a thread that does not hold the mutex: inside it the
    thread knows the protected data. *)
Lemma ok_guarded {A} (p : proc client A) Q g : gh_held g = None →
  (∀ d, store_ok d.1.1.1 → identity_secret_ d.1.1.1 = sk → identity_public_ d.1.1.1 = pk →
   okp p (λ g' r, is_Some (gh_held g') ∧ Q (with_held g' None) r) (with_held g (Some d))) →
  okp (guarded p) Q g.
Proof.
  intros Hg Hp. split; [by unfold holding; rewrite Hg|]. intros s (Hb & _ & _) Hm.
  exists (with_held g (Some (protected s))). split.
  - split; [by apply (base_eq s)|by unfold held_step; rewrite Hg|].
    exists []. rewrite app_nil_r. split_and!; [done|done|constructor|constructor].
  - apply ok_unlock_after. eapply ok_mono; [apply Hp; apply Hb|]. intros g' r [[d Hd] HQ] s' (Hb' & _ & _).
    exists (with_held g' None). split; [|done]. split; [by apply (base_eq s')|by unfold held_step; rewrite Hd|].
    exists []. rewrite app_nil_r. split_and!; [done|done|constructor|constructor].
Qed.

(** A change of the protected data by the thread that holds the mutex. *)
Lemma ok_change {A} (m : SM client A) (Q : ghost → outcome A → Prop) g d d' o r : gh_held g = Some d →
  (∀ s, base s → protected s = d → ∃ s', m s = (s', r) ∧ base s' ∧ protected s' = d' ∧
     crypto_mutex_ s' = crypto_mutex_ s ∧ exit_announced_ s' = exit_announced_ s ∧ out_ s' = out_ s) →
  offer_step (gh_offer g) d.2 o d'.2 [] →
  Q (with_offer (with_held g (Some d')) o) r → okp (act m) Q g.
Proof.
  intros Hg Hm Ho HQ s (Hb & Hd & _). specialize (Hd d Hg).
  destruct (Hm s Hb Hd) as (s' & -> & Hb' & Hd' & Hmu & Hex & Hout).
  exists (with_offer (with_held g (Some d')) o). cbn [fst snd]. split; [|done]. split; [done| |].
  - unfold held_step. rewrite Hg. done.
  - exists []. rewrite app_nil_r. split_and!; [done|done| |rewrite Hex; constructor].
    replace (key_offered_to_ s) with d.2 by (by rewrite <-Hd). replace (key_offered_to_ s') with d'.2 by (by rewrite <-Hd').
    done.
Qed.

(** ** The operations *)

Definition is_loud (e : effect) : Prop :=
  match e with Sent _ _ _ _ | Show show_exiting | Show show_server_disconnected => True | _ => False end.

Lemma quiet_other e : ¬ is_loud e → quiet e.
Proof.
  intros Hl. split_and!; destruct e as [[]| | | | | |]; cbn in *; try done; first [by destruct Hl|by intros [|]].
Qed.

Ltac emit_quiet := apply ok_emit; [apply quiet_other; cbn; tauto|].

Lemma ok_error b d (Q : ghost → outcome unit → Prop) g : Q g (Ok tt) → okp (error_ b d) Q g.
Proof. intros HQ. apply ok_bind. emit_quiet. emit_quiet. done. Qed.
Lemma ok_info b d (Q : ghost → outcome unit → Prop) g : Q g (Ok tt) → okp (info_ b d) Q g.
Proof. intros HQ. apply ok_bind. emit_quiet. emit_quiet. done. Qed.

(** An operation that returns and leaves nothing behind. *)
Definition returned {A} g (r : outcome A) : Prop := g = idle ∧ ∃ a, r = Ok a.

Lemma ok_shutdown b : okp (request_shutdown_ b) returned idle.
Proof.
  apply ok_bind, ok_running, ok_bind, ok_read. intros s _. apply ok_bind.
  assert (okp (if b then emit_ CloseStdin else nop) returned idle) as Hb.
  { destruct b; [emit_quiet|]; (split; [done|by eexists]). }
  destruct (0 <=? socket_fd_ s); [emit_quiet|]; exact Hb.
Qed.

(** Announcing the exit: the thread that sets [exit_announced_] does it. *)
Lemma ok_say call : call = show_exiting ∨ call = show_server_disconnected →
  okp (show_ call) returned (with_announcing idle true).
Proof.
  intros Hc s (Hb & _ & _). exists idle. split; [|by split; [|eexists]].
  assert (offers [Show call] = [] ∧ exits [Show call] = 1%nat) as [Eo Ee].
  { split; [by destruct Hc as [->| ->]|]. unfold exits. rewrite filter_cons_True; [done|]. unfold is_exit. naive_solver. }
  split; [by apply (base_eq s)|done|]. exists [Show call]. rewrite Eo, Ee.
  split_and!; [done|by repeat constructor|constructor|by constructor].
Qed.

Lemma ok_announce b : okp (announce_exit_ b) returned idle.
Proof.
  apply ok_bind. intros s (Hb & _ & _). unfold claim_exit. destruct (exit_announced_ s) eqn:E; cbn [fst snd].
  - exists idle. split; [|cbn; by split; [|eexists]]. split; [done|done|]. exists []. rewrite app_nil_r.
    split_and!; [done|done|constructor|constructor].
  - exists (with_announcing idle true). split; [|destruct b; apply ok_say; auto].
    split; [by apply (base_eq s)|done|]. exists []. rewrite app_nil_r.
    split_and!; [done|done|constructor|by constructor].
Qed.

(** The critical section of a key offer: the thread that puts the peer in
    [key_offered_to_] is the one to send it. *)
Lemma ok_take_offer peer Q : is_u32 peer → Q idle (Ok None) →
  Q (with_offer idle (Some peer)) (Ok (Some pk)) → okp (take_offer peer) Q idle.
Proof.
  intros Hu HQ1 HQ2. apply ok_guarded; [done|]. intros d Hst Hsk Hpk. apply ok_bind, ok_read.
  intros s (_ & Hd & _). specialize (Hd d eq_refl). cbn [then_].
  replace (key_offered_to_ s) with d.2 by (by rewrite <-Hd). case_decide as Hin; [by split; [eexists|]|].
  apply ok_bind. apply (ok_change _ _ _ d (d.1, {[peer]} ∪ d.2) (Some peer) (Ok tt)); [done| | |].
  - intros s1 Hb1 Hd1. eexists. split; [done|]. split; [by apply (base_eq s1)|].
    split; [|done]. by rewrite <-Hd1.
  - by constructor.
  - apply ok_bind, ok_read. intros s1 (Hb1 & Hd1 & _). specialize (Hd1 _ eq_refl).
    split; [by eexists|]. unfold bytes_as_string. rewrite (b_public _ Hb1). done.
Qed.

Lemma ok_send_offer p (Q : ghost → outcome bool → Prop) g : gh_offer g = Some p →
  Q (with_offer g None) (Ok true) → Q g (Ok false) → okp (send_ KeyOffer (to_id me p pk)) Q g.
Proof.
  intros Hg Ht Hf s Hs. unfold send. destruct (default false (head (sends_ s))) eqn:E; cbn [fst snd].
  - exists (with_offer g None). split; [|done]. destruct Hs as (Hb & Hd & _).
    split; [by apply (base_eq s)| |].
    + unfold held_step. cbn. destruct (gh_held g); [|done]. split; [done|by apply Hd].
    + eexists. split; [done|]. split; [|split; [by apply offer_send|constructor]].
      repeat constructor; [apply Hb|by eexists].
  - exists g. split; [|done]. apply (guar_same g s _ [Sent (session_fd_ s) KeyOffer (to_id me p pk) false]); [done..|].
    constructor; [|done]. split_and!; [split; [apply Hs|by eexists]|done|by intros [|]].
Qed.

Lemma ok_key_offer peer : is_u32 peer → length pk = kPublicKeySize → okp (send_key_offer_ peer) returned idle.
Proof.
  intros Hu Hpk. apply ok_bind, ok_read. intros s Hs. rewrite (b_id _ (proj1 Hs)). cbn [then_].
  destruct ((peer =? 0) || (peer =? me)); [by split; [|eexists]|].
  apply ok_bind, ok_take_offer; [done|by split; [|eexists]|]. cbn [then_].
  unfold build_key_offer. rewrite build_to_id by (unfold wf_string, kPublicKeySize in *; lia). apply ok_bind. cbn [then_ ok pure].
  apply ok_bind, ok_send_offer; [done|by apply ok_info; split; [|eexists]|]. cbn [then_ negb].
  apply ok_guarded; [done|]. intros d Hst Hsk Hpk'. apply ok_bind.
  apply (ok_change _ _ _ d (d.1, d.2 ∖ {[peer]}) None (Ok tt)); [done| |by constructor|].
  - intros s1 Hb1 Hd1. eexists. split; [done|]. split; [by apply (base_eq s1)|]. split; [|done]. by rewrite <-Hd1.
  - apply ok_error. split; [by eexists|]. by split; [|eexists].
Qed.

(** Sizes of the own key, which everything below needs. *)
Context (Hsk : length sk = kSecretKeySize) (Hpk : length pk = kPublicKeySize).

Lemma ok_encrypt f report (Q : ghost → outcome (option bytes) → Prop) g :
  (∀ e, ∃ c, f e = Ok c) → (∀ e c, f e = Ok c → Q g (Ok (Some c))) → okp (encrypt_ f report) Q g.
Proof.
  intros Hf HQ. apply ok_catch, ok_bind, ok_draw. intros e. cbn [then_]. destruct (Hf e) as [c Hc].
  apply ok_bind. rewrite Hc. cbn [then_ ok pure]. by eapply HQ.
Qed.

(** Reading a part of the protected data in a critical section. *)
Lemma ok_read_held {A} (f : client → A) (Q : ghost → outcome A → Prop) g d : gh_held g = Some d →
  (∀ s, protected s = d → Q g (Ok (f s))) → okp (read_ f) Q g.
Proof. intros Hg HQ. apply ok_read. intros s (_ & Hd & _). by apply HQ, Hd. Qed.

Lemma ok_section_end {A} (Q : ghost → outcome A → Prop) d (r : outcome A) : Q idle r →
  is_Some (gh_held (with_held idle (Some d))) ∧ Q (with_held (with_held idle (Some d)) None) r.
Proof. intros HQ. by split; [eexists|]. Qed.

Lemma ok_room_key peer : okp (maybe_send_room_key_ peer) returned idle.
Proof using CL Hsk Hpk.
  apply ok_bind, ok_guarded; [done|]. intros d (_ & _ & Hroom & Hpeers) Hs Hp.
  apply ok_bind, (ok_read_held _ _ _ d); [done|]. intros s Es. cbn [then_].
  replace (key_store_ s) with d.1.1.1 by (by rewrite <-Es). unfold peer_public.
  destruct (room_key_ d.1.1.1) as [room|] eqn:Er; [|by apply ok_section_end; split; [|eexists]].
  destruct (peers_ d.1.1.1 !! peer) as [key|] eqn:Ek; [|by apply ok_section_end; split; [|eexists]].
  rewrite Hs. destruct (Hpeers _ _ Ek) as [_ Hkey]. specialize (Hroom _ eq_refl).
  apply ok_encrypt; [intros e; destruct (law_seal e sk key room) as (c & Hc & _); [done..|by exists c]|].
  intros e c Hc. apply ok_section_end. cbn [then_]. apply ok_bind, ok_read. intros s1 Hs1.
  rewrite (b_id _ (proj1 Hs1)). cbn [then_].
  destruct (law_seal e sk key room) as (c' & Hc' & Hlen); [done..|]. rewrite Hc in Hc'. injection Hc' as <-.
  unfold build_room_key_offer. rewrite build_to_id by (unfold wf_string; lia). apply ok_bind. cbn [then_ ok pure].
  apply ok_bind, ok_send; [done|by exists peer, key, room, e, c|].
  intros [|]; cbn [then_ negb]; [apply ok_info|apply ok_error]; (split; [done|by eexists]).
Qed.

(** A typed command. *)
Definition typed_cmd (cmd : InputCommand) : Prop :=
  size_t (cmd_text cmd) <= 65495 ∧ ∃ line, line ∈ typed ∧ parse_input_line line me = Ok cmd.

Lemma ok_chat_by_id cmd peer : typed_cmd cmd → okp (send_encrypted_chat_by_id_ peer (cmd_text cmd)) returned idle.
Proof using CL Hsk Hpk.
  intros (Hsize & line & Hline & Hparse).
  apply ok_bind, ok_guarded; [done|]. intros d (_ & _ & _ & Hpeers) Hs Hp.
  apply ok_bind, (ok_read_held _ _ _ d); [done|]. intros s Es. cbn [then_].
  replace (key_store_ s) with d.1.1.1 by (by rewrite <-Es). unfold peer_public.
  destruct (peers_ d.1.1.1 !! peer) as [key|] eqn:Ek; cycle 1.
  { apply ok_bind, ok_error. apply ok_section_end. by split; [|eexists]. }
  rewrite Hs. destruct (Hpeers _ _ Ek) as [_ Hkey].
  apply ok_encrypt; [intros e; destruct (law_encrypt e sk key (cmd_text cmd)) as (c & Hc & _); [done..|by exists c]|].
  intros e c Hc. apply ok_section_end. cbn [then_]. apply ok_bind, ok_read. intros s1 Hs1.
  rewrite (b_id _ (proj1 Hs1)). cbn [then_].
  destruct (law_encrypt e sk key (cmd_text cmd)) as (c' & Hc' & Hlen); [done..|]. rewrite Hc in Hc'. injection Hc' as <-.
  unfold build_chat_by_id. rewrite build_to_id by (unfold wf_string; lia). apply ok_bind. cbn [then_ ok pure].
  apply ok_bind, ok_send; [done| |].
  { exists line, cmd. split_and!; [done..|]. left. by exists peer, key, e, c. }
  intros [|]; cbn [then_ negb]; [|apply ok_error]; (split; [done|by eexists]).
Qed.

Lemma ok_chat_by_nickname cmd n : typed_cmd cmd →
  okp (send_encrypted_chat_by_nickname_ n (cmd_text cmd)) returned idle.
Proof using CL Hsk Hpk.
  intros Hcmd. apply ok_bind, ok_guarded; [done|]. intros d _ _ _.
  apply ok_bind, (ok_read_held _ _ _ d); [done|]. intros s Es. cbn [then_].
  destruct (id_by_nickname_ s !! n) as [peer|].
  - apply ok_section_end. by apply ok_chat_by_id.
  - apply ok_bind, ok_error. apply ok_section_end. by split; [|eexists].
Qed.

Lemma ok_broadcast cmd : typed_cmd cmd → okp (send_encrypted_broadcast_ (cmd_text cmd)) returned idle.
Proof using CL Hsk Hpk.
  intros (Hsize & line & Hline & Hparse).
  apply ok_bind, ok_guarded; [done|]. intros d (_ & _ & Hroom & _) Hs Hp.
  apply ok_bind, (ok_read_held _ _ _ d); [done|]. intros s Es. cbn [then_].
  replace (key_store_ s) with d.1.1.1 by (by rewrite <-Es).
  destruct (room_key_ d.1.1.1) as [room|] eqn:Er; cycle 1.
  { apply ok_bind, ok_error. apply ok_section_end. by split; [|eexists]. }
  specialize (Hroom _ eq_refl).
  apply ok_encrypt; [intros e; destruct (law_room e room (cmd_text cmd) Hroom) as (c & Hc & _); by exists c|].
  intros e c Hc. apply ok_section_end. cbn [then_]. apply ok_bind, ok_read. intros s1 Hs1.
  rewrite (b_id _ (proj1 Hs1)). cbn [then_].
  destruct (law_room e room (cmd_text cmd) Hroom) as (c' & Hc' & Hlen & _). rewrite Hc in Hc'. injection Hc' as <-.
  rewrite build_to_all by (unfold wf_string; lia). apply ok_bind. cbn [then_ ok pure].
  apply ok_bind, ok_send; [done| |].
  { exists line, cmd. split_and!; [done..|]. right. by exists room, e, c. }
  intros [|]; cbn [then_ negb]; [|apply ok_error]; (split; [done|by eexists]).
Qed.

Lemma parse_key_u32 line cmd : parse_input_line line me = Ok cmd → cmd_type cmd = KeyOfferCmd →
  is_u32 (recipient_id cmd).
Proof.
  unfold parse_input_line, parse_key_line. intros Hp Ht.
  repeat (case_match; simplify_eq/=; inv_outcome; try done).
  all: try apply to_u32_range.
Qed.

Lemma ok_input_command cmd : typed_cmd cmd → okp (handle_input_command_ cmd) returned idle.
Proof using CL Hsk Hpk.
  intros Hcmd. unfold handle_input_command_. destruct (cmd_type cmd) eqn:Et.
  - apply ok_bind, ok_send; [done..|]. intros [|]; cbn [then_ negb]; [|apply ok_error]; (split; [done|by eexists]).
  - apply ok_running. by split; [|eexists].
  - by apply ok_chat_by_id.
  - by apply ok_chat_by_nickname.
  - by apply ok_broadcast.
  - destruct Hcmd as (_ & line & _ & Hparse). apply ok_key_offer; [by eapply parse_key_u32|done].
  - apply ok_error. by split; [|eexists].
Qed.

(** ** Incoming messages *)

Lemma ok_store {A} (m : SM PeerKeyStore A) (Q : ghost → outcome A → Prop) d store r :
  m d.1.1.1 = (store, r) → store_ok store → identity_secret_ store = sk → identity_public_ store = pk →
  Q (with_held idle (Some (store, d.1.1.2, d.1.2, d.2))) r → okp (store_ m) Q (with_held idle (Some d)).
Proof.
  intros Hm Hst H1 H2 HQ. apply (ok_change _ _ _ d (store, d.1.1.2, d.1.2, d.2) None r); [done| |constructor|done].
  intros s Hb Hd. unfold on_store. replace (key_store_ s) with d.1.1.1 by (by rewrite <-Hd). rewrite Hm.
  eexists. split; [done|]. split; [destruct Hb; by split|]. split; [by rewrite <-Hd|done].
Qed.

Lemma ok_names f h (Q : ghost → outcome unit → Prop) d :
  (∀ d', store_ok d'.1.1.1 → d'.1.1.1 = d.1.1.1 → Q (with_held idle (Some d')) (Ok tt)) → store_ok d.1.1.1 →
  okp (write_ (λ s, with_names s (f (id_by_nickname_ s)) (h (nickname_by_id_ s)))) Q (with_held idle (Some d)).
Proof.
  intros HQ Hst. apply (ok_change _ _ _ d (d.1.1.1, f d.1.1.2, h d.1.2, d.2) None (Ok tt)); [done| |constructor|by apply HQ].
  intros s Hb Hd. eexists. split; [done|]. split; [by apply (base_eq s)|]. split; [by rewrite <-Hd|done].
Qed.

Lemma ok_attempt m (Q : ghost → outcome (bytes + bytes) → Prop) g : cipher_result m →
  (∀ x, Q g (Ok x)) → okp (attempt_ m) Q g.
Proof. intros Hm HQ. by destruct m as [| |]; [apply HQ|apply HQ|]. Qed.

Lemma ok_decrypt from body (Q : ghost → outcome (option bytes) → Prop) :
  (∀ x, Q idle (Ok x)) → okp (decrypt_deliver_ from body) Q idle.
Proof using CL.
  intros HQ. apply ok_guarded; [done|]. intros d _ _ _. apply ok_bind, ok_read. intros s _. cbn [then_].
  set (g := with_held idle (Some d)). apply ok_bind.
  apply (ok_mono _ _ _ _ (λ g' r, g' = g ∧ ∃ x, r = Ok x)).
  { destruct (peer_public _ _); [apply ok_attempt; [apply law_decrypt_safe|intros x]|]; (split; [done|by eexists]). }
  intros g' r [-> [[text|peer_err] ->]]; cbn [then_]; [by apply ok_section_end|]. apply ok_bind.
  apply (ok_mono _ _ _ _ (λ g' r, g' = g ∧ ∃ x, r = Ok x)).
  { destruct (room_key_ _); [apply ok_attempt; [apply law_room_decrypt_safe|intros x]|]; (split; [done|by eexists]). }
  intros g' r [-> [[text|room_err] ->]]; cbn [then_]; [by apply ok_section_end|]. apply ok_bind. emit_quiet.
  by apply ok_section_end.
Qed.

Lemma ok_show call : call ≠ show_exiting → call ≠ show_server_disconnected → okp (show_ call) returned idle.
Proof.
  intros H1 H2. apply ok_emit; [apply quiet_other|by split; [|eexists]]. intros Hl. by destruct call.
Qed.

Lemma ok_present m : wf_message m → okp (present_ m) returned idle.
Proof.
  destruct m as [t p]. unfold wf_message. cbn [msg_type msg_payload]. intros Hwf. unfold present_.
  cbn [msg_type msg_payload].
  destruct t; try (by split; [|eexists]); destruct p; try done; apply ok_bind; by apply ok_show.
Qed.

(** A critical section that changes the names, and what comes after it. *)
Lemma ok_names_section f h (p : proc client unit) : okp p returned idle →
  okp (_ ← guarded (write_ (λ s, with_names s (f (id_by_nickname_ s)) (h (nickname_by_id_ s)))); p) returned idle.
Proof.
  intros Hp. apply ok_bind, ok_guarded; [done|]. intros d Hst _ _. apply ok_names; [|done].
  intros d' _ _. by apply ok_section_end.
Qed.

Lemma ok_peer_key d : wf_deliver d → okp (handle_incoming_ (mkMessage PeerKey (PDeliver d))) returned idle.
Proof using CL Hsk Hpk.
  intros [Hid _]. apply ok_bind. cbn [then_ ok pure]. apply ok_catch, ok_bind, ok_guarded; [done|].
  intros data Hst Hs Hp. destruct (set_peer_public (deliver_from_id d) (string_as_bytes (deliver_text d)) data.1.1.1)
    as [store r] eqn:E.
  destruct (set_peer_public_safe (deliver_from_id d) (string_as_bytes (deliver_text d)) Hid _ Hst) as [Hst' Hr].
  rewrite E in Hst', Hr. eapply ok_store; [exact E|done|..].
  1,2: revert E; unfold set_peer_public; case_decide; intros [= <- <-]; done.
  apply ok_section_end. destruct r as [[]|e|]; [|by apply ok_error; split; [|eexists]|done].
  cbn [then_]. apply ok_bind, ok_info. cbn [then_]. apply ok_bind.
  eapply ok_mono; [by apply ok_key_offer|]. intros g' r' [-> [[] ->]]. cbn [then_].
  eapply ok_mono; [apply ok_room_key|]. intros g' r' [-> [[] ->]]. by split; [|eexists].
Qed.

Lemma ok_room_key_message d : okp (handle_incoming_ (mkMessage RoomKey (PDeliver d))) returned idle.
Proof using CL.
  apply ok_bind. cbn [then_ ok pure]. apply ok_catch, ok_guarded; [done|]. intros data Hst Hs Hp.
  apply ok_bind, (ok_read_held _ _ _ data); [done|]. intros s Es. cbn [then_].
  replace (key_store_ s) with data.1.1.1 by (by rewrite <-Es).
  destruct (peer_public data.1.1.1 (deliver_from_id d)) as [key|]; cycle 1.
  { apply ok_error. apply ok_section_end. by split; [|eexists]. }
  apply ok_bind. pose proof (law_open_safe (identity_secret_ data.1.1.1) key (string_as_bytes (deliver_text d))) as Hsafe.
  destruct (open_room_key _ _ _) as [room|e|] eqn:Eo; [| |done]; cbn [then_ ok pure]; cycle 1.
  { split; [by eexists|]. by apply ok_error; split; [|eexists]. }
  apply ok_bind. destruct (set_room_key room data.1.1.1) as [store r] eqn:E.
  destruct (set_room_key_safe room _ Hst) as [Hst' Hr]. rewrite E in Hst', Hr.
  assert (r = Ok tt ∧ identity_secret_ store = sk ∧ identity_public_ store = pk) as (-> & H1 & H2).
  { revert E. unfold set_room_key. rewrite decide_False by (apply law_open_length in Eo; naive_solver).
    intros [= <- <-]. done. }
  eapply ok_store; [exact E|done..|]. cbn [then_]. apply ok_info. split; [by eexists|]. by split; [|eexists].
Qed.

Lemma ok_incoming m : wf_message m → okp (handle_incoming_ m) returned idle.
Proof using CL Hsk Hpk.
  intros Hwf. destruct m as [t p]. pose proof Hwf as Hp. unfold wf_message in Hp. cbn [msg_type msg_payload] in Hp.
  destruct t; try (by apply ok_present); destruct p as [| |c|d|e|j|l| |us|b]; try done.
  - apply ok_bind. cbn [then_ ok pure]. apply ok_bind, ok_decrypt. intros [plain|]; cbn [then_];
      [by apply ok_show|by apply ok_error; split; [|eexists]].
  - apply ok_bind. cbn [then_ ok pure].
    apply (ok_names_section (λ ids, if decide (joined_nickname j = []) then ids else <[joined_nickname j := joined_id j]> ids)
             (λ names, <[joined_id j := joined_nickname j]> names)).
    apply ok_bind. eapply ok_mono; [by apply ok_present|]. intros g r [-> [[] ->]]. cbn [then_].
    apply ok_bind, ok_read. intros s _. cbn [then_]. destruct (negb _); [apply ok_key_offer; [apply Hp|done]|].
    by split; [|eexists].
  - apply ok_bind. cbn [then_ ok pure].
    apply (ok_names_section (λ ids, if decide (left_nickname l = []) then ids else delete (left_nickname l) ids)
             (λ names, delete (left_id l) names)). by apply ok_present.
  - apply ok_bind. cbn [then_ ok pure]. apply ok_bind, ok_guarded; [done|]. intros d Hst _ _.
    apply (ok_each _ _ _ _ _ (λ g, ∃ d, g = with_held idle (Some d) ∧ store_ok d.1.1.1)); [by exists d|..].
    + intros g (d' & -> & _). apply ok_section_end. by apply ok_present.
    + intros u g _ (d' & -> & Hst').
      apply (ok_names (λ ids, if decide (user_nickname u = []) then ids else <[user_nickname u := user_id u]> ids)
               (λ names, <[user_id u := user_nickname u]> names)); [|done].
      intros d'' Hst'' _. split; [done|by exists d''].
  - apply ok_bind. cbn [then_ ok pure]. apply ok_bind, ok_guarded; [done|]. intros d Hst Hs Hk.
    pose proof (erase_peers_ok (banned_ids b) _ Hst) as Hst'.
    eapply ok_store; [apply erase_peers_run| |done|done|].
    { by rewrite erase_peers_run in Hst'. }
    apply ok_section_end. by apply ok_info; split; [|eexists].
  - by apply ok_peer_key.
  - apply ok_room_key_message.
Qed.

(** ** The threads *)

Lemma ok_receive_turn rx : ModbusMessageTransport.rx_ok rx → okp (receive_turn_ rx) returned idle.
Proof using CL Hsk Hpk.
  intros [Hsafe Hwf]. apply ok_bind.
  apply (ok_mono _ _ _ _ (returned (A:=bool))).
  - apply ok_catch, ok_bind. destruct rx as [[m|]|e|]; cbn [then_ ok pure]; [| | |done].
    + apply ok_bind. eapply ok_mono; [by apply ok_incoming, Hwf|]. intros g r [-> [[] ->]]. by split; [|eexists].
    + apply ok_bind. eapply ok_mono; [apply ok_announce|]. intros g r [-> [[] ->]]. cbn [then_].
      apply ok_bind. eapply ok_mono; [apply ok_shutdown|]. intros g r [-> [[] ->]]. by split; [|eexists].
    + apply ok_bind, ok_error. by split; [|eexists].
  - intros g r [-> [stop ->]]. cbn [then_]. destruct stop; [by split; [|eexists]|].
    apply ok_read. by split; [|eexists].
Qed.

Lemma ok_receiver rxs : Forall ModbusMessageTransport.rx_ok rxs → okp (receiver_thread rxs) returned idle.
Proof using CL Hsk Hpk.
  intros Hrxs. apply ok_bind, ok_read. intros s _. cbn [then_]. destruct (running_ s); [|by split; [|eexists]].
  clear s. induction Hrxs as [|rx rxs Hrx _ IH]; [by split; [|eexists]|]. cbn [receive_loop].
  apply ok_bind. eapply ok_mono; [by apply ok_receive_turn|]. intros g r [-> [[] ->]]; cbn [then_]; [done|].
  by split; [|eexists].
Qed.

(** The main thread may end with the exception of the parser. *)
Definition left_ {A} g (r : outcome A) : Prop :=
  g = idle ∧ ((∃ a, r = Ok a) ∨ r = Throw (out_of_range (str "stoul"))).

Definition line_typed (line : option bytes) : Prop :=
  ∀ l, line = Some l → size_t l <= 65495 ∧ l ∈ typed.

Lemma ok_input_line line : line_typed line → okp (input_line_ line) left_ idle.
Proof using CL Hsk Hpk.
  intros Hline. destruct line as [[|b l]|]; [apply ok_read; split; [done|]; left; by eexists| |by split; [|left; eexists]].
  destruct (Hline _ eq_refl) as [Hsize Htyped]. apply ok_bind, ok_read. intros s Hs. cbn [then_].
  rewrite (b_id _ (proj1 Hs)). apply ok_bind.
  destruct (parse_input_line_total (b :: l) me) as [[cmd Hc]|(? & ? & _ & _ & _ & Hc)]; rewrite Hc;
    cbn [then_ ok pure]; [|by split; [|right]].
  pose proof (parse_input_line_text _ _ _ Hc) as Hlen. apply ok_bind.
  eapply ok_mono; [apply ok_input_command; split; [lia|by eexists]|]. intros g r [-> [[] ->]]. cbn [then_].
  apply ok_read. intros s1 _. split; [done|]. left. by eexists.
Qed.

Lemma ok_main lines : Forall line_typed lines → okp (main_thread lines) left_ idle.
Proof using CL Hsk Hpk.
  intros Hlines. apply ok_bind, ok_read. intros s _. cbn [then_]. apply ok_bind.
  apply (ok_mono _ _ _ _ (left_ (A:=bool))).
  - destruct (running_ s); [|by split; [|left; eexists]]. clear s.
    induction Hlines as [|line lines Hline _ IH]; cbn [input_loop]; apply ok_bind; emit_quiet; cbn [then_].
    + split; [done|left; by eexists].
    + apply ok_bind. eapply ok_mono; [by apply ok_input_line|].
      intros g r [-> [[[] ->]| ->]]; cbn [then_]; [done|split; [done|left; by eexists]|by split; [|right]].
  - intros g r [-> [[[] ->]| ->]]; cbn [then_ negb]; [|split; [done|left; by eexists]|by split; [|right]].
    apply ok_bind. eapply ok_mono; [apply ok_announce|]. intros g r [-> [[] ->]]. cbn [then_].
    eapply ok_mono; [apply ok_shutdown|]. intros g r [-> [[] ->]]. split; [done|left; by eexists].
Qed.

End facts.

(** ** The client, whatever the order in which its threads run *)

Section pool.
Context {C : IMessageCipher} {CL : CipherLaws}.

(** The client when the receiver has just been started. *)
Definition started (s : client) (lines : list (option bytes)) (rxs : list (outcome (option AppMessage)))
    : client * list (proc client unit) :=
  (s, [main_thread lines; receiver_thread rxs]).

Definition typable (line : option bytes) : Prop := ∀ l, line = Some l → size_t l <= 65495.

Definition post (i : nat) (g : ghost) (r : outcome unit) : Prop :=
  if decide (i = 0%nat) then left_ g r else returned g r.

(** The invariant for the session and the identity of a client. *)
Abbreviation inv_of s lines :=
  (Inv (my_id_ s) (session_fd_ s) (identity_secret_ (key_store_ s)) (identity_public_ (key_store_ s))
     (omap id lines) (out_ s)).
Abbreviation view_of s lines :=
  (view (my_id_ s) (session_fd_ s) (identity_secret_ (key_store_ s)) (identity_public_ (key_store_ s))).
Abbreviation guar_of s lines :=
  (guar (my_id_ s) (session_fd_ s) (identity_secret_ (key_store_ s)) (identity_public_ (key_store_ s))
     (omap id lines)).

Lemma pool_fits s lines : store_ok (key_store_ s) →
  fits holding (view_of s lines) (guar_of s lines) (inv_of s lines) idle signal_handler post.
Proof.
  intros Hst. split.
  - intros. by eapply Inv_view.
  - intros. by eapply Inv_guar.
  - intros. by apply Inv_spawn.
  - intros i. eapply ok_mono; [apply ok_shutdown|]. intros g r [-> [[] ->]]. unfold post.
    case_decide; (split; [done|]); [left|]; by eexists.
  - intros s' gs (_ & Hh & _) Hm. by eapply hi_some.
  - intros i g r. unfold post. by case_decide; intros [-> _].
Qed.

Lemma pool_start s lines rxs : sound false s → Forall typable lines →
  Forall ModbusMessageTransport.rx_ok rxs →
  good holding (view_of s lines) (guar_of s lines) (inv_of s lines) post (started s lines rxs).
Proof.
  intros [Hf Hst] Hl Hrx. pose proof Hst as (Hsk & Hpk & _). exists [idle; idle]. split; [|split; [done|]].
  - assert (∀ i g, [idle; idle] !! i = Some g → g = idle) as Hi.
    { intros [|[|]] g; cbn; by intros [= <-] || done. }
    split; [by split|]. split; [split|].
    + intros i g d Hg Hd. by apply Hi in Hg as ->.
    + intros i j g g' Hg _ Hh. by apply Hi in Hg as ->.
    + cbn. congruence.
    + exists []. split; [by rewrite app_nil_r|]. split; [done|]. split; [exists []; split|split].
      * done.
      * apply NoDup_nil_2.
      * by intros p ?%elem_of_nil.
      * intros i g p Hg. by apply Hi in Hg as ->.
      * intros i j g g' p Hg _. by apply Hi in Hg as ->.
      * cbn. lia.
      * done.
      * intros i g Hg. by apply Hi in Hg as ->.
      * intros i j g g' Hg _. by apply Hi in Hg as ->.
  - intros [|[|i]] p g; cbn; intros [= <-] [= <-].
    + apply ok_main; [done|done|]. rewrite Forall_forall in Hl |- *. intros line Hin l ->. split; [by eapply Hl|].
      apply list_elem_of_omap. by exists (Some l).
    + by apply ok_receiver.
Qed.

Lemma pool_reachable s lines rxs c : sound false s → Forall typable lines →
  Forall ModbusMessageTransport.rx_ok rxs → rtc (step signal_handler) (started s lines rxs) c →
  good holding (view_of s lines) (guar_of s lines) (inv_of s lines) post c.
Proof.
  intros Hs Hl Hrx Hsteps. eapply pool_inv; [by apply pool_fits, Hs|done|by apply pool_start].
Qed.

(** A payload names its addressee. *)
Lemma to_id_inj from p q body : is_u32 p → is_u32 q → to_id from p body = to_id from q body → p = q.
Proof.
  intros Hp Hq E. do 2 apply app_inv_head in E. change (be32 p ++ lstr body = be32 q ++ lstr body) in E.
  assert (Ok p = Ok q) as [= ->]; [|done].
  rewrite <-(proj2 (read_u32_be_iff (be32 p ++ lstr body) p)) by eauto.
  rewrite <-(proj2 (read_u32_be_iff (be32 q ++ lstr body) q)) by eauto. f_equal. exact E.
Qed.

(** C7. The client's threads do not get in each other's way.  For lines of at most 65495
    bytes, however the main thread, the receiver and signal handlers are
    interleaved, down to single accesses,
    there is no undefined behaviour and no deadlock; the receiver and the handlers
    throw nothing, and the main thread at most the exception of the parser; the
    key store stays well-formed with the same identity; and whoever is done has
    released the mutex. *)
Theorem client_threads_safe s lines rxs s' ps : sound false s → Forall typable lines →
  Forall ModbusMessageTransport.rx_ok rxs →
  rtc (step signal_handler) (started s lines rxs) (s', ps) →
  store_ok (key_store_ s') ∧
  identity_secret_ (key_store_ s') = identity_secret_ (key_store_ s) ∧
  identity_public_ (key_store_ s') = identity_public_ (key_store_ s) ∧
  (∀ i r, ps !! i = Some (Done r) →
     (∃ a, r = Ok a) ∨ i = 0%nat ∧ r = Throw (out_of_range (str "stoul"))) ∧
  ((∃ i p, ps !! i = Some p ∧ is_Some (advance p s')) ∨
   (∀ i p, ps !! i = Some p → ∃ r, p = Done r) ∧ crypto_mutex_ s' = false).
Proof.
  intros Hs Hl Hrx Hsteps. pose proof (pool_reachable _ _ _ _ Hs Hl Hrx Hsteps) as Hg.
  pose proof (pool_fits s lines (proj2 Hs)) as Hfit.
  pose proof Hg as (gs & ([_ _ Hst H1 H2] & Hh & _) & Hlen & Hok). cbn [fst snd] in *.
  assert (∀ i r, ps !! i = Some (Done r) → ∃ g, gs !! i = Some g ∧ post i g r) as Hdone.
  { intros i r Hi. destruct (lookup_lt_is_Some_2 gs i) as [g Hgi]; [rewrite Hlen; by eapply lookup_lt_Some|].
    exists g. split; [done|]. exact (Hok i (Done r) g Hi Hgi). }
  split_and!; [done..| |].
  - intros i r Hi. destruct (Hdone i r Hi) as (g & _ & Hp). unfold post in Hp. case_decide as Hi0.
    + destruct Hp as [_ [?| ->]]; [by left|by right].
    + left. apply Hp.
  - destruct (pool_progress _ _ _ _ _ _ _ Hfit (s', ps) Hg) as [?|Hall]; [by left|right]. split; [done|].
    destruct (crypto_mutex_ s') eqn:Em; [|done]. destruct (hi_some _ _ Hh Em) as (i & g & Hgi & Hhold).
    destruct (lookup_lt_is_Some_2 ps i) as [p Hp]; [rewrite <-Hlen; by eapply lookup_lt_Some|].
    destruct (Hall i p Hp) as [r ->]. pose proof (Hok i (Done r) g Hp Hgi) as Hpost.
    apply (fit_post _ _ _ _ _ _ _ Hfit) in Hpost. congruence.
Qed.

(** C5. What the client's threads send.  For lines of at most 65495 bytes, however they
    are interleaved, every message
    that leaves the client is a request for the list of users, its public key, a
    room key sealed for a peer, or the text of a typed line, encrypted; no peer is
    offered the public key twice, also when the user and the receiver want to
    offer it at the same time and some sends fail; and the exit is announced at
    most once. *)
Theorem client_threads_send s lines rxs s' ps : sound false s → Forall typable lines →
  Forall ModbusMessageTransport.rx_ok rxs →
  rtc (step signal_handler) (started s lines rxs) (s', ps) →
  ∃ es, out_ s' = out_ s ++ es ∧
    Forall (allowed (my_id_ s) (session_fd_ s) (identity_secret_ (key_store_ s))
              (identity_public_ (key_store_ s)) (omap id lines)) es ∧
    NoDup (offers es) ∧ (exits es ≤ 1)%nat.
Proof.
  intros Hs Hl Hrx Hsteps.
  pose proof (pool_reachable _ _ _ _ Hs Hl Hrx Hsteps) as (gs & (_ & _ & es & Eo & Hall & (served & Hof) & Hex) & _).
  exists es. split_and!; [done|done| |apply Hex]. rewrite (oi_offers _ _ _ _ _ _ Hof).
  apply NoDup_fmap_2_strong; [|apply Hof]. intros p q Hp Hq.
  apply to_id_inj; by eapply oi_served.
Qed.

End pool.
Section examples.
#[local] Existing Instances toy.library toy.library_laws.

(** The user offers the key to client 5 while the server announces it: both threads
    want to send the key, the user's is first. *)
Definition demo_lines : list (option bytes) := [Some (str "/key 5")].
Definition demo_rxs : list (outcome (option AppMessage)) :=
  [Ok (Some (mkMessage UserJoined (PUserJoined (mkUserJoined 5 (str "eve")))))].
Definition demo_start : client * list (proc client unit) := started demo_client demo_lines demo_rxs.
Definition demo_order : list nat :=
  [0; 0; 1; 1; 0; 1; 1; 0; 0; 1; 0; 1; 0; 1; 0; 0; 1; 0; 1; 1; 0; 0; 0; 0; 1]%nat.
Definition demo_end : client * list (proc client unit) := default demo_start (execute demo_order demo_start).

Lemma demo_steps : rtc (step signal_handler) (started demo_client demo_lines demo_rxs) (demo_end.1, demo_end.2).
Proof.
  apply (execute_steps _ demo_order). unfold demo_end.
  assert (match execute demo_order demo_start with Some _ => true | None => false end = true) as E
    by (vm_compute; reflexivity).
  change (started demo_client demo_lines demo_rxs) with demo_start.
  by destruct (execute demo_order demo_start) as [[]|].
Qed.

Lemma demo_typable : Forall typable demo_lines.
Proof. constructor; [|constructor]. intros l [= <-]. cbn. lia. Qed.

Lemma demo_rx_ok : Forall ModbusMessageTransport.rx_ok demo_rxs.
Proof.
  constructor; [|constructor]. split; [done|]. intros m [= <-]. split; [cbn; unfold is_u32; lia|unfold wf_string; cbn; lia].
Qed.

Lemma client_threads_safe_witness : store_ok (key_store_ demo_end.1) ∧ crypto_mutex_ demo_end.1 = false.
Proof.
  destruct (client_threads_safe demo_client demo_lines demo_rxs demo_end.1 demo_end.2)
    as (Hst & _).
  - exact demo_ready.
  - exact demo_typable.
  - exact demo_rx_ok.
  - exact demo_steps.
  - split; [exact Hst|vm_compute; reflexivity].
Defined.

Lemma client_threads_send_witness : ∃ es, out_ demo_end.1 = es ∧ NoDup (offers es) ∧ length (offers es) = 1%nat.
Proof.
  destruct (client_threads_send demo_client demo_lines demo_rxs demo_end.1 demo_end.2)
    as (es & E & _ & Hnd & _).
  - exact demo_ready.
  - exact demo_typable.
  - exact demo_rx_ok.
  - exact demo_steps.
  - change (out_ demo_client ++ es) with es in E.
    exists es. split; [exact E|]. split; [exact Hnd|]. rewrite <-E. vm_compute. reflexivity.
Defined.

End examples.

End client_thread_facts.
