(* ===== verification/EndToEnd.v ===== *)
(** * From one client through the server to another

    The theorems that join the components: a chat message from the line one user
    types to the line another user sees, and the exchange of public keys and of
    the room key between two clients.  The messages pass through the encoders and
    decoders of Protocol; that the bytes between two sockets arrive as they were
    sent is the subject of Transport. *)
From S2P Require Import Prelude.
From S2P Require Import ModbusTcp.
From S2P Require Import Protocol.
From S2P Require Import Transport.
From S2P Require Import CppString.
From S2P Require Import ClientRegistry.
From S2P Require Import ServerHandlers.
From S2P Require Import ServerViewModel.
From S2P Require Import ServerLoop.
From S2P Require Import Config.
From S2P Require Import PeerKeyStore.
From S2P Require Import Cipher.
From S2P Require Import Message.
From S2P Require Import ClientCommands.
From S2P Require Import ClientViewModel.
From S2P Require Import ClientFacts.

Module end_to_end.
Import protocol crypto cipher client_viewmodel client_facts.

(** A computation that satisfies a [wp] without exceptions returns. *)
Lemma wp_returns {S} (m : SM S unit) (Q : S → Prop) s :
  wp m (λ _, Q) (λ _ _, False) s → ∃ s', m s = (s', Ok tt) ∧ Q s'.
Proof. intros ([] & s' & ? & ?)%wp_value. eauto. Qed.

Section clients.
Context {C : IMessageCipher} {CL : CipherLaws}.
Implicit Types s : client.client.

Lemma deliver_wp from body text pk s (Q : unit → client.client → Prop) E :
  client.crypto_mutex_ s = false → peer_public (client.key_store_ s) from = Some pk →
  decrypt_from_peer (identity_secret_ (client.key_store_ s)) pk body = Ok text →
  Q tt (client.with_out s [client.Show (client.show_delivered from text)]) →
  wp (client.handle_incoming (mkMessage Deliver (PDeliver (mkDeliver from body)))) Q E s.
Proof.
  intros Hf Hpk Hdec HQ. apply wp_bind, (wp_lift_ok _ (mkDeliver from body)); [done|].
  apply wp_bind, wp_locked; [done|]. apply wp_bind, wp_get, wp_bind.
  change (client.key_store_ (client.with_mutex s true)) with (client.key_store_ s).
  cbn [deliver_from_id deliver_text]. rewrite Hpk. apply wp_try_catch, wp_bind, (wp_lift_ok _ text); [done|].
  apply wp_ret, wp_ret, wp_emit. by rewrite unlock_lock.
Qed.

Lemma receive_turn_message m s s' : client.handle_incoming m s = (s', Ok tt) →
  client.receive_turn (Ok (Some m)) s = (s', Ok (client.running_ s')).
Proof.
  intros E. unfold client.receive_turn. rewrite (SM_bind_ok _ _ s s' false); [done|].
  unfold try_catch. rewrite (SM_lift_ok _ _ _ _ eq_refl). by rewrite (SM_bind_ok _ _ _ _ _ E).
Qed.

(** The sending client, from the typed line on. *)
Lemma chat_sent (a : client.client) id pk text : sound false a → is_u32 id → size_t text <= 65495 →
  peer_public (client.key_store_ a) id = Some pk → default false (head (client.sends_ a)) = true →
  ∃ e c, encrypt_for_peer e (identity_secret_ (client.key_store_ a)) pk text = Ok c ∧
    client.input_line (Some (std.to_string id ++ message.colon :: text)) a =
      (sent (drawn a) Chat (to_id (client.my_id_ a) id c), Ok (client.running_ a)).
Proof.
  intros Ha Hid Ht Hpk Hok.
  destruct (wp_returns (client.handle_input_command (mkCmd ChatById id [] text))
    (λ a', ∃ e c, encrypt_for_peer e (identity_secret_ (client.key_store_ a)) pk text = Ok c ∧
      a' = sent (drawn a) Chat (to_id (client.my_id_ a) id c)) a) as (a' & E & e & c & Hc & ->).
  - apply send_chat_by_id_wp; [done..|]. cbn [recipient_id cmd_text]. rewrite Hpk. intros e c Hc. cbn zeta.
    rewrite Hok. by exists e, c.
  - exists e, c. split; [done|]. unfold client.input_line.
    destruct (std.to_string id ++ message.colon :: text) as [|b l] eqn:El.
    { by apply app_eq_nil in El as [_ ?]. }
    rewrite SM_get, (SM_lift_ok _ _ _ _ (eq_trans (f_equal (λ x, parse_input_line x _) (eq_sym El)) (parse_id_line id text _ Hid))).
    by rewrite (SM_bind_ok _ _ _ _ _ E).
Qed.

(** The receiving client. *)
Lemma chat_shown (b : client.client) from body text pk : client.crypto_mutex_ b = false →
  peer_public (client.key_store_ b) from = Some pk →
  decrypt_from_peer (identity_secret_ (client.key_store_ b)) pk body = Ok text →
  client.receive_turn (Ok (Some (mkMessage Deliver (PDeliver (mkDeliver from body))))) b =
    (client.with_out b [client.Show (client.show_delivered from text)], Ok (client.running_ b)).
Proof.
  intros Hf Hpk Hdec.
  destruct (wp_returns (client.handle_incoming (mkMessage Deliver (PDeliver (mkDeliver from body))))
    (λ b', b' = client.with_out b [client.Show (client.show_delivered from text)]) b) as (b' & E & ->).
  - by eapply deliver_wp.
  - by rewrite (receive_turn_message _ _ _ E).
Qed.

End clients.

Section chat.
Context {R : Type} `{server_model.RegistryLaws R}.
Context {C : IMessageCipher} {CL : CipherLaws}.

(** A message from a client that is not banned goes to the dispatcher. *)
Lemma handle_client_data_dispatch (sv : server.server R) fd c m res :
  server.may_send sv fd c →
  server.dispatch server.create_message_dispatcher fd m sv = (res, Ok tt) →
  server_viewmodel.handle_client_data fd (Ok (Some m)) sv = (res, Ok tt).
Proof.
  intros (Hr & Hc & Hb) E. unfold server_viewmodel.handle_client_data, try_catch.
  rewrite server.bind_registry, server_model.law_find, Hc, server.bind_is_banned.
  rewrite bool_decide_eq_false_2 by done. rewrite (server.bind_lift_ok _ (Some m)) by done. by rewrite E.
Qed.

(** Client [a] has, for the client id [id], the public key of [b], whose
    identity is a key pair. *)
Definition acquainted (id : Z) (a b : client.client) : Prop :=
  peer_public (client.key_store_ a) id = Some (identity_public_ (client.key_store_ b)) ∧
  is_pair (identity_secret_ (client.key_store_ b)) (identity_public_ (client.key_store_ b)).

(** The message that carries one typed text, and what the server makes of it. *)
Definition chat_of (alice bob : server_model.ClientRecord) (c : bytes) : ChatPayload :=
  mkChat (server_model.rec_id alice) kRecipientById (be32 (server_model.rec_id bob)) c.
Definition chat_message alice bob c : AppMessage := mkMessage Chat (PChat (chat_of alice bob c)).
Definition deliver_message (alice : server_model.ClientRecord) (c : bytes) : AppMessage :=
  mkMessage Deliver (PDeliver (mkDeliver (server_model.rec_id alice) c)).

(** The two clients of a conversation and the server between them. *)
Record in_touch (sv : server.server R) fdA fdB alice bob (a b : client.client) : Prop := {
  touch_inv : server_loop.srv_inv sv;
  touch_send : server.may_send sv fdA alice;
  touch_bob : server_model.clients (server.registry_ sv) !! fdB = Some bob;
  touch_ban : server_model.rec_id bob ∉ server.banned_ids_ sv;
  touch_a : sound false a;
  touch_b : sound false b;
  touch_id : client.my_id_ a = server_model.rec_id alice;
  touch_ab : acquainted (server_model.rec_id bob) a b;
  touch_ba : acquainted (server_model.rec_id alice) b a
}.

Lemma in_touch_u32 sv fdA fdB alice bob a b : in_touch sv fdA fdB alice bob a b →
  is_u32 (server_model.rec_id alice) ∧ is_u32 (server_model.rec_id bob).
Proof.
  intros H'. pose proof (touch_inv _ _ _ _ _ _ _ H') as Hsv.
  pose proof (server_loop.si_next sv Hsv). destruct (touch_send _ _ _ _ _ _ _ H') as (_ & HA & _).
  destruct (server_loop.si_client sv Hsv _ _ HA) as (_ & ? & _).
  destruct (server_loop.si_client sv Hsv _ _ (touch_bob _ _ _ _ _ _ _ H')) as (_ & ? & _). unfold is_u32. lia.
Qed.

(** What one typed text does at the three programs. *)
Lemma chat_step sv fdA fdB alice bob a b text : in_touch sv fdA fdB alice bob a b →
  default false (head (client.sends_ a)) = true → size_t text <= 65495 →
  ∃ c label, length c = (40 + length text)%nat ∧ wf_chat (chat_of alice bob c) ∧
    client.input_line (Some (std.to_string (server_model.rec_id bob) ++ message.colon :: text)) a =
      (sent (drawn a) Chat (chat_bytes (chat_of alice bob c)), Ok (client.running_ a)) ∧
    server_viewmodel.handle_client_data fdA (Ok (Some (chat_message alice bob c))) sv =
      (server.with_effects sv
        [server.View (server.show_chat (server_model.rec_id alice) label (str "Chat"));
         server.Sent fdB Deliver (deliver_bytes (mkDeliver (server_model.rec_id alice) c))], Ok tt) ∧
    client.receive_turn (Ok (Some (deliver_message alice c))) b =
      (client.with_out b [client.Show (client.show_delivered (server_model.rec_id alice) text)],
       Ok (client.running_ b)).
Proof.
  intros Hin Hok Htext. destruct (in_touch_u32 _ _ _ _ _ _ _ Hin) as [HuA HuB].
  destruct Hin as [_ Hsend HB Hban Ha Hb Hid [HpkB HpairB] [HpkA HpairA]].
  destruct (chat_sent a (server_model.rec_id bob) _ text Ha HuB Htext HpkB Hok) as (e & c & Hc & Erun).
  destruct (law_encrypt e _ _ text (proj1 (law_pair_length _ _ HpairA)) (proj2 (law_pair_length _ _ HpairB)))
    as (c' & Hc' & Hlen). rewrite Hc in Hc'. injection Hc' as <-.
  assert (wf_chat (chat_of alice bob c)) as Hwf.
  { split_and!; [done|by left|]. cbn. unfold wf_string. rewrite Hlen. lia. }
  destruct (server.relay_unicast_aux sv fdA alice Chat Deliver (str "Chat") (chat_of alice bob c) (ToId (server_model.rec_id bob)))
    as (label & Hrun & _); [done|done|done| |done|].
  { unfold addressed_to. cbn [recipient_tag recipient_data chat_of]. rewrite decide_True by done.
    rewrite (proj2 (read_u32_be_iff _ (server_model.rec_id bob))); [done|]. split; [done|]. exists []. by rewrite app_nil_r. }
  specialize (Hrun fdB bob HB eq_refl). rewrite decide_False in Hrun by done.
  exists c, label. split_and!; [done|done|by rewrite Erun, Hid| |].
  - erewrite handle_client_data_dispatch; [|done..]. unfold server.with_effects. client_cbn. cbn [server.effects].
    by rewrite <-app_assoc.
  - eapply chat_shown; [by destruct Hb|done|by eapply law_decrypt].
Qed.

(** End to end.  When one user types [id:text] for another, whose public key
    the client has, the client sends one Chat; the server, on reading it, sends
    one Deliver to the recipient's connection and nothing to anybody else; and
    the recipient's client shows exactly the typed text, under the sender's id. *)
Theorem chat_end_to_end (sv : server.server R) fdA fdB alice bob (a b : client.client) text :
  server_loop.srv_inv sv → server.may_send sv fdA alice →
  server_model.clients (server.registry_ sv) !! fdB = Some bob →
  server_model.rec_id bob ∉ server.banned_ids_ sv →
  sound false a → sound false b →
  client.my_id_ a = server_model.rec_id alice → default false (head (client.sends_ a)) = true →
  acquainted (server_model.rec_id bob) a b → acquainted (server_model.rec_id alice) b a →
  size_t text <= 65495 →
  ∃ p a' m label sv' p' m' b',
    client.input_line (Some (std.to_string (server_model.rec_id bob) ++ message.colon :: text)) a =
      (a', Ok (client.running_ a)) ∧
    client.out_ a' = client.out_ a ++ [client.Sent (client.session_fd_ a) Chat p true] ∧
    decode_app_message (make_frame Chat p 0) = Ok m ∧
    server_viewmodel.handle_client_data fdA (Ok (Some m)) sv = (sv', Ok tt) ∧
    server.effects sv' = server.effects sv ++
      [server.View (server.show_chat (server_model.rec_id alice) label (str "Chat"));
       server.Sent fdB Deliver p'] ∧
    decode_app_message (make_frame Deliver p' 0) = Ok m' ∧
    client.receive_turn (Ok (Some m')) b = (b', Ok (client.running_ b)) ∧
    client.out_ b' = client.out_ b ++ [client.Show (client.show_delivered (server_model.rec_id alice) text)].
Proof.
  intros Hsv Hsend HB Hban Ha Hb Hid Hok Hab Hba Htext.
  destruct (chat_step sv fdA fdB alice bob a b text) as (c & label & _ & Hwf & Ea & Es & Eb); [done..|].
  destruct (in_touch_u32 sv fdA fdB alice bob a b) as [HuA _]; [done..|].
  exists (chat_bytes (chat_of alice bob c)). eexists. exists (chat_message alice bob c), label. eexists.
  exists (deliver_bytes (mkDeliver (server_model.rec_id alice) c)), (deliver_message alice c). eexists.
  split_and!; [exact Ea| | |exact Es|done| |exact Eb|done].
  - unfold sent, drawn. destruct a. client_cbn. by rewrite Hok.
  - destruct (decode_chat_head (chat_of alice bob c) [] Hwf) as [_ Ed]. rewrite app_nil_r in Ed.
    apply decode_app_message_iff. eexists. split; [done|]. cbn [msg_type msg_payload decode_payload chat_message].
    by rewrite Ed.
  - apply decode_app_message_iff. eexists. split; [done|]. cbn [msg_type msg_payload decode_payload deliver_message].
    destruct (decode_deliver_head (server_model.rec_id alice) c []) as [_ Ed]; [split; [done|by apply Hwf]|].
    rewrite app_nil_r in Ed. by rewrite Ed.
Qed.

End chat.

(** ** Keys *)

Section keys.
Context {C : IMessageCipher} {CL : CipherLaws}.
Implicit Types s : client.client.

(** The messages among a client's effects. *)
Definition sent_of (es : list client.effect) : list (MsgType * bytes) :=
  omap (λ e, match e with client.Sent _ t p _ => Some (t, p) | _ => None end) es.

(** What the messages about keys leave of a client: its keys, whom it has offered
    its key to, what it sent and the results of the sends to come. *)
Record became s (store : PeerKeyStore) (offered : gset Z) (msgs : list (MsgType * bytes)) (s' : client.client)
    : Prop := {
  became_store : client.key_store_ s' = store;
  became_offered : client.key_offered_to_ s' = offered;
  became_sent : sent_of (client.out_ s') = sent_of (client.out_ s) ++ msgs;
  became_sends : client.sends_ s' = drop (length msgs) (client.sends_ s);
  became_id : client.my_id_ s' = client.my_id_ s;
  became_free : client.crypto_mutex_ s' = false
}.

Lemma sent_of_app a b : sent_of (a ++ b) = sent_of a ++ sent_of b.
Proof. apply omap_app. Qed.

Lemma became_trans s s1 s2 store1 store2 off1 off2 m1 m2 :
  became s store1 off1 m1 s1 → became s1 store2 off2 m2 s2 → became s store2 off2 (m1 ++ m2) s2.
Proof.
  intros [_ _ E1 F1 I1 _] [Es Eo E2 F2 I2 Ef]. split; [done|done| | |congruence|done].
  - by rewrite E2, E1, app_assoc.
  - by rewrite F2, F1, drop_drop, length_app.
Qed.

(** The next [n] sends succeed. *)
Definition will_send (n : nat) s : Prop := take n (client.sends_ s) = replicate n true.

Lemma will_send_head n s : will_send (S n) s → default false (head (client.sends_ s)) = true.
Proof. unfold will_send. destruct (client.sends_ s); [done|]. by intros [= -> _]. Qed.

Lemma will_send_fewer n m s : will_send m s → (n <= m)%nat → will_send n s.
Proof.
  unfold will_send. intros Hw Hn. rewrite <-(Nat.min_l n m) at 1 by done.
  rewrite <-take_take, Hw, take_replicate. f_equal. lia.
Qed.

Lemma will_send_became n s store off msgs s' : became s store off msgs s' →
  will_send (length msgs + n) s → will_send n s'.
Proof.
  intros [_ _ _ E _ _] Hw. unfold will_send in *. rewrite E. clear E.
  revert Hw. generalize (client.sends_ s) (length msgs). intros l k. revert l.
  induction k as [|k IH]; intros l Hw; [done|]. destruct l as [|b l]; [done|]. injection Hw as _ Hw.
  cbn [drop]. by apply IH.
Qed.

Lemma with_peers_id store : with_peers store (peers_ store) = store.
Proof. by destruct store. Qed.

Lemma offer_became id s E : sound false s → will_send 1 s → id ≠ 0 → id ≠ client.my_id_ s →
  wp (client.send_key_offer id)
    (λ _, became s (client.key_store_ s) ({[id]} ∪ client.key_offered_to_ s)
       (if decide (id ∈ client.key_offered_to_ s) then []
        else [(KeyOffer, to_id (client.my_id_ s) id (identity_public_ (client.key_store_ s)))])) E s.
Proof.
  intros Hs Hw H0 Hme. apply send_key_offer_wp; [done|]. rewrite (will_send_head 0 s Hw).
  destruct (decide (id ∈ client.key_offered_to_ s)) as [Hin|Hin].
  - rewrite decide_True by auto. destruct Hs as [Hf _]. split; try done; [set_solver|].
    by rewrite app_nil_r.
  - rewrite decide_False by naive_solver. cbn zeta. destruct Hs as [Hf _]. unfold sent. destruct s.
    client_cbn. split; try done. client_cbn. by rewrite <-app_assoc, sent_of_app.
Qed.

(** The message, if any, that passes a room key on. *)
Definition room_offer (room : option bytes) (from to : Z) (c : bytes) : list (MsgType * bytes) :=
  match room with Some _ => [(RoomKeyOffer, to_id from to c)] | None => [] end.

Lemma room_offer_became id pk s E : sound false s → will_send 1 s →
  peer_public (client.key_store_ s) id = Some pk →
  wp (client.maybe_send_room_key id)
    (λ _ s', ∃ c, became s (client.key_store_ s) (client.key_offered_to_ s)
       (room_offer (room_key_ (client.key_store_ s)) (client.my_id_ s) id c) s' ∧
       ∀ k, room_key_ (client.key_store_ s) = Some k →
         ∃ e, seal_room_key e (identity_secret_ (client.key_store_ s)) pk k = Ok c) E s.
Proof.
  intros Hs Hw Hpk. apply maybe_send_room_key_wp; [done|]. rewrite Hpk, (will_send_head 0 s Hw).
  destruct Hs as [Hf _]. destruct (room_key_ (client.key_store_ s)) as [k|] eqn:Ek; cycle 1.
  { exists []. split; [|done]. split; try done. by rewrite app_nil_r. }
  intros e c Hc. cbn zeta. exists c. split; [|intros k' [= <-]; by exists e].
  unfold sent, drawn. destruct s. client_cbn. split; try done. client_cbn. by rewrite <-app_assoc, sent_of_app.
Qed.

(** The message the server makes of a room key offer, if there was one. *)
Definition room_delivery (room : option bytes) (from : Z) (c : bytes) : list AppMessage :=
  match room with Some _ => [mkMessage RoomKey (PDeliver (mkDeliver from c))] | None => [] end.

Lemma room_key_wp from c pk k s (Q : unit → client.client → Prop) E : client.crypto_mutex_ s = false →
  peer_public (client.key_store_ s) from = Some pk →
  open_room_key (identity_secret_ (client.key_store_ s)) pk c = Ok k →
  Q tt (client.with_out (client.with_store s (with_room_key (client.key_store_ s) (Some k)))
     [client.LogInfo (client.with_detail (str "Received room key") (str "from_id=" ++ std.to_string from));
      client.Show (client.show_notice (str "Received room key"))]) →
  wp (client.handle_incoming (mkMessage RoomKey (PDeliver (mkDeliver from c)))) Q E s.
Proof.
  intros Hf Hpk Hopen HQ. apply wp_bind, (wp_lift_ok _ (mkDeliver from c)); [done|].
  cbn [deliver_from_id deliver_text]. apply wp_try_catch, wp_locked; [done|]. apply wp_bind, wp_get.
  change (client.key_store_ (client.with_mutex s true)) with (client.key_store_ s). rewrite Hpk.
  apply wp_bind, (wp_lift_ok _ k); [done|]. apply wp_bind, wp_on_store.
  unfold set_room_key. rewrite decide_False; cycle 1.
  { intros Hn. by apply law_open_length in Hopen. }
  apply wp_modify, wp_report_info. destruct s. client_cbn. by subst.
Qed.

Lemma became_none s s1 store : client.key_store_ s1 = store → client.key_offered_to_ s1 = client.key_offered_to_ s →
  sent_of (client.out_ s1) = sent_of (client.out_ s) → client.sends_ s1 = client.sends_ s →
  client.my_id_ s1 = client.my_id_ s → client.crypto_mutex_ s1 = false →
  became s store (client.key_offered_to_ s) [] s1.
Proof. intros. split; try done. by rewrite app_nil_r. Qed.

(** The key offer made to a client, unless it was made before. *)
Definition key_offer s (id : Z) : list (MsgType * bytes) :=
  if decide (id ∈ client.key_offered_to_ s) then []
  else [(KeyOffer, to_id (client.my_id_ s) id (identity_public_ (client.key_store_ s)))].

(** Somebody joins: the client offers its key. *)
Lemma joined_became id n s : sound false s → will_send 1 s → id ≠ 0 → id ≠ client.my_id_ s →
  ∃ s', client.handle_incoming (mkMessage UserJoined (PUserJoined (mkUserJoined id n))) s = (s', Ok tt) ∧
    became s (client.key_store_ s) ({[id]} ∪ client.key_offered_to_ s) (key_offer s id) s'.
Proof.
  intros Hs Hw H0 Hme. apply wp_returns, user_joined_wp; [done..|].
  set (s1 := client.with_out _ _). destruct Hs as [Hf Hok].
  assert (became s (client.key_store_ s) (client.key_offered_to_ s) [] s1) as Hb.
  { apply became_none; try done. unfold s1. destruct s. client_cbn. by rewrite sent_of_app, app_nil_r. }
  eapply wp_mono; [apply (offer_became id s1 (λ _ _, False))| |done]; [by split| |done..|].
  { by apply (will_send_became 1 s _ _ [] s1 Hb). }
  intros [] s2 Hb2. change (key_offer s id) with ([] ++ key_offer s id). by eapply became_trans.
Qed.

(** A peer's key arrives: the client keeps it, offers its own and passes on the
    room key it has. *)
Lemma peer_key_became from pk s : sound false s → will_send 2 s → is_u32 from → from ≠ 0 →
  from ≠ client.my_id_ s → length pk = kPublicKeySize →
  ∃ s', client.handle_incoming (mkMessage PeerKey (PDeliver (mkDeliver from pk))) s = (s', Ok tt) ∧
    ∃ c, became s (with_peers (client.key_store_ s) (<[from := pk]> (peers_ (client.key_store_ s))))
           ({[from]} ∪ client.key_offered_to_ s)
           (key_offer s from ++ room_offer (room_key_ (client.key_store_ s)) (client.my_id_ s) from c) s' ∧
      ∀ k, room_key_ (client.key_store_ s) = Some k →
        ∃ e, seal_room_key e (identity_secret_ (client.key_store_ s)) pk k = Ok c.
Proof.
  intros Hs Hw Hid H0 Hme Hpk. apply wp_returns, peer_key_wp; [done..|].
  set (store := with_peers _ _). set (s1 := client.with_out _ _). destruct Hs as [Hf Hok].
  assert (store_ok store) as Hok' by (by apply store_ok_insert).
  assert (became s store (client.key_offered_to_ s) [] s1) as Hb.
  { apply became_none; try done. unfold s1. destruct s. client_cbn. by rewrite sent_of_app, app_nil_r. }
  assert (will_send 2 s1) as Hw1 by (by apply (will_send_became 2 s _ _ [] s1 Hb)).
  apply wp_bind. eapply wp_mono; [apply (offer_became from s1 (λ _ _, False))| |done]; [by split| |done..|].
  { apply (will_send_fewer 1 2); [done|lia]. }
  intros [] s2 Hb2. assert (Hb12 := became_trans _ _ _ _ _ _ _ _ _ Hb Hb2).
  eapply wp_mono; [apply (room_offer_became from pk s2 (λ _ _, False))| |done].
  - split; [apply Hb12|]. by rewrite (became_store _ _ _ _ _ Hb12).
  - eapply (will_send_became 1); [exact Hb12|]. apply (will_send_fewer _ 2); [done|].
    cbn [app]. case_decide; cbn [length]; lia.
  - rewrite (became_store _ _ _ _ _ Hb12). apply lookup_insert_eq.
  - intros [] s3 (c & Hb3 & Hc). exists c.
    destruct (Hb12) as [E1 E2 _ _ E5 _]. rewrite E1, E2, E5 in Hb3. rewrite E1 in Hc.
    split; [|done]. by apply (became_trans _ _ _ _ _ _ _ _ _ Hb12 Hb3).
Qed.

(** The room key arrives. *)
Lemma room_key_became room from c pk s : client.crypto_mutex_ s = false →
  peer_public (client.key_store_ s) from = Some pk →
  (∀ k, room = Some k → open_room_key (identity_secret_ (client.key_store_ s)) pk c = Ok k) →
  ∃ s', for_each (room_delivery room from c) client.handle_incoming s = (s', Ok tt) ∧
    became s (with_room_key (client.key_store_ s) (if room is Some k then Some k else room_key_ (client.key_store_ s)))
      (client.key_offered_to_ s) [] s'.
Proof.
  intros Hf Hpk Hopen. destruct room as [k|]; cycle 1.
  { exists s. split; [done|]. apply became_none; try done. by destruct (client.key_store_ s). }
  apply wp_returns, wp_bind. apply (room_key_wp from c pk k); [done|done|by apply Hopen|].
  apply wp_ret. apply became_none; try done. destruct s. client_cbn. by rewrite sent_of_app, app_nil_r.
Qed.

(** C14. Key exchange.  When a client B joins a client A, neither of which has
    offered its key to the other, the messages their clients send each other, as
    the server passes them on, leave each with the other's public key; A's room
    key, if it has one, becomes B's, and B's, if it has one, becomes A's.  So they
    end with the same room key when at most one of them had one before, and with
    each other's when both had. *)
Theorem key_exchange (a b : client.client) nickname (A := client.my_id_ a) (B := client.my_id_ b)
    (ra := room_key_ (client.key_store_ a)) (rb := room_key_ (client.key_store_ b))
    (pkA := identity_public_ (client.key_store_ a)) (pkB := identity_public_ (client.key_store_ b)) :
  sound false a → sound false b → is_u32 A → is_u32 B → A ≠ 0 → B ≠ 0 → A ≠ B →
  is_pair (identity_secret_ (client.key_store_ a)) pkA → is_pair (identity_secret_ (client.key_store_ b)) pkB →
  B ∉ client.key_offered_to_ a → A ∉ client.key_offered_to_ b →
  will_send 3 a → will_send 2 b →
  ∃ a1 b1 a2 b2 a3 ca cb,
    client.handle_incoming (mkMessage UserJoined (PUserJoined (mkUserJoined B nickname))) a = (a1, Ok tt) ∧
    sent_of (client.out_ a1) = sent_of (client.out_ a) ++ [(KeyOffer, to_id A B pkA)] ∧
    client.handle_incoming (mkMessage PeerKey (PDeliver (mkDeliver A pkA))) b = (b1, Ok tt) ∧
    sent_of (client.out_ b1) = sent_of (client.out_ b) ++ (KeyOffer, to_id B A pkB) :: room_offer rb B A cb ∧
    client.handle_incoming (mkMessage PeerKey (PDeliver (mkDeliver B pkB))) a1 = (a2, Ok tt) ∧
    sent_of (client.out_ a2) = sent_of (client.out_ a1) ++ room_offer ra A B ca ∧
    for_each (room_delivery ra A ca) client.handle_incoming b1 = (b2, Ok tt) ∧
    for_each (room_delivery rb B cb) client.handle_incoming a2 = (a3, Ok tt) ∧
    peer_public (client.key_store_ a3) B = Some pkB ∧ peer_public (client.key_store_ b2) A = Some pkA ∧
    room_key_ (client.key_store_ a3) = (if rb is Some k then Some k else ra) ∧
    room_key_ (client.key_store_ b2) = (if ra is Some k then Some k else rb).
Proof.
  intros Ha Hb HA HB HA0 HB0 HAB HpA HpB HoA HoB HwA HwB.
  destruct (joined_became B nickname a) as (a1 & Ea1 & Ba1); [done|by apply (will_send_fewer 1 3); [|lia]|done..|].
  destruct (peer_key_became A pkA b) as (b1 & Eb1 & cb & Bb1 & Hcb);
    [done..|by apply (law_pair_length _ _ HpA)|].
  unfold key_offer in Ba1, Bb1. rewrite decide_False in Ba1 by done.
  rewrite decide_False in Bb1 by done.
  destruct (Ba1) as [Sa1 Oa1 _ _ Ia1 Fa1].
  destruct (peer_key_became B pkB a1) as (a2 & Ea2 & ca & Ba2 & Hca);
    [by split; [|rewrite Sa1; apply Ha]|by apply (will_send_became 2 _ _ _ _ _ Ba1)
    |done|done|by rewrite Ia1|by apply (law_pair_length _ _ HpB)|].
  unfold key_offer in Ba2. rewrite decide_True in Ba2 by (rewrite Oa1; set_solver).
  rewrite Sa1, Ia1 in Ba2. rewrite Sa1 in Hca.
  destruct (room_key_became ra A ca pkA b1) as (b2 & Eb2 & Bb2).
  { apply Bb1. }
  { rewrite (became_store _ _ _ _ _ Bb1). apply lookup_insert_eq. }
  { intros k Hk. rewrite (became_store _ _ _ _ _ Bb1). destruct (Hca k Hk) as [e He]. by eapply law_open. }
  destruct (room_key_became rb B cb pkB a2) as (a3 & Ea3 & Ba3).
  { apply Ba2. }
  { rewrite (became_store _ _ _ _ _ Ba2). apply lookup_insert_eq. }
  { intros k Hk. rewrite (became_store _ _ _ _ _ Ba2). destruct (Hcb k Hk) as [e He]. by eapply law_open. }
  exists a1, b1, a2, b2, a3, ca, cb.
  split_and!; [done|apply Ba1|done|apply Bb1|done|apply Ba2|done|done|..].
  - rewrite (became_store _ _ _ _ _ Ba3), (became_store _ _ _ _ _ Ba2). apply lookup_insert_eq.
  - rewrite (became_store _ _ _ _ _ Bb2), (became_store _ _ _ _ _ Bb1). apply lookup_insert_eq.
  - by rewrite (became_store _ _ _ _ _ Ba3), (became_store _ _ _ _ _ Ba2).
  - by rewrite (became_store _ _ _ _ _ Bb2), (became_store _ _ _ _ _ Bb1).
Qed.

End keys.

(** ** The theorems applied *)

(** A second client, which knows the first one's key. *)
Definition demo_peer : client.client :=
  client.mkClient demo_config 4 2
    (mkStore (replicate 32 Byte.x07) (replicate 32 Byte.x07) (Some (replicate 32 Byte.x06))
       {[1 := replicate 32 Byte.x00]})
    false ∅ ∅ ∅ true false 4 ∅ [true; true; true] [] [] [].

Lemma demo_peer_ready : sound false demo_peer.
Proof.
  split; [reflexivity|]. split_and!; [reflexivity..|by intros key [= <-]|].
  apply map_Forall_singleton. split; [unfold is_u32; lia|reflexivity].
Qed.

Lemma demo_pairs :
  @is_pair _ MonocypherMessageCipher_laws (replicate 32 Byte.x00) (replicate 32 Byte.x00) ∧
  @is_pair _ MonocypherMessageCipher_laws (replicate 32 Byte.x07) (replicate 32 Byte.x07).
Proof. split; split; reflexivity. Qed.

Lemma chat_end_to_end_witness : ∃ p sv' p' m m' b',
  decode_app_message (make_frame Chat p 0) = Ok m ∧
  server_viewmodel.handle_client_data 5 (Ok (Some m)) server.demo = (sv', Ok tt) ∧
  decode_app_message (make_frame Deliver p' 0) = Ok m' ∧
  client.receive_turn (Ok (Some m')) demo_peer = (b', Ok true) ∧
  client.out_ b' = [client.Show (client.show_delivered 1 (str "hi"))].
Proof.
  destruct (chat_end_to_end server.demo 5 6 (server_model.mkRecord 5 1 [] false)
    (server_model.mkRecord 6 2 (str "bob") true) demo_client demo_peer (str "hi"))
    as (p & a' & m & l & sv' & p' & m' & b' & _ & _ & Hm & Hsv & _ & Hm' & Hb & Ho).
  - exact server_loop.demo_inv.
  - exact server.demo_may_send.
  - reflexivity.
  - apply (bool_decide_unpack _). vm_compute. exact I.
  - exact demo_ready.
  - exact demo_peer_ready.
  - reflexivity.
  - reflexivity.
  - split; [reflexivity|exact (proj2 demo_pairs)].
  - split; [reflexivity|exact (proj1 demo_pairs)].
  - cbn. lia.
  - exists p, sv', p', m, m', b'. split_and!; [exact Hm|exact Hsv|exact Hm'|exact Hb|exact Ho].
Defined.

(** Two clients that have not met, each with a room key of its own. *)
Definition demo_new : client.client :=
  client.mkClient demo_config 5 9
    (mkStore (replicate 32 Byte.x07) (replicate 32 Byte.x07) (Some (replicate 32 Byte.x06)) ∅)
    false ∅ ∅ ∅ true false 4 ∅ [true; true; true] [] [] [].

Lemma demo_new_ready : sound false demo_new.
Proof.
  split; [reflexivity|]. split_and!; [reflexivity..|by intros key [= <-]|]. apply map_Forall_empty.
Qed.

Lemma key_exchange_witness : ∃ a1 b1 a2 b2 a3 ca cb,
  client.handle_incoming (mkMessage UserJoined (PUserJoined (mkUserJoined 9 (str "eve")))) demo_client = (a1, Ok tt) ∧
  client.handle_incoming (mkMessage PeerKey (PDeliver (mkDeliver 1 (replicate 32 Byte.x00)))) demo_new = (b1, Ok tt) ∧
  client.handle_incoming (mkMessage PeerKey (PDeliver (mkDeliver 9 (replicate 32 Byte.x07)))) a1 = (a2, Ok tt) ∧
  for_each [mkMessage RoomKey (PDeliver (mkDeliver 1 ca))] client.handle_incoming b1 = (b2, Ok tt) ∧
  for_each [mkMessage RoomKey (PDeliver (mkDeliver 9 cb))] client.handle_incoming a2 = (a3, Ok tt) ∧
  room_key_ (client.key_store_ a3) = Some (replicate 32 Byte.x06) ∧
  room_key_ (client.key_store_ b2) = Some (replicate 32 Byte.x05).
Proof.
  destruct (key_exchange demo_client demo_new (str "eve"))
    as (a1 & b1 & a2 & b2 & a3 & ca & cb & E1 & _ & E2 & _ & E3 & _ & E4 & E5 & _ & _ & Ea & Eb).
  - exact demo_ready.
  - exact demo_new_ready.
  - unfold is_u32. cbn. lia.
  - unfold is_u32. cbn. lia.
  - discriminate.
  - discriminate.
  - discriminate.
  - exact (proj1 demo_pairs).
  - exact (proj2 demo_pairs).
  - apply (bool_decide_unpack _). vm_compute. exact I.
  - apply (bool_decide_unpack _). vm_compute. exact I.
  - reflexivity.
  - reflexivity.
  - exists a1, b1, a2, b2, a3, ca, cb.
    split_and!; [exact E1|exact E2|exact E3|exact E4|exact E5|exact Ea|exact Eb].
Defined.

End end_to_end.
