(* ===== verification/Conversation.v ===== *)
(** * A conversation, from the keyboard through the sockets to the screen

    EndToEnd follows one text; here one user types any number of them.  The
    messages go through the byte streams of both connections, which the kernel may
    cut as it likes, and through the server, and the texts reach the other user's
    screen whole, in order and once each.  Texts are bounded by the largest one
    whose frame fits the 16-bit length field; the last theorem is about the few
    longer ones that the client still accepts. *)
From S2P Require Import Prelude.
From S2P Require Import ModbusTcp.
From S2P Require Import Protocol.
From S2P Require Import Transport.
From S2P Require Import CppString.
From S2P Require Import ClientRegistry.
From S2P Require Import ServerHandlers.
From S2P Require Import ServerViewModel.
From S2P Require Import ServerLoop.
From S2P Require Import PeerKeyStore.
From S2P Require Import Cipher.
From S2P Require Import Message.
From S2P Require Import ClientCommands.
From S2P Require Import ClientViewModel.
From S2P Require Import ClientFacts.
From S2P Require Import EndToEnd.

Module conversation.
Import protocol crypto cipher client_viewmodel client_facts end_to_end.
Import ModbusMessageTransport.

(** ** Loops and streams *)

(** The input loop and the receive loop: a turn after the other, for as long as
    the turn says that the client runs. *)
Fixpoint turns {A} (turn : A → SM client.client bool) (inputs : list A) : SM client.client unit :=
  match inputs with
  | [] => skip
  | x :: inputs => go ← turn x; if go : bool then turns turn inputs else skip
  end.

(** The bytes that messages of one type are on a connection. *)
Definition stream (type : MsgType) (payloads : list bytes) : bytes :=
  concat ((λ p, modbus.encode (make_frame type p 0)) <$> payloads).

(** What a reader makes of the bytes, however the kernel cuts them. *)
Definition arrives (bs : bytes) (ms : list AppMessage) : Prop :=
  ∀ rest script, modbus.live script → (length bs ≤ length script)%nat →
    ∃ script', receive_n (length ms) (modbus.mkIn (bs ++ rest) script) = Some (ms, modbus.mkIn rest script').

Lemma stream_arrives type (ms : list AppMessage) ps :
  Forall2 (λ m p, msg_type m = type ∧ sendable m p) ms ps → arrives (stream type ps) ms.
Proof.
  intros H rest script Hl Hlen.
  assert (stream type ps = concat ((λ mp, wire mp.1 mp.2) <$> zip ms ps) ∧ (zip ms ps).*1 = ms ∧
    Forall (λ mp, sendable mp.1 mp.2) (zip ms ps)) as (E & Ez & Hs).
  { unfold stream. clear Hl Hlen. induction H as [|m p ms ps [<- Hm] H (E1 & E2 & IH)]; [done|]. cbn in *.
    rewrite E1, E2. by split_and!; [| |constructor]. }
  rewrite E in *. replace (length ms) with (length (zip ms ps)) by (by rewrite <-Ez at 2; rewrite length_fmap).
  destruct (receive_n_wire (zip ms ps) rest script Hs Hl Hlen) as (script' & ->). rewrite Ez. eauto.
Qed.

(** The messages among the server's effects. *)
Definition messages_of (es : list server.effect) : list (Z * MsgType * bytes) :=
  omap (λ e, if e is server.Sent fd t p then Some (fd, t, p) else None) es.

Section conversation.
Context {R : Type} `{server_model.RegistryLaws R}.
Context {C : IMessageCipher} {CL : CipherLaws}.
Implicit Types (a b : client.client) (sv : server.server R).

(** What is typed for a recipient. *)
Definition typed_for (id : Z) (text : bytes) : bytes := std.to_string id ++ message.colon :: text.

(** A text has been sent, relayed and shown: the three go on as before. *)
Lemma in_touch_next sv fdA fdB alice bob a b es p t :
  in_touch sv fdA fdB alice bob a b →
  in_touch (server.with_effects sv es) fdA fdB alice bob (sent (drawn a) Chat p)
    (client.with_out b [client.Show t]).
Proof.
  intros []. split; try done. by apply server_loop.srv_inv_effects.
Qed.

Lemma will_send_next n a p : will_send (S n) a → will_send n (sent (drawn a) Chat p).
Proof. unfold will_send, sent, drawn. destruct a as [? ? ? ? ? ? ? ? ? ? ? ? [|ok sends] ? ? ?]; [done|]. by intros [= _ ?]. Qed.

(** Both loops on a list of texts, and the server between them. *)
Lemma conversation_steps fdA fdB alice bob texts : ∀ sv a b,
  in_touch sv fdA fdB alice bob a b → will_send (length texts) a →
  client.running_ a = true → client.running_ b = true → Forall (λ text, size_t text <= 65495) texts →
  ∃ cs a' sv' b',
    Forall2 (λ c text, length c = (40 + length text)%nat ∧ wf_chat (chat_of alice bob c)) cs texts ∧
    turns (λ line, client.input_line (Some line)) (typed_for (server_model.rec_id bob) <$> texts) a = (a', Ok tt) ∧
    client.out_ a' = client.out_ a ++
      ((λ c, client.Sent (client.session_fd_ a) Chat (chat_bytes (chat_of alice bob c)) true) <$> cs) ∧
    for_each (chat_message alice bob <$> cs)
      (λ m, server_viewmodel.handle_client_data fdA (Ok (Some m))) sv = (sv', Ok tt) ∧
    messages_of (server.effects sv') = messages_of (server.effects sv) ++
      ((λ c, (fdB, Deliver, deliver_bytes (mkDeliver (server_model.rec_id alice) c))) <$> cs) ∧
    turns (λ m, client.receive_turn (Ok (Some m))) (deliver_message alice <$> cs) b = (b', Ok tt) ∧
    client.out_ b' = client.out_ b ++
      ((λ text, client.Show (client.show_delivered (server_model.rec_id alice) text)) <$> texts).
Proof.
  induction texts as [|text texts IH]; intros sv a b Ht Hw Hra Hrb Hts.
  { exists [], a, sv, b. cbn. rewrite !app_nil_r. by split_and!. }
  apply Forall_cons in Hts as [Htext Hts].
  destruct (chat_step sv fdA fdB alice bob a b text Ht (will_send_head _ _ Hw) Htext)
    as (c & label & Hlen & Hwf & Ea & Es & Eb).
  edestruct IH as (cs & a' & sv' & b' & Hcs & Ea' & Oa & Es' & Os & Eb' & Ob);
    [by eapply in_touch_next|by apply will_send_next|done|done|done|].
  exists (c :: cs), a', sv', b'. split_and!; [by constructor|..].
  - cbn [turns fmap list_fmap]. unfold typed_for at 1. rewrite (SM_bind_ok _ _ _ _ _ Ea), Hra. exact Ea'.
  - rewrite Oa. pose proof (will_send_head _ _ Hw) as Hok. unfold sent, drawn. destruct a. client_cbn.
    rewrite Hok, <-app_assoc. done.
  - cbn [for_each fmap list_fmap]. rewrite (SM_bind_ok _ _ _ _ _ Es). exact Es'.
  - rewrite Os. unfold messages_of. unfold server.with_effects. cbn [server.effects]. by rewrite omap_app, <-app_assoc.
  - cbn [turns fmap list_fmap]. rewrite (SM_bind_ok _ _ _ _ _ Eb), Hrb. exact Eb'.
  - rewrite Ob. destruct b. client_cbn. by rewrite <-app_assoc.
Qed.

(** Both kinds of message fit their frames. *)
Lemma chat_sendable alice bob c (text : bytes) : length c = (40 + length text)%nat → size_t text <= 65481 →
  wf_chat (chat_of alice bob c) → sendable (chat_message alice bob c) (chat_bytes (chat_of alice bob c)).
Proof.
  intros Hlen Ht Hwf. split_and!; [done|by apply (decode_chat_head _ [])|].
  unfold chat_bytes, chat_of. cbn [chat_from_id recipient_tag recipient_data chat_text].
  rewrite !length_app, length_lstr. cbn [length be32]. lia.
Qed.

Lemma deliver_sendable alice bob c (text : bytes) : length c = (40 + length text)%nat → size_t text <= 65481 →
  wf_chat (chat_of alice bob c) →
  sendable (deliver_message alice c) (deliver_bytes (mkDeliver (server_model.rec_id alice) c)).
Proof.
  intros Hlen Ht (Hid & _ & Hwf). split_and!; [by split|by apply encode_deliver_iff|].
  unfold deliver_bytes. cbn [deliver_from_id deliver_text].
  rewrite !length_app, length_lstr. cbn [length be32]. lia.
Qed.


End conversation.

(** ** Texts that are too long for a frame *)

(** A header with a zero length field: [read_frame] gives up after it. *)
Lemma read_frame_zero h1 h2 h3 h4 bs script : modbus.live script → (6 ≤ length script)%nat →
  ∃ script', modbus.read_frame (modbus.mkIn (h1 :: h2 :: h3 :: h4 :: Byte.x00 :: Byte.x00 :: bs) script)
      [] modbus.Frame_default = Some (Ok (false, [], modbus.Frame_default), modbus.mkIn bs script').
Proof.
  intros Hl Hs. unfold modbus.read_frame, modbus.kMbapHeaderSize.
  destruct (modbus.read_exact_live script 6 (h1 :: h2 :: h3 :: h4 :: Byte.x00 :: Byte.x00 :: bs) Hl)
    as (s1 & _ & _ & ->); [done|cbn; lia|]. by exists s1.
Qed.

(** A frame whose length field has wrapped around begins with a shorter frame. *)
Lemma encode_wrapped f (k := Z.to_nat (size_t (modbus.pdu f) - 65536)) : modbus.transaction_id f = 0 →
  65536 <= size_t (modbus.pdu f) < 131071 →
  let f' := modbus.mkFrame 0 (modbus.unit_id f) (take k (modbus.pdu f)) in
  modbus.wf_frame f' ∧ modbus.encode f = modbus.encode f' ++ drop k (modbus.pdu f).
Proof.
  intros Ht Hp. cbn zeta. set (f' := modbus.mkFrame _ _ _).
  assert (length (modbus.pdu f') = k) as El by (cbn; rewrite length_take; lia). split.
  { split; [done|]. rewrite El. lia. }
  rewrite !modbus.encode_spec by (rewrite ?Ht; done). cbn zeta.
  replace (to_u16 (size_t (modbus.pdu f) + 1)) with (to_u16 (size_t (modbus.pdu f') + 1)).
  - rewrite Ht. unfold f'. cbn [app modbus.pdu modbus.unit_id modbus.transaction_id]. by rewrite take_drop.
  - rewrite El. unfold to_u16, k. rewrite Z2Nat.id by lia. Z.to_euclidean_division_equations. lia.
Qed.

(** [receive] on the bytes of any frame that fits. *)
Lemma receive_frame f rest script : modbus.wf_frame f → modbus.live script →
  (length (modbus.encode f) ≤ length script)%nat →
  ∃ script', receive (modbus.mkIn (modbus.encode f ++ rest) script) =
    Some (m ← decode_app_message f; mret (Some m), modbus.mkIn rest script').
Proof.
  intros Hf Hl Hs.
  destruct (modbus.read_frame_stream_aux f rest script [] modbus.Frame_default Hf Hl Hs) as (s1 & _ & _ & E).
  exists s1. unfold receive. by rewrite E.
Qed.

(** A beginning of a Chat for a client id that lacks even the length of its text
    is not decoded. *)
Lemma chat_cut from id c k : Z.of_nat k <= 12 →
  ¬ ∃ m, decode_app_message (modbus.mkFrame 0 Byte.x00
           (take k (modbus.pdu (make_frame Chat (to_id from id c) 0)))) = Ok m.
Proof.
  intros Hk [m (payload & Ep & Ed)%decode_app_message_iff]. cbn [modbus.pdu] in Ep.
  destruct m as [t p]; cbn [msg_type msg_payload] in *.
  assert (k = 2 + length payload)%nat as ->.
  { apply (f_equal length) in Ep. rewrite length_take in Ep. unfold to_id, chat_bytes in Ep. cbn in Ep. lia. }
  cbn in Ep. injection Ep as Et Ep. assert (t = Chat) as -> by (by destruct t). clear Et.
  cbn [decode_payload] in Ed. apply bind_ok in Ed as (ch & Hch & _).
  apply decode_chat_payload_iff in Hch as ((_ & Hr & _) & rest & Er).
  assert (5 ≤ length payload)%nat as H5.
  { rewrite Er. unfold chat_bytes. rewrite !length_app. cbn. lia. }
  assert (recipient_tag ch = kRecipientById) as Htag.
  { apply (f_equal (lookup 4%nat)) in Ep. rewrite lookup_take_lt in Ep by lia. rewrite Er in Ep. by injection Ep. }
  destruct Hr as [[_ Hd]|[[Hx _]|[Hx _]]]; [|by rewrite Htag in Hx..].
  rewrite Er in Hk. unfold chat_bytes in Hk. rewrite !length_app, length_lstr, Hd in Hk. cbn in Hk. lia.
Qed.

(** The bytes of a Chat whose length field has wrapped around give no message. *)
Lemma receive_wrapped from id c rest script (bs := modbus.encode (make_frame Chat (to_id from id c) 0)) :
  65522 <= size_t c <= 65535 → modbus.live script → (length bs ≤ length script)%nat →
  ∃ r left script', left ≠ [] ∧
    receive (modbus.mkIn (bs ++ rest) script) = Some (r, modbus.mkIn (left ++ rest) script') ∧
    ∀ m, r ≠ Ok (Some m).
Proof.
  intros Hc Hl. unfold bs. set (f := make_frame Chat (to_id from id c) 0). intros Hs.
  assert (size_t (modbus.pdu f) = size_t c + 13) as Hp by (unfold f, to_id, chat_bytes; cbn; lia).
  destruct (decide (size_t c = 65522)) as [H0|H0].
  - assert (modbus.encode f = replicate 7 Byte.x00 ++ modbus.pdu f) as Ef.
    { rewrite modbus.encode_spec by done. cbn zeta. by rewrite Hp, H0. }
    rewrite Ef in *. rewrite length_app, length_replicate in Hs.
    destruct (read_frame_zero Byte.x00 Byte.x00 Byte.x00 Byte.x00 (Byte.x00 :: modbus.pdu f ++ rest) script Hl)
      as (s1 & E); [lia|].
    exists (Ok None), (Byte.x00 :: modbus.pdu f), s1. split_and!; [done| |done].
    unfold receive. rewrite <-app_assoc. cbn [replicate app]. by rewrite E.
  - destruct (encode_wrapped f) as [Hwf Ef]; [done|lia|]. cbn zeta in *.
    set (k := Z.to_nat _) in *. set (f' := modbus.mkFrame _ _ _) in *. rewrite Ef in *. rewrite length_app in Hs.
    destruct (receive_frame f' (drop k (modbus.pdu f) ++ rest) script Hwf Hl) as (s1 & E); [lia|].
    exists (m ← decode_app_message f'; mret (Some m)), (drop k (modbus.pdu f)), s1. split_and!.
    + intros Hn. apply (f_equal length) in Hn. rewrite length_drop in Hn. cbn [length] in Hn. lia.
    + rewrite <-app_assoc. exact E.
    + intros m (m' & Hm' & _)%bind_ok. destruct (chat_cut from id c k); [lia|by exists m'].
Qed.

(** C24. A text that does not fit its frame.  A text of 65482 to 65495 bytes is
    accepted by the client, which encrypts it, sends it and takes the send for
    successful; but the length field of its frame has wrapped around, so the server
    receives no message from its bytes, and what is left of them precedes
    everything the client sends after it. *)
Theorem long_text_lost {C : IMessageCipher} {CL : CipherLaws} (a : client.client) id pk text :
  sound false a → is_u32 id → peer_public (client.key_store_ a) id = Some pk →
  default false (head (client.sends_ a)) = true → 65482 <= size_t text <= 65495 →
  ∃ p a', client.input_line (Some (typed_for id text)) a = (a', Ok (client.running_ a)) ∧
    client.out_ a' = client.out_ a ++ [client.Sent (client.session_fd_ a) Chat p true] ∧
    ∀ rest script, modbus.live script → (length (stream Chat [p]) ≤ length script)%nat →
      ∃ r left script', left ≠ [] ∧
        receive (modbus.mkIn (stream Chat [p] ++ rest) script) = Some (r, modbus.mkIn (left ++ rest) script') ∧
        ∀ m, r ≠ Ok (Some m).
Proof.
  intros Ha Hid Hpk Hok Ht.
  destruct (chat_sent a id pk text Ha Hid ltac:(lia) Hpk Hok) as (e & c & Hc & E).
  destruct (law_encrypt e (identity_secret_ (client.key_store_ a)) pk text) as (c' & Hc' & Hlen);
    [by destruct Ha as [_ (? & _)]|by destruct Ha; eapply peer_length|].
  rewrite Hc in Hc'. injection Hc' as <-.
  exists (to_id (client.my_id_ a) id c). eexists. split_and!; [exact E| |].
  - unfold sent, drawn. destruct a. client_cbn. by rewrite Hok.
  - unfold stream. cbn [fmap list_fmap concat]. rewrite app_nil_r. intros rest script Hl Hs.
    apply receive_wrapped; [lia|done|done].
Qed.

(** ** The theorems applied *)


Lemma long_text_lost_witness : ∃ p a',
  client.input_line (Some (typed_for 2 (replicate (Z.to_nat 65490) Byte.x41))) demo_client = (a', Ok true) ∧
  ∀ rest script, modbus.live script → (length (stream Chat [p]) ≤ length script)%nat →
    ∃ r left script', left ≠ [] ∧
      receive (modbus.mkIn (stream Chat [p] ++ rest) script) = Some (r, modbus.mkIn (left ++ rest) script') ∧
      ∀ m, r ≠ Ok (Some m).
Proof.
  destruct (long_text_lost demo_client 2 (replicate 32 Byte.x07) (replicate (Z.to_nat 65490) Byte.x41))
    as (p & a' & E & _ & Hr).
  - exact demo_ready.
  - unfold is_u32. lia.
  - reflexivity.
  - reflexivity.
  - rewrite length_replicate. lia.
  - exists p, a'. split; [exact E|exact Hr].
Defined.

End conversation.
