(* ===== verification/Views.v ===== *)
(** * What the users see: client/view/ClientOutputCommands.hpp,
    QueuedClientOutputView.cpp, ConsoleClientView.cpp, server/view/ServerLogView.cpp

    The client's view model and main program call a [QueuedClientOutputView], which
    turns each call into a command for the queue of CommandQueue; the dispatcher
    makes the calls of the [ConsoleClientView], which prints. *)
From S2P Require Import Prelude.
From S2P Require Import CppString.
From S2P Require Import Protocol.
From S2P Require Import Config.
From S2P Require Import CommandQueue.
From S2P Require Import ClientRegistry.
From S2P Require Import ServerHandlers.
From S2P Require Import ClientViewModel.

Module client_view.
Import protocol client.

(** ** The commands *)

Inductive IClientOutputCommand :=
| ShowConnectedCommand (server_ip_ : bytes) (port_ : Z)
| ShowMyIdCommand (id_ : Z)
| ShowUsageCommand
| ShowDeliveredCommand (from_id_ : Z) (text_ : bytes)
| ShowUserJoinedCommand (id_ : Z) (nickname_ : bytes)
| ShowUserLeftCommand (id_ : Z) (nickname_ : bytes)
| ShowUsersListCommand (users_ : list UserInfo)
| ShowErrorCommand (text_ : bytes)
| ShowNoticeCommand (text_ : bytes)
| ShowSendFailedCommand
| ShowInvalidFormatCommand
| ShowDecodeErrorCommand (text_ : bytes)
| ShowStatusCommand (step_ : bytes) (percent_ : Z)
| ShowInputReadyCommand
| ShowInputPromptCommand
| ShowExitingCommand
| ShowServerDisconnectedCommand.

(** The call that [execute] makes of the target view. *)
Definition call_of (c : IClientOutputCommand) : output :=
  match c with
  | ShowConnectedCommand ip port => show_connected ip port
  | ShowMyIdCommand id => show_my_id id
  | ShowUsageCommand => show_usage
  | ShowDeliveredCommand from text => show_delivered from text
  | ShowUserJoinedCommand id nickname => show_user_joined id nickname
  | ShowUserLeftCommand id nickname => show_user_left id nickname
  | ShowUsersListCommand users => show_users_list users
  | ShowErrorCommand text => show_error text
  | ShowNoticeCommand text => show_notice text
  | ShowSendFailedCommand => show_send_failed
  | ShowInvalidFormatCommand => show_invalid_format
  | ShowDecodeErrorCommand text => show_decode_error text
  | ShowStatusCommand step percent => show_status step percent
  | ShowInputReadyCommand => show_input_ready
  | ShowInputPromptCommand => show_input_prompt
  | ShowExitingCommand => show_exiting
  | ShowServerDisconnectedCommand => show_server_disconnected
  end.

(** ** The console *)

(** What the process has printed, in order: each piece to standard output or to
    standard error. *)
Inductive piece := Cout (text : bytes) | Cerr (text : bytes).
Abbreviation console := (list piece).

Definition endl : bytes := [Byte.x0a].

Definition banner_rule : bytes := str "============================================================" ++ endl.
Definition banner_line : bytes := str "------------------------------------------------------------" ++ endl.

Definition nickname_suffix (nickname : bytes) : bytes :=
  if decide (nickname = []) then [] else str " nickname=" ++ nickname.

Definition clamp_percent (percent : Z) : Z :=
  if percent <? config.kProgressMin then config.kProgressMin
  else if percent >? config.kProgressMax then config.kProgressMax else percent.

Definition print_output (call : output) : console :=
  match call with
  | show_status step percent =>
      [Cout (str "[startup " ++ std.to_string (clamp_percent percent) ++ str "%] " ++ step ++ endl)]
  | show_input_ready =>
      [Cout (endl ++ banner_rule ++
         str "  CHAT READY — type your message below" ++ endl ++ banner_line ++
         str "  Format:   <who>:<text>" ++ endl ++
         str "  who   =   nickname  or  numeric id" ++ endl ++
         str "  text  =   message body" ++ endl ++ banner_line ++
         str "  Examples:  bob:hello" ++ endl ++
         str "             2:hello" ++ endl ++
         str "             all:hello" ++ endl ++
         str "  Commands:  /users   /key <id>   /exit" ++ endl ++ banner_rule)]
  | show_input_prompt =>
      [Cout (endl ++
         str "[INPUT] who:message  (example: bob:hello | all:hello)  |  /users  |  /key id  |  /exit" ++
         endl ++ str ">>> ")]
  | show_usage => []
  | show_connected ip port => [Cout (str "Connected to " ++ ip ++ str ":" ++ std.to_string port ++ endl)]
  | show_my_id id => [Cout (str "My id=" ++ std.to_string id ++ endl)]
  | show_delivered from text => [Cout (str "[from " ++ std.to_string from ++ str "] " ++ text ++ endl)]
  | show_user_joined id nickname =>
      [Cout (str "[presence] User joined: id=" ++ std.to_string id ++ nickname_suffix nickname ++ endl)]
  | show_user_left id nickname =>
      [Cout (str "[presence] User left: id=" ++ std.to_string id ++ nickname_suffix nickname ++ endl)]
  | show_users_list users =>
      Cout (str "Connected users (" ++ std.to_string (size_t users) ++ str "):" ++ endl) ::
      ((λ user, Cout (str "  id=" ++ std.to_string (user_id user) ++
                      nickname_suffix (user_nickname user) ++ endl)) <$> users)
  | show_error text => [Cerr (str "Server error: " ++ text ++ endl)]
  | show_notice text => [Cout (str "[notice] " ++ text ++ endl)]
  | show_send_failed => [Cerr (str "Failed to send message" ++ endl)]
  | show_invalid_format => [Cerr (str "Invalid format, use recipient:text" ++ endl)]
  | show_decode_error text => [Cerr (str "Failed to decode message: " ++ text ++ endl)]
  | show_exiting => [Cout (str "Leaving chat — notifying others and closing connection..." ++ endl)]
  | show_server_disconnected => [Cout (str "Server closed the connection — exiting..." ++ endl)]
  end.

(** [ConsoleClientView]. *)
Definition console_call (call : output) (printed : console) : console := printed ++ print_output call.

(** [ICommand<IClientOutputView>::execute] on the console. *)
#[global] Instance execute_command : concurrency.ICommand console IClientOutputCommand :=
  λ c, console_call (call_of c).

(** [read_line]: the next line of standard input, [None] at its end. *)
Definition read_line (stdin : list bytes) : option bytes * list bytes :=
  match stdin with [] => (None, []) | line :: rest => (Some line, rest) end.

(** ** The queued view *)

Abbreviation QueuedClientOutputView := (concurrency.QueuedCommandExecutor console IClientOutputCommand).

(** The command each method of [QueuedClientOutputView] makes. *)
Definition command_of (call : output) : IClientOutputCommand :=
  match call with
  | show_status step percent => ShowStatusCommand step percent
  | show_input_ready => ShowInputReadyCommand
  | show_input_prompt => ShowInputPromptCommand
  | show_connected ip port => ShowConnectedCommand ip port
  | show_my_id id => ShowMyIdCommand id
  | show_usage => ShowUsageCommand
  | show_delivered from text => ShowDeliveredCommand from text
  | show_user_joined id nickname => ShowUserJoinedCommand id nickname
  | show_user_left id nickname => ShowUserLeftCommand id nickname
  | show_users_list users => ShowUsersListCommand users
  | show_error text => ShowErrorCommand text
  | show_notice text => ShowNoticeCommand text
  | show_send_failed => ShowSendFailedCommand
  | show_invalid_format => ShowInvalidFormatCommand
  | show_decode_error text => ShowDecodeErrorCommand text
  | show_exiting => ShowExitingCommand
  | show_server_disconnected => ShowServerDisconnectedCommand
  end.

Definition post (command : option IClientOutputCommand) : QueuedClientOutputView → QueuedClientOutputView :=
  concurrency.post command.
Definition queued_call (call : output) : QueuedClientOutputView → QueuedClientOutputView :=
  post (Some (command_of call)).
Definition stop : QueuedClientOutputView → QueuedClientOutputView := concurrency.stop.

(** ** The queued view shows what it is asked to *)

Lemma call_of_command_of call : call_of (command_of call) = call.
Proof. by destruct call. Qed.

Lemma executed_calls printed calls :
  foldl (λ t c, concurrency.execute c t) printed (command_of <$> calls) = printed ++ (calls ≫= print_output).
Proof.
  revert printed. induction calls as [|c calls IH]; intros printed; cbn; [by rewrite app_nil_r|].
  rewrite IH. unfold concurrency.execute, execute_command, console_call. by rewrite call_of_command_of, app_assoc.
Qed.

(** C30. The queued view.  After [stop] the console has printed, and in the same
    order, exactly what it would have printed had the calls accepted before been
    made of it directly, whichever threads made them and however they were
    interleaved with the dispatcher. *)
Theorem queued_view_transparent printed calls ex s s' :
  concurrency.run (concurrency.construct printed) (command_of <$> calls) ex s →
  concurrency.running_ s = false → rtc concurrency.own_step s s' →
  (∀ s2, ¬ concurrency.step s' concurrency.Notify s2) →
  (∀ s2, ¬ concurrency.step s' concurrency.Dispatch s2) →
  concurrency.dispatcher_ s' = concurrency.Returned ∧
  concurrency.target_ s' = foldl (λ t call, console_call call t) printed calls.
Proof.
  intros Hr Hstop Hown Hn Hd.
  destruct (proj2 (concurrency.stop_drains_aux _ _ _ _ Hr Hstop) s' Hown Hn Hd) as [Hret Ht].
  split; [done|]. rewrite Ht, executed_calls. clear. revert printed.
  induction calls as [|c calls IH]; intros printed; cbn; [by rewrite app_nil_r|].
  rewrite <-IH. unfold console_call. by rewrite app_assoc.
Qed.

(** Two threads' calls, accepted around a command's execution. *)
Definition demo_calls : list output := [show_my_id 1; show_usage; show_delivered 2 (str "hi")].

Lemma demo_calls_run : concurrency.run (concurrency.construct []) (command_of <$> demo_calls) []
  (concurrency.mkExecutor [] (command_of <$> demo_calls) false concurrency.AtLock 4).
Proof.
  refine (concurrency.run_step _ (concurrency.Post (Some (ShowMyIdCommand 1))) _
    [ShowUsageCommand; ShowDeliveredCommand 2 (str "hi")] [] _ (concurrency.step_post _ _) _).
  refine (concurrency.run_step _ (concurrency.Post (Some ShowUsageCommand)) _
    [ShowDeliveredCommand 2 (str "hi")] [] _ (concurrency.step_post _ _) _).
  refine (concurrency.run_step _ (concurrency.Post (Some (ShowDeliveredCommand 2 (str "hi")))) _
    [] [] _ (concurrency.step_post _ _) _).
  refine (concurrency.run_step _ concurrency.Stop _ [] [] _ (concurrency.step_stop _) (concurrency.run_done _)).
Qed.

Definition demo_shown : QueuedClientOutputView :=
  concurrency.own_run 20 (concurrency.mkExecutor [] (command_of <$> demo_calls) false concurrency.AtLock 4).

Lemma queued_view_transparent_witness : concurrency.dispatcher_ demo_shown = concurrency.Returned ∧
  concurrency.target_ demo_shown = foldl (λ t call, console_call call t) [] demo_calls.
Proof.
  apply (queued_view_transparent [] demo_calls [] _ demo_shown demo_calls_run eq_refl).
  - apply concurrency.own_run_steps.
  - apply concurrency.own_next_none. vm_compute. reflexivity.
  - apply concurrency.own_next_none. vm_compute. reflexivity.
Defined.

End client_view.

(** ** The server's log *)

Module server_view.
Import client_view.

(** [ServerLogView]. *)
Definition print_call (call : server.view_call) : console :=
  match call with
  | server.show_listening bind_ip port =>
      [Cout (str "Server listening on " ++ bind_ip ++ str ":" ++ std.to_string port ++ endl);
       Cout (str "Admin: " ++ str "ban:1,2,3" ++ endl)]
  | server.show_accept_failed error => [Cerr (str "accept failed: " ++ error ++ endl)]
  | server.show_client_connected id => [Cout (str "Client connected, assigned id=" ++ std.to_string id ++ endl)]
  | server.show_client_disconnected id nickname =>
      [Cout (str "Client disconnected id=" ++ std.to_string id ++ nickname_suffix nickname ++ endl)]
  | server.show_client_registered id nickname =>
      [Cout (str "Client id=" ++ std.to_string id ++ str " registered nickname=" ++ nickname ++ endl)]
  | server.show_chat from_id to_label kind =>
      [Cout (kind ++ str " from id=" ++ std.to_string from_id ++ str " to " ++ to_label ++ endl)]
  | server.show_decode_error error => [Cerr (str "Failed to decode message: " ++ error ++ endl)]
  | server.show_admin_message text => [Cout (str "[admin] " ++ text ++ endl)]
  end.

(** What a server has printed. *)
Definition printed {R} (s : server.server R) : console :=
  server.effects s ≫= λ e, match e with server.View call => print_call call | _ => [] end.

End server_view.
