(* ===== verification/Main.v ===== *)
(** * The two programs: server/Server.cpp, server/main.cpp, client/main.cpp

    The programs put the components together.  [server_main.run] is the whole of
    [ServerViewModel::run], for as many turns of its loop as are given, with the
    socket opened by Sockets; [server_process] is the process, up to its exit
    status; [client_main_process] is the client's, from reading the configuration,
    with its progress reports, to the exit status. *)
From S2P Require Import Prelude.
From S2P Require Import CppString.
From S2P Require Import Protocol.
From S2P Require Import Transport.
From S2P Require Import Config.
From S2P Require Import Sockets.
From S2P Require Import ClientRegistry.
From S2P Require Import ServerHandlers.
From S2P Require Import ServerViewModel.
From S2P Require Import ServerLoop.
From S2P Require Import ChatService.
From S2P Require Import ServerRefines.
From S2P Require Import PeerKeyStore.
From S2P Require Import Cipher.
From S2P Require Import ClientViewModel.
From S2P Require Import ClientFacts.
From S2P Require Import ClientRun.
From S2P Require Import Views.

(** How a process ends, if it does: by [return], or by [std::terminate]. *)
Inductive exit_status := Running | Exit (code : Z) | Terminated | Undefined.

(** ** The server *)

Module server_main.
Import config server server_viewmodel server_model server_loop client_view.

Section main.
Context {R : Type} `{RegistryLaws R}.

(** [while (running_)], over the console lines that come in before each turn and
    what the outside does in it: whether the loop was left. *)
Fixpoint serve (listen_fd : Z) (turns : list (list bytes * turn)) (pollfds : list pollfd)
    : SM (server R) bool :=
  running ← get_ running_;
  if negb running then mret true else
  match turns with
  | [] => mret false
  | (lines, t) :: turns =>
      _ ← for_each lines submit_admin_line;
      next ← loop_turn listen_fd t pollfds;
      match next with
      | None => mret true
      | Some pollfds => serve listen_fd turns pollfds
      end
  end.

(** [ServerViewModel::run], after the socket was opened with the result [opened]. *)
Definition run (opened : outcome unit) (listen_fd : Z) (ip : bytes) (port : Z)
    (turns : list (list bytes * turn)) : SM (server R) bool :=
  _ ← lift opened;
  pollfds ← start listen_fd ip port;
  left_loop ← serve listen_fd turns pollfds;
  _ ← when left_loop disconnect_all_clients;
  mret left_loop.

(** What the process is started with, and what the outside does. *)
Record world := mkWorld {
  exe_link : option bytes;
  argv0 : option bytes;
  argv1 : option bytes;
  file : bytes → option bytes;
  open_os : TcpListenSocket.open_results;
  open_fds : gset Z;
  events : list (list bytes * turn)
}.

Definition config_path (w : world) : bytes :=
  resolve_config_path (exe_link w) (argv0 w) kDefaultServerConfigName (argv1 w).

(** [Server::Server] and [Server::run]. *)
Definition server_run (r : R) (c : ServerConfig) (w : world) : server R * outcome bool :=
  let '(sock, opened) := TcpListenSocket.open (open_os w) (TcpListenSocket.construct c (open_fds w)) in
  run opened (TcpListenSocket.fd sock) (bind_ip c) (TcpListenSocket.port sock) (events w) (initial r).

(** [main]: an exception of [server.run()] leaves the scope of [admin_thread], a
    thread that has been neither joined nor detached, whose destructor calls
    [std::terminate]; the handler is reached only by exceptions thrown before the
    thread is started. *)
Definition server_process (r : R) (w : world) : exit_status * console :=
  match (server_from_file (file w (config_path w)) (config_path w) false).2 with
  | Throw ex => (Exit 1, [Cerr (str "Server error: " ++ what ex ++ endl)])
  | UB => (Undefined, [])
  | Ok c =>
      let '(s, res) := server_run r c w in
      (match res with
       | Ok true => Exit 0
       | Ok false => Running
       | Throw _ => Terminated
       | UB => Undefined
       end, server_view.printed s)
  end.

(** ** The server stays up *)

Definition submitted (lines : list bytes) (s : server R) : server R :=
  foldl (λ s line, (submit_admin_line line s).1) s lines.

(** The outside behaves, turn by turn: a console line names at most 65535 ids, and the
    turns are as [turn_ok] says; [poll] may fail. *)
Fixpoint turns_ok (listen_fd : Z) (turns : list (list bytes * turn)) (pollfds : list pollfd) (s : server R)
    : Prop :=
  match turns with
  | [] => True
  | (lines, t) :: turns =>
      let s1 := submitted lines s in
      Forall line_ok lines ∧ turn_ok listen_fd t pollfds s1 ∧
      match loop_turn listen_fd t pollfds s1 with
      | (s', Ok (Some pollfds')) => turns_ok listen_fd turns pollfds' s'
      | _ => True
      end
  end.

(** A [poll] that fails for another reason than a signal. *)
Definition poll_fails (t : turn) : Prop := poll_ready t < 0 ∧ poll_eintr t = false.

Lemma submit_lines lines s : for_each lines submit_admin_line s = (submitted lines s, Ok tt).
Proof.
  revert s. induction lines as [|line lines IH]; intros s; [done|]. cbn [for_each].
  rewrite (SM_bind_ok _ _ s (submit_admin_line line s).1 tt) by done. apply IH.
Qed.

Lemma submitted_inv listen_fd pollfds lines s : Forall line_ok lines → loop_inv listen_fd pollfds s →
  loop_inv listen_fd pollfds (submitted lines s).
Proof.
  intros Hl. revert s. induction Hl as [|line lines Hline _ IH]; intros s Hs; [done|].
  apply IH. apply (server_step_inv listen_fd (s, pollfds) (_, pollfds)); [by constructor|done].
Qed.

Lemma submitted_running lines s : running_ (submitted lines s) = running_ s.
Proof. revert s. induction lines as [|line lines IH]; intros s; [done|]. apply (IH (submit_admin_line line s).1). Qed.

(** How [serve] and [run] end. *)
Definition ends_well (turns : list (list bytes * turn)) (res : server R * outcome bool)
    (after_loop : server R → Prop) : Prop :=
  match res with
  | (s', Ok left_loop) => srv_inv s' ∧ (left_loop = true → running_ s' = false ∧ after_loop s')
  | (s', Throw e) => srv_inv s' ∧ running_ s' = true ∧ e = runtime_error (str "poll failed") ∧
      Exists (λ lt, poll_fails lt.2) turns
  | (_, UB) => False
  end.

Lemma serve_ends listen_fd turns pollfds s : loop_inv listen_fd pollfds s →
  turns_ok listen_fd turns pollfds s →
  ends_well turns (serve listen_fd turns pollfds s) (λ _, True).
Proof.
  revert pollfds s. induction turns as [|[lines t] turns IH]; intros pollfds s Hi Ht; cbn [serve]; rewrite SM_get.
  { destruct (running_ s) eqn:E; cbn [negb]; (split; [apply Hi|done]). }
  destruct (running_ s) eqn:E; cbn [negb]; cycle 1.
  { split; [apply Hi|done]. }
  destruct Ht as (Hl & Hok & Hrest). rewrite (SM_bind_ok _ _ _ _ _ (submit_lines lines s)).
  pose proof (loop_turn_run _ _ _ _ (submitted_inv _ _ _ _ Hl Hi) (eq_trans (submitted_running _ _) E) Hok) as Hres.
  destruct (loop_turn listen_fd t pollfds (submitted lines s)) as [s1 [[pollfds1|]|e|]] eqn:El; cbn in Hres; [..|done].
  - rewrite (SM_bind_ok _ _ _ _ _ El). specialize (IH pollfds1 s1 Hres Hrest).
    destruct (serve listen_fd turns pollfds1 s1) as [s2 [b|e|]]; [done| |done].
    destruct IH as (? & ? & ? & ?). split_and!; [done..|by right].
  - rewrite (SM_bind_ok _ _ _ _ _ El). split; [apply Hres|]. intros _. split; [apply Hres|done].
  - rewrite (SM_bind_throw _ _ _ _ _ El). destruct Hres as (? & ? & ? & ? & ->). split_and!; [done..|]. left. by split.
Qed.

Lemma run_ends r listen_fd ip port turns :
  reg_ok r → clients r = ∅ → 0 <= listen_fd →
  turns_ok listen_fd turns (started r listen_fd ip port).2 (started r listen_fd ip port).1 →
  ends_well turns (run (Ok tt) listen_fd ip port turns (initial r)) (λ s', clients (registry_ s') = ∅).
Proof.
  intros Hr He Hfd Ht. unfold run. rewrite (SM_lift_ok _ _ _ _ eq_refl).
  rewrite (SM_bind_ok _ _ _ _ _ (eq_refl : start listen_fd ip port (initial r) = ((started r listen_fd ip port).1, Ok _))).
  pose proof (serve_ends _ _ _ _ (started_inv r listen_fd ip port Hr He Hfd) Ht) as Hs.
  destruct (serve _ _ _ _) as [s1 [left_loop|e|]] eqn:E; cbn [ends_well] in Hs; [| |done].
  - rewrite (SM_bind_ok _ _ _ _ _ E). destruct Hs as [Hs1 Hrun]. destruct left_loop; cbn [when]; [|by split].
    destruct (disconnect_all_run s1 Hs1) as (s2 & E2 & Hs2 & He2 & Hrun2 & _).
    rewrite (SM_bind_ok _ _ _ _ _ E2). split; [done|]. intros _. rewrite Hrun2. split; [by apply Hrun|done].
  - by rewrite (SM_bind_throw _ _ _ _ _ E).
Qed.

(** C3. The server stays up.  Whatever the clients send, for any turns and console
    lines as [turns_ok] says (a line names at most 65535 ids, the system calls do
    what they may, the ids have not run out), [run] has no undefined behaviour.  It
    goes on for as many turns as there are; or it was asked to stop and returns with
    every client disconnected; or it throws [poll failed], which it does only if a
    [poll] failed for another reason than a signal. *)
Theorem server_run_returns r listen_fd ip port turns :
  reg_ok r → clients r = ∅ → 0 <= listen_fd →
  turns_ok listen_fd turns (started r listen_fd ip port).2 (started r listen_fd ip port).1 →
  match run (Ok tt) listen_fd ip port turns (initial r) with
  | (s', Ok stopped) => srv_inv s' ∧ (stopped = true → running_ s' = false ∧ clients (registry_ s') = ∅)
  | (s', Throw e) => srv_inv s' ∧ running_ s' = true ∧ e = runtime_error (str "poll failed") ∧
      Exists (λ lt, poll_fails lt.2) turns
  | (_, UB) => False
  end.
Proof. apply run_ends. Qed.

(** What [run] does is an execution as ServerRefines has them. *)
Lemma submitted_execution listen_fd st ins lines s pos : Forall line_ok lines →
  server_refines.execution listen_fd st ins s pos →
  server_refines.execution listen_fd st ins (submitted lines s) pos.
Proof.
  intros Hl. revert s. induction Hl as [|line lines Hline _ IH]; intros s Hs; [done|].
  apply IH. by apply server_refines.run_admin.
Qed.

Lemma serve_execution listen_fd st turns ins pollfds s s' :
  server_refines.execution listen_fd st ins s (server_refines.AtHead pollfds) →
  turns_ok listen_fd turns pollfds s → serve listen_fd turns pollfds s = (s', Ok true) →
  ∃ ins', server_refines.execution listen_fd st ins' s' server_refines.OutOfLoop.
Proof.
  revert ins pollfds s. induction turns as [|[lines t] turns IH]; intros ins pollfds s Hex Ht; cbn [serve]; rewrite SM_get.
  all: destruct (running_ s) eqn:E; cbn [negb];
    [|intros [= <-]; exists ins; by apply server_refines.run_leave with pollfds].
  { intros [=]. }
  destruct Ht as (Hl & Hok & Hrest). rewrite (SM_bind_ok _ _ _ _ _ (submit_lines lines s)).
  apply (submitted_execution _ _ _ lines) in Hex; [|done].
  destruct (loop_turn listen_fd t pollfds (submitted lines s)) as [s1 [next|e|]] eqn:El;
    [|unfold mbind, SM_bind; by rewrite El..].
  rewrite (SM_bind_ok _ _ _ _ _ El).
  pose proof (server_refines.run_turn _ _ _ t _ _ _ _ Hex (eq_trans (submitted_running _ _) E) Hok El) as Hex1.
  destruct next as [pollfds1|]; cbn [from_option] in Hex1.
  - by apply IH with (ins ++ server_refines.inputs_of t pollfds (submitted lines s)).
  - intros [= <-]. by eexists.
Qed.

(** [run] implements the chat room, from an empty room to its end: when it returns,
    all that it did is what the room puts out for some inputs, the last of which is
    that it closes. *)
Theorem run_refines_room r listen_fd ip port turns s' :
  reg_ok r → clients r = ∅ → 0 <= listen_fd →
  turns_ok listen_fd turns (started r listen_fd ip port).2 (started r listen_fd ip port).1 →
  run (Ok tt) listen_fd ip port turns (initial r) = (s', Ok true) →
  ∃ ins outs, chat_service.runs chat_service.empty_room (ins ++ [chat_service.Close]) outs (server_refines.room_of s') ∧
    Forall2 server_refines.shows (server_refines.outward (effects s')) outs.
Proof.
  intros Hr He Hfd Ht. unfold run. rewrite (SM_lift_ok _ _ _ _ eq_refl).
  rewrite (SM_bind_ok _ _ _ _ _ (eq_refl : start listen_fd ip port (initial r) = ((started r listen_fd ip port).1, Ok _))).
  pose proof (serve_ends _ _ _ _ (started_inv r listen_fd ip port Hr He Hfd) Ht) as Hs.
  destruct (serve _ _ _ _) as [s1 [left_loop|e|]] eqn:E; cbn [ends_well] in Hs;
    [|by rewrite (SM_bind_throw _ _ _ _ _ E)|done].
  destruct Hs as [Hs1 _]. rewrite (SM_bind_ok _ _ _ _ _ E). destruct left_loop; cbn [when]; [|intros [=]].
  destruct (disconnect_all_run s1 Hs1) as (s2 & E2 & _). rewrite (SM_bind_ok _ _ _ _ _ E2). intros [= <-].
  destruct (serve_execution _ (started r listen_fd ip port) turns [] _ _ _ (server_refines.run_nil _ _) Ht E) as [ins Hex].
  exists ins. eapply (server_refines.reachable_tracks r listen_fd ip port _ _ server_refines.Returned); [done..|].
  by apply server_refines.run_end with s1.
Qed.

(** A server that can listen.  When the configuration can be read, the socket can be
    opened, the outside keeps to [turns_ok] and no [poll] fails, the process runs on or exits with 0:
    it is not terminated and has no undefined behaviour. *)
Theorem server_process_up r w c
    (sock := (TcpListenSocket.open (open_os w) (TcpListenSocket.construct c (open_fds w))).1)
    (st := started r (TcpListenSocket.fd sock) (bind_ip c) (TcpListenSocket.port sock)) :
  reg_ok r → clients r = ∅ →
  (server_from_file (file w (config_path w)) (config_path w) false).2 = Ok c →
  TcpListenSocket.all_succeed (open_os w) →
  TcpListenSocket.os_socket (open_os w) ∉ open_fds w →
  turns_ok (TcpListenSocket.fd sock) (events w) st.2 st.1 → Forall (λ lt, ¬ poll_fails lt.2) (events w) →
  (server_process r w).1 = Exit 0 ∨ (server_process r w).1 = Running.
Proof.
  intros Hr He Hc Hall Hnew Ht Hpoll. unfold server_process, server_run. rewrite Hc.
  destruct (TcpListenSocket.listen_open_spec (open_os w) (TcpListenSocket.construct c (open_fds w)) Hnew)
    as (s1 & res & E & _ & Hok & _ & Hfd & _). apply Hok in Hall as Hres. subst res.
  destruct (Hfd (proj1 Hall)) as [Hopen _]. assert (sock = s1) as Es by (unfold sock; by rewrite E).
  unfold st in Ht. rewrite Es in Ht. rewrite E.
  assert (0 <= TcpListenSocket.fd s1) as Hpos by (by apply Z.leb_le).
  pose proof (run_ends r _ _ _ _ Hr He Hpos Ht) as Hrun.
  destruct (run _ _ _ _ _ _) as [s' [[]|e|]]; [by left|by right| |done].
  destruct Hrun as (_ & _ & _ & Hx). apply Exists_exists in Hx as (lt & Hin & Hf). rewrite Forall_forall in Hpoll.
  by destruct (Hpoll lt Hin).
Qed.

(** C33. A server that cannot listen.  When the configuration can be read but the
    socket cannot be opened, for example because the port is taken, the process is
    terminated: the exception does not reach the handler in [main], and
    no [Server error] is printed. *)
Theorem listen_failure_terminates r w c :
  (server_from_file (file w (config_path w)) (config_path w) false).2 = Ok c →
  ¬ TcpListenSocket.all_succeed (open_os w) →
  TcpListenSocket.os_socket (open_os w) ∉ open_fds w →
  server_process r w = (Terminated, []).
Proof.
  intros Hc Hfail Hnew. unfold server_process, server_run. rewrite Hc.
  destruct (TcpListenSocket.listen_open_spec (open_os w) (TcpListenSocket.construct c (open_fds w)) Hnew)
    as (sock & res & -> & Hub & Hok & _).
  destruct res as [[]|e|]; [by destruct Hfail; apply Hok| |done]. done.
Qed.

End main.

(** Two turns: a client connects, then the server is asked to stop. *)
Definition demo_turns : list (list bytes * turn) :=
  [([str "ban:1"], boot_turn); ([], mkTurn (-1) true (λ _, (false, false)) true (λ _, false) (λ _, false)
     (λ _, (-1, [])) (λ _, Ok None))].

Lemma demo_turns_ok : turns_ok 4 demo_turns (started empty_registry 4 (str "127.0.0.1") 1502).2
  (started empty_registry 4 (str "127.0.0.1") 1502).1.
Proof.
  split_and!; [by repeat constructor| |].
  - split_and!.
    + intros i. by split.
    + discriminate.
    + exists 2. split; [vm_compute; split; discriminate || reflexivity|].
      apply (bool_decide_unpack _). vm_compute. exact I.
    + intros _. split; [discriminate|vm_compute; reflexivity].
  - assert (loop_turn 4 boot_turn boot_admin.2 boot_admin.1 = (boot_accepted.1, Ok (Some boot_accepted.2))) as E
      by (vm_compute; reflexivity).
    change (submitted _ _) with boot_admin.1. change (started empty_registry 4 _ 1502).2 with boot_admin.2.
    rewrite E. clear E.
    refine (conj (Forall_nil_2 _) (conj (conj _ (conj _ (conj _ _))) _)).
    + intros i. by split.
    + discriminate.
    + exists 3. split; [vm_compute; split; discriminate || reflexivity|].
      apply (bool_decide_unpack _). vm_compute. exact I.
    + cbn. lia.
    + cbn zeta. repeat case_match; exact I.
Qed.

Lemma server_run_returns_witness : ∃ s',
  run (Ok tt) 4 (str "127.0.0.1") 1502 demo_turns (initial empty_registry) = (s', Ok true) ∧
  running_ s' = false ∧ clients (registry_ s') = ∅.
Proof.
  pose proof (server_run_returns empty_registry 4 (str "127.0.0.1") 1502 demo_turns
    reg_inv_empty eq_refl ltac:(lia) demo_turns_ok) as H.
  destruct (run (Ok tt) 4 (str "127.0.0.1") 1502 demo_turns (initial empty_registry)) as [s' r] eqn:E.
  assert (r = Ok true) as ->.
  { apply (f_equal snd) in E. vm_compute in E. symmetry. exact E. }
  exists s'. split; [reflexivity|]. apply H. reflexivity.
Defined.

(** The port is taken. *)
Definition demo_world : world :=
  mkWorld None (Some (str "/srv/server")) None
    (λ path, if decide (path = str "/srv/config/server.conf") then Some (str "port=1502") else None)
    (TcpListenSocket.mkOpen 3 0 1 (Some (str "Address already in use")) 0 None) {[0; 1; 2]} [].

Lemma listen_failure_terminates_witness : server_process empty_registry demo_world = (Terminated, []).
Proof.
  apply (listen_failure_terminates empty_registry demo_world (mkServerConfig (str "0.0.0.0") 1502)).
  - vm_compute. reflexivity.
  - intros (_ & _ & _ & E & _). discriminate E.
  - apply (bool_decide_unpack _). vm_compute. exact I.
Defined.

End server_main.

(** ** The client *)

Module client_main.
Import config client client_view client_run.

Section main.
Context {C : cipher.IMessageCipher}.

(** [load_client_config_async]: the calls it makes of the view, and what comes of
    the configuration. *)
Definition load_client_config_async (exe argv0 override_path : option bytes) (file : bytes → option bytes)
    : list output * outcome ClientConfig :=
  let config_path := resolve_config_path exe argv0 kDefaultClientConfigName override_path in
  let '(calls, r) := client_from_file (file config_path) config_path true in
  (show_status (str "Resolving config path") kResolveConfigPercent ::
   show_status (str "Reading " ++ config_path) kReadConfigBeginPercent ::
   ((λ '(file_percent, msg), show_status msg (map_config_file_percent file_percent)) <$> calls), r).

(** What the process is started with, and what the outside does. *)
Record client_world := mkClientWorld {
  exe_link : option bytes;
  argv0 : option bytes;
  argv1 : option bytes;
  file : bytes → option bytes;
  files : gmap bytes bytes;
  sends : list bool;
  entropies : list cipher.entropy;
  writes : list cipher.write_result;
  log_opened : bool;
  connected : outcome Z;
  assigned : outcome (option protocol.AppMessage);
  events : list event;
  late : option (outcome (option protocol.AppMessage));
  unwinding_signal : bool
}.

(** The calls of the view that a client made, in order. *)
Definition shown (s : client) : list output :=
  omap (λ e, match e with Show call => Some call | _ => None end) (out_ s).

(** [main]: the exit status, the calls of the queued view that reach the console,
    and what the handler prints.  Signals come between the turns of the loops, and
    after an exception has destroyed [view_model], when [g_client_vm] still points to
    it until the handler of [main] clears it ([unwinding_signal]); ClientSignals has
    all other times.  When [run] returns, [output.stop()] comes before
    the destructor of [view_model], whose calls are dropped then; when an exception
    leaves [run] the destructor comes first. *)
Definition client_main_process (w : client_world) : exit_status * list output * console :=
  let '(calls, r) := load_client_config_async (exe_link w) (argv0 w) (argv1 w) (file w) in
  match r with
  | Throw ex => (Exit 1, calls, [Cerr (str "Client error: " ++ what ex ++ endl)])
  | UB => (Undefined, calls, [])
  | Ok c =>
      let calls := calls ++ [show_status (str "Config ready") kConfigReadyPercent] in
      let '(s, over) := run (log_opened w) (connected w) (assigned w) (events w)
                          (initial c (files w) (sends w) (entropies w) (writes w)) in
      match over with
      | Ok false => (Running, calls ++ shown s, [])
      | UB => (Undefined, calls ++ shown s, [])
      | _ =>
          let '(s', destroyed) := destroy (late w) s in
          match destroyed, over with
          | UB, _ => (Undefined, calls ++ shown s', [])
          | Throw _, _ => (Terminated, calls ++ shown s', [])
          | Ok _, Throw ex =>
              if unwinding_signal w then (Undefined, calls ++ shown s', []) else
              (Exit 1, calls ++ shown s', [Cerr (str "Client error: " ++ what ex ++ endl)])
          | Ok _, _ => (Exit 0, calls ++ shown s, [])
          end
      end
  end.

(** The percentages among the calls of a view. *)
Definition percents (calls : list output) : list Z :=
  omap (λ call, match call with show_status _ p => Some p | _ => None end) calls.

Lemma percents_mapped calls :
  percents ((λ '(file_percent, msg), show_status msg (map_config_file_percent file_percent)) <$> calls) =
  map_config_file_percent <$> calls.*1.
Proof. unfold percents. induction calls as [|[p m] calls IH]; cbn; [done|]. by rewrite IH. Qed.

(** Progress.  The percentages shown while the configuration is found and read
    never go down: they start at [kResolveConfigPercent], reach
    [kReadConfigBeginPercent] and stay below [kConfigReadyPercent], the one shown
    next; so the view does not clamp any of them. *)
Theorem config_progress_monotone exe argv0 override_path file :
  StronglySorted Z.le (percents (load_client_config_async exe argv0 override_path file).1) ∧
  Forall (λ p, kResolveConfigPercent <= p < kConfigReadyPercent ∧ clamp_percent p = p)
    (percents (load_client_config_async exe argv0 override_path file).1).
Proof.
  unfold load_client_config_async. set (path := resolve_config_path _ _ _ _).
  destruct (load_calls_sorted (file path) path) as [Hsort Hall]. unfold client_from_file.
  destruct (load (file path) path true) as [calls r]. cbn [fst] in *.
  assert (∀ p, kResolveConfigPercent <= p < kConfigReadyPercent → clamp_percent p = p) as Hclamp.
  { intros p Hp. unfold clamp_percent, kProgressMin, kProgressMax, kResolveConfigPercent, kConfigReadyPercent in *.
    destruct (Z.ltb_spec p 0); [lia|]. destruct (Z.gtb_spec p 100); lia. }
  change (percents _) with (kResolveConfigPercent :: kReadConfigBeginPercent ::
    percents ((λ '(file_percent, msg), show_status msg (map_config_file_percent file_percent)) <$> calls)).
  rewrite percents_mapped.
  assert (Forall (λ p, kReadConfigBeginPercent <= p < kConfigReadyPercent) (map_config_file_percent <$> calls.*1)) as Hband.
  { apply Forall_fmap. eapply Forall_impl; [exact Hall|]. cbn. intros p Hp.
    destruct (map_config_file_percent_mono p p); lia. }
  split.
  - constructor; [constructor|].
    + clear Hband. induction Hsort as [|p l _ IH Hp]; [constructor|]. apply Forall_cons in Hall as [Hp0 Hall].
      cbn. constructor; [by apply IH|]. apply Forall_fmap. rewrite Forall_forall in Hp, Hall |- *.
      intros q Hq. cbn. specialize (Hp q Hq). specialize (Hall q Hq). cbn in *.
      destruct (map_config_file_percent_mono p q); lia.
    + eapply Forall_impl; [exact Hband|]. cbn. lia.
    + constructor; [done|]. eapply Forall_impl; [exact Hband|]. unfold kResolveConfigPercent, kReadConfigBeginPercent. cbn. lia.
  - constructor; [by split; [|apply Hclamp]|]. constructor; [by split; [|apply Hclamp]|].
    eapply Forall_impl; [exact Hband|]. cbn. intros p Hp.
    assert (kResolveConfigPercent <= p < kConfigReadyPercent) by (unfold kResolveConfigPercent, kReadConfigBeginPercent in *; lia).
    by split; [|apply Hclamp].
Qed.

(** ** How the client's process ends *)

Context {CL : cipher.CipherLaws}.

Lemma client_from_file_no_ub content path progress : no_ub (client_from_file content path progress).2.
Proof.
  unfold client_from_file, load. destruct content; [|done]. cbn.
  unfold client_of, port_of, std.stoi. destruct (std.scan_sign _). by repeat case_match.
Qed.

(** The outside behaves: connecting and receiving return or throw, and the lines
    typed are of a size that can be sent. *)
Definition world_ok (w : client_world) : Prop :=
  no_ub (connected w) ∧ ModbusMessageTransport.rx_ok (assigned w) ∧ Forall event_ok (events w) ∧
  ∀ rx, late w = Some rx → ModbusMessageTransport.rx_ok rx.

Definition client_error (ex : exn) : console := [Cerr (str "Client error: " ++ what ex ++ endl)].

(** C32. How the client ends, signals coming as [client_main_process] says and lines
    being of at most 65495 bytes.  The process is never terminated by an exception:
    while it is not over it runs; when [run] returns it exits with 0 and prints
    nothing to [std::cerr]; an exception of the configuration or of [run] reaches the
    handler of [main], also when the view model has to be destroyed on its way, so
    that the process exits with 1 and one line that names the exception.  There is
    undefined behaviour exactly when an exception leaves [run] and a signal comes
    before the handler has cleared [g_client_vm]. *)
Theorem client_main_exits w : world_ok w →
  ∃ status calls errors, client_main_process w = (status, calls, errors) ∧
    match (load_client_config_async (exe_link w) (argv0 w) (argv1 w) (file w)).2 with
    | Throw ex => status = Exit 1 ∧ errors = client_error ex
    | UB => False
    | Ok c =>
        match (run (log_opened w) (connected w) (assigned w) (events w)
                 (initial c (files w) (sends w) (entropies w) (writes w))).2 with
        | Ok over => status = (if over : bool then Exit 0 else Running) ∧ errors = []
        | Throw ex =>
            if unwinding_signal w then status = Undefined else status = Exit 1 ∧ errors = client_error ex
        | UB => False
        end
    end.
Proof.
  intros (Hconn & Hrx & He & Hlate). unfold client_main_process.
  assert (no_ub (load_client_config_async (exe_link w) (argv0 w) (argv1 w) (file w)).2) as Hub.
  { unfold load_client_config_async. set (path := resolve_config_path _ _ _ _).
    pose proof (client_from_file_no_ub (file w path) path true) as Hp.
    by destruct (client_from_file (file w path) path true). }
  destruct (load_client_config_async _ _ _ _) as [calls [c|ex|]]; cbn [snd] in *;
    [|by eexists _, _, _|by destruct Hub].
  pose proof (run_wp c (files w) (sends w) (entropies w) (writes w) (log_opened w) _ _ _ Hconn Hrx He) as Hrun.
  unfold wp in Hrun. destruct (run _ _ _ _ _) as [s [[]|ex|]]; cbn [snd] in *;
    [|by eexists _, _, _| |done];
    (pose proof (destroy_wp (late w) s (λ _ _, False) Hrun Hlate) as Hd; unfold wp in Hd;
     destruct (destroy (late w) s) as [s' [[]|e|]]; [|done..]);
    [by eexists _, _, _|destruct (unwinding_signal w); by eexists _, _, _].
Qed.

End main.

(** A client that is told to connect, gets no id and fails. *)
Definition demo_client_world : client_world :=
  mkClientWorld None (Some (str "/opt/client")) None (λ _, Some (str "nickname=alice")) ∅ [] [] [] true
    (Ok 3) (Ok None) [] None false.

Section witness.
#[local] Existing Instances cipher.toy.library cipher.toy.library_laws.

Lemma client_main_exits_witness : ∃ calls,
  client_main_process demo_client_world =
    (Exit 1, calls, client_error (runtime_error (str "Failed to receive assigned id"))).
Proof.
  destruct (client_main_exits demo_client_world) as (status & calls & errors & E & H).
  - split; [discriminate|]. split; [split; [exact I|discriminate]|]. split; [constructor|discriminate].
  - exists calls. rewrite E. revert H. vm_compute. intros [-> ->]. reflexivity.
Defined.

End witness.

End client_main.
